(** * DeskPilot: the transactional file-mutation engine

    A shallow embedding of the organizer, the deduper, the rollback
    service and the safe filesystem helpers they share
    ([src/utils/fsSafe.ts], [src/utils/categorize.ts],
    [src/services/organizer.ts], [src/services/deduper.ts], the
    [RollbackService] of [src/services/scanner.ts],
    [src/models/Transaction.ts]).

    Conventions of the model.
    - A path is the list of its components, the root first:
      [/home/u/a.txt] is [["/"; "home"; "u"; "a.txt"]].  The empty list is
      the empty string [''], which the ledger uses for "no destination".
      Paths are absolute and normalised, so [path.join dir name] appends one
      component.
    - The filesystem is a finite map from paths to inodes on one device.
      Operations fail only for the reasons the map can express (a missing
      entry, a file where a directory is needed, ...); permissions, locks and
      a second device are not modelled.
    - The ledger (the MongoDB collection of transactions) is the list of its
      documents in insertion order.
    - [crypto.randomUUID], [crypto.randomBytes] and [Date.now] are oracles
      read through a counter kept in the world, so every run is a function
      of its inputs.
    - A file's content is represented by its SHA-256 digest.
    - Numbers are exact: sizes, counts and timestamps are integers, and the
      one quotient that dedupe forms is a rational; the rounding of
      binary64 arithmetic is not modelled.
    - Mongoose's schema validation is not modelled beyond the unique index
      on [transactionId].
    - Progress callbacks and logging have no effect on any state and are
      left out. *)

From Stdlib Require Import ZArith QArith Qround List String Ascii Lia Permutation.
From stdpp Require Import gmap strings list pretty.

Open Scope string_scope.
Open Scope list_scope.
Open Scope nat_scope.

Abbreviation path := (list string).

(** ** Strings and paths (node's [path] module on normalised paths) *)

Definition lower_ascii (c : ascii) : ascii :=
  let n := nat_of_ascii c in
  if (65 <=? n) && (n <=? 90) then ascii_of_nat (n + 32) else c.

Fixpoint toLowerCase (s : string) : string :=
  match s with
  | EmptyString => EmptyString
  | String c r => String (lower_ascii c) (toLowerCase r)
  end.

(** [startsWith s "."] *)
Definition startsWithDot (s : string) : bool :=
  match s with
  | String c _ => Ascii.eqb c "."
  | EmptyString => false
  end.

(** Index of the last ["."] of [s], counting from [i]. *)
Fixpoint last_dot (s : string) (i : nat) : option nat :=
  match s with
  | EmptyString => None
  | String c r =>
      match last_dot r (S i) with
      | Some j => Some j
      | None => if Ascii.eqb c "." then Some i else None
      end
  end.

(** [path.extname] on a base name: the text from the last dot on, or [""]
    when there is no dot, when the only dot leads the name, or for [".."]. *)
Definition extname_str (b : string) : string :=
  match last_dot b 0 with
  | None => ""
  | Some 0 => ""
  | Some j => if String.eqb b ".." then "" else substring j (String.length b - j) b
  end.

(** [path.basename(p, ext)] on a base name whose extension is [ext]. *)
Definition strip_ext (b ext : string) : string :=
  substring 0 (String.length b - String.length ext) b.

Definition join (dir : path) (name : string) : path := dir ++ [name].

Definition dirname (p : path) : path :=
  match p with
  | [] => []
  | [r] => [r]
  | _ => removelast p
  end.

Definition basename (p : path) : string :=
  match p with
  | [] | [_] => ""
  | _ => List.last p ""
  end.

Definition extname (p : path) : string := extname_str (basename p).

(** ** categorize.ts *)

Inductive FileCategory :=
| Documents | Images | Videos | Audio | Installers | Archives | Code | Others.

Global Instance FileCategory_eq_dec : EqDecision FileCategory.
Proof. solve_decision. Defined.

Definition category_name (c : FileCategory) : string :=
  match c with
  | Documents => "Documents" | Images => "Images" | Videos => "Videos"
  | Audio => "Audio" | Installers => "Installers" | Archives => "Archives"
  | Code => "Code" | Others => "Others"
  end.

Definition EXTENSION_CATEGORIES : list (string * FileCategory) :=
  map (fun e => (e, Documents))
    [".pdf"; ".doc"; ".docx"; ".xls"; ".xlsx"; ".ppt"; ".pptx"; ".txt";
     ".rtf"; ".odt"; ".ods"; ".odp"; ".csv"; ".md"; ".epub"; ".mobi"] ++
  map (fun e => (e, Images))
    [".jpg"; ".jpeg"; ".png"; ".gif"; ".bmp"; ".svg"; ".webp"; ".ico";
     ".tiff"; ".tif"; ".psd"; ".ai"; ".eps"; ".raw"; ".cr2"; ".nef";
     ".heic"; ".heif"] ++
  map (fun e => (e, Videos))
    [".mp4"; ".avi"; ".mkv"; ".mov"; ".wmv"; ".flv"; ".webm"; ".m4v";
     ".mpeg"; ".mpg"; ".3gp"; ".vob"] ++
  map (fun e => (e, Audio))
    [".mp3"; ".wav"; ".flac"; ".aac"; ".ogg"; ".wma"; ".m4a"; ".aiff";
     ".ape"; ".alac"; ".mid"; ".midi"] ++
  map (fun e => (e, Installers))
    [".exe"; ".msi"; ".dmg"; ".pkg"; ".deb"; ".rpm"; ".appimage"; ".snap";
     ".flatpak"; ".apk"; ".ipa"] ++
  map (fun e => (e, Archives))
    [".zip"; ".rar"; ".7z"; ".tar"; ".gz"; ".bz2"; ".xz"; ".iso"; ".img";
     ".cab"; ".arj"; ".lzh"] ++
  map (fun e => (e, Code))
    [".js"; ".ts"; ".jsx"; ".tsx"; ".py"; ".java"; ".c"; ".cpp"; ".cc";
     ".h"; ".hpp"; ".cs"; ".go"; ".rs"; ".rb"; ".php"; ".swift"; ".kt";
     ".scala"; ".r"; ".m"; ".mm"; ".sql"; ".sh"; ".bash"; ".ps1"; ".bat";
     ".cmd"; ".html"; ".htm"; ".css"; ".scss"; ".sass"; ".less"; ".json";
     ".xml"; ".yaml"; ".yml"; ".toml"; ".ini"; ".cfg"; ".conf"; ".vue";
     ".svelte"; ".astro"].

Fixpoint table_get (tbl : list (string * FileCategory)) (k : string)
  : option FileCategory :=
  match tbl with
  | [] => None
  | (k', c) :: r => if String.eqb k' k then Some c else table_get r k
  end.

Definition categorizeFile (filePath : path) : FileCategory :=
  let ext := toLowerCase (extname filePath) in
  match table_get EXTENSION_CATEGORIES ext with
  | Some c => c
  | None => Others
  end.

Definition getAllCategories : list FileCategory :=
  [Documents; Images; Videos; Audio; Installers; Archives; Code; Others].

(** [categories.includes(s)] for a string [s]. *)
Definition categories_include (s : string) : bool :=
  existsb (fun c => String.eqb (category_name c) s) getAllCategories.

(** ** The filesystem *)

Inductive inode :=
| IFile (size : N) (birthtime mtime : N) (digest : string)
| IDir.

Global Instance inode_eq_dec : EqDecision inode.
Proof. solve_decision. Defined.

Abbreviation fsmap := (gmap (list string) inode).

Definition is_file (n : inode) : bool :=
  match n with IFile _ _ _ _ => true | IDir => false end.

Inductive errno :=
| ENOENT | ENOTDIR | EISDIR | EEXIST | ENOTEMPTY | EINVAL | EACCES | EBUSY.

(** [error.message] of a thrown system error. *)
Definition errno_message (e : errno) : string :=
  match e with
  | ENOENT => "ENOENT: no such file or directory"
  | ENOTDIR => "ENOTDIR: not a directory"
  | EISDIR => "EISDIR: illegal operation on a directory"
  | EEXIST => "EEXIST: file already exists"
  | ENOTEMPTY => "ENOTEMPTY: directory not empty"
  | EINVAL => "EINVAL: invalid argument"
  | EACCES => "EACCES: permission denied"
  | EBUSY => "EBUSY: resource busy or locked"
  end.

(** The outcome of a call that may throw. *)
Inductive res (A : Type) :=
| Ok (a : A)
| Throw (e : errno).
Arguments Ok {A} a.
Arguments Throw {A} e.

Definition existsSync (fs : fsmap) (p : path) : bool :=
  match p with
  | [] => false
  | _ => match fs !! p with Some _ => true | None => false end
  end.

Definition statSync (fs : fsmap) (p : path) : res inode :=
  match p with
  | [] => Throw ENOENT
  | _ => match fs !! p with Some n => Ok n | None => Throw ENOENT end
  end.

(** [mkdir -p]: walk down from the root, creating what is missing. *)
Fixpoint mkdirp (fs : fsmap) (done : path) (todo : list string) : res fsmap :=
  match todo with
  | [] => Ok fs
  | s :: rest =>
      let q := done ++ [s] in
      match fs !! q with
      | Some IDir => mkdirp fs q rest
      | Some (IFile _ _ _ _) =>
          Throw (match rest with [] => EEXIST | _ => ENOTDIR end)
      | None => mkdirp (<[q := IDir]> fs) q rest
      end
  end.

(** [fs.mkdirSync(p, { recursive: true })] *)
Definition mkdirSync (fs : fsmap) (p : path) : res fsmap :=
  match p with
  | [] => Throw ENOENT
  | _ => mkdirp fs [] p
  end.

(** [a] is [b] or an ancestor of [b]. *)
Definition is_prefix (a b : path) : bool := bool_decide (take (length a) b = a).

(** Moving the subtree rooted at directory [a] to [b]. *)
Definition move_subtree (fs : fsmap) (a b : path) : fsmap :=
  foldr (fun kv m => <[b ++ drop (length a) kv.1 := kv.2]> m)
        (filter (fun kv => is_prefix a kv.1 = false) fs)
        (List.filter (fun kv => is_prefix a kv.1) (map_to_list fs)).

(** Does directory [d] hold an entry? *)
Definition dir_nonempty (fs : fsmap) (d : path) : bool :=
  existsb (fun kv => is_prefix d kv.1 && negb (bool_decide (kv.1 = d)))
          (map_to_list fs).

(** [fs.renameSync(a, b)] on one device: a file replaces a file of the
    same name; a directory moves with its subtree. *)
Definition renameSync (fs : fsmap) (a b : path) : res fsmap :=
  match a, fs !! a with
  | [], _ | _, None => Throw ENOENT
  | _, Some (IFile _ _ _ _ as n) =>
      match b with
      | [] => Throw ENOENT
      | _ =>
          match fs !! dirname b with
          | None => Throw ENOENT
          | Some (IFile _ _ _ _) => Throw ENOTDIR
          | Some IDir =>
              match fs !! b with
              | Some IDir => Throw EISDIR
              | _ => Ok (<[b := n]> (delete a fs))
              end
          end
      end
  | _, Some IDir =>
      match b with
      | [] => Throw ENOENT
      | _ =>
          if bool_decide (a = b) then Ok fs
          else if is_prefix a b then Throw EINVAL
          else
            match fs !! dirname b with
            | None => Throw ENOENT
            | Some (IFile _ _ _ _) => Throw ENOTDIR
            | Some IDir =>
                match fs !! b with
                | Some (IFile _ _ _ _) => Throw ENOTDIR
                | Some IDir =>
                    if dir_nonempty fs b then Throw ENOTEMPTY
                    else Ok (move_subtree fs a b)
                | None => Ok (move_subtree fs a b)
                end
            end
      end
  end.

(** [fs.copyFileSync(a, b)].  The copy keeps the source's size and digest;
    its timestamps are taken from the source as well. *)
Definition copyFileSync (fs : fsmap) (a b : path) : res fsmap :=
  match a, fs !! a with
  | [], _ | _, None => Throw ENOENT
  | _, Some IDir => Throw EISDIR
  | _, Some (IFile _ _ _ _ as n) =>
      match b with
      | [] => Throw ENOENT
      | _ =>
          match fs !! dirname b with
          | None => Throw ENOENT
          | Some (IFile _ _ _ _) => Throw ENOTDIR
          | Some IDir =>
              match fs !! b with
              | Some IDir => Throw EISDIR
              | _ => Ok (<[b := n]> fs)
              end
          end
      end
  end.

(** [fs.unlinkSync(p)] *)
Definition unlinkSync (fs : fsmap) (p : path) : res fsmap :=
  match p, fs !! p with
  | [], _ | _, None => Throw ENOENT
  | _, Some IDir => Throw EISDIR
  | _, Some (IFile _ _ _ _) => Ok (delete p fs)
  end.

(** A directory entry as [readdirSync(d, { withFileTypes: true })] gives
    it: the name and the inode it stands for. *)
Definition dirents (fs : fsmap) (d : path) : list (string * inode) :=
  omap (fun kv : path * inode =>
          if bool_decide (kv.1 <> [] /\ removelast kv.1 = d)
          then Some (List.last kv.1 "", kv.2) else None)
       (map_to_list fs).

Definition readdirSync (fs : fsmap) (d : path) : res (list (string * inode)) :=
  match d, fs !! d with
  | [], _ | _, None => Throw ENOENT
  | _, Some (IFile _ _ _ _) => Throw ENOTDIR
  | _, Some IDir => Ok (dirents fs d)
  end.

(** ** fsSafe.ts *)

Record FileInfo := {
  fi_path : path;
  fi_name : string;
  fi_size : N;
  fi_createdAt : N;
  fi_modifiedAt : N;
  fi_isFile : bool;
  fi_isDirectory : bool
}.

Record MoveResult := {
  mr_success : bool;
  mr_from : path;
  mr_to : path;
  mr_error : option string
}.

Record DeleteResult := {
  dr_success : bool;
  dr_path : path;
  dr_movedToTrash : bool;
  dr_trashPath : option path;
  dr_error : option string
}.

Definition fileExists (fs : fsmap) (filePath : path) : bool :=
  existsSync fs filePath.

Definition directoryExists (fs : fsmap) (dirPath : path) : bool :=
  existsSync fs dirPath &&
  match statSync fs dirPath with
  | Ok IDir => true
  | _ => false
  end.

Definition getFileInfo (fs : fsmap) (filePath : path) : option FileInfo :=
  match statSync fs filePath with
  | Ok (IFile sz bt mt _) =>
      Some {| fi_path := filePath; fi_name := basename filePath;
              fi_size := sz; fi_createdAt := bt; fi_modifiedAt := mt;
              fi_isFile := true; fi_isDirectory := false |}
  | Ok IDir =>
      Some {| fi_path := filePath; fi_name := basename filePath;
              fi_size := 0%N; fi_createdAt := 0%N; fi_modifiedAt := 0%N;
              fi_isFile := false; fi_isDirectory := true |}
  | Throw _ => None
  end.

Definition ensureDirectory (fs : fsmap) (dirPath : path) : bool * fsmap :=
  if negb (existsSync fs dirPath) then
    match mkdirSync fs dirPath with
    | Ok fs' => (true, fs')
    | Throw _ => (false, fs)
    end
  else (true, fs).

(** [path.join(dir, `${baseName}_${counter}${ext}`)] *)
Definition candidate (targetPath : path) (counter : nat) : path :=
  let dir := dirname targetPath in
  let ext := extname targetPath in
  let baseName := strip_ext (basename targetPath) ext in
  join dir (baseName +:+ "_" +:+ pretty counter +:+ ext).

(** The [do ... while (fs.existsSync(newPath) && counter < 1000)] loop,
    entered with [counter]; [fuel] bounds the iterations left. *)
Fixpoint uniqueLoop (fuel : nat) (fs : fsmap) (targetPath : path)
    (counter : nat) : path :=
  let newPath := candidate targetPath counter in
  let counter' := S counter in
  match fuel with
  | 0 => newPath
  | S fuel' =>
      if existsSync fs newPath && (counter' <? 1000)
      then uniqueLoop fuel' fs targetPath counter'
      else newPath
  end.

Definition getUniqueFilename (fs : fsmap) (targetPath : path) : path :=
  if negb (existsSync fs targetPath) then targetPath
  else uniqueLoop 1000 fs targetPath 1.

(** The message the [catch] of [safeMove] derives from the error code. *)
Definition moveErrorMsg (e : errno) : string :=
  match e with
  | EACCES => "Permission denied"
  | EBUSY => "File is locked/busy"
  | ENOENT => "File not found"
  | _ => errno_message e
  end.

Definition safeMove (fs : fsmap) (from to : path) (handleCollision : bool)
  : MoveResult * fsmap :=
  let failure msg :=
    {| mr_success := false; mr_from := from; mr_to := to;
       mr_error := Some msg |} in
  let success finalTo :=
    {| mr_success := true; mr_from := from; mr_to := finalTo;
       mr_error := None |} in
  if negb (existsSync fs from) then
    (failure "Source file does not exist", fs)
  else
    let targetDir := dirname to in
    let '(okDir, fs1) := ensureDirectory fs targetDir in
    if negb okDir then (failure "Failed to create target directory", fs1)
    else
      let finalTo :=
        if handleCollision && existsSync fs1 to
        then getUniqueFilename fs1 to else to in
      match renameSync fs1 from finalTo with
      | Ok fs2 => (success finalTo, fs2)
      | Throw _ =>
          match copyFileSync fs1 from finalTo with
          | Throw e => (failure (moveErrorMsg e), fs1)
          | Ok fs2 =>
              match unlinkSync fs2 from with
              | Ok fs3 => (success finalTo, fs3)
              | Throw e => (failure (moveErrorMsg e), fs2)
              end
          end
      end.

(** The message the [catch] of [safeDelete] derives from the error code. *)
Definition deleteErrorMsg (e : errno) : string :=
  match e with
  | EACCES => "Permission denied"
  | EBUSY => "File is locked/busy"
  | _ => errno_message e
  end.

(** [safeDelete]; the trash directory is [env.trashPath], and [Date.now()]
    is read only on the branch that moves to the trash. *)
Definition safeDelete (trashDir : path) (clock : nat -> N) (tick : nat)
    (fs : fsmap) (filePath : path) (moveToTrash : bool)
  : DeleteResult * fsmap * nat :=
  let failure msg :=
    {| dr_success := false; dr_path := filePath; dr_movedToTrash := false;
       dr_trashPath := None; dr_error := Some msg |} in
  if negb (existsSync fs filePath) then
    (failure "File does not exist", fs, tick)
  else if moveToTrash then
    let '(_, fs1) := ensureDirectory fs trashDir in
    let fileName := basename filePath in
    let timestamp := clock tick in
    let trashFilePath := join trashDir (pretty timestamp +:+ "_" +:+ fileName) in
    let '(moveResult, fs2) := safeMove fs1 filePath trashFilePath true in
    if mr_success moveResult then
      ({| dr_success := true; dr_path := filePath; dr_movedToTrash := true;
          dr_trashPath := Some (mr_to moveResult); dr_error := None |},
       fs2, S tick)
    else
      ({| dr_success := false; dr_path := filePath; dr_movedToTrash := false;
          dr_trashPath := None; dr_error := mr_error moveResult |},
       fs2, S tick)
  else
    match unlinkSync fs filePath with
    | Ok fs1 =>
        ({| dr_success := true; dr_path := filePath; dr_movedToTrash := false;
            dr_trashPath := None; dr_error := None |}, fs1, tick)
    | Throw e => (failure (deleteErrorMsg e), fs, tick)
    end.

Definition restoreFromTrash (fs : fsmap) (trashFilePath originalPath : path)
  : MoveResult * fsmap :=
  safeMove fs trashFilePath originalPath true.

(** The directories [getAllFiles] does not descend into. *)
Definition skipped_dir (name : string) : bool :=
  startsWithDot name || String.eqb name "node_modules"
  || String.eqb name ".deskpilot-trash".

(** [getAllFiles]; [fuel] bounds the depth of the recursion.  A directory
    that cannot be read contributes no file. *)
Fixpoint walk (fuel : nat) (fs : fsmap) (dirPath : path) (recursive : bool)
    (filter : path -> bool) : list path :=
  match fuel with
  | 0 => []
  | S fuel' =>
      match readdirSync fs dirPath with
      | Throw _ => []
      | Ok entries =>
          flat_map
            (fun entry : string * inode =>
               let fullPath := join dirPath entry.1 in
               if is_file entry.2 then
                 if filter fullPath then [fullPath] else []
               else if recursive then
                 if negb (skipped_dir entry.1)
                 then walk fuel' fs fullPath recursive filter
                 else []
               else [])
            entries
      end
  end.

(** No path of the filesystem is longer than this, so it bounds the depth
    of any recursion of [walk]. *)
Definition depth_bound (fs : fsmap) : nat :=
  S (foldr Nat.max 0 (map (fun kv : path * inode => length kv.1) (map_to_list fs))).

Definition getAllFiles (fs : fsmap) (dirPath : path) (recursive : bool)
    (filter : path -> bool) : list path :=
  walk (depth_bound fs) fs dirPath recursive filter.

(** ** Transaction.ts: the ledger's documents *)

Inductive ActionType := move_a | delete_a | restore_a.
Inductive ActionStatus := a_pending | a_completed | a_failed | a_rolled_back.
Inductive TransactionType := organize_t | dedupe_t | rollback_t.
Inductive TransactionStatus :=
| pending | completed | partially_completed | failed | rolled_back.

Global Instance ActionType_eq_dec : EqDecision ActionType.
Proof. solve_decision. Defined.
Global Instance ActionStatus_eq_dec : EqDecision ActionStatus.
Proof. solve_decision. Defined.
Global Instance TransactionType_eq_dec : EqDecision TransactionType.
Proof. solve_decision. Defined.
Global Instance TransactionStatus_eq_dec : EqDecision TransactionStatus.
Proof. solve_decision. Defined.

Record ITransactionAction := {
  actionId : string;
  type : ActionType;
  from : path;
  to : path;
  status : ActionStatus;
  error : option string;
  fileHash : option string;
  fileSize : option N
}.

Record ITransactionSummary := {
  movedCount : nat;
  deletedCount : nat;
  restoredCount : nat;
  failedCount : nat;
  savedBytes : Z;
  totalProcessed : nat
}.

Record ITransaction := {
  transactionId : string;
  t_type : TransactionType;
  t_status : TransactionStatus;
  actions : list ITransactionAction;
  summary : ITransactionSummary;
  targetPath : path;
  dryRun : bool;
  strategy : option string;
  createdAt : N;
  completedAt : option N;
  rolledBackAt : option N;
  rollbackTransactionId : option string
}.

Definition set_status (s : ActionStatus) (a : ITransactionAction) :=
  {| actionId := actionId a; type := type a; from := from a; to := to a;
     status := s; error := error a; fileHash := fileHash a;
     fileSize := fileSize a |}.

Definition set_to (p : path) (a : ITransactionAction) :=
  {| actionId := actionId a; type := type a; from := from a; to := p;
     status := status a; error := error a; fileHash := fileHash a;
     fileSize := fileSize a |}.

Definition set_error (e : option string) (a : ITransactionAction) :=
  {| actionId := actionId a; type := type a; from := from a; to := to a;
     status := status a; error := e; fileHash := fileHash a;
     fileSize := fileSize a |}.

(** ** The world the services run in *)

Record Config := {
  trashPath : path;                (* env.trashPath *)
  randomUUID : nat -> string;      (* crypto.randomUUID() *)
  randomBytesHex : nat -> string;  (* crypto.randomBytes(4).toString('hex') *)
  now : nat -> N                   (* Date.now() / new Date() *)
}.

Record World := {
  w_fs : fsmap;
  w_db : list ITransaction;
  w_tick : nat
}.

(** What a service call throws. *)
Inductive ServiceError :=
| DirectoryNotFound (dirPath : path)            (* Directory does not exist *)
| TransactionNotFound (id : string)             (* Transaction not found *)
| AlreadyRolledBack (id : string)     (* Transaction has already been rolled back *)
| CannotRollbackDryRun (id : string)   (* Cannot rollback a dry-run transaction *)
| DuplicateKey (id : string).         (* the unique index on transactionId *)

Definition generateId (cfg : Config) (tick : nat) : string * nat :=
  (randomUUID cfg tick, S tick).

Definition generateShortId (cfg : Config) (tick : nat) : string * nat :=
  (randomBytesHex cfg tick, S tick).

Definition Date_now (cfg : Config) (tick : nat) : N * nat :=
  (now cfg tick, S tick).

Definition has_id (id : string) (t : ITransaction) : bool :=
  String.eqb (transactionId t) id.

(** [Transaction.findOne({ transactionId })]: the first matching document
    and its position in the collection. *)
Fixpoint findOne_from (i : nat) (db : list ITransaction) (id : string)
  : option (nat * ITransaction) :=
  match db with
  | [] => None
  | t :: r => if has_id id t then Some (i, t) else findOne_from (S i) r id
  end.

Definition findOne (db : list ITransaction) (id : string)
  : option (nat * ITransaction) := findOne_from 0 db id.

Definition set_createdAt (c : N) (t : ITransaction) : ITransaction :=
  {| transactionId := transactionId t; t_type := t_type t;
     t_status := t_status t; actions := actions t; summary := summary t;
     targetPath := targetPath t; dryRun := dryRun t; strategy := strategy t;
     createdAt := c; completedAt := completedAt t;
     rolledBackAt := rolledBackAt t;
     rollbackTransactionId := rollbackTransactionId t |}.

(** [save()] of a new document: the unique index refuses a second document
    with the same [transactionId]; [timestamps: true] stamps [createdAt]. *)
Definition save_new (stamp : N) (t : ITransaction) (db : list ITransaction)
  : option (list ITransaction) :=
  if existsb (has_id (transactionId t)) db then None
  else Some (db ++ [set_createdAt stamp t]).

(** [Array.prototype.sort(cmp)]: a stable sort; [cmp a b < 0] puts [a]
    first. *)
Fixpoint insert_by {A : Type} (cmp : A -> A -> Z) (x : A) (l : list A)
  : list A :=
  match l with
  | [] => [x]
  | y :: r => if (cmp x y <=? 0)%Z then x :: l else y :: insert_by cmp x r
  end.

Definition Array_sort {A : Type} (cmp : A -> A -> Z) (l : list A) : list A :=
  foldr (insert_by cmp) [] l.

(** [Math.round]: the nearest integer, a half rounding up. *)
Definition Math_round (x : Q) : Z := Qfloor (x + (1 # 2))%Q.

(** ** organizer.ts *)

Record OrganizePlan := {
  op_from : path;
  op_to : path;
  op_category : FileCategory;
  op_fileName : string;
  op_size : N
}.

Record OrganizeSummary := {
  os_totalFiles : nat;
  os_movedCount : nat;
  os_failedCount : nat;
  os_byCategory : gmap string nat
}.

Record OrganizeResult := {
  or_transactionId : string;
  or_targetPath : path;
  or_dryRun : bool;
  or_plan : list OrganizePlan;
  or_summary : OrganizeSummary
}.

(** The filter of [getOrganizableFiles]: the parent directory's name is
    not a category. *)
Definition not_in_category_folder (filePath : path) : bool :=
  let parentDir := basename (dirname filePath) in
  negb (categories_include parentDir).

Definition getOrganizableFiles (fs : fsmap) (dirPath : path) (recursive : bool)
  : list path :=
  let entries := getAllFiles fs dirPath recursive not_in_category_folder in
  if negb recursive
  then List.filter (fun f => bool_decide (dirname f = dirPath)) entries
  else entries.

(** The state of the planning loop: the plan, the actions, the
    per-category counts and the oracle counter. *)
Definition PlanState : Type :=
  list OrganizePlan * list ITransactionAction * gmap string nat * nat.

(** What the body of the planning loop plans for one path: nothing when
    the path is skipped, else the move. *)
Definition planItem (fs : fsmap) (dirPath : path) (filePath : path)
  : option OrganizePlan :=
  match getFileInfo fs filePath with
  | None => None
  | Some fileInfo =>
      if negb (fi_isFile fileInfo) then None
      else
        let category := categorizeFile filePath in
        let targetDir := join dirPath (category_name category) in
        let targetPath := join targetDir (fi_name fileInfo) in
        if bool_decide (dirname filePath = targetDir) then None
        else
          Some {| op_from := filePath; op_to := targetPath;
                  op_category := category;
                  op_fileName := fi_name fileInfo;
                  op_size := fi_size fileInfo |}
  end.

(** One iteration of the planning loop of [organize]. *)
Definition planStep (cfg : Config) (fs : fsmap) (dirPath : path)
    (st : PlanState) (filePath : path) : PlanState :=
  let '(plan, acts, byCategory, tick) := st in
  match planItem fs dirPath filePath with
  | None => st
  | Some item =>
      let '(aid, tick') := generateShortId cfg tick in
      (plan ++ [item],
       acts ++ [{| actionId := aid; type := move_a; from := op_from item;
                   to := op_to item; status := a_pending; error := None;
                   fileHash := None; fileSize := Some (op_size item) |}],
       <[category_name (op_category item) :=
           default 0 (byCategory !! category_name (op_category item)) + 1]>
         byCategory,
       tick')
  end.

Definition buildPlan (cfg : Config) (fs : fsmap) (dirPath : path)
    (filePaths : list path) (tick : nat) : PlanState :=
  foldl (planStep cfg fs dirPath) ([], [], ∅, tick) filePaths.

(** The loop that creates the category folders. *)
Definition createCategoryFolders (fs : fsmap) (dirPath : path) : fsmap :=
  foldl (fun fs c => (ensureDirectory fs (join dirPath (category_name c))).2)
        fs getAllCategories.

(** The loop that executes the moves: [plan] is what is left of the plan,
    [i] the index of its first item. *)
Fixpoint executeMoves (fs : fsmap) (plan : list OrganizePlan) (i : nat)
    (acts : list ITransactionAction) (moved failedN : nat)
  : fsmap * list ITransactionAction * nat * nat :=
  match plan with
  | [] => (fs, acts, moved, failedN)
  | item :: rest =>
      let '(result, fs') := safeMove fs (op_from item) (op_to item) true in
      if mr_success result then
        executeMoves fs' rest (S i)
          (alter (fun a => set_to (mr_to result) (set_status a_completed a)) i acts)
          (S moved) failedN
      else
        executeMoves fs' rest (S i)
          (alter (fun a => set_error (mr_error result) (set_status a_failed a)) i acts)
          moved (S failedN)
  end.

Definition organize (cfg : Config) (w : World) (dirPath : path)
    (dryRunOpt recursive : bool) : (ServiceError + OrganizeResult) * World :=
  if negb (directoryExists (w_fs w) dirPath) then
    (inl (DirectoryNotFound dirPath), w)
  else
    let '(txId, tick1) := generateId cfg (w_tick w) in
    let filePaths := getOrganizableFiles (w_fs w) dirPath recursive in
    let '(plan, acts, byCategory, tick2) :=
      buildPlan cfg (w_fs w) dirPath filePaths tick1 in
    let '(fs', acts', moved, failedN) :=
      if negb dryRunOpt && (0 <? length plan) then
        executeMoves (createCategoryFolders (w_fs w) dirPath) plan 0 acts 0 0
      else (w_fs w, acts, 0, 0) in
    let '(completedStamp, tick3) :=
      if dryRunOpt then (None, tick2)
      else let '(d, t) := Date_now cfg tick2 in (Some d, t) in
    let '(createdStamp, tick4) := Date_now cfg tick3 in
    let transaction :=
      {| transactionId := txId; t_type := organize_t;
         t_status := if dryRunOpt then pending
                     else if failedN =? 0 then completed
                     else partially_completed;
         actions := acts';
         summary := {| movedCount := moved; deletedCount := 0;
                       restoredCount := 0; failedCount := failedN;
                       savedBytes := 0; totalProcessed := length plan |};
         targetPath := dirPath; dryRun := dryRunOpt; strategy := None;
         createdAt := createdStamp; completedAt := completedStamp;
         rolledBackAt := None; rollbackTransactionId := None |} in
    match save_new createdStamp transaction (w_db w) with
    | None =>
        (inl (DuplicateKey txId),
         {| w_fs := fs'; w_db := w_db w; w_tick := tick4 |})
    | Some db' =>
        (inr {| or_transactionId := txId; or_targetPath := dirPath;
                or_dryRun := dryRunOpt; or_plan := plan;
                or_summary := {| os_totalFiles := length plan;
                                 os_movedCount := moved;
                                 os_failedCount := failedN;
                                 os_byCategory := byCategory |} |},
         {| w_fs := fs'; w_db := db'; w_tick := tick4 |})
    end.

(** ** deduper.ts *)

Inductive DedupeStrategy := keep_latest | keep_oldest | keep_largest.

Definition strategy_name (s : DedupeStrategy) : string :=
  match s with
  | keep_latest => "keep-latest"
  | keep_oldest => "keep-oldest"
  | keep_largest => "keep-largest"
  end.

(** An entry of the hash map: one hashed file. *)
Record DupFile := {
  df_path : path;
  df_size : N;
  df_createdAt : N;
  df_modifiedAt : N
}.

Record DuplicateInfo := {
  di_hash : string;
  di_files : list (DupFile * bool);     (* the file and its [isKept] flag *)
  di_wastedSize : N
}.

Record DedupeSummary := {
  ds_totalDuplicateGroups : nat;
  ds_totalDuplicateFiles : nat;
  ds_deletedCount : nat;
  ds_failedCount : nat;
  ds_savedBytes : Z
}.

Record DedupeResult := {
  dd_transactionId : string;
  dd_targetPath : path;
  dd_dryRun : bool;
  dd_strategy : DedupeStrategy;
  dd_duplicates : list DuplicateInfo;
  dd_summary : DedupeSummary
}.

(** [calculateFileHash]: the digest of a regular file; reading anything
    else rejects. *)
Definition calculateFileHash (fs : fsmap) (filePath : path) : option string :=
  match statSync fs filePath with
  | Ok (IFile _ _ _ d) => Some d
  | _ => None
  end.

(** The [Map] from hash to files, in insertion order of the hashes. *)
Definition HashMap : Type := list (string * list DupFile).

(** [if (!hashMap.has(hash)) hashMap.set(hash, []); hashMap.get(hash).push(f)] *)
Fixpoint hashMap_push (m : HashMap) (hash : string) (f : DupFile) : HashMap :=
  match m with
  | [] => [(hash, [f])]
  | (h, fs) :: r =>
      if String.eqb h hash then (h, fs ++ [f]) :: r
      else (h, fs) :: hashMap_push r hash f
  end.

(** What the body of the hashing loop computes for one path: nothing when
    the path is skipped, else the hash and the entry pushed. *)
Definition hashedFile (fs : fsmap) (filePath : path)
  : option (string * DupFile) :=
  match getFileInfo fs filePath with
  | None => None
  | Some fileInfo =>
      if negb (fi_isFile fileInfo) then None
      else
        match calculateFileHash fs filePath with
        | None => None
        | Some hash =>
            Some (hash,
                  {| df_path := filePath; df_size := fi_size fileInfo;
                     df_createdAt := fi_createdAt fileInfo;
                     df_modifiedAt := fi_modifiedAt fileInfo |})
        end
  end.

(** One iteration of the hashing loop. *)
Definition hashStep (fs : fsmap) (m : HashMap) (filePath : path) : HashMap :=
  match hashedFile fs filePath with
  | None => m
  | Some (hash, f) => hashMap_push m hash f
  end.

Definition buildHashMap (fs : fsmap) (filePaths : list path) : HashMap :=
  foldl (hashStep fs) [] filePaths.

Definition sortByStrategy (files : list DupFile) (s : DedupeStrategy)
  : list DupFile :=
  match s with
  | keep_latest =>
      Array_sort (fun a b => Z.of_N (df_modifiedAt b) - Z.of_N (df_modifiedAt a))%Z files
  | keep_oldest =>
      Array_sort (fun a b => Z.of_N (df_createdAt a) - Z.of_N (df_createdAt b))%Z files
  | keep_largest =>
      Array_sort (fun a b => Z.of_N (df_size b) - Z.of_N (df_size a))%Z files
  end.

(** [toRemove.reduce((sum, f) => sum + f.size, 0)] *)
Definition sum_sizes (l : list DupFile) : N :=
  foldl (fun sum f => (sum + df_size f)%N) 0%N l.

(** The delete actions planned for the files to remove of one group. *)
Fixpoint removalActions (cfg : Config) (moveToTrash : bool) (hash : string)
    (toRemove : list DupFile) (tick : nat) : list ITransactionAction * nat :=
  match toRemove with
  | [] => ([], tick)
  | file :: rest =>
      let '(aid, tick') := generateShortId cfg tick in
      let a :=
        {| actionId := aid; type := delete_a; from := df_path file;
           to := if moveToTrash
                 then join (trashPath cfg) (basename (df_path file)) else [];
           status := a_pending; error := None; fileHash := Some hash;
           fileSize := Some (df_size file) |} in
      let '(acts, tick'') := removalActions cfg moveToTrash hash rest tick' in
      (a :: acts, tick'')
  end.

(** The state of the loop over the groups: the duplicate infos, the
    actions, [totalDuplicateFiles], [savedBytes] and the oracle counter. *)
Definition GroupState : Type :=
  list DuplicateInfo * list ITransactionAction * nat * N * nat.

(** The [DuplicateInfo] of one group: the sorted members, the first one
    flagged as kept, and the bytes the others take. *)
Definition duplicateInfoOf (s : DedupeStrategy) (hash : string)
    (files : list DupFile) : DuplicateInfo :=
  let sorted := sortByStrategy files s in
  let toRemove := tail sorted in
  {| di_hash := hash;
     di_files := imap (fun idx f => (f, idx =? 0)) sorted;
     di_wastedSize := sum_sizes toRemove |}.

(** One iteration of the loop over [hashMap.entries()]. *)
Definition groupStep (cfg : Config) (s : DedupeStrategy) (moveToTrash : bool)
    (st : GroupState) (entry : string * list DupFile) : GroupState :=
  let '(duplicates, acts, totalDuplicateFiles, saved, tick) := st in
  let '(hash, files) := entry in
  if length files <=? 1 then st
  else
    let sorted := sortByStrategy files s in
    let toRemove := tail sorted in
    let duplicateInfo := duplicateInfoOf s hash files in
    let '(newActs, tick') := removalActions cfg moveToTrash hash toRemove tick in
    (duplicates ++ [duplicateInfo], acts ++ newActs,
     totalDuplicateFiles + length toRemove,
     (saved + di_wastedSize duplicateInfo)%N, tick').

Definition planDedupe (cfg : Config) (s : DedupeStrategy) (moveToTrash : bool)
    (m : HashMap) (tick : nat) : GroupState :=
  foldl (groupStep cfg s moveToTrash) ([], [], 0, 0%N, tick) m.

(** The loop that executes the deletes; entry [i] of [actions] is read and
    then updated in place, so the loop is a map that threads the
    filesystem, the oracle counter and the two counts. *)
Fixpoint executeDeletes (cfg : Config) (moveToTrash : bool) (fs : fsmap)
    (tick : nat) (acts : list ITransactionAction) (deleted failedN : nat)
  : fsmap * nat * list ITransactionAction * nat * nat :=
  match acts with
  | [] => (fs, tick, [], deleted, failedN)
  | action :: rest =>
      let '(result, fs', tick') :=
        safeDelete (trashPath cfg) (now cfg) tick fs (from action) moveToTrash in
      let action' :=
        if dr_success result then
          match dr_trashPath result with
          | Some tp => set_to tp (set_status a_completed action)
          | None => set_status a_completed action
          end
        else set_error (dr_error result) (set_status a_failed action) in
      let '(fs'', tick'', rest', deleted', failed') :=
        executeDeletes cfg moveToTrash fs' tick' rest
          (if dr_success result then S deleted else deleted)
          (if dr_success result then failedN else S failedN) in
      (fs'', tick'', action' :: rest', deleted', failed')
  end.

(** The first half of [dedupe]: list, hash, group and plan. *)
Definition dedupePlan (cfg : Config) (w : World) (dirPath : path)
    (s : DedupeStrategy) (moveToTrash : bool) : GroupState :=
  let '(_, tick1) := generateId cfg (w_tick w) in
  let filePaths := getAllFiles (w_fs w) dirPath true (fun _ => true) in
  let hashMap := buildHashMap (w_fs w) filePaths in
  planDedupe cfg s moveToTrash hashMap tick1.

(** The [if (!dryRun && actions.length > 0)] block of [dedupe]. *)
Definition dedupeExecute (cfg : Config) (fs : fsmap) (dryRunOpt : bool)
    (moveToTrash : bool) (acts : list ITransactionAction) (tick : nat)
  : fsmap * nat * list ITransactionAction * nat * nat :=
  if negb dryRunOpt && (0 <? length acts) then
    let fs0 := if moveToTrash
               then (ensureDirectory fs (trashPath cfg)).2
               else fs in
    executeDeletes cfg moveToTrash fs0 tick acts 0 0
  else (fs, tick, acts, 0, 0).

(** [actualSavedBytes]: the planned total scaled by the share of the
    delete actions that succeeded. *)
Definition actualSavedBytes (dryRunOpt : bool) (saved : N) (deleted : nat)
    (nActions : nat) : Q :=
  if dryRunOpt then 0%Q
  else (inject_Z (Z.of_N saved) *
        (inject_Z (Z.of_nat deleted) /
         inject_Z (Z.of_nat (if nActions =? 0 then 1 else nActions))))%Q.

(** The document [dedupe] saves. *)
Definition dedupeDocument (txId : string) (dirPath : path) (dryRunOpt : bool)
    (s : DedupeStrategy) (acts : list ITransactionAction)
    (deleted failedN : nat) (saved : N) (completedStamp : option N)
    (createdStamp : N) : ITransaction :=
  {| transactionId := txId; t_type := dedupe_t;
     t_status := if dryRunOpt then pending
                 else if failedN =? 0 then completed
                 else partially_completed;
     actions := acts;
     summary := {| movedCount := 0; deletedCount := deleted;
                   restoredCount := 0; failedCount := failedN;
                   savedBytes :=
                     Math_round (actualSavedBytes dryRunOpt saved deleted
                                                  (length acts));
                   totalProcessed := length acts |};
     targetPath := dirPath; dryRun := dryRunOpt;
     strategy := Some (strategy_name s);
     createdAt := createdStamp; completedAt := completedStamp;
     rolledBackAt := None; rollbackTransactionId := None |}.

Definition dedupe (cfg : Config) (w : World) (dirPath : path)
    (dryRunOpt : bool) (s : DedupeStrategy) (moveToTrash : bool)
  : (ServiceError + DedupeResult) * World :=
  if negb (directoryExists (w_fs w) dirPath) then
    (inl (DirectoryNotFound dirPath), w)
  else
    let '(txId, _) := generateId cfg (w_tick w) in
    let '(duplicates, acts, totalDuplicateFiles, saved, tick2) :=
      dedupePlan cfg w dirPath s moveToTrash in
    let '(fs', tick3, acts', deleted, failedN) :=
      dedupeExecute cfg (w_fs w) dryRunOpt moveToTrash acts tick2 in
    let '(completedStamp, tick4) :=
      if dryRunOpt then (None, tick3)
      else let '(d, t) := Date_now cfg tick3 in (Some d, t) in
    let '(createdStamp, tick5) := Date_now cfg tick4 in
    let transaction :=
      dedupeDocument txId dirPath dryRunOpt s acts' deleted failedN saved
                     completedStamp createdStamp in
    match save_new createdStamp transaction (w_db w) with
    | None =>
        (inl (DuplicateKey txId),
         {| w_fs := fs'; w_db := w_db w; w_tick := tick5 |})
    | Some db' =>
        (inr {| dd_transactionId := txId; dd_targetPath := dirPath;
                dd_dryRun := dryRunOpt; dd_strategy := s;
                dd_duplicates := duplicates;
                dd_summary :=
                  {| ds_totalDuplicateGroups := length duplicates;
                     ds_totalDuplicateFiles := totalDuplicateFiles;
                     ds_deletedCount := deleted;
                     ds_failedCount := failedN;
                     ds_savedBytes :=
                       if dryRunOpt then Z.of_N saved
                       else Math_round (actualSavedBytes dryRunOpt saved
                                          deleted (length acts')) |} |},
         {| w_fs := fs'; w_db := db'; w_tick := tick5 |})
    end.

(** ** The rollback service *)

Inductive RollbackStatus := restored | rb_failed | skipped.

Global Instance RollbackStatus_eq_dec : EqDecision RollbackStatus.
Proof. solve_decision. Defined.

Record RollbackDetail := {
  rd_from : path;
  rd_to : path;
  rd_status : RollbackStatus;
  rd_error : option string
}.

Record RollbackSummary := {
  rs_totalActions : nat;
  rs_restoredCount : nat;
  rs_failedCount : nat;
  rs_skippedCount : nat
}.

Record RollbackResult := {
  rr_transactionId : string;
  rr_rollbackTransactionId : string;
  rr_originalType : TransactionType;
  rr_summary : RollbackSummary;
  rr_details : list RollbackDetail
}.

(** [action.to || action.from] *)
Definition to_or_from (a : ITransactionAction) : path :=
  match to a with
  | [] => from a
  | _ => to a
  end.

Definition rollbackMove (fs : fsmap) (action : ITransactionAction)
  : (RollbackStatus * option string) * fsmap :=
  if negb (fileExists fs (to action)) then
    ((skipped, Some "File no longer exists at moved location"), fs)
  else if fileExists fs (from action) then
    ((skipped, Some "Original location is no longer available (file exists)"), fs)
  else
    let originalDir := dirname (from action) in
    let '(_, fs1) := ensureDirectory fs originalDir in
    let '(result, fs2) := safeMove fs1 (to action) (from action) false in
    if mr_success result then ((restored, None), fs2)
    else ((rb_failed, mr_error result), fs2).

Definition rollbackDelete (fs : fsmap) (action : ITransactionAction)
  : (RollbackStatus * option string) * fsmap :=
  if match to action with [] => false | _ => true end
     && fileExists fs (to action) then
    let originalDir := dirname (from action) in
    let '(_, fs1) := ensureDirectory fs originalDir in
    let '(result, fs2) := safeMove fs1 (to action) (from action) true in
    if mr_success result then ((restored, None), fs2)
    else ((rb_failed, mr_error result), fs2)
  else
    ((skipped, Some "File was permanently deleted or trash file not found"), fs).

(** The state of the rollback loop. *)
Record RollbackLoop := {
  rl_fs : fsmap;
  rl_tick : nat;
  rl_rollbackActions : list ITransactionAction;
  rl_details : list RollbackDetail;
  rl_restored : nat;
  rl_failed : nat;
  rl_skipped : nat
}.

(** The [switch (action.type)] of the loop body. *)
Definition rollbackAction (fs : fsmap) (action : ITransactionAction)
  : (RollbackStatus * option string) * fsmap :=
  match type action with
  | move_a => rollbackMove fs action
  | delete_a => rollbackDelete fs action
  | restore_a => ((skipped, Some "Unknown action type: restore"), fs)
  end.

(** One iteration of the loop over [reversedActions].  Neither
    [rollbackMove] nor [rollbackDelete] throws, so the [catch] of the
    loop body is never entered. *)
Definition rollbackStep (cfg : Config) (st : RollbackLoop)
    (action : ITransactionAction) : RollbackLoop :=
  let '((rstatus, rerror), fs') := rollbackAction (rl_fs st) action in
  let '(aid, tick') := generateShortId cfg (rl_tick st) in
  {| rl_fs := fs'; rl_tick := tick';
     rl_details := rl_details st ++
       [{| rd_from := to_or_from action; rd_to := from action;
           rd_status := rstatus; rd_error := rerror |}];
     rl_rollbackActions := rl_rollbackActions st ++
       [{| actionId := aid; type := restore_a; from := to_or_from action;
           to := from action;
           status := match rstatus with
                     | restored => a_completed
                     | rb_failed => a_failed
                     | skipped => a_completed
                     end;
           error := rerror; fileHash := fileHash action;
           fileSize := fileSize action |}];
     rl_restored := match rstatus with restored => S (rl_restored st) | _ => rl_restored st end;
     rl_failed := match rstatus with rb_failed => S (rl_failed st) | _ => rl_failed st end;
     rl_skipped := match rstatus with skipped => S (rl_skipped st) | _ => rl_skipped st end |}.

(** [originalTransaction.actions.filter(a => a.status === 'completed')],
    reversed. *)
Definition reversedActions (t : ITransaction) : list ITransactionAction :=
  rev (List.filter (fun a => bool_decide (status a = a_completed)) (actions t)).

(** The update of the original transaction that ends [rollback]. *)
Definition mark_rolled_back (stamp : N) (rollbackId : string)
    (t : ITransaction) : ITransaction :=
  {| transactionId := transactionId t; t_type := t_type t;
     t_status := rolled_back; actions := actions t; summary := summary t;
     targetPath := targetPath t; dryRun := dryRun t; strategy := strategy t;
     createdAt := createdAt t; completedAt := completedAt t;
     rolledBackAt := Some stamp;
     rollbackTransactionId := Some rollbackId |}.

(** The loop of [rollback] over the actions [todo], from its initial
    counters. *)
Definition rollbackLoop (cfg : Config) (fs : fsmap) (tick : nat)
    (todo : list ITransactionAction) : RollbackLoop :=
  foldl (rollbackStep cfg)
        {| rl_fs := fs; rl_tick := tick;
           rl_rollbackActions := []; rl_details := [];
           rl_restored := 0; rl_failed := 0; rl_skipped := 0 |}
        todo.

(** The document [rollback] saves for the run [st] over [todo]. *)
Definition rollbackDocument (rollbackId : string) (original : ITransaction)
    (todo : list ITransactionAction) (st : RollbackLoop)
    (completedStamp createdStamp : N) : ITransaction :=
  {| transactionId := rollbackId; t_type := rollback_t;
     t_status := if rl_failed st =? 0 then completed
                 else partially_completed;
     actions := rl_rollbackActions st;
     summary := {| movedCount := 0; deletedCount := 0;
                   restoredCount := rl_restored st;
                   failedCount := rl_failed st; savedBytes := 0;
                   totalProcessed := length todo |};
     targetPath := targetPath original; dryRun := false;
     strategy := None; createdAt := createdStamp;
     completedAt := Some completedStamp; rolledBackAt := None;
     rollbackTransactionId := None |}.

Definition rollback (cfg : Config) (w : World) (id : string)
  : (ServiceError + RollbackResult) * World :=
  match findOne (w_db w) id with
  | None => (inl (TransactionNotFound id), w)
  | Some (idx, originalTransaction) =>
      if bool_decide (t_status originalTransaction = rolled_back) then
        (inl (AlreadyRolledBack id), w)
      else if dryRun originalTransaction then
        (inl (CannotRollbackDryRun id), w)
      else
        let '(rollbackTransactionId, tick1) := generateId cfg (w_tick w) in
        let todo := reversedActions originalTransaction in
        let st := rollbackLoop cfg (w_fs w) tick1 todo in
        let '(completedStamp, tick2) := Date_now cfg (rl_tick st) in
        let '(createdStamp, tick3) := Date_now cfg tick2 in
        let rollbackTransaction :=
          rollbackDocument rollbackTransactionId originalTransaction todo st
                           completedStamp createdStamp in
        match save_new createdStamp rollbackTransaction (w_db w) with
        | None =>
            (inl (DuplicateKey rollbackTransactionId),
             {| w_fs := rl_fs st; w_db := w_db w; w_tick := tick3 |})
        | Some db1 =>
            let '(rolledStamp, tick4) := Date_now cfg tick3 in
            let db2 :=
              <[idx := mark_rolled_back rolledStamp rollbackTransactionId
                         originalTransaction]> db1 in
            (inr {| rr_transactionId := id;
                    rr_rollbackTransactionId := rollbackTransactionId;
                    rr_originalType := t_type originalTransaction;
                    rr_summary :=
                      {| rs_totalActions := length todo;
                         rs_restoredCount := rl_restored st;
                         rs_failedCount := rl_failed st;
                         rs_skippedCount := rl_skipped st |};
                    rr_details := rl_details st |},
             {| w_fs := rl_fs st; w_db := db2; w_tick := tick4 |})
        end
  end.

(** The criteria of the rollbackable-transactions query. *)
Definition rollbackable (t : ITransaction) : bool :=
  (bool_decide (t_status t = completed)
   || bool_decide (t_status t = partially_completed))
  && negb (dryRun t).

(** [Transaction.find({ status: { $in: [...] }, dryRun: false })
       .sort({ createdAt: -1 })] *)
Definition getRollbackableTransactions (db : list ITransaction)
  : list ITransaction :=
  Array_sort (fun a b => Z.of_N (createdAt b) - Z.of_N (createdAt a))%Z
             (List.filter rollbackable db).

(** [Transaction.find({ type: 'rollback' }).sort({ createdAt: -1 })] *)
Definition getRollbackHistory (db : list ITransaction) : list ITransaction :=
  Array_sort (fun a b => Z.of_N (createdAt b) - Z.of_N (createdAt a))%Z
             (List.filter (fun t => bool_decide (t_type t = rollback_t)) db).

(** What one action contributes to the details and to the recorded
    inverse actions. *)
Definition detail_matches (d : RollbackDetail) (a : ITransactionAction) : Prop :=
  type a = restore_a /\ from a = rd_from d /\ to a = rd_to d /\
  error a = rd_error d /\
  status a = match rd_status d with
             | rb_failed => a_failed
             | restored | skipped => a_completed
             end.

(** Every action of the list is still pending. *)
Definition all_pending (acts : list ITransactionAction) : Prop :=
  Forall (fun a => status a = a_pending) acts.

(** ** Vocabulary of the statements about dedupe *)

(** [a] is at least as good a member to keep as [b] under the strategy. *)
Definition preferred (s : DedupeStrategy) (a b : DupFile) : Prop :=
  match s with
  | keep_latest => (df_modifiedAt b <= df_modifiedAt a)%N
  | keep_oldest => (df_createdAt a <= df_createdAt b)%N
  | keep_largest => (df_size b <= df_size a)%N
  end.

(** [a] is a strictly better member to keep than [b]. *)
Definition strictly_preferred (s : DedupeStrategy) (a b : DupFile) : Prop :=
  match s with
  | keep_latest => (df_modifiedAt b < df_modifiedAt a)%N
  | keep_oldest => (df_createdAt a < df_createdAt b)%N
  | keep_largest => (df_size b < df_size a)%N
  end.

(** The hashed files of a listing, in listing order. *)
Definition hashedFiles (fs : fsmap) (filePaths : list path)
  : list (string * DupFile) :=
  omap (hashedFile fs) filePaths.

(** The files of a listing whose content hash is [hash], in listing
    order. *)
Definition membersOf (hash : string) (hashed : list (string * DupFile))
  : list DupFile :=
  map snd (List.filter (fun e => String.eqb e.1 hash) hashed).

(** The hash map [m] holds the groups of the hashed files [hashed]: one
    entry per hash that occurs, with the files of that hash in order. *)
Definition groups_of (m : HashMap) (hashed : list (string * DupFile)) : Prop :=
  NoDup (map fst m) /\
  (forall e, In e hashed -> In e.1 (map fst m)) /\
  (forall h fl, In (h, fl) m -> fl = membersOf h hashed /\ fl <> []).

(** The groups of a hash map that dedupe acts on. *)
Definition duplicateGroups (m : HashMap) : HashMap :=
  List.filter (fun e : string * list DupFile => negb (length e.2 <=? 1)) m.

(** The number of actions whose status is [completed]. *)
Definition completedCount (acts : list ITransactionAction) : nat :=
  length (List.filter (fun a => bool_decide (status a = a_completed)) acts).

(** The planned wasted-bytes total: the sum over the reported groups. *)
Definition plannedWaste (dups : list DuplicateInfo) : N :=
  foldr (fun di acc => (di_wastedSize di + acc)%N) 0%N dups.

(** ** Vocabulary of the statements about organize *)

(** [f] is a regular file that [getAllFiles] reaches from [dirPath]: it
    lies directly in [dirPath] or, when [recursive] is set, below it
    through directories none of which is skipped. *)
Definition listed (fs : fsmap) (dirPath : path) (recursive : bool) (f : path)
  : Prop :=
  exists rest name,
    f = dirPath ++ rest ++ [name] /\
    (exists n, fs !! f = Some n /\ is_file n = true) /\
    (recursive = false -> rest = []) /\
    Forall (fun n => skipped_dir n = false) rest /\
    (forall k, k <= length rest -> fs !! (dirPath ++ take k rest) = Some IDir) /\
    dirPath <> [].

(** [ensureDirectory] has nothing left to do for the trash directory:
    it exists already, or it cannot be created. *)
Definition stable_trash (fs : fsmap) (trash : path) : Prop :=
  (ensureDirectory fs trash).2 = fs.

(** The actions of a list whose status is [completed]. *)
Definition completedActions (acts : list ITransactionAction)
  : list ITransactionAction :=
  List.filter (fun a => bool_decide (status a = a_completed)) acts.

(** ** Concrete worlds used by the examples below *)

Definition cfg0 : Config :=
  {| trashPath := ["/"; "trash"];
     randomUUID := fun n => "tx" +:+ pretty n;
     randomBytesHex := fun n => "a" +:+ pretty n;
     now := fun n => N.of_nat (100 + n) |}.

(** [/d] holds [a.pdf] and [b.pdf] with the same content, [c.jpg], and a
    misfiled [r.pdf] inside [/d/Images]. *)
Definition fs0 : fsmap :=
  list_to_map
    [ (["/"], IDir); (["/"; "d"], IDir);
      (["/"; "d"; "a.pdf"], IFile 10 1 5 "H1");
      (["/"; "d"; "b.pdf"], IFile 10 2 7 "H1");
      (["/"; "d"; "c.jpg"], IFile 3 2 7 "H2");
      (["/"; "d"; "Images"], IDir);
      (["/"; "d"; "Images"; "r.pdf"], IFile 3 2 7 "H3") ].

Definition w0 : World := {| w_fs := fs0; w_db := []; w_tick := 0 |}.

(** The world after a dedupe of [/d] that moved [a.pdf] to the trash. *)
Definition w1 : World := (dedupe cfg0 w0 ["/"; "d"] false keep_latest true).2.

(** The world after that dedupe has been rolled back. *)
Definition w2 : World := (rollback cfg0 w1 "tx0").2.

(** The world after a dry run of dedupe. *)
Definition w_dry : World := (dedupe cfg0 w0 ["/"; "d"] true keep_latest true).2.

(** The document that dedupe wrote. *)
Definition tx0_doc : ITransaction :=
  {| transactionId := "tx0"; t_type := dedupe_t; t_status := completed;
     actions :=
       [{| actionId := "a1"; type := delete_a; from := ["/"; "d"; "a.pdf"];
           to := ["/"; "trash"; "102_a.pdf"]; status := a_completed;
           error := None; fileHash := Some "H1"; fileSize := Some 10%N |}];
     summary := {| movedCount := 0; deletedCount := 1; restoredCount := 0;
                   failedCount := 0; savedBytes := 10; totalProcessed := 1 |};
     targetPath := ["/"; "d"]; dryRun := false;
     strategy := Some "keep-latest"; createdAt := 104;
     completedAt := Some 103%N; rolledBackAt := None;
     rollbackTransactionId := None |}.

(** What the rollback of that dedupe reports. *)
Definition rr1 : RollbackResult :=
  {| rr_transactionId := "tx0"; rr_rollbackTransactionId := "tx5";
     rr_originalType := dedupe_t;
     rr_summary := {| rs_totalActions := 1; rs_restoredCount := 1;
                      rs_failedCount := 0; rs_skippedCount := 0 |};
     rr_details :=
       [{| rd_from := ["/"; "trash"; "102_a.pdf"];
           rd_to := ["/"; "d"; "a.pdf"]; rd_status := restored;
           rd_error := None |}] |}.

(** The world after a dedupe of [/d] that deleted [a.pdf] for good, and
    after the rollback of that dedupe. *)
Definition w_perm1 : World :=
  (dedupe cfg0 w0 ["/"; "d"] false keep_latest false).2.

Definition w_perm2 : World := (rollback cfg0 w_perm1 "tx0").2.

Definition rr_perm : RollbackResult :=
  {| rr_transactionId := "tx0"; rr_rollbackTransactionId := "tx4";
     rr_originalType := dedupe_t;
     rr_summary := {| rs_totalActions := 1; rs_restoredCount := 0;
                      rs_failedCount := 0; rs_skippedCount := 1 |};
     rr_details :=
       [{| rd_from := ["/"; "d"; "a.pdf"];
           rd_to := ["/"; "d"; "a.pdf"]; rd_status := skipped;
           rd_error := Some "File was permanently deleted or trash file not found" |}] |}.

(** What the dedupe of [/d] in [w0] reports. *)
Definition dd1 : DedupeResult :=
  {| dd_transactionId := "tx0"; dd_targetPath := ["/"; "d"];
     dd_dryRun := false; dd_strategy := keep_latest;
     dd_duplicates :=
       [{| di_hash := "H1";
           di_files :=
             [({| df_path := ["/"; "d"; "b.pdf"]; df_size := 10;
                  df_createdAt := 2; df_modifiedAt := 7 |}, true);
              ({| df_path := ["/"; "d"; "a.pdf"]; df_size := 10;
                  df_createdAt := 1; df_modifiedAt := 5 |}, false)];
           di_wastedSize := 10 |}];
     dd_summary := {| ds_totalDuplicateGroups := 1;
                      ds_totalDuplicateFiles := 1; ds_deletedCount := 1;
                      ds_failedCount := 0; ds_savedBytes := 10 |} |}.

(** A directory [/d] in which [x.txt] and every candidate [x_1.txt] ...
    [x_999.txt] exist, and a file [/s/x.txt] to be moved there. *)
Definition crowded : fsmap :=
  foldr (fun k m =>
           <[candidate ["/"; "d"; "x.txt"] k := IFile 1 0 0 ("old" +:+ pretty k)]> m)
        (list_to_map
           [ (["/"], IDir); (["/"; "d"], IDir); (["/"; "s"], IDir);
             (["/"; "d"; "x.txt"], IFile 1 0 0 "old");
             (["/"; "s"; "x.txt"], IFile 7 0 0 "new") ])
        (seq 1 999).

(** A clock that does not advance during the run. *)
Definition cfg_frozen : Config :=
  {| trashPath := ["/"; "trash"];
     randomUUID := fun n => "tx" +:+ pretty n;
     randomBytesHex := fun n => "a" +:+ pretty n;
     now := fun _ => 1730000000000%N |}.

(** Three copies of one file named [x.txt] under [/d], and a trash
    directory that already holds [1730000000000_x.txt] and its 999
    candidates. *)
Definition full_trash : fsmap :=
  foldr (fun k m =>
           <[candidate ["/"; "trash"; "1730000000000_x.txt"] k :=
               IFile 1 0 0 ("old" +:+ pretty k)]> m)
        (list_to_map
           [ (["/"], IDir); (["/"; "d"], IDir); (["/"; "trash"], IDir);
             (["/"; "trash"; "1730000000000_x.txt"], IFile 1 0 0 "old");
             (["/"; "d"; "p"], IDir); (["/"; "d"; "q"], IDir);
             (["/"; "d"; "r"], IDir);
             (["/"; "d"; "p"; "x.txt"], IFile 7 1 1 "H");
             (["/"; "d"; "q"; "x.txt"], IFile 7 2 2 "H");
             (["/"; "d"; "r"; "x.txt"], IFile 7 3 3 "H") ])
        (seq 1 999).

Definition w_full : World := {| w_fs := full_trash; w_db := []; w_tick := 0 |}.



(** ** categorize.ts: the other queries *)

Definition getExtension (filePath : path) : string :=
  toLowerCase (extname filePath).

(** [Object.entries(EXTENSION_CATEGORIES).filter(...).map(...)]: the keys
    of the table that map to the category, in the order of the table. *)
Definition getExtensionsForCategory (category : FileCategory) : list string :=
  map fst (List.filter (fun e : string * FileCategory =>
                          bool_decide (e.2 = category))
                       EXTENSION_CATEGORIES).

(** ** Vocabulary of the further statements about dedupe *)

(** The number of files that the reported groups plan to remove: all but
    one of each group. *)
Definition removedCount (dups : list DuplicateInfo) : nat :=
  foldr (fun di acc => (length (di_files di) - 1) + acc) 0 dups.

(** The members of a group that are not flagged as kept. *)
Definition notKept (di : DuplicateInfo) : list DupFile :=
  map fst (List.filter (fun x : DupFile * bool => negb x.2) (di_files di)).

(** ** A concrete run of organize *)

(** The world after a non-recursive organize of [/d] in [w0], and what
    that organize reports. *)
Definition w_org1 : World := (organize cfg0 w0 ["/"; "d"] false false).2.

Definition or1 : OrganizeResult :=
  {| or_transactionId := "tx0"; or_targetPath := ["/"; "d"];
     or_dryRun := false;
     or_plan :=
       [{| op_from := ["/"; "d"; "c.jpg"];
           op_to := ["/"; "d"; "Images"; "c.jpg"];
           op_category := Images; op_fileName := "c.jpg"; op_size := 3 |};
        {| op_from := ["/"; "d"; "b.pdf"];
           op_to := ["/"; "d"; "Documents"; "b.pdf"];
           op_category := Documents; op_fileName := "b.pdf"; op_size := 10 |};
        {| op_from := ["/"; "d"; "a.pdf"];
           op_to := ["/"; "d"; "Documents"; "a.pdf"];
           op_category := Documents; op_fileName := "a.pdf"; op_size := 10 |}];
     or_summary :=
       {| os_totalFiles := 3; os_movedCount := 3; os_failedCount := 0;
          os_byCategory := <["Images" := 1]> (<["Documents" := 2]> ∅) |} |}.

(** ** Vocabulary of the statements about the queries *)

(** The list is in order of non-decreasing rank. *)
Fixpoint sorted_by {A : Type} (rank : A -> Z) (l : list A) : Prop :=
  match l with
  | [] => True
  | x :: r => Forall (fun y => (rank x <= rank y)%Z) r /\ sorted_by rank r
  end.

(** ** reporter.ts: the disk space saved *)

(** [Transaction.find({ type: 'dedupe',
       status: { $in: ['completed', 'partially_completed'] }, dryRun: false })] *)
Definition completedDedupes (db : list ITransaction) : list ITransaction :=
  List.filter (fun t => bool_decide (t_type t = dedupe_t)
                        && (bool_decide (t_status t = completed)
                            || bool_decide (t_status t = partially_completed))
                        && negb (dryRun t)) db.

(** [Transaction.find({ type: 'dedupe', status: 'rolled_back', dryRun: false })] *)
Definition rolledBackDedupes (db : list ITransaction) : list ITransaction :=
  List.filter (fun t => bool_decide (t_type t = dedupe_t)
                        && bool_decide (t_status t = rolled_back)
                        && negb (dryRun t)) db.

(** [totalDiskSpaceSaved] of [generateReport]: the saved bytes of the
    completed dedupes are added up, those of the rolled-back dedupes are
    subtracted one by one, and the result is clamped at zero. *)
Definition totalDiskSpaceSaved (db : list ITransaction) : Z :=
  let total :=
    foldl (fun sum t => (sum + savedBytes (summary t))%Z) 0%Z
          (completedDedupes db) in
  let total' :=
    foldl (fun acc t => (acc - savedBytes (summary t))%Z) total
          (rolledBackDedupes db) in
  Z.max 0 total'.

(** The sum of the saved bytes of a list of transactions. *)
Definition sumSavedBytes (l : list ITransaction) : Z :=
  foldr (fun t acc => (savedBytes (summary t) + acc)%Z) 0%Z l.

(** The world after rolling that organize run back, and what the
    rollback reports. *)
Definition w_org2 : World := (rollback cfg0 w_org1 "tx0").2.

Definition rr_org1 : RollbackResult :=
  {| rr_transactionId := "tx0"; rr_rollbackTransactionId := "tx6";
     rr_originalType := organize_t;
     rr_summary := {| rs_totalActions := 3; rs_restoredCount := 3;
                      rs_failedCount := 0; rs_skippedCount := 0 |};
     rr_details :=
       [{| rd_from := ["/"; "d"; "Documents"; "a.pdf"];
           rd_to := ["/"; "d"; "a.pdf"]; rd_status := restored;
           rd_error := None |};
        {| rd_from := ["/"; "d"; "Documents"; "b.pdf"];
           rd_to := ["/"; "d"; "b.pdf"]; rd_status := restored;
           rd_error := None |};
        {| rd_from := ["/"; "d"; "Images"; "c.jpg"];
           rd_to := ["/"; "d"; "c.jpg"]; rd_status := restored;
           rd_error := None |}] |}.

(** ** scanner.ts: the scanner service *)

Record ScannedFile := {
  sf_path : path;
  sf_name : string;
  sf_hash : string;
  sf_extension : string;
  sf_category : FileCategory;
  sf_size : N;
  sf_createdAt : N;
  sf_modifiedAt : N;
  sf_isDuplicate : bool;
  sf_duplicateOf : option path
}.

Record CategoryStats := {
  cs_count : nat;
  cs_size : N
}.

Record DuplicateGroup := {
  dg_hash : string;
  dg_files : list ScannedFile;
  dg_totalSize : N;
  dg_wastedSize : N
}.

Record ScanResult := {
  sr_scanId : string;
  sr_scannedPath : path;
  sr_totalFiles : nat;
  sr_totalSize : N;
  sr_duplicatesCount : nat;
  sr_duplicatesSize : N;
  sr_categories : gmap string CategoryStats;
  sr_files : list ScannedFile;
  sr_duplicateGroups : list DuplicateGroup
}.

(** Scan.ts and FileRecord.ts: the documents of the two collections.
    [timestamps: true] stamps each document when it is inserted. *)
Record IScan := {
  sc_scanId : string;
  sc_scannedPath : path;
  sc_totalFiles : nat;
  sc_totalSize : N;
  sc_duplicatesCount : nat;
  sc_duplicatesSize : N;
  sc_categories : gmap string CategoryStats;
  sc_createdAt : N
}.

Record IFileRecord := {
  fr_scanId : string;
  fr_fileName : string;
  fr_filePath : path;
  fr_originalPath : path;
  fr_hash : string;
  fr_extension : string;
  fr_category : FileCategory;
  fr_size : N;
  fr_isDuplicate : bool;
  fr_duplicateOf : option path;
  fr_fileCreatedAt : N;
  fr_fileModifiedAt : N;
  fr_createdAt : N
}.

(** The two collections the scanner writes, each in insertion order. *)
Record ScanDb := {
  db_scans : list IScan;
  db_fileRecords : list IFileRecord
}.

(** [fs.accessSync(filePath, R_OK)] does not throw: the entry exists
    (permissions are not modelled). *)
Definition isAccessible (fs : fsmap) (filePath : path) : bool :=
  existsSync fs filePath.

(** The object that one iteration of the scanning loop builds; nothing
    when the path is skipped or hashing it rejects. *)
Definition scannedFile (fs : fsmap) (filePath : path) : option ScannedFile :=
  if negb (isAccessible fs filePath) then None
  else
    match getFileInfo fs filePath with
    | None => None
    | Some fileInfo =>
        if negb (fi_isFile fileInfo) then None
        else
          match calculateFileHash fs filePath with
          | None => None
          | Some hash =>
              Some {| sf_path := filePath; sf_name := fi_name fileInfo;
                      sf_hash := hash;
                      sf_extension := getExtension filePath;
                      sf_category := categorizeFile filePath;
                      sf_size := fi_size fileInfo;
                      sf_createdAt := fi_createdAt fileInfo;
                      sf_modifiedAt := fi_modifiedAt fileInfo;
                      sf_isDuplicate := false; sf_duplicateOf := None |}
          end
    end.

(** The objects are shared between [files] and the arrays of the hash
    map: a reference to an object is its index in [files], where it is
    pushed once and never moved. *)
Abbreviation sfref := nat.

(** [if (!hashMap.has(hash)) hashMap.set(hash, []);
     hashMap.get(hash).push(scannedFile)], the map in insertion order of
    its keys. *)
Fixpoint refs_push (m : list (string * list sfref)) (hash : string)
    (r : sfref) : list (string * list sfref) :=
  match m with
  | [] => [(hash, [r])]
  | (h, rs) :: rest =>
      if String.eqb h hash then (h, rs ++ [r]) :: rest
      else (h, rs) :: refs_push rest hash r
  end.

(** [if (!categories[category]) categories[category] = {count: 0, size: 0};
     categories[category].count++; categories[category].size += size];
    the keys are names of categories, none of which is a property that
    every object inherits. *)
Definition bumpCategory (categories : gmap string CategoryStats)
    (category : string) (size : N) : gmap string CategoryStats :=
  let cur := default {| cs_count := 0; cs_size := 0 |} (categories !! category) in
  <[category := {| cs_count := S (cs_count cur);
                   cs_size := (cs_size cur + size)%N |}]> categories.

Record ScanLoop := {
  sl_files : list ScannedFile;
  sl_hashMap : list (string * list sfref);
  sl_categories : gmap string CategoryStats;
  sl_totalSize : N
}.

(** One iteration of the scanning loop. *)
Definition scanStep (fs : fsmap) (st : ScanLoop) (filePath : path) : ScanLoop :=
  match scannedFile fs filePath with
  | None => st
  | Some f =>
      {| sl_files := sl_files st ++ [f];
         sl_hashMap := refs_push (sl_hashMap st) (sf_hash f)
                                 (length (sl_files st));
         sl_categories := bumpCategory (sl_categories st)
                            (category_name (sf_category f)) (sf_size f);
         sl_totalSize := (sl_totalSize st + sf_size f)%N |}
  end.

Definition scanLoop (fs : fsmap) (filePaths : list path) : ScanLoop :=
  foldl (scanStep fs)
        {| sl_files := []; sl_hashMap := []; sl_categories := ∅;
           sl_totalSize := 0 |} filePaths.

(** Reading a field through a reference. *)
Definition createdAt_at (heap : list ScannedFile) (r : sfref) : N :=
  from_option sf_createdAt 0%N (heap !! r).

Definition size_at (heap : list ScannedFile) (r : sfref) : N :=
  from_option sf_size 0%N (heap !! r).

Definition path_at (heap : list ScannedFile) (r : sfref) : path :=
  from_option sf_path [] (heap !! r).

(** [dup.isDuplicate = true; dup.duplicateOf = original.path] *)
Definition markDuplicate (original : path) (f : ScannedFile) : ScannedFile :=
  {| sf_path := sf_path f; sf_name := sf_name f; sf_hash := sf_hash f;
     sf_extension := sf_extension f; sf_category := sf_category f;
     sf_size := sf_size f; sf_createdAt := sf_createdAt f;
     sf_modifiedAt := sf_modifiedAt f;
     sf_isDuplicate := true; sf_duplicateOf := Some original |}.

(** A duplicate group while the objects can still change: its files are
    references. *)
Record GroupRefs := {
  gr_hash : string;
  gr_files : list sfref;
  gr_totalSize : N;
  gr_wastedSize : N
}.

Record DetectLoop := {
  dl_heap : list ScannedFile;
  dl_groups : list GroupRefs;
  dl_count : nat;
  dl_size : N
}.

(** One iteration of [for (const dup of duplicates)]. *)
Definition markStep (original : sfref) (st : DetectLoop) (dup : sfref)
  : DetectLoop :=
  {| dl_heap := alter (markDuplicate (path_at (dl_heap st) original)) dup
                      (dl_heap st);
     dl_groups := dl_groups st;
     dl_count := S (dl_count st);
     dl_size := (dl_size st + size_at (dl_heap st) dup)%N |}.

(** [reduce((sum, f) => sum + f.size, 0)] over references. *)
Definition sum_sizes_at (heap : list ScannedFile) (rs : list sfref) : N :=
  foldl (fun sum r => (sum + size_at heap r)%N) 0%N rs.

(** One iteration of [for (const [hash, groupFiles] of hashMap.entries())]. *)
Definition detectStep (st : DetectLoop) (e : string * list sfref)
  : DetectLoop :=
  let '(hash, groupFiles) := e in
  if 1 <? length groupFiles then
    let sorted :=
      Array_sort (fun a b => (Z.of_N (createdAt_at (dl_heap st) a) -
                              Z.of_N (createdAt_at (dl_heap st) b))%Z)
                 groupFiles in
    match sorted with
    | [] => st
    | original :: duplicates =>
        let st' := foldl (markStep original) st duplicates in
        {| dl_heap := dl_heap st';
           dl_groups := dl_groups st' ++
             [{| gr_hash := hash; gr_files := sorted;
                 gr_totalSize := sum_sizes_at (dl_heap st') sorted;
                 gr_wastedSize := sum_sizes_at (dl_heap st') duplicates |}];
           dl_count := dl_count st';
           dl_size := dl_size st' |}
    end
  else st.

Definition detectLoop (files : list ScannedFile)
    (hashMap : list (string * list sfref)) : DetectLoop :=
  foldl detectStep
        {| dl_heap := files; dl_groups := []; dl_count := 0; dl_size := 0 |}
        hashMap.

(** A group as the result shows it: its references read in the final
    state of the objects. *)
Definition groupOf (heap : list ScannedFile) (g : GroupRefs) : DuplicateGroup :=
  {| dg_hash := gr_hash g;
     dg_files := omap (fun r => heap !! r) (gr_files g);
     dg_totalSize := gr_totalSize g;
     dg_wastedSize := gr_wastedSize g |}.

(** The result that [scan] builds before it saves. *)
Definition scanResult (fs : fsmap) (scanId : string) (dirPath : path)
    (recursive : bool) : ScanResult :=
  let filePaths := getAllFiles fs dirPath recursive (fun _ => true) in
  let sl := scanLoop fs filePaths in
  let dl := detectLoop (sl_files sl) (sl_hashMap sl) in
  {| sr_scanId := scanId; sr_scannedPath := dirPath;
     sr_totalFiles := length (dl_heap dl);
     sr_totalSize := sl_totalSize sl;
     sr_duplicatesCount := dl_count dl;
     sr_duplicatesSize := dl_size dl;
     sr_categories := sl_categories sl;
     sr_files := dl_heap dl;
     sr_duplicateGroups := map (groupOf (dl_heap dl)) (dl_groups dl) |}.

(** [scan.save()]: the unique index on [scanId] refuses a second scan
    with the same id. *)
Definition save_scan (stamp : N) (result : ScanResult) (scans : list IScan)
  : option (list IScan) :=
  if existsb (fun s => String.eqb (sc_scanId s) (sr_scanId result)) scans
  then None
  else Some (scans ++
             [{| sc_scanId := sr_scanId result;
                 sc_scannedPath := sr_scannedPath result;
                 sc_totalFiles := sr_totalFiles result;
                 sc_totalSize := sr_totalSize result;
                 sc_duplicatesCount := sr_duplicatesCount result;
                 sc_duplicatesSize := sr_duplicatesSize result;
                 sc_categories := sr_categories result;
                 sc_createdAt := stamp |}]).

Definition fileRecordOf (scanId : string) (file : ScannedFile) (stamp : N)
  : IFileRecord :=
  {| fr_scanId := scanId; fr_fileName := sf_name file;
     fr_filePath := sf_path file; fr_originalPath := sf_path file;
     fr_hash := sf_hash file; fr_extension := sf_extension file;
     fr_category := sf_category file; fr_size := sf_size file;
     fr_isDuplicate := sf_isDuplicate file;
     fr_duplicateOf := sf_duplicateOf file;
     fr_fileCreatedAt := sf_createdAt file;
     fr_fileModifiedAt := sf_modifiedAt file;
     fr_createdAt := stamp |}.

(** [FileRecord.insertMany(batch)]: the documents are appended in order,
    each stamped as it is built. *)
Definition insertMany (cfg : Config) (scanId : string)
    (st : list IFileRecord * nat) (batch : list ScannedFile)
  : list IFileRecord * nat :=
  foldl (fun '(coll, tick) file =>
           let '(stamp, tick') := Date_now cfg tick in
           (coll ++ [fileRecordOf scanId file stamp], tick'))
        st batch.

(** [for (let i = 0; i < files.length; i += batchSize)] with
    [files.slice(i, i + batchSize)]; the fuel bounds the iterations. *)
Fixpoint saveBatches (fuel : nat) (cfg : Config) (scanId : string)
    (files : list ScannedFile) (batchSize i : nat)
    (st : list IFileRecord * nat) : list IFileRecord * nat :=
  match fuel with
  | 0 => st
  | S fuel' =>
      if i <? length files then
        let batch := take batchSize (drop i files) in
        saveBatches fuel' cfg scanId files batchSize (i + batchSize)
                    (insertMany cfg scanId st batch)
      else st
  end.

(** [saveScanResults]: the scan document, then the file records in
    batches of 100. *)
Definition saveScanResults (cfg : Config) (db : ScanDb) (tick : nat)
    (result : ScanResult) : option ScanDb * nat :=
  let '(stamp, tick1) := Date_now cfg tick in
  match save_scan stamp result (db_scans db) with
  | None => (None, tick1)
  | Some scans' =>
      let '(records', tick2) :=
        saveBatches (S (length (sr_files result))) cfg (sr_scanId result)
                    (sr_files result) 100 0 (db_fileRecords db, tick1) in
      (Some {| db_scans := scans'; db_fileRecords := records' |}, tick2)
  end.

(** [scan]: it reads the filesystem and the clock and writes the two
    collections; what it throws leaves the collections as they were. *)
Definition scan (cfg : Config) (fs : fsmap) (db : ScanDb) (tick : nat)
    (dirPath : path) (recursive : bool)
  : (ServiceError + ScanResult) * ScanDb * nat :=
  if negb (directoryExists fs dirPath) then
    (inl (DirectoryNotFound dirPath), db, tick)
  else
    let '(scanId, tick1) := generateId cfg tick in
    let result := scanResult fs scanId dirPath recursive in
    match saveScanResults cfg db tick1 result with
    | (None, tick2) => (inl (DuplicateKey scanId), db, tick2)
    | (Some db', tick2) => (inr result, db', tick2)
    end.

(** The queries of the scanner. *)
Definition getScanById (db : ScanDb) (scanId : string) : option IScan :=
  List.find (fun s => String.eqb (sc_scanId s) scanId) (db_scans db).

Definition getFileRecords (db : ScanDb) (scanId : string) : list IFileRecord :=
  List.filter (fun r => String.eqb (fr_scanId r) scanId) (db_fileRecords db).

Definition getDuplicates (db : ScanDb) (scanId : string) : list IFileRecord :=
  List.filter (fun r => String.eqb (fr_scanId r) scanId && fr_isDuplicate r)
              (db_fileRecords db).

(** ** fsSafe.ts: the size of a directory *)


(** ** Vocabulary of the statements about the scanner *)

(** The total size of a list of scanned files. *)
Definition sizeOf (l : list ScannedFile) : N :=
  foldr (fun f acc => (sf_size f + acc)%N) 0%N l.

(** The files of a category. *)
Definition ofCategory (category : string) (l : list ScannedFile)
  : list ScannedFile :=
  List.filter (fun f => String.eqb (category_name (sf_category f)) category) l.

(** The entry that a category has in the statistics of a list of files:
    none when no file is of the category. *)
Definition statsOf (category : string) (l : list ScannedFile)
  : option CategoryStats :=
  match ofCategory category l with
  | [] => None
  | x :: r => Some {| cs_count := length (x :: r); cs_size := sizeOf (x :: r) |}
  end.

(** The files flagged as duplicates. *)
Definition flagged (l : list ScannedFile) : list ScannedFile :=
  List.filter sf_isDuplicate l.

(** The files of a content hash. *)
Definition ofHash (hash : string) (l : list ScannedFile) : list ScannedFile :=
  List.filter (fun f => String.eqb (sf_hash f) hash) l.

(** The positions from [i] on of the files of a content hash. *)
Fixpoint indicesFrom (hash : string) (i : nat) (l : list ScannedFile)
  : list nat :=
  match l with
  | [] => []
  | f :: r =>
      if String.eqb (sf_hash f) hash then i :: indicesFrom hash (S i) r
      else indicesFrom hash (S i) r
  end.

(** The array of a key of the reference map. *)
Fixpoint refs_get (m : list (string * list sfref)) (hash : string)
  : option (list sfref) :=
  match m with
  | [] => None
  | (h, rs) :: rest => if String.eqb h hash then Some rs else refs_get rest hash
  end.

(** The references of a content hash in the order [detectStep] gives
    them: sorted by creation date, the oldest first. *)
Definition sortedRefs (F : list ScannedFile) (hash : string) : list sfref :=
  Array_sort (fun a b => (Z.of_N (createdAt_at F a) -
                          Z.of_N (createdAt_at F b))%Z)
             (indicesFrom hash 0 F).

(** What the detection loop makes of the file at position [i]. *)
Definition finalFile (F : list ScannedFile) (i : nat) (f : ScannedFile)
  : ScannedFile :=
  match sortedRefs F (sf_hash f) with
  | o :: _ => if i =? o then f else markDuplicate (path_at F o) f
  | [] => f
  end.

(** The group that the detection loop records for an entry of the map. *)
Definition groupRefsOf (F : list ScannedFile) (e : string * list sfref)
  : GroupRefs :=
  {| gr_hash := e.1; gr_files := sortedRefs F e.1;
     gr_totalSize := sum_sizes_at F (sortedRefs F e.1);
     gr_wastedSize := sum_sizes_at F (tail (sortedRefs F e.1)) |}.

Definition isGroup (e : string * list sfref) : bool := 1 <? length e.2.

(** The duplicates and the wasted bytes that a list of groups accounts
    for: all files but one of each group, and the sizes of those. *)
Definition refsDuplicates (gs : list GroupRefs) : nat :=
  foldr (fun g acc => (length (gr_files g) - 1) + acc) 0 gs.

Definition refsWasted (gs : list GroupRefs) : N :=
  foldr (fun g acc => (gr_wastedSize g + acc)%N) 0%N gs.

Definition groupedDuplicates (gs : list DuplicateGroup) : nat :=
  foldr (fun g acc => (length (dg_files g) - 1) + acc) 0 gs.

Definition wastedBytes (gs : list DuplicateGroup) : N :=
  foldr (fun g acc => (dg_wastedSize g + acc)%N) 0%N gs.

(** The number of references a map holds. *)
Definition refsTotal (m : list (string * list sfref)) : nat :=
  foldr (fun e acc => length e.2 + acc) 0 m.

(** The records of a list of files, stamped one tick after the other. *)
Fixpoint stampedRecords (cfg : Config) (scanId : string) (tick : nat)
    (files : list ScannedFile) : list IFileRecord :=
  match files with
  | [] => []
  | f :: r => fileRecordOf scanId f (now cfg tick)
              :: stampedRecords cfg scanId (S tick) r
  end.

(** ** The invariants of the two loops of a scan *)

(** Two files that differ at most in the duplicate flag and the
    duplicate pointer. *)
Definition same_file (g f : ScannedFile) : Prop :=
  sf_path g = sf_path f /\ sf_name g = sf_name f /\ sf_hash g = sf_hash f /\
  sf_extension g = sf_extension f /\ sf_category g = sf_category f /\
  sf_size g = sf_size f /\ sf_createdAt g = sf_createdAt f /\
  sf_modifiedAt g = sf_modifiedAt f.

(** What the scanning loop keeps true, with [F] the files collected. *)
Definition scan_inv (st : ScanLoop) (F : list ScannedFile) : Prop :=
  sl_files st = F /\
  sl_totalSize st = sizeOf F /\
  (forall k, sl_categories st !! k = statsOf k F) /\
  NoDup (map fst (sl_hashMap st)) /\
  (forall h, refs_get (sl_hashMap st) h =
             match indicesFrom h 0 F with [] => None | l => Some l end) /\
  refsTotal (sl_hashMap st) = length F.

(** What the detection loop keeps true once the entries [done] of the
    map are processed. *)
Definition detect_inv (F : list ScannedFile)
    (done : list (string * list sfref)) (st : DetectLoop) : Prop :=
  length (dl_heap st) = length F /\
  (forall i f, F !! i = Some f ->
     dl_heap st !! i =
     Some (if bool_decide (sf_hash f ∈ map fst done) then finalFile F i f
           else f)) /\
  dl_count st = length (flagged (dl_heap st)) /\
  dl_size st = sizeOf (flagged (dl_heap st)) /\
  dl_groups st = map (groupRefsOf F) (List.filter isGroup done) /\
  dl_count st = refsDuplicates (dl_groups st) /\
  dl_size st = refsWasted (dl_groups st).

(** ** Vocabulary of the statement that relates scan and dedupe *)

(** The entry that the deduper makes of a file the scanner reports. *)
Definition toDupFile (f : ScannedFile) : DupFile :=
  {| df_path := sf_path f; df_size := sf_size f;
     df_createdAt := sf_createdAt f; df_modifiedAt := sf_modifiedAt f |}.

Definition dupsOf (F : list ScannedFile) (rs : list sfref) : list DupFile :=
  omap (fun r => toDupFile <$> F !! r) rs.

(** The hash map of the deduper that a reference map of the scanner
    stands for. *)
Definition refsDups (F : list ScannedFile) (m : list (string * list sfref))
  : HashMap := map (fun e => (e.1, dupsOf F e.2)) m.

(** A group of the deduper and a group of the scanner that agree: the
    same hash, the same files in the same order, the kept file being the
    one that is not flagged, and the same wasted size. *)
Definition same_group (di : DuplicateInfo) (g : DuplicateGroup) : Prop :=
  di_hash di = dg_hash g /\
  Forall2 (fun (x : DupFile * bool) f =>
             x.1 = toDupFile f /\ x.2 = negb (sf_isDuplicate f))
          (di_files di) (dg_files g) /\
  di_wastedSize di = dg_wastedSize g.

(** ** A concrete scan *)

Definition sdb0 : ScanDb := {| db_scans := []; db_fileRecords := [] |}.

(** What the recursive scan of [/d] in [fs0] reports and saves. *)
Definition sr1 : ScanResult := scanResult fs0 "tx0" ["/"; "d"] true.

Definition sdb1 : ScanDb := (scan cfg0 fs0 sdb0 0 ["/"; "d"] true).1.2.

(** What a dry run of dedupe with [keep_oldest] on [/d] in [w0] reports,
    and the world after it. *)
Definition dd_oldest : DedupeResult :=
  {| dd_transactionId := "tx0"; dd_targetPath := ["/"; "d"];
     dd_dryRun := true; dd_strategy := keep_oldest;
     dd_duplicates :=
       [{| di_hash := "H1";
           di_files :=
             [({| df_path := ["/"; "d"; "a.pdf"]; df_size := 10;
                  df_createdAt := 1; df_modifiedAt := 5 |}, true);
              ({| df_path := ["/"; "d"; "b.pdf"]; df_size := 10;
                  df_createdAt := 2; df_modifiedAt := 7 |}, false)];
           di_wastedSize := 10 |}];
     dd_summary := {| ds_totalDuplicateGroups := 1;
                      ds_totalDuplicateFiles := 1; ds_deletedCount := 0;
                      ds_failedCount := 0; ds_savedBytes := 10 |} |}.

Definition w_oldest : World :=
  (dedupe cfg0 w0 ["/"; "d"] true keep_oldest true).2.
(** * Properties *)

(** ** The ledger *)

Lemma findOne_from_has_id i db id j t :
  findOne_from i db id = Some (j, t) -> has_id id t = true.
Proof.
  revert i. induction db as [|d db IH]; intros i; simpl; [done|].
  destruct (has_id id d) eqn:E; [|by apply IH].
  intros [= <- <-]. exact E.
Qed.

Lemma findOne_from_lookup i db id j t :
  findOne_from i db id = Some (j, t) ->
  i <= j /\ db !! (j - i) = Some t.
Proof.
  revert i. induction db as [|d db IH]; intros i; simpl; [done|].
  destruct (has_id id d) eqn:E.
  - intros [= <- <-]. split; [lia|]. by rewrite Nat.sub_diag.
  - intros H. apply IH in H as [Hle Hl]. split; [lia|].
    replace (j - i) with (S (j - S i)) by lia. exact Hl.
Qed.

Lemma findOne_lookup db id j t :
  findOne db id = Some (j, t) -> db !! j = Some t /\ transactionId t = id.
Proof.
  intros H. split.
  - apply findOne_from_lookup in H as [_ H]. by rewrite Nat.sub_0_r in H.
  - apply findOne_from_has_id in H. unfold has_id in H.
    by apply String.eqb_eq in H.
Qed.

Lemma findOne_from_none i db id :
  findOne_from i db id = None <-> Forall (fun t => has_id id t = false) db.
Proof.
  revert i. induction db as [|d db IH]; intros i; simpl.
  - split; [constructor|done].
  - destruct (has_id id d) eqn:E.
    + split; [done|]. intros H. inversion H; congruence.
    + rewrite IH. split; [by constructor|]. intros H. by inversion H.
Qed.

Lemma findOne_from_first i db id j t :
  findOne_from i db id = Some (j, t) ->
  Forall (fun d => has_id id d = false) (take (j - i) db).
Proof.
  revert i. induction db as [|d db IH]; intros i; simpl; [done|].
  destruct (has_id id d) eqn:E.
  - intros [= <- <-]. rewrite Nat.sub_diag. constructor.
  - intros H. pose proof (findOne_from_lookup _ _ _ _ _ H) as [Hle _].
    apply IH in H. replace (j - i) with (S (j - S i)) by lia.
    simpl. by constructor.
Qed.

Lemma findOne_from_intro i db id k t :
  db !! k = Some t -> has_id id t = true ->
  Forall (fun d => has_id id d = false) (take k db) ->
  findOne_from i db id = Some (i + k, t).
Proof.
  revert i k. induction db as [|d db IH]; intros i k; [done|].
  destruct k as [|k]; simpl.
  - intros [= ->] -> _. by rewrite Nat.add_0_r.
  - intros Hl Ht Hall. inversion Hall as [|? ? Hd Hrest]; subst.
    rewrite Hd. rewrite (IH (S i) k Hl Ht Hrest). f_equal. f_equal. lia.
Qed.

Lemma save_new_inv stamp t db db' :
  save_new stamp t db = Some db' ->
  db' = db ++ [set_createdAt stamp t] /\
  Forall (fun d => has_id (transactionId t) d = false) db.
Proof.
  unfold save_new. destruct (existsb _ db) eqn:E; [done|].
  intros [= <-]. split; [done|].
  apply Forall_forall. intros d Hd.
  destruct (has_id (transactionId t) d) eqn:Hid; [|done].
  assert (existsb (has_id (transactionId t)) db = true); [|congruence].
  apply existsb_exists. exists d. split; [|done]. by apply list_elem_of_In.
Qed.

(** ** The rollback loop *)

Section RollbackLoop.
Variable cfg : Config.



Lemma rollbackStep_actions st a :
  exists d r, rl_details (rollbackStep cfg st a) = rl_details st ++ [d] /\
    rl_rollbackActions (rollbackStep cfg st a) = rl_rollbackActions st ++ [r] /\
    detail_matches d r.
Proof.
  unfold rollbackStep. destruct (rollbackAction _ _) as [[rs ?] ?].
  do 2 eexists. simpl. split; [reflexivity|]. split; [reflexivity|].
  unfold detail_matches. simpl. by destruct rs.
Qed.

Lemma rollbackStep_counts st a :
  rl_restored (rollbackStep cfg st a) + rl_failed (rollbackStep cfg st a)
    + rl_skipped (rollbackStep cfg st a)
  = S (rl_restored st + rl_failed st + rl_skipped st).
Proof.
  unfold rollbackStep. destruct (rollbackAction _ _) as [[rs ?] ?].
  destruct rs; simpl; lia.
Qed.




Lemma foldl_rollbackStep_matches l st :
  Forall2 detail_matches (rl_details st) (rl_rollbackActions st) ->
  Forall2 detail_matches (rl_details (foldl (rollbackStep cfg) st l))
          (rl_rollbackActions (foldl (rollbackStep cfg) st l)).
Proof.
  revert st. induction l as [|a l IH]; intros st H; simpl; [done|].
  apply IH. destruct (rollbackStep_actions st a) as (d & r & -> & -> & Hm).
  apply Forall2_app; [done|]. by constructor.
Qed.

Lemma foldl_rollbackStep_counts l st :
  let st' := foldl (rollbackStep cfg) st l in
  rl_restored st' + rl_failed st' + rl_skipped st'
  = rl_restored st + rl_failed st + rl_skipped st + length l.
Proof.
  revert st. induction l as [|a l IH]; intros st; simpl; [lia|].
  specialize (IH (rollbackStep cfg st a)). simpl in IH. rewrite IH.
  rewrite rollbackStep_counts. lia.
Qed.

(** What a successful [rollback] did. *)
Lemma rollback_ok_inv w id rr w' :
  rollback cfg w id = (inr rr, w') ->
  exists idx t,
    findOne (w_db w) id = Some (idx, t) /\
    t_status t <> rolled_back /\ dryRun t = false /\
    let rid := randomUUID cfg (w_tick w) in
    let todo := reversedActions t in
    let st := rollbackLoop cfg (w_fs w) (S (w_tick w)) todo in
    let doc := rollbackDocument rid t todo st (now cfg (rl_tick st))
                                (now cfg (S (rl_tick st))) in
    rr_rollbackTransactionId rr = rid /\
    rr_details rr = rl_details st /\
    rr_summary rr = {| rs_totalActions := length todo;
                       rs_restoredCount := rl_restored st;
                       rs_failedCount := rl_failed st;
                       rs_skippedCount := rl_skipped st |} /\
    w_fs w' = rl_fs st /\
    Forall (fun d => has_id rid d = false) (w_db w) /\
    w_db w' = <[idx := mark_rolled_back (now cfg (S (S (rl_tick st)))) rid t]>
                (w_db w ++ [doc]).
Proof.
  unfold rollback. destruct (findOne (w_db w) id) as [[idx t]|] eqn:Hf; [|done].
  case_bool_decide as Hs; [done|].
  destruct (dryRun t) eqn:Hd; [done|].
  simpl. destruct (save_new _ _ _) as [db1|] eqn:Hsave; [|done].
  intros [= <- <-]. exists idx, t. simpl.
  apply save_new_inv in Hsave as [-> Hfresh]. simpl in Hfresh.
  repeat split; try done.
Qed.
End RollbackLoop.

(** ** Sorting *)

Lemma insert_by_perm {A} (cmp : A -> A -> Z) x l :
  Permutation (insert_by cmp x l) (x :: l).
Proof.
  induction l as [|y l IH]; simpl; [done|].
  destruct (cmp x y <=? 0)%Z; [done|].
  rewrite IH. apply perm_swap.
Qed.

Lemma Array_sort_perm {A} (cmp : A -> A -> Z) l :
  Permutation (Array_sort cmp l) l.
Proof.
  induction l as [|x l IH]; simpl; [done|].
  unfold Array_sort in *. simpl. rewrite insert_by_perm. by constructor.
Qed.

Lemma Array_sort_In {A} (cmp : A -> A -> Z) l x :
  In x (Array_sort cmp l) <-> In x l.
Proof.
  split; apply Permutation_in; [|symmetry]; apply Array_sort_perm.
Qed.

(** ** Rollback: refusals, order of processing, what is recorded *)

(** The ledger after a successful rollback: the original document is
    replaced in place and the rollback document is appended. *)
Lemma ledger_after_rollback (db : list ITransaction) idx t t' doc id :
  findOne db id = Some (idx, t) ->
  <[idx := t']> (db ++ [doc]) = <[idx := t']> db ++ [doc] /\
  idx < length db.
Proof.
  intros Hf. apply findOne_lookup in Hf as [Hl _].
  apply lookup_lt_Some in Hl. split; [|done].
  by rewrite insert_app_l.
Qed.

Lemma findOne_after_mark db idx t id stamp rid doc :
  findOne db id = Some (idx, t) ->
  findOne (<[idx := mark_rolled_back stamp rid t]> (db ++ [doc])) id
  = Some (idx, mark_rolled_back stamp rid t).
Proof.
  intros Hf.
  destruct (ledger_after_rollback db idx t (mark_rolled_back stamp rid t) doc id Hf)
    as [_ Hlt].
  pose proof (findOne_from_first _ _ _ _ _ Hf) as Hfirst.
  rewrite Nat.sub_0_r in Hfirst.
  pose proof (findOne_from_has_id _ _ _ _ _ Hf) as Hid.
  unfold findOne.
  change idx with (0 + idx) at 2.
  apply findOne_from_intro.
  - apply list_lookup_insert_eq. rewrite length_app. lia.
  - exact Hid.
  - rewrite take_insert_ge by lia. rewrite take_app_le by lia. exact Hfirst.
Qed.

Lemma findOne_rollback_document db idx t id t' doc :
  findOne db id = Some (idx, t) ->
  transactionId t' = transactionId t ->
  Forall (fun d => has_id (transactionId doc) d = false) db ->
  findOne (<[idx := t']> (db ++ [doc])) (transactionId doc)
  = Some (length db, doc).
Proof.
  intros Hf Hid Hfresh.
  destruct (ledger_after_rollback db idx t t' doc id Hf) as [-> Hlt].
  pose proof (findOne_lookup _ _ _ _ Hf) as [Hl _].
  unfold findOne. change (length db) with (0 + length db).
  apply findOne_from_intro.
  - rewrite lookup_app_r; rewrite length_insert; [|lia].
    by rewrite Nat.sub_diag.
  - unfold has_id. by apply String.eqb_eq.
  - rewrite take_app_le by (rewrite length_insert; lia).
    rewrite firstn_all2 by (rewrite length_insert; lia).
    apply Forall_insert; [done|].
    unfold has_id. rewrite Hid.
    rewrite Forall_forall in Hfresh. apply Hfresh.
    eapply list_elem_of_lookup_2, Hl.
Qed.

(** C5: [rollback] fails with [TransactionNotFound] when no document has
    the identifier, with [AlreadyRolledBack] when the document found is
    [rolled_back], and with [CannotRollbackDryRun] when it is a dry run
    (the checks are made in this order); each of these failures leaves the
    whole world -- filesystem, ledger, oracle counter -- as it was.  A
    second rollback of a transaction that was rolled back fails with
    [AlreadyRolledBack] and changes nothing. *)
Theorem rollback_refusals cfg w id :
  (findOne (w_db w) id = None ->
   rollback cfg w id = (inl (TransactionNotFound id), w)) /\
  (forall idx t, findOne (w_db w) id = Some (idx, t) ->
     t_status t = rolled_back ->
     rollback cfg w id = (inl (AlreadyRolledBack id), w)) /\
  (forall idx t, findOne (w_db w) id = Some (idx, t) ->
     t_status t <> rolled_back -> dryRun t = true ->
     rollback cfg w id = (inl (CannotRollbackDryRun id), w)) /\
  (forall e w', rollback cfg w id = (inl e, w') ->
     e = TransactionNotFound id \/ e = AlreadyRolledBack id \/
     e = CannotRollbackDryRun id ->
     w' = w) /\
  (forall rr w', rollback cfg w id = (inr rr, w') ->
     rollback cfg w' id = (inl (AlreadyRolledBack id), w')).
Proof.
  repeat split.
  - intros H. unfold rollback. by rewrite H.
  - intros idx t H Hs. unfold rollback. rewrite H.
    by rewrite bool_decide_eq_true_2.
  - intros idx t H Hs Hd. unfold rollback. rewrite H.
    rewrite bool_decide_eq_false_2 by done. by rewrite Hd.
  - intros e w'. unfold rollback.
    destruct (findOne (w_db w) id) as [[idx t]|]; [|by intros [= <- <-]].
    case_bool_decide; [by intros [= <- <-]|].
    destruct (dryRun t); [by intros [= <- <-]|].
    simpl. destruct (save_new _ _ _); [done|].
    intros [= <- <-]. intros [?|[?|?]]; discriminate.
  - intros rr w' H.
    apply rollback_ok_inv in H as (idx & t & Hf & _ & _ & H).
    simpl in H. destruct H as (_ & _ & _ & _ & _ & Hdb).
    unfold rollback. rewrite Hdb.
    rewrite (findOne_after_mark _ _ _ _ _ _ _ Hf).
    reflexivity.
Qed.

Lemma rollback_refusals_witness :
  rollback cfg0 w0 "tx9" = (inl (TransactionNotFound "tx9"), w0) /\
  rollback cfg0 w2 "tx0" = (inl (AlreadyRolledBack "tx0"), w2) /\
  rollback cfg0 w_dry "tx0" = (inl (CannotRollbackDryRun "tx0"), w_dry) /\
  rollback cfg0 (rollback cfg0 w1 "tx0").2 "tx0"
  = (inl (AlreadyRolledBack "tx0"), (rollback cfg0 w1 "tx0").2).
Proof.
  split; [|split; [|split]].
  - destruct (rollback_refusals cfg0 w0 "tx9") as (H & _).
    apply H. vm_compute. reflexivity.
  - destruct (rollback_refusals cfg0 w2 "tx0") as (_ & H & _).
    eapply H; vm_compute; reflexivity.
  - destruct (rollback_refusals cfg0 w_dry "tx0") as (_ & _ & H & _).
    eapply H; [vm_compute; reflexivity | vm_compute; discriminate
               | vm_compute; reflexivity].
  - destruct (rollback_refusals cfg0 w1 "tx0") as (_ & _ & _ & _ & H).
    destruct (rollback cfg0 w1 "tx0") as [[e|rr] w'] eqn:E.
    + vm_compute in E. discriminate.
    + simpl. eapply H. reflexivity.
Defined.



(** The rollback document as the ledger holds it after a successful run. *)
Lemma rollback_document_in_ledger cfg w id rr w' :
  rollback cfg w id = (inr rr, w') ->
  exists doc,
    findOne (w_db w') (rr_rollbackTransactionId rr) = Some (length (w_db w), doc) /\
    transactionId doc = rr_rollbackTransactionId rr /\
    t_type doc = rollback_t /\ dryRun doc = false /\
    (t_status doc = completed \/ t_status doc = partially_completed) /\
    Forall2 detail_matches (rr_details rr) (actions doc).
Proof.
  intros H. apply rollback_ok_inv in H as (idx & t & Hf & _ & _ & H).
  simpl in H. destruct H as (Hrid & Hdet & _ & _ & Hfresh & Hdb).
  eexists. rewrite Hdb, Hrid.
  split.
  - match goal with |- findOne (<[_ := ?t']> (_ ++ [?doc])) _ = _ =>
      apply (findOne_rollback_document (w_db w) idx t id t' doc Hf) end;
      [reflexivity | exact Hfresh].
  - simpl. repeat split.
    + destruct (rl_failed _ =? 0); auto.
    + rewrite Hdet. unfold rollbackLoop.
      apply foldl_rollbackStep_matches. constructor.
Qed.

(** C10: in the rollback transaction that a successful rollback persists,
    every action has type [restore] and status [completed] or [failed];
    it is [failed] exactly when the outcome reported for it is [failed],
    so an action whose outcome was [skipped] is recorded as [completed],
    like a restored one, with the skip reason in its error text only. *)
Theorem rollback_records_skipped_as_completed cfg w id rr w' :
  rollback cfg w id = (inr rr, w') ->
  exists k doc,
    findOne (w_db w') (rr_rollbackTransactionId rr) = Some (k, doc) /\
    t_type doc = rollback_t /\
    Forall (fun a => type a = restore_a /\
                     (status a = a_completed \/ status a = a_failed))
           (actions doc) /\
    Forall2 (fun d a =>
               from a = rd_from d /\ to a = rd_to d /\
               error a = rd_error d /\
               (rd_status d = skipped -> status a = a_completed) /\
               (rd_status d = restored -> status a = a_completed) /\
               (rd_status d = rb_failed -> status a = a_failed))
            (rr_details rr) (actions doc).
Proof.
  intros H.
  apply rollback_document_in_ledger in H as (doc & Hf & _ & Hty & _ & _ & Hm).
  exists (length (w_db w)), doc. repeat split; try done.
  - clear Hf. induction Hm as [|d a ? ? Hda _ IH]; constructor; [|done].
    destruct Hda as (? & _ & _ & _ & Hst). split; [done|].
    rewrite Hst. destruct (rd_status d); auto.
  - eapply Forall2_impl; [exact Hm|]. intros d a (_ & ? & ? & ? & Hst).
    repeat split; try done; intros Hd; rewrite Hst, Hd; done.
Qed.

Lemma rollback_records_skipped_as_completed_witness :
  exists k doc,
    findOne (w_db w_perm2) "tx4" = Some (k, doc) /\
    t_type doc = rollback_t /\
    Forall (fun a => type a = restore_a /\
                     (status a = a_completed \/ status a = a_failed))
           (actions doc) /\
    Forall2 (fun d a =>
               from a = rd_from d /\ to a = rd_to d /\
               error a = rd_error d /\
               (rd_status d = skipped -> status a = a_completed) /\
               (rd_status d = restored -> status a = a_completed) /\
               (rd_status d = rb_failed -> status a = a_failed))
            (rr_details rr_perm) (actions doc).
Proof.
  apply (rollback_records_skipped_as_completed cfg0 w_perm1 "tx0" rr_perm w_perm2).
  vm_compute. reflexivity.
Defined.

(** The transaction a successful rollback writes has type [rollback],
    [dryRun = false] and status [completed] or [partially_completed], so
    it meets the criteria of the rollbackable-transactions query and the
    query returns it. *)
Lemma rollback_transaction_is_rollbackable cfg w id rr w' :
  rollback cfg w id = (inr rr, w') ->
  exists doc,
    In doc (getRollbackableTransactions (w_db w')) /\
    transactionId doc = rr_rollbackTransactionId rr /\
    t_type doc = rollback_t /\ dryRun doc = false /\
    (t_status doc = completed \/ t_status doc = partially_completed).
Proof.
  intros H.
  apply rollback_document_in_ledger in H as (doc & Hf & Hid & Hty & Hdry & Hst & _).
  exists doc. repeat split; try done.
  unfold getRollbackableTransactions. apply Array_sort_In.
  apply filter_In. split.
  - apply findOne_lookup in Hf as [Hl _].
    apply list_elem_of_In. eapply list_elem_of_lookup_2, Hl.
  - unfold rollbackable. rewrite Hdry.
    destruct Hst as [-> | ->]; reflexivity.
Qed.

(** C4, the code at the failing input: after the dedupe of [/d] has been
    rolled back, the ledger holds the rollback transaction [tx5]
    ([dryRun = false], status [completed]); the
    rollbackable-transactions query returns it, and [rollback] accepts its
    identifier, skipping its one [restore] action as of unknown type. *)
Theorem rollback_of_rollback_is_offered_and_accepted :
  (exists doc,
     In doc (getRollbackableTransactions (w_db w2)) /\
     transactionId doc = "tx5" /\ t_type doc = rollback_t /\
     dryRun doc = false /\ t_status doc = completed) /\
  (exists rr,
     (rollback cfg0 w2 "tx5").1 = inr rr /\
     map (fun d => (rd_status d, rd_error d)) (rr_details rr)
     = [(skipped, Some "Unknown action type: restore")]).
Proof.
  split.
  - exists (nth 1 (w_db w2) tx0_doc). vm_compute.
    split; [left; reflexivity|]. repeat split; reflexivity.
  - vm_compute. eexists. split; reflexivity.
Qed.

(** ** Planning leaves every action pending *)

Lemma planStep_pending cfg fs dirPath st f :
  all_pending st.1.1.2 -> all_pending (planStep cfg fs dirPath st f).1.1.2.
Proof.
  destruct st as [[[plan acts] byCat] tick]. simpl. intros H.
  destruct (planItem fs dirPath f) as [item|]; [|done]. simpl.
  apply Forall_app. split; [done|]. by constructor.
Qed.

Lemma buildPlan_pending cfg fs dirPath files tick :
  all_pending (buildPlan cfg fs dirPath files tick).1.1.2.
Proof.
  unfold buildPlan.
  assert (H : all_pending (([] : list OrganizePlan, [] : list ITransactionAction,
                            (∅ : gmap string nat), tick) : PlanState).1.1.2)
    by constructor.
  revert H. generalize (([], [], ∅, tick) : PlanState).
  induction files as [|f files IH]; intros st H; simpl; [done|].
  apply IH. by apply planStep_pending.
Qed.

Lemma removalActions_pending cfg mt hash l tick :
  all_pending (removalActions cfg mt hash l tick).1.
Proof.
  revert tick. induction l as [|f l IH]; intros tick; simpl; [constructor|].
  specialize (IH (S tick)).
  destruct (removalActions cfg mt hash l (S tick)) as [acts tick''].
  simpl. by constructor.
Qed.

Lemma groupStep_pending cfg s mt st entry :
  all_pending st.1.1.1.2 -> all_pending (groupStep cfg s mt st entry).1.1.1.2.
Proof.
  destruct st as [[[[dups acts] total] saved] tick], entry as [hash files].
  simpl. intros H.
  destruct (length files <=? 1); [done|].
  pose proof (removalActions_pending cfg mt hash (tail (sortByStrategy files s)) tick) as Hr.
  destruct (removalActions _ _ _ _ _) as [newActs tick']. simpl in *.
  apply Forall_app. by split.
Qed.

Lemma planDedupe_pending cfg s mt m tick :
  all_pending (planDedupe cfg s mt m tick).1.1.1.2.
Proof.
  unfold planDedupe.
  assert (H : all_pending (([], [], 0, 0%N, tick) : GroupState).1.1.1.2)
    by constructor.
  revert H. generalize (([], [], 0, 0%N, tick) : GroupState).
  induction m as [|e m IH]; intros st H; simpl; [done|].
  apply IH. by apply groupStep_pending.
Qed.

(** C9: a dry run of [organize] or of [dedupe] leaves the filesystem as it
    was (no move, no delete, no directory created), and the transaction it
    persists has [dryRun = true], status [pending] and only [pending]
    actions, hence no [completed] one. *)
Theorem dry_run_is_pending_and_pure cfg w dirPath :
  (forall recursive,
     let out := organize cfg w dirPath true recursive in
     w_fs out.2 = w_fs w /\
     (w_db out.2 = w_db w \/
      exists t, w_db out.2 = w_db w ++ [t] /\ t_type t = organize_t /\
        dryRun t = true /\ t_status t = pending /\
        Forall (fun a => status a = a_pending /\ status a <> a_completed)
               (actions t))) /\
  (forall s moveToTrash,
     let out := dedupe cfg w dirPath true s moveToTrash in
     w_fs out.2 = w_fs w /\
     (w_db out.2 = w_db w \/
      exists t, w_db out.2 = w_db w ++ [t] /\ t_type t = dedupe_t /\
        dryRun t = true /\ t_status t = pending /\
        Forall (fun a => status a = a_pending /\ status a <> a_completed)
               (actions t))).
Proof.
  split.
  - intros recursive. unfold organize.
    destruct (negb (directoryExists _ _)); [simpl; auto|].
    simpl.
    pose proof (buildPlan_pending cfg (w_fs w) dirPath
                  (getOrganizableFiles (w_fs w) dirPath recursive)
                  (S (w_tick w))) as Hp.
    destruct (buildPlan _ _ _ _ _) as [[[plan acts] byCat] tick2].
    simpl in *.
    destruct (save_new _ _ _) as [db'|] eqn:Hs; simpl; [|auto].
    split; [done|]. right.
    apply save_new_inv in Hs as [-> _].
    eexists. split; [reflexivity|]. simpl. repeat split.
    eapply Forall_impl; [exact Hp|]. simpl. intros a ->. split; done.
  - intros s moveToTrash. unfold dedupe.
    destruct (negb (directoryExists _ _)); [simpl; auto|].
    simpl.
    pose proof (planDedupe_pending cfg s moveToTrash
                  (buildHashMap (w_fs w)
                     (getAllFiles (w_fs w) dirPath true (fun _ => true)))
                  (S (w_tick w))) as Hp.
    unfold dedupePlan. simpl.
    destruct (planDedupe _ _ _ _ _) as [[[[dups acts] total] saved] tick2].
    simpl in *.
    destruct (save_new _ _ _) as [db'|] eqn:Hs; simpl; [|auto].
    split; [done|]. right.
    apply save_new_inv in Hs as [-> _].
    eexists. split; [reflexivity|]. simpl. repeat split.
    eapply Forall_impl; [exact Hp|]. simpl. intros a ->. split; done.
Qed.

(** ** The member that dedupe keeps *)

Section SortHead.
Context {A : Type} (cmp : A -> A -> Z) (rank : A -> Z).
Hypothesis cmp_rank : forall x y, (cmp x y <= 0 <-> rank x <= rank y)%Z.

(** The head of the sorted list is the first element of least rank. *)
Lemma Array_sort_head (l : list A) :
  l <> [] ->
  exists kept rest pre post,
    Array_sort cmp l = kept :: rest /\
    l = pre ++ kept :: post /\
    Permutation rest (pre ++ post) /\
    (forall x, In x pre -> (rank kept < rank x)%Z) /\
    (forall x, In x post -> (rank kept <= rank x)%Z).
Proof.
  induction l as [|x l IH]; [done|]. intros _.
  destruct l as [|y l].
  { exists x, [], [], []. simpl. repeat split; try done. }
  destruct IH as (k & rest & pre & post & Hs & Hl & Hp & Hpre & Hpost); [done|].
  unfold Array_sort in *. simpl in Hs |- *. rewrite Hs. simpl.
  destruct (cmp x k <=? 0)%Z eqn:E.
  - apply Z.leb_le, cmp_rank in E.
    exists x, (k :: rest), [], (y :: l). repeat split; try done.
    + simpl. rewrite Hl. rewrite Hp. apply Permutation_middle.
    + intros z Hz. rewrite Hl in Hz. apply in_app_or in Hz as [Hz|[<-|Hz]].
      * apply Hpre in Hz. lia.
      * done.
      * apply Hpost in Hz. lia.
  - apply Z.leb_gt in E.
    assert (rank k < rank x)%Z as Hlt.
    { destruct (Z.le_gt_cases (rank x) (rank k)) as [H|H]; [|lia].
      apply cmp_rank in H. lia. }
    exists k, (insert_by cmp x rest), (x :: pre), post. repeat split.
    + by rewrite Hl.
    + rewrite insert_by_perm. simpl. by constructor.
    + intros z [<-|Hz]; [done|by apply Hpre].
    + done.
Qed.
End SortHead.

Lemma sortByStrategy_perm files s : Permutation (sortByStrategy files s) files.
Proof. destruct s; apply Array_sort_perm. Qed.

(** Of a non-empty group, [sortByStrategy] puts first the member that the
    strategy prefers, and among equally good ones the first of the group. *)
Lemma sortByStrategy_head s (files : list DupFile) :
  files <> [] ->
  exists kept rest pre post,
    sortByStrategy files s = kept :: rest /\
    files = pre ++ kept :: post /\
    Permutation rest (pre ++ post) /\
    (forall f, In f pre -> strictly_preferred s kept f) /\
    (forall f, In f post -> preferred s kept f).
Proof.
  intros Hne. destruct s; simpl.
  - destruct (Array_sort_head
        (fun a b => Z.of_N (df_modifiedAt b) - Z.of_N (df_modifiedAt a))%Z
        (fun f => - Z.of_N (df_modifiedAt f))%Z ltac:(intros; lia) files Hne)
      as (k & rest & pre & post & ? & ? & ? & Hpre & Hpost).
    exists k, rest, pre, post. repeat split; try done.
    + intros f Hf. apply Hpre in Hf. simpl. lia.
    + intros f Hf. apply Hpost in Hf. simpl. lia.
  - destruct (Array_sort_head
        (fun a b => Z.of_N (df_createdAt a) - Z.of_N (df_createdAt b))%Z
        (fun f => Z.of_N (df_createdAt f)) ltac:(intros; lia) files Hne)
      as (k & rest & pre & post & ? & ? & ? & Hpre & Hpost).
    exists k, rest, pre, post. repeat split; try done.
    + intros f Hf. apply Hpre in Hf. simpl. lia.
    + intros f Hf. apply Hpost in Hf. simpl. lia.
  - destruct (Array_sort_head
        (fun a b => Z.of_N (df_size b) - Z.of_N (df_size a))%Z
        (fun f => - Z.of_N (df_size f))%Z ltac:(intros; lia) files Hne)
      as (k & rest & pre & post & ? & ? & ? & Hpre & Hpost).
    exists k, rest, pre, post. repeat split; try done.
    + intros f Hf. apply Hpre in Hf. simpl. lia.
    + intros f Hf. apply Hpost in Hf. simpl. lia.
Qed.

(** ** The hash map groups the listing by content hash *)

Lemma membersOf_app h L1 L2 :
  membersOf h (L1 ++ L2) = membersOf h L1 ++ membersOf h L2.
Proof. unfold membersOf. by rewrite List.filter_app, map_app. Qed.

Lemma membersOf_nil_iff h L :
  membersOf h L = [] <-> ~ In h (map fst L).
Proof.
  unfold membersOf. induction L as [|[k f] L IH]; simpl; [tauto|].
  destruct (String.eqb_spec k h) as [->|Hne]; simpl.
  - split; [done|]. intros H. exfalso. apply H. by left.
  - rewrite IH. split; [|tauto]. intros H [?|?]; [done|tauto].
Qed.

Lemma hashMap_push_keys m h f k :
  In k (map fst (hashMap_push m h f)) <-> In k (map fst m) \/ k = h.
Proof.
  induction m as [|[k' g] m IH]; simpl.
  - split; [intros [<-|[]]; auto | intros [[] | ->]; auto].
  - destruct (String.eqb_spec k' h) as [->|Hne]; simpl.
    + split; [tauto|]. intros [H | ->]; auto.
    + rewrite IH. tauto.
Qed.

Lemma hashMap_push_NoDup m h f :
  NoDup (map fst m) -> NoDup (map fst (hashMap_push m h f)).
Proof.
  induction m as [|[k' g] m IH]; simpl; intros H.
  - constructor; [apply not_elem_of_nil | constructor].
  - destruct (String.eqb_spec k' h) as [->|Hne]; simpl; [done|].
    apply NoDup_cons in H as [Hk H]. apply NoDup_cons. split; [|by apply IH].
    rewrite list_elem_of_In in *. rewrite hashMap_push_keys. tauto.
Qed.

Lemma hashMap_push_entry m h f h' fl' :
  NoDup (map fst m) ->
  In (h', fl') (hashMap_push m h f) ->
  (h' <> h /\ In (h', fl') m) \/
  (h' = h /\ exists fl, fl' = fl ++ [f] /\
                (In (h, fl) m \/ (fl = [] /\ ~ In h (map fst m)))).
Proof.
  induction m as [|[k g] m IH]; simpl; intros Hnd Hin.
  - destruct Hin as [[= <- <-]|[]]. right. split; [done|].
    exists []. split; [done|]. right. tauto.
  - apply NoDup_cons in Hnd as [Hk Hnd]. rewrite list_elem_of_In in Hk.
    destruct (String.eqb_spec k h) as [->|Hne]; simpl in Hin.
    + destruct Hin as [[= <- <-]|Hin].
      * right. split; [done|]. exists g. split; [done|]. left. by left.
      * left. split; [|by right]. intros ->. apply Hk.
        apply in_map_iff. by exists (h, fl').
    + destruct Hin as [[= <- <-]|Hin].
      * left. split; [done|]. by left.
      * destruct (IH Hnd Hin) as [[? ?]|(-> & fl & -> & [H|[-> H]])].
        -- left. split; [done|]. by right.
        -- right. split; [done|]. exists fl. split; [done|]. left. by right.
        -- right. split; [done|]. exists []. split; [done|]. right.
           split; [done|]. intros [?|?]; [done|tauto].
Qed.

Lemma hashMap_push_groups m L h f :
  groups_of m L -> groups_of (hashMap_push m h f) (L ++ [(h, f)]).
Proof.
  intros (Hnd & Hcov & Hgr). repeat split.
  - by apply hashMap_push_NoDup.
  - intros e He. apply hashMap_push_keys.
    apply in_app_or in He as [He|[<-|[]]]; [left; by apply Hcov|by right].
  - destruct (hashMap_push_entry m h f h0 fl Hnd H)
      as [[Hne Hin]|(-> & g & -> & [Hin|[-> Hno]])].
    + rewrite membersOf_app. unfold membersOf at 2. simpl.
      destruct (String.eqb_spec h h0) as [->|_]; [done|].
      simpl. rewrite app_nil_r. by apply Hgr.
    + rewrite membersOf_app. unfold membersOf at 2. simpl.
      rewrite String.eqb_refl. simpl. f_equal. by apply Hgr.
    + rewrite membersOf_app. unfold membersOf at 2. simpl.
      rewrite String.eqb_refl. simpl.
      assert (membersOf h L = []) as ->; [|done].
      apply membersOf_nil_iff. intros Hin. apply Hno.
      apply in_map_iff in Hin as (e & <- & He). by apply Hcov.
  - destruct (hashMap_push_entry m h f h0 fl Hnd H)
      as [[Hne Hin]|(-> & g & -> & _)].
    + by destruct (Hgr _ _ Hin) as [_ ?].
    + by destruct g.
Qed.

Lemma foldl_hashStep_groups fs paths m L :
  groups_of m L ->
  groups_of (foldl (hashStep fs) m paths) (L ++ hashedFiles fs paths).
Proof.
  revert m L. induction paths as [|p paths IH]; intros m L H; simpl.
  - by rewrite app_nil_r.
  - unfold hashStep at 2, hashedFiles. simpl.
    destruct (hashedFile fs p) as [[h f]|].
    + change (L ++ (h, f) :: omap (hashedFile fs) paths)
        with (L ++ [(h, f)] ++ hashedFiles fs paths).
      rewrite app_assoc. apply IH. by apply hashMap_push_groups.
    + by apply IH.
Qed.

Lemma buildHashMap_groups fs paths :
  groups_of (buildHashMap fs paths) (hashedFiles fs paths).
Proof.
  apply (foldl_hashStep_groups fs paths [] []).
  repeat split; [constructor|done|done|done].
Qed.

(** ** The plan of dedupe *)

Lemma kept_flags (k : DupFile) rest :
  imap (fun idx f => (f, idx =? 0)) (k :: rest)
  = (k, true) :: map (fun f => (f, false)) rest.
Proof.
  simpl. f_equal.
  change (imap ((fun idx f => (f, idx =? 0)) ∘ S) rest)
    with (imap (const (fun f : DupFile => (f, false))) rest).
  by rewrite imap_const.
Qed.

Lemma foldl_groupStep_duplicates cfg s mt m (st : GroupState) :
  (foldl (groupStep cfg s mt) st m).1.1.1.1
  = st.1.1.1.1 ++ map (fun e => duplicateInfoOf s e.1 e.2) (duplicateGroups m).
Proof.
  revert st. induction m as [|[h fl] m IH]; intros st; simpl.
  - by rewrite app_nil_r.
  - rewrite IH. clear IH. unfold duplicateGroups. simpl.
    destruct st as [[[[dups acts] total] saved] tk]. simpl.
    destruct (length fl <=? 1); simpl; [done|].
    destruct (removalActions _ _ _ _ _). simpl.
    by rewrite <- app_assoc.
Qed.

(** The duplicate infos of the plan are those of the groups of two or more
    files, in the order of the hash map. *)
Lemma planDedupe_duplicates cfg s mt m tick :
  (planDedupe cfg s mt m tick).1.1.1.1
  = map (fun e => duplicateInfoOf s e.1 e.2) (duplicateGroups m).
Proof. unfold planDedupe. by rewrite foldl_groupStep_duplicates. Qed.

(** What a successful [dedupe] did, in terms of its plan and of the
    execution of that plan. *)
Lemma dedupe_ok_inv cfg w dirPath dry s mt res w' :
  dedupe cfg w dirPath dry s mt = (inr res, w') ->
  let plan := dedupePlan cfg w dirPath s mt in
  let exec := dedupeExecute cfg (w_fs w) dry mt plan.1.1.1.2 plan.2 in
  let txId := randomUUID cfg (w_tick w) in
  dd_duplicates res = plan.1.1.1.1 /\
  dd_transactionId res = txId /\
  w_fs w' = exec.1.1.1.1 /\
  Forall (fun d => has_id txId d = false) (w_db w) /\
  exists completedStamp createdStamp,
    let doc := dedupeDocument txId dirPath dry s exec.1.1.2 exec.1.2 exec.2
                              plan.1.2 completedStamp createdStamp in
    w_db w' = w_db w ++ [doc] /\
    ds_savedBytes (dd_summary res)
    = (if dry then Z.of_N plan.1.2 else savedBytes (summary doc)) /\
    ds_deletedCount (dd_summary res) = exec.1.2 /\
    ds_failedCount (dd_summary res) = exec.2.
Proof.
  unfold dedupe. destruct (negb (directoryExists _ _)); [done|].
  simpl.
  destruct (dedupePlan cfg w dirPath s mt)
    as [[[[dups acts] total] saved] tick2]. simpl.
  destruct (dedupeExecute cfg (w_fs w) dry mt acts tick2)
    as [[[[fs' tick3] acts'] deleted] failedN]. simpl.
  destruct dry; simpl.
  - destruct (save_new _ _ _) as [db'|] eqn:Hs; [|done].
    intros [= <- <-]. apply save_new_inv in Hs as [-> Hfresh].
    simpl. repeat split; try done. do 2 eexists. repeat split; reflexivity.
  - destruct (save_new _ _ _) as [db'|] eqn:Hs; [|done].
    intros [= <- <-]. apply save_new_inv in Hs as [-> Hfresh].
    simpl. repeat split; try done. do 2 eexists. repeat split; reflexivity.
Qed.

(** C7: every duplicate group that dedupe reports is the set of listed
    files sharing one hash, of size at least two; exactly its first entry
    is flagged as kept, and that entry is the member the strategy prefers
    (latest modification, earliest creation, greatest size) -- strictly
    better than every member listed before it, so that ties go to the
    first listed.  Each hash with two or more files has one group. *)
Theorem dedupe_keeps_first_best_member cfg w dirPath dryRunOpt s moveToTrash res :
  (dedupe cfg w dirPath dryRunOpt s moveToTrash).1 = inr res ->
  let hashed :=
    hashedFiles (w_fs w) (getAllFiles (w_fs w) dirPath true (fun _ => true)) in
  Forall (fun di =>
            let group := membersOf (di_hash di) hashed in
            2 <= length group /\
            exists kept rest pre post,
              di_files di = (kept, true) :: map (fun f => (f, false)) rest /\
              group = pre ++ kept :: post /\
              Permutation rest (pre ++ post) /\
              (forall f, In f pre -> strictly_preferred s kept f) /\
              (forall f, In f post -> preferred s kept f))
         (dd_duplicates res) /\
  NoDup (map di_hash (dd_duplicates res)) /\
  (forall h, 2 <= length (membersOf h hashed) ->
     exists di, In di (dd_duplicates res) /\ di_hash di = h).
Proof.
  intros Hres hashed.
  destruct (dedupe cfg w dirPath dryRunOpt s moveToTrash) as [r w'] eqn:E.
  simpl in Hres. subst r.
  apply dedupe_ok_inv in E. simpl in E. destruct E as (Hd & _).
  rewrite Hd. unfold dedupePlan. simpl. rewrite planDedupe_duplicates.
  pose proof (buildHashMap_groups (w_fs w)
                (getAllFiles (w_fs w) dirPath true (fun _ => true)))
    as (Hnd & Hcov & Hgr).
  fold hashed in Hcov, Hgr.
  set (m := buildHashMap _ _) in *.
  split; [|split].
  - apply Forall_forall. intros di Hdi.
    apply list_elem_of_In, in_map_iff in Hdi as ([h fl] & <- & He).
    apply filter_In in He as [He Hlen]. simpl in *.
    destruct (Hgr h fl He) as [Hfl Hne].
    apply negb_true_iff, Nat.leb_gt in Hlen.
    rewrite <- Hfl. split; [lia|].
    destruct (sortByStrategy_head s fl Hne)
      as (k & rest & pre & post & Hs & ? & ? & ? & ?).
    exists k, rest, pre, post. rewrite Hs, kept_flags. done.
  - rewrite map_map. simpl.
    assert (Hsub : sublist (map fst (duplicateGroups m)) (map fst m)).
    { unfold duplicateGroups. clear. induction m as [|e m IH]; simpl; [done|].
      destruct (negb _); simpl; [by apply sublist_skip|by apply sublist_cons]. }
    eapply sublist_NoDup; [exact Hnd|exact Hsub].
  - intros h Hlen.
    assert (In h (map fst m)) as Hin.
    { destruct (membersOf h hashed) as [|f l] eqn:Hm; [simpl in Hlen; lia|].
      assert (Hnil : membersOf h hashed <> []) by (rewrite Hm; done).
      rewrite membersOf_nil_iff in Hnil.
      destruct (in_dec String.string_dec h (map fst hashed)) as [Hi|Hi]; [|tauto].
      apply in_map_iff in Hi as (e & <- & Hi). by apply Hcov. }
    apply in_map_iff in Hin as ([h' fl] & <- & He). simpl in *.
    destruct (Hgr h' fl He) as [Hfl _].
    exists (duplicateInfoOf s h' fl). split; [|done].
    apply in_map_iff. exists (h', fl). split; [done|].
    apply filter_In. split; [done|]. simpl.
    apply negb_true_iff, Nat.leb_gt. rewrite Hfl. lia.
Qed.

Lemma dedupe_keeps_first_best_member_witness :
  let hashed :=
    hashedFiles fs0 (getAllFiles fs0 ["/"; "d"] true (fun _ => true)) in
  Forall (fun di =>
            let group := membersOf (di_hash di) hashed in
            2 <= length group /\
            exists kept rest pre post,
              di_files di = (kept, true) :: map (fun f => (f, false)) rest /\
              group = pre ++ kept :: post /\
              Permutation rest (pre ++ post) /\
              (forall f, In f pre -> strictly_preferred keep_latest kept f) /\
              (forall f, In f post -> preferred keep_latest kept f))
         (dd_duplicates dd1) /\
  NoDup (map di_hash (dd_duplicates dd1)) /\
  (forall h, 2 <= length (membersOf h hashed) ->
     exists di, In di (dd_duplicates dd1) /\ di_hash di = h).
Proof.
  apply (dedupe_keeps_first_best_member cfg0 w0 ["/"; "d"] false keep_latest true dd1).
  vm_compute. reflexivity.
Defined.

(** ** The bytes dedupe reports as saved *)

Lemma Math_round_ratio (S d : Z) (n : positive) :
  Math_round (inject_Z S * (inject_Z d / inject_Z (Z.pos n)))%Q
  = ((2 * S * d + Z.pos n) / (2 * Z.pos n))%Z.
Proof.
  cbv [Math_round Qfloor Qplus Qmult Qdiv Qinv inject_Z Qnum Qden].
  rewrite !Pos.mul_1_l, Pos2Z.inj_mul.
  f_equal; lia.
Qed.

Lemma nearest_bounds (S d n : Z) :
  (0 <= S -> 0 <= d <= n -> 0 < n ->
   let r := (2 * S * d + n) / (2 * n) in
   0 <= r <= S /\ 2 * S * d - n < 2 * n * r <= 2 * S * d + n)%Z.
Proof.
  intros HS Hd Hn r.
  assert (Hn2 : (0 < 2 * n)%Z) by lia.
  pose proof (Z.div_mod (2 * S * d + n) (2 * n) ltac:(lia)) as Hdm.
  pose proof (Z.mod_pos_bound (2 * S * d + n) (2 * n) Hn2) as Hmod.
  fold r in Hdm.
  assert (0 <= S * d)%Z by nia.
  assert (S * d <= S * n)%Z by nia.
  split; [split|]; nia.
Qed.

Lemma plannedWaste_app l1 l2 :
  plannedWaste (l1 ++ l2) = (plannedWaste l1 + plannedWaste l2)%N.
Proof.
  induction l1 as [|di l1 IH]; simpl; [done|]. rewrite IH. lia.
Qed.

Lemma foldl_groupStep_saved cfg s mt m (st : GroupState) :
  st.1.2 = plannedWaste st.1.1.1.1 ->
  (foldl (groupStep cfg s mt) st m).1.2
  = plannedWaste (foldl (groupStep cfg s mt) st m).1.1.1.1.
Proof.
  revert st. induction m as [|[h fl] m IH]; intros st Hst; simpl; [done|].
  apply IH. destruct st as [[[[dups acts] total] saved] tk]. simpl in *.
  destruct (length fl <=? 1); simpl; [done|].
  destruct (removalActions _ _ _ _ _). simpl.
  rewrite plannedWaste_app. simpl. lia.
Qed.

Lemma dedupePlan_saved cfg w dirPath s mt :
  (dedupePlan cfg w dirPath s mt).1.2
  = plannedWaste (dedupePlan cfg w dirPath s mt).1.1.1.1.
Proof.
  unfold dedupePlan, planDedupe. simpl. by apply foldl_groupStep_saved.
Qed.

(** The delete loop counts what it marks: its result has one action per
    input action, each completed or failed, and the two counters grow by
    the number of each. *)
Lemma executeDeletes_counts cfg mt acts fs tick deleted failedN :
  let out := executeDeletes cfg mt fs tick acts deleted failedN in
  length out.1.1.2 = length acts /\
  out.1.2 = deleted + completedCount out.1.1.2 /\
  out.1.2 + out.2 = deleted + failedN + length acts.
Proof.
  revert fs tick deleted failedN.
  induction acts as [|a acts IH]; intros fs tick deleted failedN; simpl.
  - unfold completedCount. simpl. lia.
  - destruct (safeDelete _ _ _ _ _ _) as [[result fs'] tick'].
    match goal with |- context [executeDeletes cfg mt fs' tick' acts ?d ?f] =>
      specialize (IH fs' tick' d f);
      destruct (executeDeletes cfg mt fs' tick' acts d f)
        as [[[[fs'' tick''] rest'] d'] f'] end.
    simpl in *. destruct IH as (Hlen & Hd & Hsum).
    split; [lia|]. unfold completedCount in *. simpl.
    destruct (dr_success result).
    + destruct (dr_trashPath result); simpl; split; lia.
    + simpl. split; lia.
Qed.

Lemma dedupeExecute_counts cfg fs mt acts tick :
  let out := dedupeExecute cfg fs false mt acts tick in
  length out.1.1.2 = length acts /\
  out.1.2 = completedCount out.1.1.2 /\
  out.1.2 <= length acts.
Proof.
  unfold dedupeExecute. simpl.
  destruct (0 <? length acts) eqn:E.
  - match goal with |- context [executeDeletes cfg mt ?f tick acts 0 0] =>
      pose proof (executeDeletes_counts cfg mt acts f tick 0 0) as H end.
    simpl in H. simpl. lia.
  - apply Nat.ltb_ge in E. destruct acts; [|simpl in E; lia].
    unfold completedCount. simpl. lia.
Qed.



(** ** Collision handling *)

(** The loop of [getUniqueFilename] leaves through its own condition: with
    [1000 - counter] iterations or more to spare, it returns the first
    candidate from [counter] on that does not exist, or candidate 999
    whether it exists or not. *)
Lemma uniqueLoop_spec fuel fs t c :
  1000 <= c + fuel -> 1 <= c <= 999 ->
  exists k, c <= k <= 999 /\
    uniqueLoop fuel fs t c = candidate t k /\
    (forall j, c <= j < k -> existsSync fs (candidate t j) = true) /\
    (k < 999 -> existsSync fs (candidate t k) = false).
Proof.
  revert c. induction fuel as [|fuel IH]; intros c Hf Hc; [lia|].
  simpl. destruct (existsSync fs (candidate t c)) eqn:E; simpl.
  - destruct (S c <? 1000) eqn:El.
    + apply Nat.ltb_lt in El.
      destruct (IH (S c)) as (k & Hk & Hu & Hex & Hfree); [lia|lia|].
      exists k. split; [lia|]. split; [done|]. split; [|done].
      intros j Hj. destruct (decide (j = c)) as [->|]; [done|].
      apply Hex. lia.
    + apply Nat.ltb_ge in El. exists c. split; [lia|]. split; [done|].
      split; intros; lia.
  - exists c. split; [lia|]. split; [done|]. split; [intros; lia|done].
Qed.

Lemma getUniqueFilename_spec fs t :
  (existsSync fs t = false /\ getUniqueFilename fs t = t) \/
  (existsSync fs t = true /\
   exists k, 1 <= k <= 999 /\ getUniqueFilename fs t = candidate t k /\
     (forall j, 1 <= j < k -> existsSync fs (candidate t j) = true) /\
     (k < 999 -> existsSync fs (candidate t k) = false)).
Proof.
  unfold getUniqueFilename. destruct (existsSync fs t); [right|left; done].
  split; [done|].
  exact (uniqueLoop_spec 1000 fs t 1 ltac:(lia) ltac:(lia)).
Qed.

(** C3, the code at the failing input: [/d/x.txt] and all of
    [/d/x_1.txt] ... [/d/x_999.txt] exist.  Moving [/s/x.txt] to
    [/d/x.txt] with collision handling reports success, with no error, at
    [/d/x_999.txt], and the file that was there is replaced by the moved
    one. *)
Theorem safeMove_overwrites_when_exhausted :
  let out := safeMove crowded ["/"; "s"; "x.txt"] ["/"; "d"; "x.txt"] true in
  (forall k, 1 <= k <= 999 ->
     existsSync crowded (candidate ["/"; "d"; "x.txt"] k) = true) /\
  mr_success out.1 = true /\ mr_error out.1 = None /\
  mr_to out.1 = ["/"; "d"; "x_999.txt"] /\
  crowded !! ["/"; "d"; "x_999.txt"] = Some (IFile 1 0 0 "old999") /\
  out.2 !! ["/"; "d"; "x_999.txt"] = Some (IFile 7 0 0 "new").
Proof.
  split; [|vm_compute; repeat split; reflexivity].
  intros k Hk.
  assert (H : forallb (fun k => existsSync crowded (candidate ["/"; "d"; "x.txt"] k))
                      (seq 1 999) = true) by (vm_compute; reflexivity).
  rewrite forallb_forall in H. apply H. apply in_seq. lia.
Qed.

(** ** The listing *)

Lemma dirents_spec fs d n node :
  In (n, node) (dirents fs d) <-> fs !! (d ++ [n]) = Some node.
Proof.
  unfold dirents. rewrite <- list_elem_of_In, list_elem_of_omap. split.
  - intros ([k nd] & Hk & Hf). apply elem_of_map_to_list in Hk. simpl in Hf.
    case_bool_decide as Hc; [|done]. destruct Hc as [Hne <-].
    injection Hf as <- <-.
    by rewrite <- (app_removelast_last "" Hne).
  - intros H. exists (d ++ [n], node). split; [by apply elem_of_map_to_list|].
    simpl. rewrite bool_decide_eq_true_2.
    + by rewrite last_last.
    + split; [by destruct d|]. by rewrite removelast_last.
Qed.

Lemma dirents_NoDup fs d : NoDup (map fst (dirents fs d)).
Proof.
  unfold dirents.
  pose proof (NoDup_fst_map_to_list fs) as Hnd.
  induction (map_to_list fs) as [|[k nd] l IH]; simpl; [constructor|].
  simpl in Hnd. apply NoDup_cons in Hnd as [Hk Hnd].
  case_bool_decide as Hc; simpl; [|by apply IH].
  apply NoDup_cons. split; [|by apply IH].
  destruct Hc as [Hne Hd]. intros Hin. apply Hk.
  apply list_elem_of_In, in_map_iff in Hin as ([n nd'] & Hn & Hin).
  simpl in Hn. apply list_elem_of_In, list_elem_of_omap in Hin
    as ([k' nd''] & Hk' & Hf).
  simpl in Hf. case_bool_decide as Hc'; [|done]. destruct Hc' as [Hne' Hd'].
  injection Hf as Hl <-.
  assert (k' = k) as ->.
  { rewrite (app_removelast_last "" Hne), (app_removelast_last "" Hne').
    by rewrite Hd, Hd', Hl, Hn. }
  apply list_elem_of_In, in_map_iff. exists (k, nd''). split; [done|].
  by apply list_elem_of_In.
Qed.

Lemma readdirSync_ok fs d entries :
  readdirSync fs d = Ok entries <->
  d <> [] /\ fs !! d = Some IDir /\ entries = dirents fs d.
Proof.
  unfold readdirSync. destruct d as [|x d].
  - split; [done|]. by intros [? _].
  - destruct (fs !! (x :: d)) as [[| ]|]; split; try done.
    + by intros (_ & ? & _).
    + by intros [= <-].
    + by intros (_ & _ & ->).
    + by intros (_ & ? & _).
Qed.

Lemma le_foldr_max x l : In x l -> x <= foldr Nat.max 0 l.
Proof.
  induction l as [|y l IH]; simpl; [done|].
  intros [->|H]; [lia|]. apply IH in H. lia.
Qed.

Lemma length_lt_depth_bound (fs : fsmap) k n :
  fs !! k = Some n -> length k < depth_bound fs.
Proof.
  intros H. unfold depth_bound. apply Nat.lt_succ_r, le_foldr_max.
  apply in_map_iff. exists (k, n). split; [done|].
  by apply list_elem_of_In, elem_of_map_to_list.
Qed.

(** What [getAllFiles] returns, for a given depth of recursion. *)
Lemma walk_spec fuel fs d recursive filter f :
  In f (walk fuel fs d recursive filter) <->
  exists rest name,
    f = d ++ rest ++ [name] /\ length rest < fuel /\
    (exists n, fs !! f = Some n /\ is_file n = true) /\
    filter f = true /\
    (recursive = false -> rest = []) /\
    Forall (fun n => skipped_dir n = false) rest /\
    (forall k, k <= length rest -> fs !! (d ++ take k rest) = Some IDir) /\
    d <> [].
Proof.
  revert d. induction fuel as [|fuel IH]; intros d; simpl.
  { split; [done|]. intros (? & ? & _ & ? & _). lia. }
  destruct (readdirSync fs d) as [entries|e] eqn:Hrd.
  2:{ split; [done|]. intros (rest & name & _ & _ & _ & _ & _ & _ & Hdir & Hne).
      specialize (Hdir 0 ltac:(lia)). simpl in Hdir. rewrite app_nil_r in Hdir.
      unfold readdirSync in Hrd. destruct d; [done|]. by rewrite Hdir in Hrd. }
  apply readdirSync_ok in Hrd as (Hne & Hd & ->).
  rewrite in_flat_map. split.
  - intros ([n node] & Hent & Hin). simpl in Hin.
    apply dirents_spec in Hent.
    destruct (is_file node) eqn:Hfile.
    + destruct (filter (join d n)) eqn:Hfl; [|done].
      destruct Hin as [<-|[]].
      exists [], n. simpl. split_and!; try done; try lia.
      * by exists node.
      * intros k Hk. assert (k = 0) as -> by lia. simpl. by rewrite app_nil_r.
    + destruct recursive; [|done].
      destruct (negb (skipped_dir n)) eqn:Hsk; [|done].
      apply negb_true_iff in Hsk.
      apply IH in Hin as (rest & name & -> & Hlen & Hf & Hfl & _ & Hall & Hdir & _).
      exists (n :: rest), name. unfold join in *.
      rewrite <- !app_assoc in *. simpl in *.
      split_and!; try done; try lia.
      * by constructor.
      * intros [|k] Hk; simpl; [by rewrite app_nil_r|].
        specialize (Hdir k ltac:(lia)). by rewrite <- app_assoc in Hdir.
  - intros (rest & name & -> & Hlen & (node & Hf & Hfile) & Hfl & Hrec & Hall & Hdir & _).
    destruct rest as [|n rest].
    + exists (name, node). split; [by apply dirents_spec|]. simpl.
      unfold join. simpl in *. rewrite Hfile, Hfl. by left.
    + exists (n, IDir). split.
      * apply dirents_spec. by specialize (Hdir 1 ltac:(simpl; lia)).
      * simpl. destruct recursive; [|by specialize (Hrec eq_refl)].
        inversion Hall as [|? ? Hsk Hall']; subst. rewrite Hsk. simpl.
        apply IH. exists rest, name. unfold join.
        rewrite <- !app_assoc. simpl in *.
        split_and!; try done; try lia.
        -- by exists node.
        -- intros k Hk. specialize (Hdir (S k) ltac:(lia)). simpl in Hdir.
           by rewrite <- app_assoc.
        -- by destruct d.
Qed.

(** [getAllFiles] returns exactly the listed files that pass the filter. *)
Lemma getAllFiles_spec fs d recursive filter f :
  In f (getAllFiles fs d recursive filter) <->
  listed fs d recursive f /\ filter f = true.
Proof.
  unfold getAllFiles, listed. rewrite walk_spec. split.
  - intros (rest & name & ? & _ & ? & ? & ? & ? & ? & ?).
    split; [|done]. by exists rest, name.
  - intros [(rest & name & -> & (n & Hf & ?) & ? & ? & ? & ?) ?].
    exists rest, name. split_and!; try done; [|by exists n].
    apply length_lt_depth_bound in Hf. rewrite !length_app in Hf. simpl in Hf. lia.
Qed.

(** ** The plan of organize *)

Lemma dirname_join d n : d <> [] -> dirname (join d n) = d.
Proof.
  intros Hd. unfold join, dirname.
  destruct d as [|x d]; [done|]. destruct d as [|y d].
  - done.
  - cbn [app]. exact (removelast_last (x :: y :: d) n).
Qed.

Lemma basename_join d n : d <> [] -> basename (join d n) = n.
Proof.
  intros Hd. unfold join, basename.
  destruct d as [|x d]; [done|]. destruct d as [|y d].
  - done.
  - cbn [app]. exact (last_last (x :: y :: d) n "").
Qed.


Lemma foldl_planStep_plan cfg fs dirPath files (st : PlanState) :
  (foldl (planStep cfg fs dirPath) st files).1.1.1
  = st.1.1.1 ++ omap (planItem fs dirPath) files.
Proof.
  revert st. induction files as [|f files IH]; intros st; simpl.
  - by rewrite app_nil_r.
  - rewrite IH. destruct st as [[[plan acts] byCat] tick]. simpl.
    destruct (planItem fs dirPath f) as [item|]; simpl; [|done].
    by rewrite <- app_assoc.
Qed.

Lemma organize_plan cfg w dirPath dryRunOpt recursive res :
  (organize cfg w dirPath dryRunOpt recursive).1 = inr res ->
  dirPath <> [] /\
  or_plan res
  = omap (planItem (w_fs w) dirPath)
         (getOrganizableFiles (w_fs w) dirPath recursive).
Proof.
  unfold organize.
  destruct (directoryExists (w_fs w) dirPath) eqn:Hdir; [|done]. simpl.
  pose proof (foldl_planStep_plan cfg (w_fs w) dirPath
                (getOrganizableFiles (w_fs w) dirPath recursive)
                ([], [], ∅, S (w_tick w))) as Hplan.
  fold (buildPlan cfg (w_fs w) dirPath
          (getOrganizableFiles (w_fs w) dirPath recursive) (S (w_tick w))) in Hplan.
  destruct (buildPlan _ _ _ _ _) as [[[plan acts] byCat] tick2]. simpl in Hplan.
  destruct (if negb dryRunOpt && (0 <? length plan) then _ else _)
    as [[[fs' acts'] moved] failedN].
  destruct (if dryRunOpt then _ else _) as [cs tick3]. simpl.
  destruct (save_new _ _ _); [|done]. intros [= <-]. simpl.
  split; [|done]. by destruct dirPath.
Qed.

Lemma getOrganizableFiles_spec fs dirPath recursive f :
  In f (getOrganizableFiles fs dirPath recursive) <->
  listed fs dirPath recursive f /\
  categories_include (basename (dirname f)) = false.
Proof.
  unfold getOrganizableFiles.
  assert (Hflt : forall g, not_in_category_folder g = true <->
                           categories_include (basename (dirname g)) = false).
  { intros g. unfold not_in_category_folder. apply negb_true_iff. }
  destruct recursive; simpl.
  - by rewrite getAllFiles_spec, Hflt.
  - rewrite filter_In, getAllFiles_spec, Hflt. split; [tauto|].
    intros [Hl Hc]. split; [done|]. apply bool_decide_eq_true.
    destruct Hl as (rest & name & -> & _ & Hrest & _ & _ & Hne).
    rewrite (Hrest eq_refl). simpl. by apply dirname_join.
Qed.



Lemma planItem_from fs dirPath f item :
  planItem fs dirPath f = Some item ->
  op_from item = f /\
  op_to item = join (join dirPath (category_name (categorizeFile f))) (basename f) /\
  op_category item = categorizeFile f /\
  op_fileName item = basename f.
Proof.
  unfold planItem, getFileInfo.
  destruct (statSync fs f) as [[sz bt mt dg|]|]; simpl; try done.
  case_bool_decide; [done|]. by intros [= <-].
Qed.




(** ** Creating directories *)

Lemma mkdirp_preserves fs dn todo fs' k n :
  mkdirp fs dn todo = Ok fs' -> fs !! k = Some n -> fs' !! k = Some n.
Proof.
  revert fs dn. induction todo as [|s todo IH]; intros fs dn; simpl.
  - by intros [= <-].
  - destruct (fs !! (dn ++ [s])) as [[| ]|] eqn:E; [done| |].
    + apply IH.
    + intros H Hk. eapply IH; [exact H|].
      rewrite lookup_insert_ne; [done|]. intros <-. congruence.
Qed.

Lemma mkdirp_long fs dn todo fs' k :
  mkdirp fs dn todo = Ok fs' ->
  length (dn ++ todo) < length k -> fs' !! k = fs !! k.
Proof.
  revert fs dn. induction todo as [|s todo IH]; intros fs dn; simpl.
  - by intros [= <-].
  - intros H Hlen.
    assert (length ((dn ++ [s]) ++ todo) < length k) as Hlen'
      by (rewrite <- app_assoc; exact Hlen).
    destruct (fs !! (dn ++ [s])) as [[| ]|] eqn:E; [done| |].
    + by apply (IH fs (dn ++ [s])).
    + rewrite (IH _ (dn ++ [s]) H Hlen').
      apply lookup_insert_ne. intros <-.
      rewrite !length_app in Hlen'. simpl in Hlen'. lia.
Qed.

Lemma mkdirp_creates fs dn todo fs' :
  mkdirp fs dn todo = Ok fs' -> todo <> [] ->
  fs' !! (dn ++ todo) = Some IDir.
Proof.
  revert fs dn. induction todo as [|s todo IH]; intros fs dn; [done|].
  intros H _. cbn [mkdirp] in H.
  replace (dn ++ s :: todo) with ((dn ++ [s]) ++ todo)
    by (rewrite <- app_assoc; reflexivity).
  destruct todo as [|s' todo].
  - rewrite app_nil_r. simpl in H.
    destruct (fs !! (dn ++ [s])) as [[| ]|] eqn:E; [done| |].
    + by injection H as <-.
    + injection H as <-. by rewrite lookup_insert_eq.
  - destruct (fs !! (dn ++ [s])) as [[| ]|] eqn:E; [done| |];
      by apply IH in H.
Qed.

Lemma existsSync_true fs p : existsSync fs p = true <-> p <> [] /\ is_Some (fs !! p).
Proof.
  unfold existsSync. destruct p as [|x p].
  - split; [done|]. by intros [? _].
  - destruct (fs !! (x :: p)) as [n|].
    + split; [|done]. intros _. split; [done|]. by exists n.
    + split; [done|]. intros [_ [? ?]]. done.
Qed.

Lemma existsSync_false fs p : existsSync fs p = false <-> p = [] \/ fs !! p = None.
Proof.
  unfold existsSync. destruct p as [|x p].
  - split; [by left|done].
  - destruct (fs !! (x :: p)) as [n|].
    + split; [done|]. intros [?|?]; done.
    + split; [by right|done].
Qed.

Lemma ensureDirectory_exists fs d :
  existsSync fs d = true -> ensureDirectory fs d = (true, fs).
Proof. intros H. unfold ensureDirectory. by rewrite H. Qed.

(** After a first [ensureDirectory] a second one changes nothing. *)
Lemma ensureDirectory_stable fs trash :
  stable_trash (ensureDirectory fs trash).2 trash.
Proof.
  unfold stable_trash, ensureDirectory.
  destruct (existsSync fs trash) eqn:E; simpl.
  - by rewrite E.
  - destruct (mkdirSync fs trash) as [fs'|e] eqn:Em; simpl.
    + assert (existsSync fs' trash = true) as ->; [|done].
      unfold mkdirSync in Em. destruct trash as [|x t]; [done|].
      apply mkdirp_creates in Em; [|done]. simpl in Em.
      apply existsSync_true. split; [done|]. by eexists.
    + by rewrite E, Em.
Qed.

Lemma ensureDirectory_preserves fs d k n :
  fs !! k = Some n -> (ensureDirectory fs d).2 !! k = Some n.
Proof.
  intros Hk. unfold ensureDirectory.
  destruct (existsSync fs d); simpl; [done|].
  destruct (mkdirSync fs d) as [fs'|e] eqn:Em; simpl; [|done].
  unfold mkdirSync in Em. destruct d; [done|].
  by eapply mkdirp_preserves.
Qed.

Lemma ensureDirectory_long fs d k :
  length d < length k -> (ensureDirectory fs d).2 !! k = fs !! k.
Proof.
  intros Hl. unfold ensureDirectory.
  destruct (existsSync fs d); simpl; [done|].
  destruct (mkdirSync fs d) as [fs'|e] eqn:Em; simpl; [|done].
  unfold mkdirSync in Em. destruct d; [done|].
  by eapply mkdirp_long.
Qed.

(** ** Moving a regular file *)

Lemma renameSync_file_ok fs f b n fs' :
  fs !! f = Some n -> is_file n = true ->
  renameSync fs f b = Ok fs' ->
  f <> [] /\ b <> [] /\ fs !! dirname b = Some IDir /\
  fs !! b <> Some IDir /\ fs' = <[b := n]> (delete f fs).
Proof.
  intros Hf Hn. unfold renameSync. destruct f as [|x f]; [done|]. rewrite Hf.
  destruct n as [sz bt mt dg|]; [|done].
  destruct b as [|y b]; [done|].
  destruct (fs !! dirname (y :: b)) as [[| ]|]; [done| |done].
  destruct (fs !! (y :: b)) as [[| ]|] eqn:Eb; [|done|]; intros [= <-]; done.
Qed.

(** On one device the copy fallback cannot succeed where the rename of a
    regular file failed. *)
Lemma copyFileSync_fails fs f b n e :
  fs !! f = Some n -> is_file n = true ->
  renameSync fs f b = Throw e ->
  exists e', copyFileSync fs f b = Throw e'.
Proof.
  intros Hf Hn. unfold renameSync, copyFileSync.
  destruct f as [|x f]; [by eexists|]. rewrite Hf.
  destruct n as [sz bt mt dg|]; [|done].
  destruct b as [|y b]; [by eexists|].
  destruct (fs !! dirname (y :: b)) as [[| ]|]; [by eexists| |by eexists].
  destruct (fs !! (y :: b)) as [[| ]|]; [done|by eexists|done].
Qed.

(** [safeMove] of a regular file, when the destination directory needs no
    creation: it fails and changes nothing, or renames the file to the
    final destination. *)
Lemma safeMove_file fs f t hc n :
  fs !! f = Some n -> is_file n = true -> f <> [] ->
  (ensureDirectory fs (dirname t)).2 = fs ->
  let finalTo := if hc && existsSync fs t then getUniqueFilename fs t else t in
  let out := safeMove fs f t hc in
  (mr_success out.1 = false /\ out.2 = fs) \/
  (mr_success out.1 = true /\ mr_to out.1 = finalTo /\
   finalTo <> [] /\ fs !! dirname finalTo = Some IDir /\
   fs !! finalTo <> Some IDir /\
   out.2 = <[finalTo := n]> (delete f fs)).
Proof.
  intros Hf Hn Hne Hstable finalTo out. subst out. unfold safeMove.
  assert (existsSync fs f = true) as ->.
  { apply existsSync_true. split; [done|]. by exists n. }
  simpl. destruct (ensureDirectory fs (dirname t)) as [okDir fs1] eqn:Ed.
  simpl in Hstable. subst fs1.
  destruct okDir; simpl; [|by left]. fold finalTo.
  destruct (renameSync fs f finalTo) as [fs2|e] eqn:Er.
  - right. apply (renameSync_file_ok _ _ _ _ _ Hf Hn) in Er
      as (_ & ? & ? & ? & ->). simpl. done.
  - left. destruct (copyFileSync_fails _ _ _ _ _ Hf Hn Er) as [e' ->]. done.
Qed.

Lemma candidate_in_dir t k :
  dirname t <> [] ->
  dirname (candidate t k) = dirname t /\ candidate t k <> [] /\
  length (dirname t) < length (candidate t k).
Proof.
  intros Hd. unfold candidate. split; [by apply dirname_join|].
  unfold join. split; [by destruct (dirname t)|].
  rewrite length_app. simpl. lia.
Qed.

(** The final destination of a move into the trash lies in the trash. *)
Lemma finalTo_in_trash fs trash x (hc : bool) :
  trash <> [] ->
  let t := join trash x in
  let finalTo := if hc && existsSync fs t then getUniqueFilename fs t else t in
  dirname finalTo = trash /\ finalTo <> [] /\ length trash < length finalTo.
Proof.
  intros Ht t finalTo.
  assert (dirname t = trash) as Hdt by (by apply dirname_join).
  assert (dirname t = trash /\ t <> [] /\ length trash < length t) as Ht0.
  { split; [done|]. unfold t, join. split; [by destruct trash|].
    rewrite length_app. simpl. lia. }
  subst finalTo. destruct (hc && existsSync fs t); [|done].
  destruct (getUniqueFilename_spec fs t) as [[_ ->]|(_ & k & _ & -> & _)]; [done|].
  destruct (candidate_in_dir t k) as (? & ? & ?); [by rewrite Hdt|].
  by rewrite <- Hdt.
Qed.

(** One delete into the trash: it fails and changes nothing, or moves the
    file to the trash path it reports. *)
Lemma safeDelete_trash_step trash clock tick fs f :
  trash <> [] -> stable_trash fs trash -> fs !! f <> Some IDir ->
  let out := safeDelete trash clock tick fs f true in
  (dr_success out.1.1 = false /\ out.1.2 = fs) \/
  (dr_success out.1.1 = true /\
   exists tp n, dr_trashPath out.1.1 = Some tp /\
     fs !! f = Some n /\ is_file n = true /\ f <> [] /\ tp <> [] /\
     dirname tp = trash /\ length trash < length tp /\
     fs !! trash = Some IDir /\ fs !! tp <> Some IDir /\
     out.1.2 = <[tp := n]> (delete f fs)).
Proof.
  intros Ht Hst Hnd out. subst out. unfold safeDelete.
  destruct (existsSync fs f) eqn:Ef; simpl; [|by left].
  apply existsSync_true in Ef as [Hfne [n Hn]].
  assert (is_file n = true) as Hfile.
  { destruct n; [done|]. by rewrite Hn in Hnd. }
  destruct (ensureDirectory fs trash) as [ok fs1] eqn:Ee.
  unfold stable_trash in Hst. rewrite Ee in Hst. simpl in Hst. subst fs1.
  set (t := join trash (pretty (clock tick) +:+ "_" +:+ basename f)).
  assert (dirname t = trash) as Hdt by (by apply dirname_join).
  pose proof (safeMove_file fs f t true n Hn Hfile Hfne) as Hm.
  rewrite Hdt, Ee in Hm. specialize (Hm eq_refl). simpl in Hm.
  destruct (safeMove fs f t true) as [mres fs2]. simpl in Hm.
  destruct Hm as [[Hs ->]|(Hs & Hto & Hne & Hdir & Hfree & ->)]; rewrite Hs; simpl.
  - by left.
  - right. split; [done|]. exists (mr_to mres), n.
    destruct (finalTo_in_trash fs trash
                (pretty (clock tick) +:+ "_" +:+ basename f) true Ht)
      as (Hd & _ & Hlen).
    fold t in Hd, Hlen. cbn [andb] in Hd, Hlen. rewrite Hto.
    rewrite Hd in Hdir. split_and!; done.
Qed.

Lemma renameSync_file_intro (fs : fsmap) f b n :
  fs !! f = Some n -> is_file n = true -> f <> [] -> b <> [] ->
  fs !! dirname b = Some IDir -> fs !! b <> Some IDir ->
  renameSync fs f b = Ok (<[b := n]> (delete f fs)).
Proof.
  intros Hf Hn Hfne Hbne Hd Hb. unfold renameSync.
  destruct f as [|x f]; [done|]. rewrite Hf.
  destruct n as [sz bt mt dg|]; [|done].
  destruct b as [|y b]; [done|]. rewrite Hd.
  destruct (fs !! (y :: b)) as [[| ]|]; done.
Qed.

(** Undoing one completed delete whose trash path was free: the file goes
    back to its original path and the filesystem is as before the
    delete. *)
Lemma rollbackDelete_undo (fs : fsmap) f tp n a :
  type a = delete_a -> from a = f -> to a = tp ->
  fs !! f = Some n -> is_file n = true -> f <> [] -> tp <> [] ->
  fs !! tp = None ->
  fs !! dirname f = Some IDir -> dirname f <> [] ->
  rollbackAction (<[tp := n]> (delete f fs)) a = ((restored, None), fs).
Proof.
  intros Hty Hfrom Hto Hf Hn Hfne Htne Hfree Hdir Hdne.
  assert (tp <> f) as Hneq by (intros ->; congruence).
  assert (dirname f <> tp) as Hd1 by (intros E; rewrite E in Hdir; congruence).
  assert (dirname f <> f) as Hd2.
  { intros E. rewrite E in Hdir. rewrite Hdir in Hf. injection Hf as <-. done. }
  set (fs' := <[tp := n]> (delete f fs)).
  assert (fs' !! tp = Some n) as Htp by apply lookup_insert_eq.
  assert (fs' !! f = None) as Hgone.
  { unfold fs'. rewrite lookup_insert_ne by done. apply lookup_delete_eq. }
  assert (fs' !! dirname f = Some IDir) as Hdir'.
  { unfold fs'. rewrite lookup_insert_ne by done.
    by rewrite lookup_delete_ne. }
  unfold rollbackAction. rewrite Hty. unfold rollbackDelete.
  rewrite Hto, Hfrom.
  assert (fileExists fs' tp = true) as ->.
  { apply existsSync_true. split; [done|]. by exists n. }
  assert (ensureDirectory fs' (dirname f) = (true, fs')) as Hens.
  { apply ensureDirectory_exists, existsSync_true. split; [done|]. by eexists. }
  destruct tp as [|y tp]; [done|]. cbn [andb]. rewrite Hens.
  unfold safeMove.
  assert (existsSync fs' (y :: tp) = true) as ->.
  { apply existsSync_true. split; [done|]. by exists n. }
  cbn [negb]. rewrite Hens. cbn [negb].
  assert (existsSync fs' f = false) as ->.
  { apply existsSync_false. by right. }
  cbn [andb].
  rewrite (renameSync_file_intro fs' (y :: tp) f n Htp Hn Htne Hfne Hdir')
    by (rewrite Hgone; done).
  cbn [mr_success]. do 2 f_equal.
  apply map_eq. intros k. unfold fs'.
  destruct (decide (k = f)) as [->|Hkf].
  - rewrite lookup_insert_eq. done.
  - rewrite lookup_insert_ne by done.
    destruct (decide (k = y :: tp)) as [->|Hkt].
    + rewrite lookup_delete_eq. done.
    + rewrite lookup_delete_ne by done. rewrite lookup_insert_ne by done.
      by rewrite lookup_delete_ne.
Qed.

Lemma rollbackStep_restored cfg st a fs :
  rollbackAction (rl_fs st) a = ((restored, None), fs) ->
  let st' := rollbackStep cfg st a in
  rl_fs st' = fs /\ rl_restored st' = S (rl_restored st) /\
  rl_failed st' = rl_failed st /\ rl_skipped st' = rl_skipped st /\
  exists d, rl_details st' = rl_details st ++ [d] /\ rd_status d = restored.
Proof.
  intros H. unfold rollbackStep. rewrite H. simpl.
  split_and!; try done. eexists. split; reflexivity.
Qed.

(** The delete loop followed by the rollback loop: when every completed
    delete got a trash path of its own that was free, undoing the completed
    deletes last first gives back the filesystem the delete loop started
    from, and every undo is reported as restored. *)
Lemma executeDeletes_then_undo cfg acts fs tick deleted failedN :
  trashPath cfg <> [] ->
  stable_trash fs (trashPath cfg) ->
  Forall (fun a => type a = delete_a /\ fs !! from a <> Some IDir /\
                   fs !! dirname (from a) = Some IDir /\
                   dirname (from a) <> []) acts ->
  let out := executeDeletes cfg true fs tick acts deleted failedN in
  let undone := completedActions out.1.1.2 in
  NoDup (map to undone) ->
  Forall (fun a => length (trashPath cfg) < length (to a) ->
                   fs !! to a = None) undone ->
  forall st, rl_fs st = out.1.1.1.1 ->
    let st' := foldl (rollbackStep cfg) st (rev undone) in
    rl_fs st' = fs /\
    rl_restored st' = rl_restored st + length undone /\
    rl_failed st' = rl_failed st /\ rl_skipped st' = rl_skipped st /\
    (Forall (fun d => rd_status d = restored) (rl_details st) ->
     Forall (fun d => rd_status d = restored) (rl_details st')).
Proof.
  intros Htrash. revert fs tick deleted failedN.
  induction acts as [|a acts IH]; intros fs tick deleted failedN Hst Hpre.
  { simpl. intros _ _ st Hfs. split_and!; first [done|lia]. }
  inversion Hpre as [|? ? (Hty & Hnd & Hdir & Hdne) Hpre']; subst.
  cbn [executeDeletes].
  pose proof (safeDelete_trash_step (trashPath cfg) (now cfg) tick fs (from a)
                Htrash Hst Hnd) as Hstep.
  destruct (safeDelete (trashPath cfg) (now cfg) tick fs (from a) true)
    as [[result fs'] tick']. simpl in Hstep.
  destruct Hstep as [[Hs ->]|(Hs & tp & n & Htp & Hf & Hn & Hfne & Htne & Hdtp
                              & Hlen & Htr & _ & ->)]; rewrite Hs.
  - (* the delete failed *)
    specialize (IH fs tick' deleted (S failedN) Hst Hpre').
    destruct (executeDeletes cfg true fs tick' acts deleted (S failedN))
      as [[[[fs'' tick''] rest'] d'] f'].
    simpl in IH |- *. unfold completedActions in *. simpl.
    exact IH.
  - (* the delete succeeded *)
    rewrite Htp.
    set (fs' := <[tp := n]> (delete (from a) fs)).
    destruct (executeDeletes cfg true fs' tick' acts (S deleted) failedN)
      as [[[[fs'' tick''] rest'] d'] f'] eqn:Eexec.
    simpl. unfold completedActions. simpl. fold (completedActions rest').
    intros Hnodup Hfree st Hfs.
    apply NoDup_cons in Hnodup as [Hnotin Hnodup].
    apply Forall_cons in Hfree as [Hfree1 Hfree']. simpl in Hfree1.
    specialize (Hfree1 Hlen).
    assert (tp <> from a) as Hneq by (intros ->; congruence).
    assert (fs' !! trashPath cfg = Some IDir) as Htr'.
    { unfold fs'. rewrite lookup_insert_ne by (intros ->; congruence).
      rewrite lookup_delete_ne; [done|]. intros E. rewrite E in Hf.
      rewrite Htr in Hf. injection Hf as <-. done. }
    assert (stable_trash fs' (trashPath cfg)) as Hst'.
    { unfold stable_trash. rewrite ensureDirectory_exists; [done|].
      apply existsSync_true. split; [done|]. by eexists. }
    assert (Hpre'' : Forall (fun a0 => type a0 = delete_a /\
                fs' !! from a0 <> Some IDir /\
                fs' !! dirname (from a0) = Some IDir /\
                dirname (from a0) <> []) acts).
    { eapply Forall_impl; [exact Hpre'|]. simpl.
      intros b (Hb1 & Hb2 & Hb3 & Hb4). split_and!; try done.
      - unfold fs'. destruct (decide (from b = tp)) as [->|Hbt].
        + rewrite lookup_insert_eq. intros [= ->]. done.
        + rewrite lookup_insert_ne by done.
          destruct (decide (from b = from a)) as [->|Hba].
          * by rewrite lookup_delete_eq.
          * by rewrite lookup_delete_ne.
      - unfold fs'. rewrite lookup_insert_ne by (intros ->; congruence).
        rewrite lookup_delete_ne; [done|]. intros E. rewrite <- E in Hb3.
        rewrite Hb3 in Hf. injection Hf as <-. done. }
    specialize (IH fs' tick' (S deleted) failedN Hst' Hpre'').
    rewrite Eexec in IH. simpl in IH.
    assert (Hfree'' : Forall (fun a0 => length (trashPath cfg) < length (to a0) ->
                                        fs' !! to a0 = None)
                             (completedActions rest')).
    { apply Forall_forall. intros b Hb Hlb.
      assert (to b <> tp) as Hbt.
      { intros E. apply Hnotin. simpl. rewrite <- E.
        apply list_elem_of_In, in_map, list_elem_of_In. exact Hb. }
      rewrite Forall_forall in Hfree'. specialize (Hfree' b Hb Hlb).
      unfold fs'. rewrite lookup_insert_ne by done.
      destruct (decide (to b = from a)) as [->|Hba].
      - by rewrite lookup_delete_eq.
      - by rewrite lookup_delete_ne. }
    specialize (IH Hnodup Hfree'' st Hfs).
    destruct IH as (IHfs & IHr & IHf & IHs & IHd).
    rewrite foldl_app. simpl.
    set (st1 := foldl (rollbackStep cfg) st (rev (completedActions rest'))) in *.
    pose proof (rollbackDelete_undo fs (from a) tp n
                  (set_to tp (set_status a_completed a))
                  Hty eq_refl eq_refl Hf Hn Hfne Htne Hfree1 Hdir Hdne) as Hundo.
    fold fs' in Hundo. rewrite <- IHfs in Hundo.
    destruct (rollbackStep_restored cfg st1 _ fs Hundo)
      as (H1 & H2 & H3 & H4 & d & H5 & H6).
    split_and!; try done.
    + rewrite H2, IHr. lia.
    + by rewrite H3.
    + by rewrite H4.
    + intros Hall. rewrite H5. apply Forall_app. split; [by apply IHd|].
      by constructor.
Qed.

(** ** The plan and the execution of dedupe *)

(** The delete actions of a plan. *)
Lemma removalActions_planned cfg (mt : bool) hash l tick :
  Forall (fun a => type a = delete_a /\
                   to a = if mt then join (trashPath cfg) (basename (from a))
                          else ([] : path))
         (removalActions cfg mt hash l tick).1 /\
  map from (removalActions cfg mt hash l tick).1 = map df_path l.
Proof.
  revert tick. induction l as [|f l IH]; intros tick; simpl; [by split|].
  specialize (IH (S tick)).
  destruct (removalActions cfg mt hash l (S tick)) as [acts tick''].
  simpl in *. destruct IH as [IH1 IH2]. split; [|by f_equal].
  constructor; [|done]. simpl. by destruct mt.
Qed.

Lemma foldl_groupStep_planned cfg s mt m (st : GroupState) (P : ITransactionAction -> Prop) :
  (forall hash l tick, Forall P (removalActions cfg mt hash l tick).1) ->
  Forall P st.1.1.1.2 ->
  Forall P (foldl (groupStep cfg s mt) st m).1.1.1.2.
Proof.
  intros HP. revert st. induction m as [|[h fl] m IH]; intros st Hst; simpl; [done|].
  apply IH. destruct st as [[[[dups acts] total] saved] tk]. simpl in *.
  destruct (length fl <=? 1); simpl; [done|].
  specialize (HP h (tail (sortByStrategy fl s)) tk).
  destruct (removalActions _ _ _ _ _). simpl in *.
  apply Forall_app. by split.
Qed.

Lemma dedupePlan_planned cfg w dirPath s (mt : bool) :
  Forall (fun a => type a = delete_a /\
                   to a = if mt then join (trashPath cfg) (basename (from a))
                          else ([] : path))
         (dedupePlan cfg w dirPath s mt).1.1.1.2.
Proof.
  unfold dedupePlan, planDedupe. simpl.
  apply foldl_groupStep_planned; [|constructor].
  intros. apply removalActions_planned.
Qed.

(** A permanent delete leaves the type, the source and the (empty)
    destination of every action as planned. *)
Lemma executeDeletes_permanent cfg acts fs tick deleted failedN :
  Forall (fun a => type a = delete_a /\ to a = []) acts ->
  Forall (fun a => type a = delete_a /\ to a = [])
         (executeDeletes cfg false fs tick acts deleted failedN).1.1.2.
Proof.
  revert fs tick deleted failedN.
  induction acts as [|a acts IH]; intros fs tick deleted failedN H; simpl;
    [constructor|].
  inversion H as [|? ? [Ht Hto] Hrest]; subst.
  unfold safeDelete.
  destruct (negb (existsSync fs (from a))); simpl.
  - match goal with |- context [executeDeletes cfg false ?f ?t acts ?d ?g] =>
      specialize (IH f t d g Hrest);
      destruct (executeDeletes cfg false f t acts d g) as [[[[? ?] ?] ?] ?] end.
    simpl in *. constructor; [done|done].
  - destruct (unlinkSync fs (from a)) as [fs1|e]; simpl.
    + match goal with |- context [executeDeletes cfg false ?f ?t acts ?d ?g] =>
        specialize (IH f t d g Hrest);
        destruct (executeDeletes cfg false f t acts d g) as [[[[? ?] ?] ?] ?] end.
      simpl in *. constructor; [done|done].
    + match goal with |- context [executeDeletes cfg false ?f ?t acts ?d ?g] =>
        specialize (IH f t d g Hrest);
        destruct (executeDeletes cfg false f t acts d g) as [[[[? ?] ?] ?] ?] end.
      simpl in *. constructor; [done|done].
Qed.

(** Undoing a delete that recorded no trash copy is a skip that touches
    nothing. *)
Lemma rollbackAction_permanent fs a :
  type a = delete_a -> to a = [] ->
  rollbackAction fs a
  = ((skipped, Some "File was permanently deleted or trash file not found"), fs).
Proof.
  intros Ht Hto. unfold rollbackAction, rollbackDelete. rewrite Ht, Hto. done.
Qed.

Lemma rollbackStep_permanent cfg st a :
  type a = delete_a -> to a = [] ->
  rl_fs (rollbackStep cfg st a) = rl_fs st /\
  rl_restored (rollbackStep cfg st a) = rl_restored st /\
  rl_failed (rollbackStep cfg st a) = rl_failed st /\
  exists d, rl_details (rollbackStep cfg st a) = rl_details st ++ [d] /\
            rd_status d = skipped.
Proof.
  intros Ht Hto. unfold rollbackStep.
  rewrite (rollbackAction_permanent _ _ Ht Hto). simpl.
  repeat split. eexists. split; reflexivity.
Qed.

Lemma rollbackLoop_permanent cfg l st :
  Forall (fun a => type a = delete_a /\ to a = []) l ->
  let st' := foldl (rollbackStep cfg) st l in
  rl_fs st' = rl_fs st /\ rl_restored st' = rl_restored st /\
  rl_failed st' = rl_failed st /\
  (Forall (fun d => rd_status d = skipped) (rl_details st) ->
   Forall (fun d => rd_status d = skipped) (rl_details st')).
Proof.
  revert st. induction l as [|a l IH]; intros st H; simpl; [done|].
  inversion H as [|? ? [Ht Hto] Hrest]; subst.
  specialize (IH (rollbackStep cfg st a) Hrest). simpl in IH.
  destruct IH as (Hfs & Hr & Hf & Hd).
  destruct (rollbackStep_permanent cfg st a Ht Hto)
    as (Hfs1 & Hr1 & Hf1 & d & Hd1 & Hsk).
  rewrite Hfs, Hr, Hf. repeat split; try done.
  intros Hall. apply Hd. rewrite Hd1.
  apply Forall_app. split; [done|]. by constructor.
Qed.

(** The document a successful service call appended is the one [findOne]
    finds under its identifier. *)
Lemma findOne_appended db doc :
  Forall (fun d => has_id (transactionId doc) d = false) db ->
  findOne (db ++ [doc]) (transactionId doc) = Some (length db, doc).
Proof.
  intros Hfresh. unfold findOne. change (length db) with (0 + length db).
  apply findOne_from_intro.
  - rewrite lookup_app_r by lia. by rewrite Nat.sub_diag.
  - unfold has_id. by apply String.eqb_eq.
  - by rewrite take_app_le, firstn_all by lia.
Qed.

(** The second half of the round trip: after a dedupe with the trash
    disabled, the rollback of that transaction reports every completed
    delete as skipped, restores nothing and leaves the filesystem as the
    dedupe left it. *)
Lemma dedupe_permanent_then_rollback cfg w dirPath s res w1 rr w2 :
  dedupe cfg w dirPath false s false = (inr res, w1) ->
  rollback cfg w1 (dd_transactionId res) = (inr rr, w2) ->
  w_fs w2 = w_fs w1 /\
  Forall (fun d => rd_status d = skipped) (rr_details rr) /\
  rs_restoredCount (rr_summary rr) = 0 /\
  rs_failedCount (rr_summary rr) = 0 /\
  rs_skippedCount (rr_summary rr) = ds_deletedCount (dd_summary res).
Proof.
  intros Hd Hr.
  apply dedupe_ok_inv in Hd. simpl in Hd.
  destruct Hd as (_ & Hid & _ & Hfresh & cs & cr & Hdb & _ & Hdel & _).
  set (plan := dedupePlan cfg w dirPath s false) in *.
  set (exec := dedupeExecute cfg (w_fs w) false false plan.1.1.1.2 plan.2) in *.
  set (doc := dedupeDocument _ _ _ _ _ _ _ _ _ _) in Hdb.
  assert (Hacts : Forall (fun a => type a = delete_a /\ to a = []) (actions doc)).
  { simpl. unfold exec, dedupeExecute. simpl.
    pose proof (dedupePlan_planned cfg w dirPath s false) as Hp. fold plan in Hp.
    destruct (0 <? length plan.1.1.1.2); simpl.
    - by apply executeDeletes_permanent.
    - done. }
  apply rollback_ok_inv in Hr as (idx & t & Hf & _ & _ & Hr).
  rewrite Hdb, Hid in Hf.
  pose proof (findOne_appended (w_db w) doc Hfresh) as Hf2.
  change (transactionId doc) with (randomUUID cfg (w_tick w)) in Hf2.
  rewrite Hf2 in Hf. injection Hf as <- <-.
  simpl in Hr. destruct Hr as (_ & Hdet & Hsum & Hfs & _).
  assert (Htodo : Forall (fun a => type a = delete_a /\ to a = [])
                         (reversedActions doc)).
  { unfold reversedActions. apply Forall_rev, Forall_forall.
    intros a Ha. apply list_elem_of_In, filter_In in Ha as [Ha _].
    rewrite Forall_forall in Hacts. apply Hacts. by apply list_elem_of_In. }
  pose proof (rollbackLoop_permanent cfg (reversedActions doc)
    {| rl_fs := w_fs w1; rl_tick := S (w_tick w1); rl_rollbackActions := [];
       rl_details := []; rl_restored := 0; rl_failed := 0; rl_skipped := 0 |}
    Htodo) as Hloop.
  simpl in Hloop. destruct Hloop as (Hfs' & Hres & Hfail & Hall).
  pose proof (foldl_rollbackStep_counts cfg (reversedActions doc)
    {| rl_fs := w_fs w1; rl_tick := S (w_tick w1); rl_rollbackActions := [];
       rl_details := []; rl_restored := 0; rl_failed := 0; rl_skipped := 0 |})
    as Hc. simpl in Hc.
  unfold rollbackLoop in *.
  rewrite Hfs, Hdet, Hsum, Hdel. simpl.
  repeat split; try done.
  - by apply Hall.
  - rewrite Hres, Hfail in Hc. simpl in Hc. rewrite Hc.
    unfold reversedActions. rewrite length_rev.
    pose proof (dedupeExecute_counts cfg (w_fs w) false plan.1.1.1.2 plan.2)
      as (_ & Hcnt & _).
    fold exec in Hcnt. by rewrite Hcnt.
Qed.

(** ** Where the planned deletes come from *)

Lemma hashedFile_inv fs p h df :
  hashedFile fs p = Some (h, df) ->
  df_path df = p /\ p <> [] /\ exists n, fs !! p = Some n /\ is_file n = true.
Proof.
  unfold hashedFile, getFileInfo, calculateFileHash, statSync.
  destruct p as [|x p]; [done|].
  destruct (fs !! (x :: p)) as [[sz bt mt dg|]|] eqn:E; simpl; [|done|done].
  intros [= <- <-]. simpl. split; [done|]. split; [done|]. by eexists.
Qed.

Lemma membersOf_In h df hashed :
  In df (membersOf h hashed) -> In (h, df) hashed.
Proof.
  unfold membersOf. intros H. apply in_map_iff in H as ([h' df'] & <- & H).
  apply filter_In in H as [H Heq]. simpl in Heq.
  apply String.eqb_eq in Heq. by subst.
Qed.

(** Every planned delete is the delete of a member of a group. *)
Lemma foldl_groupStep_sources cfg s mt (m0 m : HashMap) (st : GroupState) :
  let Q := fun a : ITransactionAction =>
             exists h fl df, In (h, fl) m0 /\ In df fl /\ from a = df_path df in
  (forall e, In e m -> In e m0) ->
  Forall Q st.1.1.1.2 ->
  Forall Q (foldl (groupStep cfg s mt) st m).1.1.1.2.
Proof.
  intros Q. revert st. induction m as [|[h fl] m IH]; intros st Hsub Hst; simpl;
    [done|].
  apply IH; [intros e He; apply Hsub; by right|].
  destruct st as [[[[dups acts] total] saved] tk]. simpl in *.
  destruct (length fl <=? 1); simpl; [done|].
  pose proof (removalActions_planned cfg mt h (tail (sortByStrategy fl s)) tk)
    as [_ Hfrom].
  destruct (removalActions _ _ _ _ _) as [newActs tk']. simpl in *.
  apply Forall_app. split; [done|].
  apply Forall_forall. intros a Ha.
  assert (In (from a) (map df_path (tail (sortByStrategy fl s)))) as Hin.
  { rewrite <- Hfrom. apply in_map. by apply list_elem_of_In. }
  apply in_map_iff in Hin as (df & Hdf & Hin).
  exists h, fl, df. split; [apply Hsub; by left|]. split; [|done].
  apply (Permutation_in _ (sortByStrategy_perm fl s)).
  destruct (sortByStrategy fl s); [done|]. by right.
Qed.

(** Every planned delete names a regular file of the listing, in a
    directory that exists. *)
Lemma dedupePlan_sources cfg w dirPath s mt :
  Forall (fun a => type a = delete_a /\
                   (exists n, w_fs w !! from a = Some n /\ is_file n = true) /\
                   w_fs w !! dirname (from a) = Some IDir /\
                   dirname (from a) <> [])
         (dedupePlan cfg w dirPath s mt).1.1.1.2.
Proof.
  pose proof (dedupePlan_planned cfg w dirPath s mt) as Hplanned.
  unfold dedupePlan in *. simpl in *.
  set (L := getAllFiles (w_fs w) dirPath true (fun _ => true)) in *.
  pose proof (buildHashMap_groups (w_fs w) L) as (_ & _ & Hgr).
  pose proof (foldl_groupStep_sources cfg s mt (buildHashMap (w_fs w) L)
                (buildHashMap (w_fs w) L) ([], [], 0, 0%N, S (w_tick w))
                ltac:(done) ltac:(constructor)) as Hsrc.
  fold (planDedupe cfg s mt (buildHashMap (w_fs w) L) (S (w_tick w))) in Hsrc.
  rewrite Forall_forall in Hplanned, Hsrc. apply Forall_forall. intros a Ha.
  destruct (Hplanned a Ha) as [Hty _]. split; [done|].
  destruct (Hsrc a Ha) as (h & fl & df & Hm & Hdf & Hfrom).
  destruct (Hgr h fl Hm) as [-> _].
  apply membersOf_In in Hdf. unfold hashedFiles in Hdf.
  apply list_elem_of_In, list_elem_of_omap in Hdf as (p & Hp & Hh).
  apply hashedFile_inv in Hh as (Hpath & Hne & Hfile).
  rewrite Hfrom, Hpath.
  apply list_elem_of_In, getAllFiles_spec in Hp as [Hl _].
  destruct Hl as (rest & name & -> & _ & _ & _ & Hdirs & Hd).
  assert (dirname (dirPath ++ rest ++ [name]) = dirPath ++ rest) as ->.
  { rewrite app_assoc. apply dirname_join. by destruct dirPath. }
  split; [done|]. split; [|by destruct dirPath].
  specialize (Hdirs (length rest) ltac:(lia)). by rewrite firstn_all in Hdirs.
Qed.

(** ** Dedupe followed by rollback *)

(** The first half of the round trip, away from the exhausted collision
    search: after a dedupe with the trash enabled in which every completed
    delete recorded a trash path of its own that did not exist before, the
    rollback of that transaction reports every completed delete as
    restored, and every entry of the original filesystem is back at its
    path. *)
Lemma dedupe_trash_then_rollback cfg w dirPath s res w1 rr w2 :
  trashPath cfg <> [] ->
  dedupe cfg w dirPath false s true = (inr res, w1) ->
  rollback cfg w1 (dd_transactionId res) = (inr rr, w2) ->
  (forall doc, In doc (w_db w1) ->
     transactionId doc = dd_transactionId res ->
     NoDup (map to (completedActions (actions doc))) /\
     Forall (fun a => w_fs w !! to a = None) (completedActions (actions doc))) ->
  Forall (fun d => rd_status d = restored) (rr_details rr) /\
  rs_restoredCount (rr_summary rr) = ds_deletedCount (dd_summary res) /\
  rs_failedCount (rr_summary rr) = 0 /\
  rs_skippedCount (rr_summary rr) = 0 /\
  (w_fs w2 = w_fs w \/
   w_fs w2 = (ensureDirectory (w_fs w) (trashPath cfg)).2) /\
  (forall k n, w_fs w !! k = Some n -> w_fs w2 !! k = Some n).
Proof.
  intros Htrash Hd Hr Hfresh.
  apply dedupe_ok_inv in Hd. simpl in Hd.
  destruct Hd as (_ & Hid & Hfs1 & Hnew & cs & cr & Hdb & _ & Hdel & _).
  set (plan := dedupePlan cfg w dirPath s true) in *.
  set (exec := dedupeExecute cfg (w_fs w) false true plan.1.1.1.2 plan.2) in *.
  set (doc := dedupeDocument _ _ _ _ _ _ _ _ _ _) in Hdb.
  destruct (Hfresh doc) as [Hnodup Hfree].
  { rewrite Hdb. apply in_or_app. right. by left. }
  { by rewrite Hid. }
  clear Hfresh.
  apply rollback_ok_inv in Hr as (idx & t & Hf & _ & _ & Hr).
  rewrite Hdb, Hid in Hf.
  pose proof (findOne_appended (w_db w) doc Hnew) as Hf2.
  change (transactionId doc) with (randomUUID cfg (w_tick w)) in Hf2.
  rewrite Hf2 in Hf. injection Hf as <- <-.
  simpl in Hr. destruct Hr as (_ & Hdet & Hsum & Hfs2 & _).
  change (actions doc) with exec.1.1.2 in *.
  change (reversedActions doc) with (rev (completedActions exec.1.1.2)) in *.
  rewrite Hfs1 in *.
  pose proof (dedupeExecute_counts cfg (w_fs w) true plan.1.1.1.2 plan.2)
    as (_ & Hcnt & _).
  fold exec in Hcnt.
  pose proof (dedupePlan_sources cfg w dirPath s true) as Hsrc. fold plan in Hsrc.
  unfold rollbackLoop in *.
  set (st0 := {| rl_fs := exec.1.1.1.1; rl_tick := S (w_tick w1);
                 rl_rollbackActions := []; rl_details := [];
                 rl_restored := 0; rl_failed := 0; rl_skipped := 0 |}) in *.
  assert (Hgoal : forall st, rl_fs st = exec.1.1.1.1 ->
    rl_restored st = 0 -> rl_failed st = 0 -> rl_skipped st = 0 ->
    rl_details st = [] ->
    let st' := foldl (rollbackStep cfg) st (rev (completedActions exec.1.1.2)) in
    (rl_fs st' = w_fs w \/
     rl_fs st' = (ensureDirectory (w_fs w) (trashPath cfg)).2) /\
    rl_restored st' = length (completedActions exec.1.1.2) /\
    rl_failed st' = 0 /\ rl_skipped st' = 0 /\
    Forall (fun d => rd_status d = restored) (rl_details st')).
  { clear Hdet Hsum Hfs2 Hcnt Hdel Hdb Hf2 Hfs1. clear doc st0.
    subst exec. unfold dedupeExecute in *. simpl in *.
    intros st Hst0 Hst1 Hst2 Hst3 Hst4.
    destruct (0 <? length plan.1.1.1.2) eqn:El.
    - set (fs0 := (ensureDirectory (w_fs w) (trashPath cfg)).2) in *.
      assert (Hpre : Forall (fun a => type a = delete_a /\
                  fs0 !! from a <> Some IDir /\
                  fs0 !! dirname (from a) = Some IDir /\
                  dirname (from a) <> []) plan.1.1.1.2).
      { eapply Forall_impl; [exact Hsrc|]. simpl.
        intros a (Hty & (n & Hn & Hfile) & Hdir & Hdne). split_and!; try done.
        - unfold fs0. rewrite (ensureDirectory_preserves _ _ _ _ Hn).
          intros [= ->]. done.
        - by apply ensureDirectory_preserves. }
      pose proof (executeDeletes_then_undo cfg plan.1.1.1.2 fs0 plan.2 0 0
                    Htrash (ensureDirectory_stable _ _) Hpre) as Hundo.
      simpl in Hundo.
      match type of Hundo with
      | NoDup _ -> ?F -> _ => assert F as Hfree0
      end.
      { eapply Forall_impl; [exact Hfree|]. simpl. intros a Ha Hlen.
        unfold fs0. by rewrite ensureDirectory_long. }
      specialize (Hundo Hnodup Hfree0 st Hst0).
      destruct Hundo as (H1 & H2 & H3 & H4 & H5).
      split_and!; [by right|lia|lia|lia|].
      apply H5. rewrite Hst4. constructor.
    - simpl in *. apply Nat.ltb_ge in El.
      destruct plan.1.1.1.2; [|simpl in El; lia].
      simpl. split_and!; try done; [by left|]. rewrite Hst4. constructor. }
  specialize (Hgoal st0 eq_refl eq_refl eq_refl eq_refl eq_refl).
  simpl in Hgoal. destruct Hgoal as (Hfs & Hres & Hfail & Hskip & Hall).
  rewrite Hdet, Hsum, Hfs2, Hdel. simpl.
  split_and!; try done.
  - rewrite Hres, Hcnt. done.
  - intros k n Hk. destruct Hfs as [-> | ->]; [done|].
    by apply ensureDirectory_preserves.
Qed.

(** C1, the code at the failing input: three copies of [x.txt] lie under
    [/d], the clock does not advance, and the trash already holds
    [1730000000000_x.txt] with all its 999 candidates.  Dedupe with the
    trash enabled completes both deletes and records the same trash path
    for both, the second move having replaced the first trash copy; the
    rollback restores [/d/p/x.txt], reports [/d/q/x.txt] as skipped, and
    [/d/q/x.txt] is not restored. *)
Theorem dedupe_rollback_loses_file_when_trash_exhausted :
  let d := dedupe cfg_frozen w_full ["/"; "d"] false keep_latest true in
  let r := rollback cfg_frozen d.2 "tx0" in
  let p := ["/"; "d"; "p"; "x.txt"] in
  let q := ["/"; "d"; "q"; "x.txt"] in
  let t999 := ["/"; "trash"; "1730000000000_x_999.txt"] in
  (exists doc, w_db d.2 = [doc] /\ transactionId doc = "tx0" /\
     map (fun a => (from a, to a, status a)) (actions doc)
     = [(q, t999, a_completed); (p, t999, a_completed)]) /\
  (exists rr, r.1 = inr rr /\
     map (fun x => (rd_to x, rd_status x)) (rr_details rr)
     = [(p, restored); (q, skipped)]) /\
  full_trash !! q = Some (IFile 7 2 2 "H") /\
  w_fs r.2 !! q = None.
Proof.
  vm_compute. split; [|split; [|split]].
  - eexists. split; [reflexivity|]. split; reflexivity.
  - eexists. split; reflexivity.
  - reflexivity.
  - reflexivity.
Qed.

(** * Further properties of the helpers and the services *)

(** ** Choosing a free name *)

Lemma getUniqueFilename_free fs t :
  (existsSync fs t = false \/
   exists k, 1 <= k <= 999 /\ existsSync fs (candidate t k) = false) ->
  existsSync fs (getUniqueFilename fs t) = false.
Proof.
  intros H.
  destruct (getUniqueFilename_spec fs t)
    as [[He ->]|(He & k & Hk & -> & Hbelow & Hfree)]; [done|].
  destruct H as [H|(k0 & Hk0 & H0)]; [congruence|].
  destruct (decide (k < 999)) as [Hlt|Hge]; [by apply Hfree|].
  assert (k = 999) as -> by lia.
  destruct (decide (k0 = 999)) as [->|Hne]; [done|].
  rewrite Hbelow in H0 by lia. done.
Qed.

Lemma getUniqueFilename_dirname fs t :
  dirname t <> [] -> dirname (getUniqueFilename fs t) = dirname t.
Proof.
  intros Hd.
  destruct (getUniqueFilename_spec fs t) as [[_ ->]|(_ & k & _ & -> & _)]; [done|].
  by destruct (candidate_in_dir t k Hd) as (? & _).
Qed.

(** X1: as long as the target path is free, or one of its 999 numbered
    candidates is, [getUniqueFilename] returns a path that does not exist:
    the target itself when it is free, and otherwise the candidate with
    the lowest free number, every lower-numbered candidate being taken.
    The path returned lies in the directory of the target. *)
Theorem getUniqueFilename_returns_free_name fs t :
  (existsSync fs t = false \/
   exists k, 1 <= k <= 999 /\ existsSync fs (candidate t k) = false) ->
  existsSync fs (getUniqueFilename fs t) = false /\
  (dirname t <> [] -> dirname (getUniqueFilename fs t) = dirname t) /\
  (existsSync fs t = false -> getUniqueFilename fs t = t) /\
  (existsSync fs t = true ->
   exists k, 1 <= k <= 999 /\ getUniqueFilename fs t = candidate t k /\
     forall j, 1 <= j < k -> existsSync fs (candidate t j) = true).
Proof.
  intros H. split_and!.
  - by apply getUniqueFilename_free.
  - apply getUniqueFilename_dirname.
  - intros He. unfold getUniqueFilename. by rewrite He.
  - intros He.
    destruct (getUniqueFilename_spec fs t)
      as [[He' _]|(_ & k & Hk & Hu & Hbelow & _)]; [congruence|].
    exists k. done.
Qed.

Lemma getUniqueFilename_returns_free_name_witness :
  let t := ["/"; "d"; "a.pdf"] in
  existsSync fs0 (getUniqueFilename fs0 t) = false /\
  (dirname t <> [] -> dirname (getUniqueFilename fs0 t) = dirname t) /\
  (existsSync fs0 t = false -> getUniqueFilename fs0 t = t) /\
  (existsSync fs0 t = true ->
   exists k, 1 <= k <= 999 /\ getUniqueFilename fs0 t = candidate t k /\
     forall j, 1 <= j < k -> existsSync fs0 (candidate t j) = true).
Proof.
  apply (getUniqueFilename_returns_free_name fs0 ["/"; "d"; "a.pdf"]).
  right. exists 1. split; [lia|]. vm_compute. reflexivity.
Defined.

(** ** What a move changes *)




(** X3: with collision handling, a regular file moved into an existing
    directory never replaces anything as long as the destination or one
    of its 999 numbered candidates is free: the move succeeds, the final
    destination is the name [getUniqueFilename] chose, it did not exist
    before, it lies in the requested directory, and the filesystem
    changes by exactly that one rename. *)
Theorem safeMove_resolves_collision fs src dst n :
  fs !! src = Some n -> is_file n = true -> src <> [] ->
  fs !! dirname dst = Some IDir -> dirname dst <> [] ->
  (existsSync fs dst = false \/
   exists k, 1 <= k <= 999 /\ existsSync fs (candidate dst k) = false) ->
  let out := safeMove fs src dst true in
  mr_success out.1 = true /\ mr_error out.1 = None /\
  mr_to out.1 = getUniqueFilename fs dst /\
  fs !! mr_to out.1 = None /\
  dirname (mr_to out.1) = dirname dst /\
  out.2 = <[mr_to out.1 := n]> (delete src fs).
Proof.
  intros Hsrc Hn Hne Hdir Hdne Hfree out. subst out. unfold safeMove.
  assert (existsSync fs src = true) as ->.
  { apply existsSync_true. split; [done|]. by exists n. }
  cbn [negb].
  rewrite (ensureDirectory_exists fs (dirname dst)).
  2:{ apply existsSync_true. split; [done|]. by eexists. }
  cbn [negb andb].
  assert ((if existsSync fs dst then getUniqueFilename fs dst else dst)
          = getUniqueFilename fs dst) as ->.
  { destruct (existsSync fs dst) eqn:E; [done|].
    unfold getUniqueFilename. by rewrite E. }
  pose proof (getUniqueFilename_free fs dst Hfree) as Hnew.
  pose proof (getUniqueFilename_dirname fs dst Hdne) as Hd.
  set (finalTo := getUniqueFilename fs dst) in *.
  assert (finalTo <> []) as Hfne.
  { intros E. rewrite E in Hd. simpl in Hd. congruence. }
  assert (fs !! finalTo = None) as Hnone.
  { apply existsSync_false in Hnew as [?|?]; done. }
  rewrite (renameSync_file_intro fs src finalTo n); try done.
  - by rewrite Hd.
  - by rewrite Hnone.
Qed.

Lemma safeMove_resolves_collision_witness :
  let out := safeMove fs0 ["/"; "d"; "Images"; "r.pdf"] ["/"; "d"; "a.pdf"] true in
  mr_success out.1 = true /\ mr_error out.1 = None /\
  mr_to out.1 = getUniqueFilename fs0 ["/"; "d"; "a.pdf"] /\
  fs0 !! mr_to out.1 = None /\
  dirname (mr_to out.1) = dirname ["/"; "d"; "a.pdf"] /\
  out.2 = <[mr_to out.1 := IFile 3 2 7 "H3"]>
            (delete ["/"; "d"; "Images"; "r.pdf"] fs0).
Proof.
  apply (safeMove_resolves_collision fs0 ["/"; "d"; "Images"; "r.pdf"]
           ["/"; "d"; "a.pdf"] (IFile 3 2 7 "H3")).
  - vm_compute. reflexivity.
  - reflexivity.
  - discriminate.
  - vm_compute. reflexivity.
  - discriminate.
  - right. exists 1. split; [lia|]. vm_compute. reflexivity.
Defined.

(** ** Deleting into the trash *)

Lemma safeDelete_after_ensure trash clock tick fs f :
  existsSync fs f = true ->
  safeDelete trash clock tick fs f true
  = safeDelete trash clock tick (ensureDirectory fs trash).2 f true.
Proof.
  intros Hf. unfold safeDelete. rewrite Hf.
  assert (existsSync (ensureDirectory fs trash).2 f = true) as ->.
  { apply existsSync_true in Hf as [Hne [n Hn]].
    apply existsSync_true. split; [done|]. exists n.
    by apply ensureDirectory_preserves. }
  cbn [negb].
  pose proof (ensureDirectory_stable fs trash) as Hst. unfold stable_trash in Hst.
  destruct (ensureDirectory fs trash) as [ok fs1]. simpl in *.
  destruct (ensureDirectory fs1 trash) as [ok' fs1']. simpl in Hst. by subst fs1'.
Qed.

(** X4: a [safeDelete] into the trash that succeeds on a regular file has
    moved it: the trash path it reports lies directly in the trash
    directory and holds the file's inode (size, timestamps, content), the
    original path is gone, the clock was read once, and every other entry
    of the filesystem is still there. *)
Theorem safeDelete_moves_file_into_trash trash clock tick fs f n :
  trash <> [] -> fs !! f = Some n -> is_file n = true -> f <> [] ->
  let out := safeDelete trash clock tick fs f true in
  dr_success out.1.1 = true ->
  exists tp,
    dr_trashPath out.1.1 = Some tp /\
    dirname tp = trash /\
    out.1.2 !! tp = Some n /\
    (tp <> f -> out.1.2 !! f = None) /\
    (forall k x, k <> f -> k <> tp -> fs !! k = Some x -> out.1.2 !! k = Some x) /\
    out.2 = S tick.
Proof.
  intros Ht Hf Hn Hfne out. subst out.
  assert (existsSync fs f = true) as Hex.
  { apply existsSync_true. split; [done|]. by exists n. }
  assert ((safeDelete trash clock tick fs f true).2 = S tick) as Htick.
  { unfold safeDelete. rewrite Hex. cbn [negb].
    destruct (ensureDirectory fs trash) as [ok fs1].
    destruct (safeMove fs1 f _ true) as [mres fs2].
    by destruct (mr_success mres). }
  rewrite Htick. rewrite (safeDelete_after_ensure _ _ _ _ _ Hex).
  pose proof (ensureDirectory_preserves fs trash) as Hpres.
  set (fs1 := (ensureDirectory fs trash).2) in *.
  assert (fs1 !! f = Some n) as Hf1 by (by apply Hpres).
  destruct (safeDelete_trash_step trash clock tick fs1 f Ht
              (ensureDirectory_stable fs trash))
    as [[Hs _]|(_ & tp & n' & Htp & Hf' & _ & _ & _ & Hd & _ & _ & _ & Hout)].
  { rewrite Hf1. by destruct n. }
  { intros Hs'. congruence. }
  intros _. exists tp. rewrite Hout.
  assert (n' = n) as -> by congruence.
  split_and!; try done.
  - by rewrite lookup_insert_eq.
  - intros Hne. rewrite lookup_insert_ne by done. by rewrite lookup_delete_eq.
  - intros k x Hk1 Hk2 Hk.
    rewrite lookup_insert_ne by done. rewrite lookup_delete_ne by done.
    by apply Hpres.
Qed.

Lemma safeDelete_moves_file_into_trash_witness :
  let out := safeDelete ["/"; "trash"] (fun n => N.of_nat (100 + n)) 2 fs0
               ["/"; "d"; "a.pdf"] true in
  exists tp,
    dr_trashPath out.1.1 = Some tp /\
    dirname tp = ["/"; "trash"] /\
    out.1.2 !! tp = Some (IFile 10 1 5 "H1") /\
    (tp <> ["/"; "d"; "a.pdf"] -> out.1.2 !! ["/"; "d"; "a.pdf"] = None) /\
    (forall k x, k <> ["/"; "d"; "a.pdf"] -> k <> tp ->
       fs0 !! k = Some x -> out.1.2 !! k = Some x) /\
    out.2 = 3.
Proof.
  apply (safeDelete_moves_file_into_trash ["/"; "trash"]
           (fun n => N.of_nat (100 + n)) 2 fs0 ["/"; "d"; "a.pdf"]
           (IFile 10 1 5 "H1")).
  - discriminate.
  - vm_compute. reflexivity.
  - reflexivity.
  - discriminate.
  - vm_compute. reflexivity.
Defined.

(** ** Creating a directory *)

Lemma mkdirp_adds fs dn todo fs' k :
  mkdirp fs dn todo = Ok fs' -> fs !! k = None -> fs' !! k <> None ->
  fs' !! k = Some IDir /\ exists m, k = dn ++ take m todo.
Proof.
  revert fs dn. induction todo as [|s todo IH]; intros fs dn; simpl.
  - intros [= <-] Hk Hk'. done.
  - destruct (fs !! (dn ++ [s])) as [[| ]|] eqn:E; [done| |].
    + intros H Hk Hk'. destruct (IH _ _ H Hk Hk') as [? [m ->]].
      split; [done|]. exists (S m). by rewrite <- app_assoc.
    + intros H Hk Hk'.
      destruct (decide (k = dn ++ [s])) as [->|Hne].
      * split.
        -- eapply mkdirp_preserves; [exact H|]. by rewrite lookup_insert_eq.
        -- exists 1. simpl. by rewrite take_0.
      * destruct (IH _ _ H) as [? [m ->]]; [|done|].
        { by rewrite lookup_insert_ne. }
        split; [done|]. exists (S m). by rewrite <- app_assoc.
Qed.

(** X5: [ensureDirectory] only ever adds directories, and only along the
    requested path: every entry present before keeps its inode, and an
    entry that appears is a directory at a prefix of the path.  When it
    returns [true] the path exists afterwards; when it returns [false]
    nothing changed; when the path already exists -- be it as a regular
    file -- it returns [true] and changes nothing; and calling it a second
    time gives the same answer and changes nothing. *)
Theorem ensureDirectory_only_adds_directories fs d :
  let out := ensureDirectory fs d in
  (forall k n, fs !! k = Some n -> out.2 !! k = Some n) /\
  (forall k, fs !! k = None -> out.2 !! k <> None ->
     out.2 !! k = Some IDir /\ exists m, k = take m d) /\
  (out.1 = true -> existsSync out.2 d = true) /\
  (out.1 = false -> out.2 = fs) /\
  (forall n, d <> [] -> fs !! d = Some n -> out = (true, fs)) /\
  ensureDirectory out.2 d = out.
Proof.
  intros out. subst out. split_and!.
  - apply ensureDirectory_preserves.
  - intros k Hk. unfold ensureDirectory.
    destruct (existsSync fs d); simpl; [congruence|].
    destruct (mkdirSync fs d) as [fs'|e] eqn:Em; simpl; [|congruence].
    unfold mkdirSync in Em. destruct d as [|x d]; [done|].
    intros Hk'. by destruct (mkdirp_adds _ _ _ _ _ Em Hk Hk') as [? [m ->]]; eauto.
  - unfold ensureDirectory. destruct (existsSync fs d) eqn:E; simpl; [done|].
    destruct (mkdirSync fs d) as [fs'|e] eqn:Em; simpl; [|done].
    intros _. unfold mkdirSync in Em. destruct d as [|x d]; [done|].
    apply mkdirp_creates in Em; [|done]. simpl in Em.
    apply existsSync_true. split; [done|]. by eexists.
  - unfold ensureDirectory. destruct (existsSync fs d) eqn:E; simpl; [done|].
    by destruct (mkdirSync fs d).
  - intros n Hne Hn. apply ensureDirectory_exists.
    apply existsSync_true. split; [done|]. by eexists.
  - pose proof (ensureDirectory_stable fs d) as Hst. unfold stable_trash in Hst.
    unfold ensureDirectory in *.
    destruct (existsSync fs d) eqn:E; simpl in *; [by rewrite E|].
    destruct (mkdirSync fs d) as [fs'|e] eqn:Em; simpl in *.
    + destruct (existsSync fs' d) eqn:E'; simpl in *; [done|].
      unfold mkdirSync in Em. destruct d as [|x d]; [done|].
      apply mkdirp_creates in Em; [|done]. simpl in Em.
      apply existsSync_false in E' as [?|E']; [done|]. congruence.
    + by rewrite E, Em.
Qed.

(** ** The listing has no repetition *)

Lemma NoDup_map_inv {A B} (f : A -> B) (l : list A) :
  NoDup (map f l) -> NoDup l.
Proof.
  induction l as [|x l IH]; simpl; [constructor|].
  rewrite !NoDup_cons. intros [Hx Hl]. split; [|by apply IH].
  intros Hin. apply Hx. apply list_elem_of_In, in_map. by apply list_elem_of_In.
Qed.

Lemma flat_map_bind {A B} (f : A -> list B) (l : list A) :
  flat_map f l = l ≫= f.
Proof. induction l as [|x l IH]; [done|]. simpl. by rewrite IH. Qed.

Lemma walk_below fuel fs d recursive filter f :
  In f (walk fuel fs d recursive filter) -> exists tl, f = d ++ tl /\ tl <> [].
Proof.
  intros (rest & name & -> & _)%walk_spec. exists (rest ++ [name]).
  split; [done|]. by destruct rest.
Qed.

Lemma walk_NoDup fuel fs d recursive filter :
  NoDup (walk fuel fs d recursive filter).
Proof.
  revert d. induction fuel as [|fuel IH]; intros d; simpl; [constructor|].
  destruct (readdirSync fs d) as [entries|e] eqn:Hrd; [|constructor].
  apply readdirSync_ok in Hrd as (Hne & Hd & ->).
  rewrite flat_map_bind. apply NoDup_bind.
  - assert (forall (e : string * inode) y,
              y ∈ (let fullPath := join d e.1 in
                   if is_file e.2 then if filter fullPath then [fullPath] else []
                   else if recursive then
                          if negb (skipped_dir e.1)
                          then walk fuel fs fullPath recursive filter else []
                        else []) ->
              exists tl, y = d ++ e.1 :: tl) as Hhead.
    { intros [n nd] y. simpl. intros Hy.
      destruct (is_file nd).
      - destruct (filter (join d n)); [|by apply elem_of_nil in Hy].
        apply list_elem_of_singleton in Hy as ->. by exists [].
      - destruct recursive; [|by apply elem_of_nil in Hy].
        destruct (negb (skipped_dir n)); [|by apply elem_of_nil in Hy].
        apply list_elem_of_In, walk_below in Hy as (tl & -> & _).
        exists tl. unfold join. by rewrite <- app_assoc. }
    intros [n1 nd1] [n2 nd2] y H1 H2 Hy1 Hy2.
    apply Hhead in Hy1 as [tl1 ->]. apply Hhead in Hy2 as [tl2 Heq].
    simpl in Heq. apply app_inv_head in Heq. injection Heq as -> _.
    apply list_elem_of_In, dirents_spec in H1.
    apply list_elem_of_In, dirents_spec in H2. congruence.
  - intros [n nd] _. simpl.
    destruct (is_file nd).
    + destruct (filter (join d n)); [apply NoDup_singleton|constructor].
    + destruct recursive; [|constructor].
      destruct (negb (skipped_dir n)); [apply IH|constructor].
  - eapply NoDup_map_inv, dirents_NoDup.
Qed.

(** X6: [getAllFiles] returns each reachable file exactly once: a path is
    in the result if and only if it is a regular file directly in the
    directory or, for a recursive listing, below it through directories
    none of which is hidden or named [node_modules], and it passes the
    filter; no path occurs twice; and a directory that does not exist (or a
    path that is a regular file) gives the empty list rather than an
    error. *)
Theorem getAllFiles_lists_each_reachable_file_once fs d recursive filter :
  (forall f, In f (getAllFiles fs d recursive filter) <->
             listed fs d recursive f /\ filter f = true) /\
  NoDup (getAllFiles fs d recursive filter) /\
  (fs !! d <> Some IDir -> getAllFiles fs d recursive filter = []).
Proof.
  split_and!.
  - intros f. apply getAllFiles_spec.
  - apply walk_NoDup.
  - intros Hd.
    destruct (getAllFiles fs d recursive filter) as [|f l] eqn:E; [done|].
    assert (In f (getAllFiles fs d recursive filter)) as Hin
      by (rewrite E; by left).
    apply getAllFiles_spec in Hin as [(rest & name & _ & _ & _ & _ & Hdir & _) _].
    specialize (Hdir 0 ltac:(lia)). simpl in Hdir.
    rewrite app_nil_r in Hdir. done.
Qed.

(** ** Categories and extensions *)

Lemma table_get_In tbl k c :
  NoDup (map fst tbl) -> (table_get tbl k = Some c <-> In (k, c) tbl).
Proof.
  induction tbl as [|[k' c'] tbl IH]; simpl; [done|].
  rewrite NoDup_cons. intros [Hk Hnd].
  destruct (String.eqb_spec k' k) as [->|Hne].
  - split.
    + intros [= ->]. by left.
    + intros [[= ->]|Hin]; [done|].
      exfalso. apply Hk. apply list_elem_of_In.
      change k with (k, c).1. by apply in_map.
  - rewrite (IH Hnd). split; [by right|].
    intros [[= -> ->]|?]; done.
Qed.

Lemma EXTENSION_CATEGORIES_NoDup : NoDup (map fst EXTENSION_CATEGORIES).
Proof. apply (bool_decide_unpack _). vm_compute. exact I. Qed.

Lemma EXTENSION_CATEGORIES_not_Others :
  Forall (fun e : string * FileCategory => e.2 <> Others) EXTENSION_CATEGORIES.
Proof. apply (bool_decide_unpack _). vm_compute. exact I. Qed.

Lemma getExtensionsForCategory_In ext c :
  In ext (getExtensionsForCategory c) <-> In (ext, c) EXTENSION_CATEGORIES.
Proof.
  unfold getExtensionsForCategory. rewrite in_map_iff. split.
  - intros ([e c'] & <- & Hin). apply filter_In in Hin as [Hin Hc].
    simpl in *. apply bool_decide_eq_true in Hc. by subst.
  - intros Hin. exists (ext, c). split; [done|].
    apply filter_In. split; [done|]. by apply bool_decide_eq_true.
Qed.

(** X7: [categorizeFile] and [getExtensionsForCategory] agree: a file is
    put in a category other than [Others] exactly when its lower-cased
    extension is one of the extensions listed for that category, and in
    [Others] exactly when its extension is listed for no category at
    all. *)
Theorem categorizeFile_agrees_with_extension_lists f c :
  categorizeFile f = c <->
  (c <> Others /\ In (getExtension f) (getExtensionsForCategory c)) \/
  (c = Others /\ forall c', ~ In (getExtension f) (getExtensionsForCategory c')).
Proof.
  unfold categorizeFile, getExtension.
  set (ext := toLowerCase (extname f)).
  pose proof (table_get_In EXTENSION_CATEGORIES ext) as Hget.
  pose proof EXTENSION_CATEGORIES_not_Others as Hno.
  rewrite Forall_forall in Hno.
  destruct (table_get EXTENSION_CATEGORIES ext) as [c0|] eqn:E.
  - assert (In (ext, c0) EXTENSION_CATEGORIES) as Hin
      by (by apply Hget; [apply EXTENSION_CATEGORIES_NoDup|]).
    split.
    + intros <-. left. split.
      * by apply (Hno (ext, c0)), list_elem_of_In.
      * by apply getExtensionsForCategory_In.
    + intros [[_ Hc]|[_ Hc]].
      * apply getExtensionsForCategory_In, Hget in Hc;
          [congruence|apply EXTENSION_CATEGORIES_NoDup].
      * exfalso. apply (Hc c0). by apply getExtensionsForCategory_In.
  - split.
    + intros <-. right. split; [done|]. intros c' Hc.
      apply getExtensionsForCategory_In, Hget in Hc;
        [congruence|apply EXTENSION_CATEGORIES_NoDup].
    + intros [[_ Hc]|[-> _]]; [|done].
      apply getExtensionsForCategory_In, Hget in Hc;
        [congruence|apply EXTENSION_CATEGORIES_NoDup].
Qed.

(** ** The numbered name keeps the extension *)

Lemma string_app_cons x (a b : string) : String x a +:+ b = String x (a +:+ b).
Proof. reflexivity. Qed.

Lemma string_app_nil_l (b : string) : "" +:+ b = b.
Proof. reflexivity. Qed.

Lemma string_app_nil_r (a : string) : a +:+ "" = a.
Proof. induction a as [|x a IH]; [done|]. by rewrite string_app_cons, IH. Qed.

Lemma string_app_assoc (a b c : string) : (a +:+ b) +:+ c = a +:+ (b +:+ c).
Proof.
  induction a as [|x a IH]; [done|]. by rewrite !string_app_cons, IH.
Qed.

Lemma string_length_app (a b : string) :
  String.length (a +:+ b) = String.length a + String.length b.
Proof.
  induction a as [|x a IH]; [done|]. rewrite string_app_cons. simpl. by rewrite IH.
Qed.

Lemma substring_all (s : string) : substring 0 (String.length s) s = s.
Proof. induction s as [|c s IH]; simpl; [done|]. by rewrite IH. Qed.

Lemma substring_app_l (a b : string) :
  substring 0 (String.length a) (a +:+ b) = a.
Proof.
  induction a as [|x a IH]; [by destruct b|].
  rewrite string_app_cons. simpl. by rewrite IH.
Qed.

Lemma substring_app_r (a b : string) :
  substring (String.length a) (String.length b) (a +:+ b) = b.
Proof.
  induction a as [|x a IH]; [apply substring_all|].
  rewrite string_app_cons. simpl. done.
Qed.

Lemma last_dot_shift s i :
  last_dot s i = (fun j => j + i) <$> last_dot s 0.
Proof.
  revert i. induction s as [|c s IH]; intros i; simpl; [done|].
  rewrite (IH (S i)), (IH 1).
  destruct (last_dot s 0) as [j|]; simpl.
  - f_equal. lia.
  - by destruct (Ascii.eqb c ".").
Qed.

Lemma last_dot_None s i : last_dot s 0 = None -> last_dot s i = None.
Proof. intros H. by rewrite last_dot_shift, H. Qed.

Lemma last_dot_app s t i :
  last_dot (s +:+ t) i
  = match last_dot t (i + String.length s) with
    | Some j => Some j
    | None => last_dot s i
    end.
Proof.
  revert i. induction s as [|c s IH]; intros i.
  - rewrite string_app_nil_l. simpl. rewrite Nat.add_0_r. by destruct (last_dot t i).
  - rewrite string_app_cons. simpl. rewrite IH.
    replace (S i + String.length s) with (i + S (String.length s)) by lia.
    by destruct (last_dot t (i + S (String.length s))).
Qed.

(** A name whose last dot is at [j] splits there. *)
Lemma last_dot_split s j :
  last_dot s 0 = Some j ->
  exists pre e, s = pre +:+ String "." e /\ j = String.length pre /\
                last_dot e 0 = None.
Proof.
  revert j. induction s as [|c s IH]; intros j; simpl; [done|].
  rewrite (last_dot_shift s 1).
  destruct (last_dot s 0) as [j'|] eqn:E; simpl.
  - intros [= <-]. destruct (IH j' eq_refl) as (pre & e & -> & -> & He).
    exists (String c pre), e. rewrite string_app_cons. simpl.
    split_and!; [done|lia|done].
  - destruct (Ascii.eqb_spec c ".") as [->|]; [|done].
    intros [= <-]. by exists "", s.
Qed.

Lemma pretty_N_go_no_dot x s :
  last_dot s 0 = None -> last_dot (pretty_N_go x s) 0 = None.
Proof.
  revert s. induction (N.lt_wf_0 x) as [x _ IH]; intros s Hs.
  assert (x = 0 \/ 0 < x)%N as [->|Hx] by lia.
  - by rewrite pretty_N_go_0.
  - rewrite pretty_N_go_step by done. apply IH.
    { by apply N.div_lt. }
    simpl. rewrite (last_dot_None _ 1 Hs).
    unfold pretty_N_char. by repeat case_match.
Qed.

Lemma pretty_nat_no_dot (k : nat) : last_dot (pretty k) 0 = None.
Proof.
  unfold pretty, pretty_nat, pretty, pretty_N.
  destruct (decide (N.of_nat k = 0%N)); [done|].
  by apply pretty_N_go_no_dot.
Qed.

Lemma extname_str_eq b j :
  last_dot b 0 = Some (S j) -> b <> ".." ->
  extname_str b = substring (S j) (String.length b - S j) b.
Proof.
  intros Hj Hne. unfold extname_str. rewrite Hj.
  apply String.eqb_neq in Hne. by rewrite Hne.
Qed.

Lemma last_dot_dotted pre e :
  last_dot e 0 = None ->
  last_dot (pre +:+ String "." e) 0 = Some (String.length pre).
Proof.
  intros He. rewrite last_dot_app. simpl last_dot.
  by rewrite (last_dot_None e _ He).
Qed.

(** The extension of a name that has one. *)
Lemma extname_str_dotted pre e :
  pre <> "" -> last_dot e 0 = None -> pre +:+ String "." e <> ".." ->
  extname_str (pre +:+ String "." e) = String "." e.
Proof.
  intros Hpre He Hne.
  assert (exists m, String.length pre = S m) as [m Hm].
  { destruct pre; [done|]. by eexists. }
  rewrite (extname_str_eq _ m); [|by rewrite last_dot_dotted, Hm|done].
  rewrite <- Hm, string_length_app, Nat.add_comm, Nat.add_sub.
  apply substring_app_r.
Qed.

(** A suffix without a dot added to a name without extension. *)
Lemma extname_str_plain b sfx :
  extname_str b = "" -> b <> ".." -> last_dot sfx 0 = None ->
  extname_str (b +:+ sfx) = "".
Proof.
  intros Hb Hne Hs.
  destruct (last_dot b 0) as [[|j]|] eqn:E.
  - unfold extname_str. by rewrite last_dot_app, (last_dot_None sfx _ Hs), E.
  - destruct (last_dot_split b (S j) E) as (pre & e & -> & Hj & He).
    rewrite extname_str_dotted in Hb; [done| |done|done].
    destruct pre; [|done]. simpl in Hj. lia.
  - unfold extname_str. by rewrite last_dot_app, (last_dot_None sfx _ Hs), E.
Qed.

Lemma candidate_basename_extname b (k : nat) :
  b <> ".." ->
  extname_str (strip_ext b (extname_str b) +:+ "_" +:+ pretty k +:+ extname_str b)
  = extname_str b.
Proof.
  intros Hne.
  assert (last_dot ("_" +:+ pretty k) 0 = None) as Hsfx.
  { rewrite string_app_cons, string_app_nil_l. simpl.
    by rewrite (last_dot_None _ 1 (pretty_nat_no_dot k)). }
  destruct (last_dot b 0) as [[|j]|] eqn:E.
  - assert (extname_str b = "") as Hb by (unfold extname_str; by rewrite E).
    rewrite Hb. unfold strip_ext. simpl String.length.
    rewrite Nat.sub_0_r, substring_all, string_app_nil_r.
    by apply extname_str_plain.
  - destruct (last_dot_split b (S j) E) as (pre & e & -> & Hj & He).
    assert (pre <> "") as Hpre by (destruct pre; [simpl in Hj; lia|done]).
    rewrite (extname_str_dotted pre e) by done.
    unfold strip_ext.
    rewrite string_length_app, Nat.add_sub, substring_app_l.
    replace (pre +:+ "_" +:+ pretty k +:+ String "." e)
      with ((pre +:+ ("_" +:+ pretty k)) +:+ String "." e)
      by (by rewrite !string_app_assoc).
    apply extname_str_dotted; [|done|].
    + destruct pre; done.
    + intros Hdd. apply (f_equal String.length) in Hdd.
      rewrite !string_length_app in Hdd.
      destruct pre; [done|]. simpl in Hdd. lia.
  - assert (extname_str b = "") as Hb by (unfold extname_str; by rewrite E).
    rewrite Hb. unfold strip_ext. simpl String.length.
    rewrite Nat.sub_0_r, substring_all, string_app_nil_r.
    by apply extname_str_plain.
Qed.

(** X8: the numbered name that [getUniqueFilename] forms keeps the
    extension of the target, so whatever path it returns is put in the
    same category as the target. *)
Theorem getUniqueFilename_keeps_extension_and_category fs t :
  dirname t <> [] -> basename t <> ".." ->
  (forall k, extname (candidate t k) = extname t) /\
  extname (getUniqueFilename fs t) = extname t /\
  getExtension (getUniqueFilename fs t) = getExtension t /\
  categorizeFile (getUniqueFilename fs t) = categorizeFile t.
Proof.
  intros Hd Hb.
  assert (forall k, extname (candidate t k) = extname t) as Hk.
  { intros k. unfold extname at 1, candidate.
    rewrite basename_join by done. unfold extname.
    by apply candidate_basename_extname. }
  assert (extname (getUniqueFilename fs t) = extname t) as He.
  { destruct (getUniqueFilename_spec fs t) as [[_ ->]|(_ & k & _ & -> & _)];
      [done|apply Hk]. }
  split_and!; try done.
  - unfold getExtension. by rewrite He.
  - unfold categorizeFile. by rewrite He.
Qed.

Lemma getUniqueFilename_keeps_extension_and_category_witness :
  let t := ["/"; "d"; "a.pdf"] in
  (forall k, extname (candidate t k) = extname t) /\
  extname (getUniqueFilename fs0 t) = extname t /\
  getExtension (getUniqueFilename fs0 t) = getExtension t /\
  categorizeFile (getUniqueFilename fs0 t) = categorizeFile t.
Proof.
  apply (getUniqueFilename_keeps_extension_and_category fs0 ["/"; "d"; "a.pdf"]);
    discriminate.
Defined.

(** ** The counters of dedupe *)

Lemma removalActions_length cfg mt hash l tick :
  length (removalActions cfg mt hash l tick).1 = length l.
Proof.
  revert tick. induction l as [|f l IH]; intros tick; simpl; [done|].
  specialize (IH (S tick)).
  destruct (removalActions cfg mt hash l (S tick)). simpl in *. by rewrite IH.
Qed.

Lemma removedCount_app l1 l2 :
  removedCount (l1 ++ l2) = removedCount l1 + removedCount l2.
Proof. induction l1 as [|di l1 IH]; simpl; [done|]. rewrite IH. lia. Qed.

Lemma foldl_groupStep_total cfg s mt m (st : GroupState) :
  st.1.1.2 = length st.1.1.1.2 /\ st.1.1.2 = removedCount st.1.1.1.1 ->
  let out := foldl (groupStep cfg s mt) st m in
  out.1.1.2 = length out.1.1.1.2 /\ out.1.1.2 = removedCount out.1.1.1.1.
Proof.
  revert st. induction m as [|[h fl] m IH]; intros st Hst; simpl; [done|].
  apply IH. destruct st as [[[[dups acts] total] saved] tk]. simpl in *.
  destruct (length fl <=? 1); simpl; [done|].
  pose proof (removalActions_length cfg mt h (tail (sortByStrategy fl s)) tk) as Hl.
  destruct (removalActions _ _ _ _ _) as [newActs tk']. simpl in *.
  rewrite length_app, removedCount_app, Hl. simpl.
  rewrite length_imap.
  destruct (sortByStrategy fl s); simpl; lia.
Qed.

Lemma dedupePlan_total cfg w dirPath s mt :
  let plan := dedupePlan cfg w dirPath s mt in
  plan.1.1.2 = length plan.1.1.1.2 /\ plan.1.1.2 = removedCount plan.1.1.1.1.
Proof.
  unfold dedupePlan, planDedupe. simpl. by apply foldl_groupStep_total.
Qed.

Lemma executeDeletes_statuses cfg mt acts fs tick deleted failedN :
  Forall (fun a => status a = a_completed \/ status a = a_failed)
         (executeDeletes cfg mt fs tick acts deleted failedN).1.1.2.
Proof.
  revert fs tick deleted failedN.
  induction acts as [|a acts IH]; intros fs tick deleted failedN; simpl;
    [constructor|].
  destruct (safeDelete _ _ _ _ _ _) as [[result fs'] tick'].
  match goal with |- context [executeDeletes cfg mt fs' tick' acts ?d ?f] =>
    specialize (IH fs' tick' d f);
    destruct (executeDeletes cfg mt fs' tick' acts d f)
      as [[[[fs'' tick''] rest'] d'] f'] end.
  simpl in *. constructor; [|done].
  destruct (dr_success result); [|by right].
  destruct (dr_trashPath result); by left.
Qed.

Lemma dedupe_ok_totals cfg w dirPath dry s mt res w' :
  dedupe cfg w dirPath dry s mt = (inr res, w') ->
  ds_totalDuplicateFiles (dd_summary res)
  = (dedupePlan cfg w dirPath s mt).1.1.2 /\
  ds_totalDuplicateGroups (dd_summary res) = length (dd_duplicates res).
Proof.
  unfold dedupe. destruct (negb (directoryExists _ _)); [done|].
  simpl.
  destruct (dedupePlan cfg w dirPath s mt)
    as [[[[dups acts] total] saved] tick2]. simpl.
  destruct (dedupeExecute cfg (w_fs w) dry mt acts tick2)
    as [[[[fs' tick3] acts'] deleted] failedN]. simpl.
  destruct dry; simpl;
    (destruct (save_new _ _ _) as [db'|] eqn:Hs; [|done]);
    intros [= <- <-]; done.
Qed.

(** X9: the counters of a dedupe add up.  The number of duplicate files it
    reports is the number of delete actions it records, one for every
    member but one of every reported group.  After a run that is not a
    dry run every recorded action is completed or failed, the deleted
    count is the number of completed ones, deleted and failed together
    make up the planned deletes, and the transaction is [completed]
    exactly when nothing failed and [partially_completed] otherwise.  A
    dry run counts no delete and no failure.  When no duplicate is found
    nothing is recorded to do and the filesystem is left as it was. *)
Theorem dedupe_counters_add_up cfg w dirPath dry s mt res w' :
  dedupe cfg w dirPath dry s mt = (inr res, w') ->
  exists doc,
    w_db w' = w_db w ++ [doc] /\
    transactionId doc = dd_transactionId res /\
    t_type doc = dedupe_t /\
    ds_totalDuplicateGroups (dd_summary res) = length (dd_duplicates res) /\
    ds_totalDuplicateFiles (dd_summary res) = length (actions doc) /\
    ds_totalDuplicateFiles (dd_summary res) = removedCount (dd_duplicates res) /\
    totalProcessed (summary doc) = length (actions doc) /\
    deletedCount (summary doc) = ds_deletedCount (dd_summary res) /\
    failedCount (summary doc) = ds_failedCount (dd_summary res) /\
    (dry = false ->
       ds_deletedCount (dd_summary res) + ds_failedCount (dd_summary res)
       = ds_totalDuplicateFiles (dd_summary res) /\
       ds_deletedCount (dd_summary res) = completedCount (actions doc) /\
       Forall (fun a => status a = a_completed \/ status a = a_failed)
              (actions doc) /\
       (ds_failedCount (dd_summary res) = 0 -> t_status doc = completed) /\
       (ds_failedCount (dd_summary res) <> 0 ->
        t_status doc = partially_completed)) /\
    (dry = true ->
       ds_deletedCount (dd_summary res) = 0 /\
       ds_failedCount (dd_summary res) = 0) /\
    (dd_duplicates res = [] -> actions doc = [] /\ w_fs w' = w_fs w).
Proof.
  intros H. pose proof (dedupe_ok_totals _ _ _ _ _ _ _ _ H) as [Htot Hgr].
  apply dedupe_ok_inv in H. simpl in H.
  destruct H as (Hd & Hid & Hfs & _ & cs & cr & Hdb & _ & Hdel & Hfail).
  pose proof (dedupePlan_total cfg w dirPath s mt) as [Hlen Hrem].
  simpl in Hlen, Hrem.
  set (plan := dedupePlan cfg w dirPath s mt) in *.
  eexists. split; [exact Hdb|]. simpl.
  rewrite Hid, Hgr, Htot, Hdel, Hfail, Hd, Hfs.
  assert (length (dedupeExecute cfg (w_fs w) dry mt plan.1.1.1.2 plan.2).1.1.2
          = length plan.1.1.1.2) as Hlen'.
  { unfold dedupeExecute.
    destruct (negb dry && (0 <? length plan.1.1.1.2)); [|done].
    match goal with |- context [executeDeletes cfg mt ?f ?t ?a 0 0] =>
      by destruct (executeDeletes_counts cfg mt a f t 0 0) as (? & _) end. }
  split_and!; try done.
  - by rewrite Hlen'.
  - intros ->.
    match goal with |- context [dedupeExecute cfg ?f false mt ?a ?t] =>
      pose proof (dedupeExecute_counts cfg f mt a t) as (Hl & Hc & _) end.
    simpl in Hl, Hc.
    set (exec := dedupeExecute cfg (w_fs w) false mt plan.1.1.1.2 plan.2) in *.
    assert (exec.1.2 + exec.2 = length plan.1.1.1.2
            /\ Forall (fun a => status a = a_completed \/ status a = a_failed)
                      exec.1.1.2) as [Hsum Hst].
    { unfold exec, dedupeExecute. cbn [negb andb].
      destruct (0 <? length plan.1.1.1.2) eqn:E.
      - match goal with |- context [executeDeletes cfg mt ?f ?t ?a 0 0] =>
          pose proof (executeDeletes_counts cfg mt a f t 0 0) as (_ & _ & Hs);
          pose proof (executeDeletes_statuses cfg mt a f t 0 0) as Hst end.
        simpl in Hs. split; [lia|done].
      - apply Nat.ltb_ge in E. destruct plan.1.1.1.2; [|simpl in E; lia].
        simpl. split; [done|constructor]. }
    split_and!; try done.
    + lia.
    + intros ->. done.
    + intros Hne. destruct exec.2; done.
  - intros ->. unfold dedupeExecute. done.
  - intros Hnil. rewrite Hnil in Hrem. simpl in Hrem.
    assert (plan.1.1.1.2 = []) as Hacts.
    { apply length_zero_iff_nil. lia. }
    rewrite Hacts. unfold dedupeExecute. simpl.
    by rewrite andb_false_r.
Qed.

Lemma dedupe_counters_add_up_witness :
  exists doc,
    w_db w1 = w_db w0 ++ [doc] /\
    transactionId doc = dd_transactionId dd1 /\
    t_type doc = dedupe_t /\
    ds_totalDuplicateGroups (dd_summary dd1) = length (dd_duplicates dd1) /\
    ds_totalDuplicateFiles (dd_summary dd1) = length (actions doc) /\
    ds_totalDuplicateFiles (dd_summary dd1) = removedCount (dd_duplicates dd1) /\
    totalProcessed (summary doc) = length (actions doc) /\
    deletedCount (summary doc) = ds_deletedCount (dd_summary dd1) /\
    failedCount (summary doc) = ds_failedCount (dd_summary dd1) /\
    (false = false ->
       ds_deletedCount (dd_summary dd1) + ds_failedCount (dd_summary dd1)
       = ds_totalDuplicateFiles (dd_summary dd1) /\
       ds_deletedCount (dd_summary dd1) = completedCount (actions doc) /\
       Forall (fun a => status a = a_completed \/ status a = a_failed)
              (actions doc) /\
       (ds_failedCount (dd_summary dd1) = 0 -> t_status doc = completed) /\
       (ds_failedCount (dd_summary dd1) <> 0 ->
        t_status doc = partially_completed)) /\
    (false = true ->
       ds_deletedCount (dd_summary dd1) = 0 /\
       ds_failedCount (dd_summary dd1) = 0) /\
    (dd_duplicates dd1 = [] -> actions doc = [] /\ w_fs w1 = w_fs w0).
Proof.
  apply (dedupe_counters_add_up cfg0 w0 ["/"; "d"] false keep_latest true dd1 w1).
  vm_compute. reflexivity.
Defined.

(** ** The groups of dedupe hold identical, distinct files *)

Lemma hashedFile_full fs p h df :
  hashedFile fs p = Some (h, df) ->
  df_path df = p /\
  fs !! p = Some (IFile (df_size df) (df_createdAt df) (df_modifiedAt df) h).
Proof.
  unfold hashedFile, getFileInfo, calculateFileHash, statSync.
  destruct p as [|x p]; [done|].
  destruct (fs !! (x :: p)) as [[sz bt mt dg|]|] eqn:E; simpl; [|done|done].
  intros [= <- <-]. done.
Qed.

Lemma hashedFiles_In fs paths h df :
  In (h, df) (hashedFiles fs paths) <->
  In (df_path df) paths /\ hashedFile fs (df_path df) = Some (h, df).
Proof.
  unfold hashedFiles. rewrite <- list_elem_of_In, list_elem_of_omap. split.
  - intros (p & Hp & Hh). destruct (hashedFile_full _ _ _ _ Hh) as [<- _].
    split; [by apply list_elem_of_In|done].
  - intros [Hp Hh]. exists (df_path df). split; [by apply list_elem_of_In|done].
Qed.

Lemma hashedFiles_paths_sublist fs paths :
  sublist (map (fun e : string * DupFile => df_path e.2) (hashedFiles fs paths))
          paths.
Proof.
  unfold hashedFiles. induction paths as [|p paths IH]; simpl; [done|].
  destruct (hashedFile fs p) as [[h df]|] eqn:E; simpl.
  - destruct (hashedFile_full _ _ _ _ E) as [-> _]. by apply sublist_skip.
  - by apply sublist_cons.
Qed.

Lemma membersOf_paths_sublist h (hashed : list (string * DupFile)) :
  sublist (map df_path (membersOf h hashed))
          (map (fun e : string * DupFile => df_path e.2) hashed).
Proof.
  unfold membersOf. induction hashed as [|[k f] l IH]; simpl; [done|].
  destruct (String.eqb k h); simpl; [by apply sublist_skip|by apply sublist_cons].
Qed.

Lemma NoDup_map_eq {A B} (f : A -> B) (l : list A) x y :
  NoDup (map f l) -> In x l -> In y l -> f x = f y -> x = y.
Proof.
  induction l as [|z l IH]; simpl; [done|].
  rewrite NoDup_cons. intros [Hz Hnd] [->|Hx] [->|Hy] Heq; try done.
  - exfalso. apply Hz. rewrite Heq. by apply list_elem_of_In, in_map.
  - exfalso. apply Hz. rewrite <- Heq. by apply list_elem_of_In, in_map.
  - by apply IH.
Qed.

Lemma NoDup_Permutation_map {A B} (f : A -> B) (l l' : list A) :
  Permutation l l' -> NoDup (map f l') -> NoDup (map f l).
Proof.
  intros Hp Hnd.
  assert (map f l ≡ₚ map f l') as Hm by (by apply Permutation_map).
  by rewrite Hm.
Qed.

Lemma notKept_duplicateInfoOf s h fl :
  notKept (duplicateInfoOf s h fl) = tail (sortByStrategy fl s).
Proof.
  unfold notKept, duplicateInfoOf. simpl.
  destruct (sortByStrategy fl s) as [|k rest]; [done|].
  rewrite kept_flags. simpl.
  induction rest as [|x rest IH]; simpl; [done|]. by rewrite IH.
Qed.

Lemma di_files_duplicateInfoOf s h fl :
  map fst (di_files (duplicateInfoOf s h fl)) = sortByStrategy fl s.
Proof.
  unfold duplicateInfoOf. simpl.
  destruct (sortByStrategy fl s) as [|k rest]; [done|].
  rewrite kept_flags. simpl. f_equal.
  induction rest as [|x rest IH]; simpl; [done|]. by rewrite IH.
Qed.

Lemma kept_of_duplicateInfoOf s h fl f :
  In (f, true) (di_files (duplicateInfoOf s h fl)) ->
  exists rest, sortByStrategy fl s = f :: rest.
Proof.
  unfold duplicateInfoOf. simpl.
  destruct (sortByStrategy fl s) as [|k rest]; [done|].
  rewrite kept_flags. intros [[= ->]|Hin]; [by eexists|].
  apply in_map_iff in Hin as (? & [=] & _).
Qed.

(** What the groups of a plan are made of. *)
Lemma dedupePlan_groups cfg w dirPath s mt di :
  let listing := getAllFiles (w_fs w) dirPath true (fun _ => true) in
  let hashed := hashedFiles (w_fs w) listing in
  In di (dedupePlan cfg w dirPath s mt).1.1.1.1 ->
  exists h, di = duplicateInfoOf s h (membersOf h hashed) /\ di_hash di = h.
Proof.
  intros listing hashed. unfold dedupePlan. simpl.
  rewrite planDedupe_duplicates. intros Hdi.
  apply in_map_iff in Hdi as ([h fl] & <- & He).
  apply filter_In in He as [He _]. simpl.
  destruct (buildHashMap_groups (w_fs w) listing) as (_ & _ & Hgr).
  destruct (Hgr h fl He) as [-> _]. by exists h.
Qed.

Lemma hashed_paths_NoDup fs d :
  NoDup (map (fun e : string * DupFile => df_path e.2)
             (hashedFiles fs (getAllFiles fs d true (fun _ => true)))).
Proof.
  eapply sublist_NoDup; [apply walk_NoDup|apply hashedFiles_paths_sublist].
Qed.

Lemma group_paths_NoDup cfg w dirPath s mt di :
  In di (dedupePlan cfg w dirPath s mt).1.1.1.1 ->
  NoDup (map (fun x : DupFile * bool => df_path x.1) (di_files di)).
Proof.
  intros Hdi. apply dedupePlan_groups in Hdi as (h & -> & _).
  rewrite <- (map_map fst df_path), di_files_duplicateInfoOf.
  eapply NoDup_Permutation_map; [apply sortByStrategy_perm|].
  eapply sublist_NoDup; [apply hashed_paths_NoDup|apply membersOf_paths_sublist].
Qed.

(** Two entries of reported groups that name the same path are the same
    entry of the same group. *)
Lemma group_entries_by_path cfg w dirPath s mt di1 di2 x1 x2 :
  let dups := (dedupePlan cfg w dirPath s mt).1.1.1.1 in
  In di1 dups -> In di2 dups ->
  In x1 (di_files di1) -> In x2 (di_files di2) ->
  df_path x1.1 = df_path x2.1 ->
  di1 = di2 /\ x1 = x2.
Proof.
  intros dups H1 H2 Hx1 Hx2 Hp.
  pose proof (group_paths_NoDup _ _ _ _ _ _ H2) as Hnd.
  destruct (dedupePlan_groups _ _ _ _ _ _ H1) as (h1 & E1 & _).
  destruct (dedupePlan_groups _ _ _ _ _ _ H2) as (h2 & E2 & _).
  assert (forall h (x : DupFile * bool),
            In x (di_files (duplicateInfoOf s h
                    (membersOf h (hashedFiles (w_fs w)
                       (getAllFiles (w_fs w) dirPath true (fun _ => true)))))) ->
            hashedFile (w_fs w) (df_path x.1) = Some (h, x.1)) as Hh.
  { intros h x Hx. apply (in_map fst) in Hx.
    rewrite di_files_duplicateInfoOf in Hx.
    apply (Permutation_in _ (sortByStrategy_perm _ s)) in Hx.
    apply membersOf_In, hashedFiles_In in Hx as [_ Hx]. done. }
  rewrite E1 in Hx1. rewrite E2 in Hx2.
  pose proof (Hh h1 x1 Hx1) as Hq1. pose proof (Hh h2 x2 Hx2) as Hq2.
  rewrite Hp, Hq2 in Hq1. injection Hq1 as -> _.
  split; [congruence|].
  rewrite <- E2 in Hx1, Hx2.
  by eapply (NoDup_map_eq (fun x : DupFile * bool => df_path x.1)).
Qed.

(** X10: the files that dedupe reports in one group are duplicates of one
    another: each is a regular file of the recursive listing whose size
    and timestamps are the ones reported and whose content hash is the
    hash of the group.  No path occurs twice in a group and no path occurs
    in two groups.  The wasted size of a group is the total size of its
    members that are not kept, which are all its members but one. *)
Theorem dedupe_groups_hold_identical_files cfg w dirPath dry s mt res :
  (dedupe cfg w dirPath dry s mt).1 = inr res ->
  let listing := getAllFiles (w_fs w) dirPath true (fun _ => true) in
  Forall (fun di =>
            (forall f kept, In (f, kept) (di_files di) ->
               In (df_path f) listing /\
               w_fs w !! df_path f
               = Some (IFile (df_size f) (df_createdAt f) (df_modifiedAt f)
                             (di_hash di))) /\
            NoDup (map (fun x : DupFile * bool => df_path x.1) (di_files di)) /\
            di_wastedSize di = sum_sizes (notKept di) /\
            length (notKept di) = length (di_files di) - 1)
         (dd_duplicates res) /\
  (forall di1 di2 x1 x2,
     In di1 (dd_duplicates res) -> In di2 (dd_duplicates res) ->
     In x1 (di_files di1) -> In x2 (di_files di2) ->
     df_path x1.1 = df_path x2.1 -> di1 = di2 /\ x1 = x2).
Proof.
  intros Hres listing.
  destruct (dedupe cfg w dirPath dry s mt) as [r w'] eqn:E.
  simpl in Hres. subst r.
  apply dedupe_ok_inv in E. simpl in E. destruct E as (Hd & _).
  rewrite Hd. split.
  - apply Forall_forall. intros di Hdi. apply list_elem_of_In in Hdi.
    pose proof (group_paths_NoDup _ _ _ _ _ _ Hdi) as Hnd.
    destruct (dedupePlan_groups _ _ _ _ _ _ Hdi) as (h & Edi & Hh).
    split_and!; try done.
    + intros f kept Hf. rewrite Hh.
      rewrite Edi in Hf. apply (in_map fst) in Hf.
      rewrite di_files_duplicateInfoOf in Hf. simpl in Hf.
      apply (Permutation_in _ (sortByStrategy_perm _ s)) in Hf.
      apply membersOf_In, hashedFiles_In in Hf as [Hin Hf].
      split; [done|]. by apply hashedFile_full in Hf as [_ ?].
    + rewrite Edi, notKept_duplicateInfoOf. done.
    + rewrite Edi, notKept_duplicateInfoOf.
      rewrite <- (length_map fst (di_files _)), di_files_duplicateInfoOf.
      destruct (sortByStrategy _ s); simpl; lia.
  - intros di1 di2 x1 x2. apply group_entries_by_path.
Qed.

Lemma dedupe_groups_hold_identical_files_witness :
  let listing := getAllFiles (w_fs w0) ["/"; "d"] true (fun _ => true) in
  Forall (fun di =>
            (forall f kept, In (f, kept) (di_files di) ->
               In (df_path f) listing /\
               w_fs w0 !! df_path f
               = Some (IFile (df_size f) (df_createdAt f) (df_modifiedAt f)
                             (di_hash di))) /\
            NoDup (map (fun x : DupFile * bool => df_path x.1) (di_files di)) /\
            di_wastedSize di = sum_sizes (notKept di) /\
            length (notKept di) = length (di_files di) - 1)
         (dd_duplicates dd1) /\
  (forall di1 di2 x1 x2,
     In di1 (dd_duplicates dd1) -> In di2 (dd_duplicates dd1) ->
     In x1 (di_files di1) -> In x2 (di_files di2) ->
     df_path x1.1 = df_path x2.1 -> di1 = di2 /\ x1 = x2).
Proof.
  apply (dedupe_groups_hold_identical_files cfg0 w0 ["/"; "d"] false
           keep_latest true dd1).
  vm_compute. reflexivity.
Defined.

(** ** Dedupe leaves the kept files alone *)

Lemma foldl_groupStep_froms cfg s mt m (st : GroupState) :
  map from (foldl (groupStep cfg s mt) st m).1.1.1.2
  = map from st.1.1.1.2 ++
    flat_map (fun e : string * list DupFile =>
                map df_path (tail (sortByStrategy e.2 s)))
             (duplicateGroups m).
Proof.
  revert st. induction m as [|[h fl] m IH]; intros st; simpl.
  - by rewrite app_nil_r.
  - rewrite IH. clear IH. unfold duplicateGroups. simpl.
    destruct st as [[[[dups acts] total] saved] tk]. simpl.
    destruct (length fl <=? 1); simpl; [done|].
    pose proof (removalActions_planned cfg mt h (tail (sortByStrategy fl s)) tk)
      as [_ Hfrom].
    destruct (removalActions _ _ _ _ _) as [newActs tk']. simpl in *.
    by rewrite map_app, Hfrom, <- app_assoc.
Qed.

(** The planned deletes are the members that are not kept, group by
    group. *)
Lemma dedupePlan_froms cfg w dirPath s mt :
  let plan := dedupePlan cfg w dirPath s mt in
  map from plan.1.1.1.2
  = flat_map (fun di => map df_path (notKept di)) plan.1.1.1.1.
Proof.
  unfold dedupePlan. simpl. unfold planDedupe.
  rewrite foldl_groupStep_froms, foldl_groupStep_duplicates. simpl.
  induction (duplicateGroups _) as [|[h fl] l IH]; simpl; [done|].
  by rewrite IH, notKept_duplicateInfoOf.
Qed.

Lemma executeDeletes_from cfg mt acts fs tick deleted failedN :
  map from (executeDeletes cfg mt fs tick acts deleted failedN).1.1.2
  = map from acts.
Proof.
  revert fs tick deleted failedN.
  induction acts as [|a acts IH]; intros fs tick deleted failedN; simpl; [done|].
  destruct (safeDelete _ _ _ _ _ _) as [[result fs'] tick'].
  match goal with |- context [executeDeletes cfg mt fs' tick' acts ?d ?f] =>
    specialize (IH fs' tick' d f);
    destruct (executeDeletes cfg mt fs' tick' acts d f)
      as [[[[fs'' tick''] rest'] d'] f'] end.
  simpl in *. rewrite IH. f_equal.
  destruct (dr_success result); [|done]. by destruct (dr_trashPath result).
Qed.

(** A permanent delete loop changes nothing at a path that is not the
    source of one of its actions. *)
Lemma executeDeletes_frame_permanent cfg acts fs tick deleted failedN p :
  Forall (fun a => from a <> p) acts ->
  (executeDeletes cfg false fs tick acts deleted failedN).1.1.1.1 !! p = fs !! p.
Proof.
  revert fs tick deleted failedN.
  induction acts as [|a acts IH]; intros fs tick deleted failedN Hp; simpl;
    [done|].
  apply Forall_cons in Hp as [Ha Hp].
  assert (forall r fs' t', safeDelete (trashPath cfg) (now cfg) tick fs (from a) false
                           = (r, fs', t') -> fs' !! p = fs !! p) as Hstep.
  { unfold safeDelete. destruct (existsSync fs (from a)); simpl.
    - unfold unlinkSync. destruct (from a) as [|x f] eqn:Ef; [by intros ??? [= _ <- _]|].
      destruct (fs !! (x :: f)) as [[| ]|]; intros ??? [= _ <- _]; try done.
      by rewrite lookup_delete_ne.
    - by intros ??? [= _ <- _]. }
  destruct (safeDelete _ _ _ _ _ _) as [[result fs'] tick'] eqn:Es.
  specialize (Hstep _ _ _ eq_refl).
  match goal with |- context [executeDeletes cfg false fs' tick' acts ?d ?f] =>
    specialize (IH fs' tick' d f Hp);
    destruct (executeDeletes cfg false fs' tick' acts d f)
      as [[[[fs'' tick''] rest'] d'] f'] end.
  simpl in *. by rewrite IH.
Qed.

(** A delete loop into the trash changes nothing at a path that is
    neither the source of one of its actions nor the trash path of one of
    its completed actions. *)
Lemma executeDeletes_frame_trash cfg acts fs tick deleted failedN p :
  trashPath cfg <> [] ->
  stable_trash fs (trashPath cfg) ->
  Forall (fun a => fs !! from a <> Some IDir) acts ->
  Forall (fun a => from a <> p) acts ->
  let out := executeDeletes cfg true fs tick acts deleted failedN in
  Forall (fun a => to a <> p) (completedActions out.1.1.2) ->
  out.1.1.1.1 !! p = fs !! p.
Proof.
  intros Htrash. revert fs tick deleted failedN.
  induction acts as [|a acts IH]; intros fs tick deleted failedN Hst Hnd Hp;
    [done|].
  apply Forall_cons in Hnd as [Hnd1 Hnd]. apply Forall_cons in Hp as [Hp1 Hp].
  cbn [executeDeletes].
  pose proof (safeDelete_trash_step (trashPath cfg) (now cfg) tick fs (from a)
                Htrash Hst Hnd1) as Hstep.
  destruct (safeDelete (trashPath cfg) (now cfg) tick fs (from a) true)
    as [[result fs'] tick']. simpl in Hstep.
  destruct Hstep as [[Hs ->]|(Hs & tp & n & Htp & Hf & Hn & Hfne & Htne & Hdtp
                              & Hlen & Htr & _ & ->)]; rewrite Hs.
  - specialize (IH fs tick' deleted (S failedN) Hst Hnd Hp).
    destruct (executeDeletes cfg true fs tick' acts deleted (S failedN))
      as [[[[fs'' tick''] rest'] d'] f'].
    simpl in IH |- *. unfold completedActions in *. simpl. exact IH.
  - rewrite Htp.
    set (fs' := <[tp := n]> (delete (from a) fs)).
    assert (fs' !! trashPath cfg = Some IDir) as Htr'.
    { unfold fs'. rewrite lookup_insert_ne by (intros ->; lia).
      rewrite lookup_delete_ne; [done|]. intros E. rewrite E in Hf.
      rewrite Htr in Hf. injection Hf as <-. done. }
    assert (stable_trash fs' (trashPath cfg)) as Hst'.
    { unfold stable_trash. rewrite ensureDirectory_exists; [done|].
      apply existsSync_true. split; [done|]. by eexists. }
    assert (Forall (fun a0 => fs' !! from a0 <> Some IDir) acts) as Hnd'.
    { eapply Forall_impl; [exact Hnd|]. simpl. intros b Hb. unfold fs'.
      destruct (decide (from b = tp)) as [->|Hbt].
      - rewrite lookup_insert_eq. intros [= ->]. done.
      - rewrite lookup_insert_ne by done.
        destruct (decide (from b = from a)) as [->|Hba].
        + by rewrite lookup_delete_eq.
        + by rewrite lookup_delete_ne. }
    specialize (IH fs' tick' (S deleted) failedN Hst' Hnd' Hp).
    destruct (executeDeletes cfg true fs' tick' acts (S deleted) failedN)
      as [[[[fs'' tick''] rest'] d'] f'].
    simpl in IH |- *. unfold completedActions in *. simpl.
    intros Hto. apply Forall_cons in Hto as [Hto1 Hto]. simpl in Hto1.
    rewrite (IH Hto). unfold fs'.
    rewrite lookup_insert_ne by done. by rewrite lookup_delete_ne.
Qed.

Lemma plan_entry_file cfg w dirPath s mt di (x : DupFile * bool) :
  In di (dedupePlan cfg w dirPath s mt).1.1.1.1 ->
  In x (di_files di) ->
  In (df_path x.1) (getAllFiles (w_fs w) dirPath true (fun _ => true)) /\
  w_fs w !! df_path x.1
  = Some (IFile (df_size x.1) (df_createdAt x.1) (df_modifiedAt x.1) (di_hash di)).
Proof.
  intros Hdi Hx. destruct (dedupePlan_groups _ _ _ _ _ _ Hdi) as (h & Edi & Hh).
  rewrite Hh. rewrite Edi in Hx. apply (in_map fst) in Hx.
  rewrite di_files_duplicateInfoOf in Hx.
  apply (Permutation_in _ (sortByStrategy_perm _ s)) in Hx.
  apply membersOf_In, hashedFiles_In in Hx as [Hin Hx].
  split; [done|]. by apply hashedFile_full in Hx as [_ ?].
Qed.

(** X11: a dedupe that is not a dry run deletes exactly the members that
    are not kept, and never the member it reports as kept.  The sources of
    the recorded actions are, group by group, the paths of the members
    not flagged as kept.  With permanent deletion the file flagged as
    kept in each group is present afterwards exactly as before; with the
    trash enabled the same holds provided that the trash paths recorded
    for the completed deletes did not exist before the run. *)
Theorem dedupe_never_touches_the_kept_file cfg w dirPath s mt res w' :
  dedupe cfg w dirPath false s mt = (inr res, w') ->
  (mt = true ->
     trashPath cfg <> [] /\
     forall doc, In doc (w_db w') ->
       transactionId doc = dd_transactionId res ->
       Forall (fun a => w_fs w !! to a = None) (completedActions (actions doc))) ->
  (exists doc,
     w_db w' = w_db w ++ [doc] /\ transactionId doc = dd_transactionId res /\
     map from (actions doc)
     = flat_map (fun di => map df_path (notKept di)) (dd_duplicates res)) /\
  Forall (fun di =>
            forall f, In (f, true) (di_files di) ->
              is_Some (w_fs w !! df_path f) /\
              w_fs w' !! df_path f = w_fs w !! df_path f)
         (dd_duplicates res).
Proof.
  intros H Hfree.
  pose proof (group_entries_by_path cfg w dirPath s mt) as Hentries.
  pose proof (plan_entry_file cfg w dirPath s mt) as Hcontent.
  simpl in Hentries, Hcontent.
  apply dedupe_ok_inv in H. simpl in H.
  destruct H as (Hd & Hid & Hfs & _ & cs & cr & Hdb & _).
  pose proof (dedupePlan_froms cfg w dirPath s mt) as Hfroms. simpl in Hfroms.
  pose proof (dedupePlan_sources cfg w dirPath s mt) as Hsrc.
  set (plan := dedupePlan cfg w dirPath s mt) in *.
  set (exec := dedupeExecute cfg (w_fs w) false mt plan.1.1.1.2 plan.2) in *.
  assert (map from exec.1.1.2 = map from plan.1.1.1.2) as Hexfrom.
  { unfold exec, dedupeExecute. cbn [negb andb].
    destruct (0 <? length plan.1.1.1.2); [|done]. apply executeDeletes_from. }
  split.
  { eexists. split; [exact Hdb|]. simpl. split; [by rewrite Hid|].
    by rewrite Hexfrom, Hfroms, Hd. }
  rewrite Hd. apply Forall_forall. intros di Hdi f Hf.
  apply list_elem_of_In in Hdi.
  destruct (Hcontent di (f, true) Hdi Hf) as [_ Hlook]. simpl in Hlook.
  split; [by eexists|].
  (* the kept path is the source of no action *)
  assert (Forall (fun a => from a <> df_path f) plan.1.1.1.2) as Hnot.
  { apply Forall_forall. intros a Ha Heq.
    assert (In (from a) (map from plan.1.1.1.2)) as Hin
      by (by apply in_map, list_elem_of_In).
    rewrite Hfroms in Hin. apply in_flat_map in Hin as (di' & Hdi' & Hin).
    apply in_map_iff in Hin as (g & Hg & Hin).
    unfold notKept in Hin. apply in_map_iff in Hin as ([g' b] & Hg' & Hin).
    simpl in Hg'. subst g'. apply filter_In in Hin as [Hin Hb].
    simpl in Hb. apply negb_true_iff in Hb. subst b.
    destruct (Hentries di' di (g, false) (f, true) Hdi' Hdi Hin Hf)
      as [_ [=]]. simpl. congruence. }
  rewrite Hfs. unfold exec, dedupeExecute. cbn [negb andb].
  destruct (0 <? length plan.1.1.1.2) eqn:El; [|done].
  destruct mt.
  - destruct (Hfree eq_refl) as [Htrash Hfree'].
    pose proof (ensureDirectory_preserves (w_fs w) (trashPath cfg) _ _ Hlook)
      as Hlook1.
    rewrite Hlook, <- Hlook1.
    apply executeDeletes_frame_trash; try done.
    + apply ensureDirectory_stable.
    + eapply Forall_impl; [exact Hsrc|]. simpl.
      intros a (_ & (n & Hn & Hfile) & _).
      rewrite (ensureDirectory_preserves _ _ _ _ Hn). intros [= ->]. done.
    + specialize (Hfree' _ ltac:(rewrite Hdb; apply in_or_app; right; by left)
                         ltac:(by rewrite Hid)).
      simpl in Hfree'. unfold exec, dedupeExecute in Hfree'.
      cbn [negb andb] in Hfree'. rewrite El in Hfree'.
      eapply Forall_impl; [exact Hfree'|]. simpl.
      intros a Ha Heq. rewrite Heq in Ha. congruence.
  - by apply executeDeletes_frame_permanent.
Qed.

Lemma dedupe_never_touches_the_kept_file_witness :
  (exists doc,
     w_db w1 = w_db w0 ++ [doc] /\ transactionId doc = dd_transactionId dd1 /\
     map from (actions doc)
     = flat_map (fun di => map df_path (notKept di)) (dd_duplicates dd1)) /\
  Forall (fun di =>
            forall f, In (f, true) (di_files di) ->
              is_Some (w_fs w0 !! df_path f) /\
              w_fs w1 !! df_path f = w_fs w0 !! df_path f)
         (dd_duplicates dd1).
Proof.
  apply (dedupe_never_touches_the_kept_file cfg0 w0 ["/"; "d"] keep_latest true
           dd1 w1).
  - vm_compute. reflexivity.
  - intros _. split; [discriminate|]. intros doc Hin _.
    assert (w_db w1 = [tx0_doc]) as Hdb by (vm_compute; reflexivity).
    rewrite Hdb in Hin. destruct Hin as [<-|[]].
    unfold completedActions. simpl.
    constructor; [vm_compute; reflexivity|constructor].
Defined.

(** ** Dedupe followed by rollback, away from the exhausted search *)

(** X12: dedupe into the trash followed by the rollback of that
    transaction is a round trip, provided that every completed delete
    recorded a trash path of its own that did not exist before the run:
    every undo is reported as restored, none as failed or skipped, the
    restored count is the deleted count, every entry the filesystem had
    before the dedupe is there again with the same inode, and the
    filesystem differs from the original at most by the trash directory
    that was created. *)
Theorem dedupe_into_trash_then_rollback_is_a_round_trip
    cfg w dirPath s res w1 rr w2 :
  trashPath cfg <> [] ->
  dedupe cfg w dirPath false s true = (inr res, w1) ->
  rollback cfg w1 (dd_transactionId res) = (inr rr, w2) ->
  (forall doc, In doc (w_db w1) ->
     transactionId doc = dd_transactionId res ->
     NoDup (map to (completedActions (actions doc))) /\
     Forall (fun a => w_fs w !! to a = None) (completedActions (actions doc))) ->
  Forall (fun d => rd_status d = restored) (rr_details rr) /\
  rs_restoredCount (rr_summary rr) = ds_deletedCount (dd_summary res) /\
  rs_failedCount (rr_summary rr) = 0 /\
  rs_skippedCount (rr_summary rr) = 0 /\
  (w_fs w2 = w_fs w \/
   w_fs w2 = (ensureDirectory (w_fs w) (trashPath cfg)).2) /\
  (forall k n, w_fs w !! k = Some n -> w_fs w2 !! k = Some n).
Proof. apply dedupe_trash_then_rollback. Qed.

Lemma dedupe_into_trash_then_rollback_is_a_round_trip_witness :
  Forall (fun d => rd_status d = restored) (rr_details rr1) /\
  rs_restoredCount (rr_summary rr1) = ds_deletedCount (dd_summary dd1) /\
  rs_failedCount (rr_summary rr1) = 0 /\
  rs_skippedCount (rr_summary rr1) = 0 /\
  (w_fs w2 = w_fs w0 \/
   w_fs w2 = (ensureDirectory (w_fs w0) (trashPath cfg0)).2) /\
  (forall k n, w_fs w0 !! k = Some n -> w_fs w2 !! k = Some n).
Proof.
  apply (dedupe_into_trash_then_rollback_is_a_round_trip cfg0 w0 ["/"; "d"]
           keep_latest dd1 w1 rr1 w2).
  - discriminate.
  - vm_compute. reflexivity.
  - vm_compute. reflexivity.
  - intros doc Hin _.
    assert (w_db w1 = [tx0_doc]) as Hdb by (vm_compute; reflexivity).
    rewrite Hdb in Hin. destruct Hin as [<-|[]].
    unfold completedActions. simpl. split.
    + apply NoDup_singleton.
    + constructor; [vm_compute; reflexivity|constructor].
Defined.

(** X13: after a dedupe that deleted permanently, the rollback of that
    transaction restores nothing: it leaves the filesystem as the dedupe
    left it, reports every completed delete as skipped, none as restored
    or failed, and counts as many skips as the dedupe counted deletes. *)
Theorem permanent_dedupe_then_rollback_restores_nothing
    cfg w dirPath s res w1 rr w2 :
  dedupe cfg w dirPath false s false = (inr res, w1) ->
  rollback cfg w1 (dd_transactionId res) = (inr rr, w2) ->
  w_fs w2 = w_fs w1 /\
  Forall (fun d => rd_status d = skipped) (rr_details rr) /\
  rs_restoredCount (rr_summary rr) = 0 /\
  rs_failedCount (rr_summary rr) = 0 /\
  rs_skippedCount (rr_summary rr) = ds_deletedCount (dd_summary res).
Proof. apply dedupe_permanent_then_rollback. Qed.

Lemma permanent_dedupe_then_rollback_restores_nothing_witness :
  w_fs w_perm2 = w_fs w_perm1 /\
  Forall (fun d => rd_status d = skipped) (rr_details rr_perm) /\
  rs_restoredCount (rr_summary rr_perm) = 0 /\
  rs_failedCount (rr_summary rr_perm) = 0 /\
  rs_skippedCount (rr_summary rr_perm) = ds_deletedCount (dd_summary dd1).
Proof.
  apply (permanent_dedupe_then_rollback_restores_nothing cfg0 w0 ["/"; "d"]
           keep_latest dd1 w_perm1 rr_perm w_perm2).
  - vm_compute. reflexivity.
  - vm_compute. reflexivity.
Defined.

(** ** The counters of organize *)

(** What the planning loop records for each planned move. *)
Lemma foldl_planStep_acts cfg fs dirPath files (st : PlanState) :
  let R := fun (item : OrganizePlan) (a : ITransactionAction) =>
             from a = op_from item /\ to a = op_to item /\
             type a = move_a /\ status a = a_pending in
  Forall2 R st.1.1.1 st.1.1.2 ->
  let out := foldl (planStep cfg fs dirPath) st files in
  Forall2 R out.1.1.1 out.1.1.2.
Proof.
  intros R. revert st. induction files as [|f files IH]; intros st Hst; simpl;
    [done|].
  apply IH. destruct st as [[[plan acts] byCat] tick]. simpl in *.
  unfold planStep. destruct (planItem fs dirPath f) as [item|]; [|done].
  simpl. apply Forall2_app; [done|]. by repeat constructor.
Qed.

(** The per-category counts of the planning loop count the planned items
    of each category. *)
Lemma foldl_planStep_byCategory cfg fs dirPath files (st : PlanState) :
  let count := fun (plan : list OrganizePlan) (key : string) =>
    length (List.filter (fun item => String.eqb (category_name (op_category item)) key)
                        plan) in
  (forall key, st.1.2 !! key
               = if count st.1.1.1 key =? 0 then None
                 else Some (count st.1.1.1 key)) ->
  let out := foldl (planStep cfg fs dirPath) st files in
  forall key, out.1.2 !! key
              = if count out.1.1.1 key =? 0 then None
                else Some (count out.1.1.1 key).
Proof.
  intros count. revert st. induction files as [|f files IH]; intros st Hst; simpl;
    [done|].
  apply IH. destruct st as [[[plan acts] byCat] tick]. simpl in *.
  unfold planStep. destruct (planItem fs dirPath f) as [item|]; [|done].
  simpl. intros key. unfold count. rewrite List.filter_app, length_app. simpl.
  destruct (String.eqb_spec (category_name (op_category item)) key) as [<-|Hne].
  - rewrite lookup_insert_eq, Hst. unfold count. simpl length.
    set (n := length (List.filter _ plan)).
    destruct n; simpl; [done|]. by rewrite Nat.add_1_r.
  - rewrite lookup_insert_ne by done. rewrite Hst. unfold count. simpl length.
    by rewrite Nat.add_0_r.
Qed.

(** The loop that executes the moves, started at the action of its first
    item: it rewrites the actions of its items one by one and counts
    them. *)
Lemma executeMoves_spec fs plan dn todo moved failedN :
  length todo = length plan ->
  let out := executeMoves fs plan (length dn) (dn ++ todo) moved failedN in
  exists todo',
    out.1.1.2 = dn ++ todo' /\ length todo' = length todo /\
    map from todo' = map from todo /\ map type todo' = map type todo /\
    Forall (fun a => status a = a_completed \/ status a = a_failed) todo' /\
    out.1.2 = moved + completedCount todo' /\
    out.1.2 + out.2 = moved + failedN + length plan.
Proof.
  revert fs dn todo moved failedN.
  induction plan as [|item plan IH]; intros fs dn todo moved failedN Hlen.
  { destruct todo; [|done]. simpl. exists []. rewrite app_nil_r.
    unfold completedCount. simpl. split_and!; first [done|lia|constructor]. }
  destruct todo as [|a todo]; [done|]. injection Hlen as Hlen.
  cbn [executeMoves].
  destruct (safeMove fs (op_from item) (op_to item) true) as [result fs'].
  assert (forall f, alter f (length dn) (dn ++ a :: todo) = (dn ++ [f a]) ++ todo)
    as Halter.
  { intros f. rewrite <- app_assoc. simpl.
    rewrite (alter_app_r_alt f dn (a :: todo) (length dn)) by lia.
    by rewrite Nat.sub_diag. }
  rewrite !Halter.
  assert (S (length dn) = length (dn ++ [a])) as Hl1
    by (rewrite length_app; simpl; lia).
  destruct (mr_success result).
  - specialize (IH fs' (dn ++ [set_to (mr_to result) (set_status a_completed a)])
                  todo (S moved) failedN Hlen).
    rewrite length_app in IH. simpl in IH. rewrite Nat.add_1_r in IH.
    destruct IH as (todo' & Ho & Hl & Hf & Ht & Hs & Hm & Hsum).
    exists (set_to (mr_to result) (set_status a_completed a) :: todo').
    rewrite Ho, <- app_assoc. simpl.
    split_and!; try done; try (by f_equal); try lia.
    + by constructor; [left|].
    + rewrite Hm. unfold completedCount. simpl. lia.
  - specialize (IH fs' (dn ++ [set_error (mr_error result) (set_status a_failed a)])
                  todo moved (S failedN) Hlen).
    rewrite length_app in IH. simpl in IH. rewrite Nat.add_1_r in IH.
    destruct IH as (todo' & Ho & Hl & Hf & Ht & Hs & Hm & Hsum).
    exists (set_error (mr_error result) (set_status a_failed a) :: todo').
    rewrite Ho, <- app_assoc. simpl.
    split_and!; try done; try (by f_equal); try lia.
    by constructor; [right|].
Qed.

(** What a successful [organize] did, in terms of its plan and of the
    execution of that plan. *)
Lemma organize_ok_inv cfg w dirPath dry recursive res w' :
  organize cfg w dirPath dry recursive = (inr res, w') ->
  let ps := buildPlan cfg (w_fs w) dirPath
              (getOrganizableFiles (w_fs w) dirPath recursive) (S (w_tick w)) in
  let exec := if negb dry && (0 <? length ps.1.1.1)
              then executeMoves (createCategoryFolders (w_fs w) dirPath)
                                ps.1.1.1 0 ps.1.1.2 0 0
              else (w_fs w, ps.1.1.2, 0, 0) in
  let txId := randomUUID cfg (w_tick w) in
  or_plan res = ps.1.1.1 /\ or_transactionId res = txId /\
  w_fs w' = exec.1.1.1 /\
  os_totalFiles (or_summary res) = length ps.1.1.1 /\
  os_movedCount (or_summary res) = exec.1.2 /\
  os_failedCount (or_summary res) = exec.2 /\
  os_byCategory (or_summary res) = ps.1.2 /\
  Forall (fun d => has_id txId d = false) (w_db w) /\
  exists doc,
    w_db w' = w_db w ++ [doc] /\ transactionId doc = txId /\
    t_type doc = organize_t /\ dryRun doc = dry /\ targetPath doc = dirPath /\
    actions doc = exec.1.1.2 /\
    t_status doc = (if dry then pending
                    else if exec.2 =? 0 then completed
                         else partially_completed) /\
    movedCount (summary doc) = exec.1.2 /\
    failedCount (summary doc) = exec.2 /\
    totalProcessed (summary doc) = length ps.1.1.1.
Proof.
  unfold organize. destruct (negb (directoryExists _ _)); [done|].
  simpl.
  destruct (buildPlan _ _ _ _ _) as [[[plan acts] byCat] tick2]. simpl.
  destruct (if negb dry && (0 <? length plan) then _ else _)
    as [[[fs' acts'] moved] failedN]. simpl.
  destruct dry; simpl;
    (destruct (save_new _ _ _) as [db'|] eqn:Hs; [|done]);
    intros [= <- <-]; apply save_new_inv in Hs as [-> Hfresh];
    simpl; split_and!; try done; eexists; split_and!; reflexivity.
Qed.

(** X14: the counters of an organize add up.  The recorded actions are
    the planned moves, one per plan item and in the order of the plan.
    After a run that is not a dry run every action is completed or
    failed, the moved count is the number of completed ones, moved and
    failed together make up the plan, and the transaction is [completed]
    exactly when nothing failed and [partially_completed] otherwise.  A
    dry run counts no move and no failure.  When the plan is empty nothing
    is changed: not even the category folders are created. *)
Theorem organize_counters_add_up cfg w dirPath dry recursive res w' :
  organize cfg w dirPath dry recursive = (inr res, w') ->
  exists doc,
    w_db w' = w_db w ++ [doc] /\
    transactionId doc = or_transactionId res /\
    t_type doc = organize_t /\
    map from (actions doc) = map op_from (or_plan res) /\
    Forall (fun a => type a = move_a) (actions doc) /\
    os_totalFiles (or_summary res) = length (or_plan res) /\
    totalProcessed (summary doc) = length (or_plan res) /\
    movedCount (summary doc) = os_movedCount (or_summary res) /\
    failedCount (summary doc) = os_failedCount (or_summary res) /\
    (dry = false ->
       os_movedCount (or_summary res) + os_failedCount (or_summary res)
       = length (or_plan res) /\
       os_movedCount (or_summary res) = completedCount (actions doc) /\
       Forall (fun a => status a = a_completed \/ status a = a_failed)
              (actions doc) /\
       (os_failedCount (or_summary res) = 0 -> t_status doc = completed) /\
       (os_failedCount (or_summary res) <> 0 ->
        t_status doc = partially_completed)) /\
    (dry = true ->
       os_movedCount (or_summary res) = 0 /\
       os_failedCount (or_summary res) = 0) /\
    (or_plan res = [] -> actions doc = [] /\ w_fs w' = w_fs w).
Proof.
  intros H. apply organize_ok_inv in H. simpl in H.
  destruct H as (Hplan & Hid & Hfs & Htot & Hmv & Hfl & _ & _ & doc & Hdb & Hdid
                 & Hty & _ & _ & Hacts & Hst & Hdm & Hdf & Hdt).
  pose proof (foldl_planStep_acts cfg (w_fs w) dirPath
                (getOrganizableFiles (w_fs w) dirPath recursive)
                ([], [], ∅, S (w_tick w)) ltac:(constructor)) as Hrel.
  simpl in Hrel.
  fold (buildPlan cfg (w_fs w) dirPath
          (getOrganizableFiles (w_fs w) dirPath recursive) (S (w_tick w))) in Hrel.
  set (ps := buildPlan cfg (w_fs w) dirPath
               (getOrganizableFiles (w_fs w) dirPath recursive) (S (w_tick w))) in *.
  assert (map from ps.1.1.2 = map op_from ps.1.1.1
          /\ Forall (fun a => type a = move_a) ps.1.1.2
          /\ length ps.1.1.2 = length ps.1.1.1) as (Hfrom & Htype & Hlen).
  { clear -Hrel. induction Hrel as [|item a plan acts (Hf & _ & Ht & _) _ IH];
      simpl; [done|].
    destruct IH as (IH1 & IH2 & IH3). split_and!; [by f_equal|by constructor|lia]. }
  pose proof (executeMoves_spec (createCategoryFolders (w_fs w) dirPath)
                ps.1.1.1 [] ps.1.1.2 0 0 Hlen) as Hexec.
  simpl in Hexec. destruct Hexec as (todo' & Ho & Hl & Hf & Ht & Hs & Hm & Hsum).
  exists doc. rewrite Hdid, Hid, Htot, Hmv, Hfl, Hdm, Hdf, Hdt, Hplan, Hacts, Hfs, Hst.
  destruct dry; cbn [negb andb].
  - split_and!; try done. intros Hnil. rewrite Hnil in Hlen.
    by apply length_zero_iff_nil in Hlen.
  - destruct (0 <? length ps.1.1.1) eqn:El.
    + rewrite Ho.
      assert (Forall (fun a => type a = move_a) todo') as Htype'.
      { clear -Ht Htype. revert Ht Htype. generalize ps.1.1.2.
        induction todo' as [|a l IH]; intros [|b l'] Ht Hty; simpl in *;
          try done.
        injection Ht as H1 H2. apply Forall_cons in Hty as [Hb Hty].
        constructor; [congruence|by eapply IH]. }
      split_and!; try done; try congruence.
      * intros _. split_and!; try done; try lia.
        -- intros ->. done.
        -- intros Hne. by destruct ((executeMoves _ _ _ _ _ _).2).
      * intros Hnil. rewrite Hnil in El. done.
    + apply Nat.ltb_ge in El.
      assert (ps.1.1.1 = []) as Hnil by (apply length_zero_iff_nil; lia).
      rewrite Hnil in *. simpl in Hlen.
      apply length_zero_iff_nil in Hlen. rewrite Hlen. simpl.
      unfold completedCount. simpl.
      split_and!; done.
Qed.

Lemma organize_counters_add_up_witness :
  exists doc,
    w_db w_org1 = w_db w0 ++ [doc] /\
    transactionId doc = or_transactionId or1 /\
    t_type doc = organize_t /\
    map from (actions doc) = map op_from (or_plan or1) /\
    Forall (fun a => type a = move_a) (actions doc) /\
    os_totalFiles (or_summary or1) = length (or_plan or1) /\
    totalProcessed (summary doc) = length (or_plan or1) /\
    movedCount (summary doc) = os_movedCount (or_summary or1) /\
    failedCount (summary doc) = os_failedCount (or_summary or1) /\
    (false = false ->
       os_movedCount (or_summary or1) + os_failedCount (or_summary or1)
       = length (or_plan or1) /\
       os_movedCount (or_summary or1) = completedCount (actions doc) /\
       Forall (fun a => status a = a_completed \/ status a = a_failed)
              (actions doc) /\
       (os_failedCount (or_summary or1) = 0 -> t_status doc = completed) /\
       (os_failedCount (or_summary or1) <> 0 ->
        t_status doc = partially_completed)) /\
    (false = true ->
       os_movedCount (or_summary or1) = 0 /\
       os_failedCount (or_summary or1) = 0) /\
    (or_plan or1 = [] -> actions doc = [] /\ w_fs w_org1 = w_fs w0).
Proof.
  apply (organize_counters_add_up cfg0 w0 ["/"; "d"] false false or1 w_org1).
  vm_compute. reflexivity.
Defined.

(** X15: the per-category counts that organize reports count the plan:
    the entry of a category is the number of plan items of that category,
    a category with no plan item has no entry, every key is the name of a
    category, and the counts of all the categories add up to the number
    of planned files. *)
Theorem organize_counts_the_plan_by_category cfg w dirPath dry recursive res :
  (organize cfg w dirPath dry recursive).1 = inr res ->
  let byCategory := os_byCategory (or_summary res) in
  let count := fun c =>
    length (List.filter (fun item => bool_decide (op_category item = c))
                        (or_plan res)) in
  (forall c, default 0 (byCategory !! category_name c) = count c) /\
  (forall c, byCategory !! category_name c = None <-> count c = 0) /\
  (forall key n, byCategory !! key = Some n ->
     0 < n /\ exists c, key = category_name c) /\
  list_sum (map (fun c => default 0 (byCategory !! category_name c))
                getAllCategories)
  = os_totalFiles (or_summary res).
Proof.
  intros Hres byCategory count.
  destruct (organize cfg w dirPath dry recursive) as [r w'] eqn:E.
  simpl in Hres. subst r.
  apply organize_ok_inv in E. simpl in E.
  destruct E as (Hplan & _ & _ & Htot & _ & _ & Hby & _).
  pose proof (foldl_planStep_byCategory cfg (w_fs w) dirPath
                (getOrganizableFiles (w_fs w) dirPath recursive)
                ([], [], ∅, S (w_tick w))) as Hc.
  simpl in Hc. specialize (Hc ltac:(intros key; apply lookup_empty)).
  fold (buildPlan cfg (w_fs w) dirPath
          (getOrganizableFiles (w_fs w) dirPath recursive) (S (w_tick w))) in Hc.
  subst byCategory count. rewrite Htot, Hby, Hplan.
  set (plan := (buildPlan _ _ _ _ _).1.1.1) in *.
  set (byCat := (buildPlan _ _ _ _ _).1.2) in *.
  assert (forall c,
            length (List.filter
                      (fun item => String.eqb (category_name (op_category item))
                                              (category_name c)) plan)
            = length (List.filter (fun item => bool_decide (op_category item = c))
                                  plan)) as Hsame.
  { intros c. f_equal. apply filter_ext. intros item.
    by destruct (op_category item), c. }
  assert (forall c, byCat !! category_name c
                    = if length (List.filter
                                   (fun item => bool_decide (op_category item = c))
                                   plan) =? 0
                      then None
                      else Some (length (List.filter
                                   (fun item => bool_decide (op_category item = c))
                                   plan))) as Hc'.
  { intros c. rewrite Hc. by rewrite Hsame. }
  split_and!.
  - intros c. rewrite Hc'.
    generalize (length (List.filter
                          (fun item => bool_decide (op_category item = c)) plan)).
    by intros [|n].
  - intros c. rewrite Hc'.
    generalize (length (List.filter
                          (fun item => bool_decide (op_category item = c)) plan)).
    by intros [|n].
  - intros key n Hn. rewrite Hc in Hn.
    destruct (List.filter
                (fun item => String.eqb (category_name (op_category item)) key)
                plan) as [|item l] eqn:Ef; [done|].
    simpl in Hn. injection Hn as <-. split; [lia|].
    assert (In item (List.filter
              (fun item => String.eqb (category_name (op_category item)) key)
              plan)) as Hin by (rewrite Ef; by left).
    apply filter_In in Hin as [_ Hin]. apply String.eqb_eq in Hin.
    by exists (op_category item).
  - assert (forall c, default 0 (byCat !! category_name c)
                      = length (List.filter
                                  (fun item => bool_decide (op_category item = c))
                                  plan)) as Hd.
    { intros c. rewrite Hc'.
      generalize (length (List.filter
                            (fun item => bool_decide (op_category item = c)) plan)).
      by intros [|n]. }
    unfold getAllCategories. cbn [map]. rewrite !Hd.
    clear. induction plan as [|item plan IH]; simpl; [done|].
    simpl in IH. destruct (op_category item); simpl; lia.
Qed.

Lemma organize_counts_the_plan_by_category_witness :
  let byCategory := os_byCategory (or_summary or1) in
  let count := fun c =>
    length (List.filter (fun item => bool_decide (op_category item = c))
                        (or_plan or1)) in
  (forall c, default 0 (byCategory !! category_name c) = count c) /\
  (forall c, byCategory !! category_name c = None <-> count c = 0) /\
  (forall key n, byCategory !! key = Some n ->
     0 < n /\ exists c, key = category_name c) /\
  list_sum (map (fun c => default 0 (byCategory !! category_name c))
                getAllCategories)
  = os_totalFiles (or_summary or1).
Proof.
  apply (organize_counts_the_plan_by_category cfg0 w0 ["/"; "d"] false false or1).
  vm_compute. reflexivity.
Defined.

(** ** The queries of the rollback service *)

Section Sorted.
Context {A : Type} (cmp : A -> A -> Z) (rank : A -> Z).
Hypothesis cmp_rank : forall x y, (cmp x y <= 0 <-> rank x <= rank y)%Z.

Lemma insert_by_sorted x (l : list A) :
  sorted_by rank l -> sorted_by rank (insert_by cmp x l).
Proof.
  induction l as [|y l IH]; simpl; [done|].
  intros [Hy Hl]. destruct (cmp x y <=? 0)%Z eqn:E; simpl.
  - apply Z.leb_le, cmp_rank in E. split_and!; try done.
    constructor; [done|]. eapply Forall_impl; [exact Hy|]. simpl. lia.
  - apply Z.leb_gt in E.
    assert (rank y <= rank x)%Z as Hle.
    { destruct (Z.le_gt_cases (rank x) (rank y)) as [H|H]; [|lia].
      apply cmp_rank in H. lia. }
    split; [|by apply IH].
    rewrite insert_by_perm. by constructor.
Qed.

Lemma Array_sort_sorted (l : list A) : sorted_by rank (Array_sort cmp l).
Proof.
  induction l as [|x l IH]; simpl; [done|].
  unfold Array_sort in *. simpl. by apply insert_by_sorted.
Qed.
End Sorted.

Lemma sorted_by_lookup {A} (rank : A -> Z) (l : list A) i j a b :
  sorted_by rank l -> i < j -> l !! i = Some a -> l !! j = Some b ->
  (rank a <= rank b)%Z.
Proof.
  revert i j. induction l as [|x l IH]; intros i j; simpl; [done|].
  intros [Hx Hl] Hij Hi Hj. destruct j as [|j]; [lia|]. simpl in Hj.
  destruct i as [|i]; simpl in Hi.
  - injection Hi as ->. rewrite Forall_forall in Hx. apply Hx.
    by eapply list_elem_of_lookup_2.
  - apply (IH i j); try done. lia.
Qed.

(** X16: the two queries of the rollback service.
    [getRollbackableTransactions] returns the documents of the ledger that
    are not dry runs and whose status is [completed] or
    [partially_completed] -- never a pending, failed or rolled-back one --
    each as often as the ledger holds it, the most recently created
    first; [getRollbackHistory] returns the documents of type [rollback]
    in the same way. *)
Theorem rollback_queries_filter_and_sort_newest_first db :
  (forall t, In t (getRollbackableTransactions db) <->
     In t db /\
     (t_status t = completed \/ t_status t = partially_completed) /\
     dryRun t = false) /\
  Permutation (getRollbackableTransactions db) (List.filter rollbackable db) /\
  (forall i j a b, i < j ->
     getRollbackableTransactions db !! i = Some a ->
     getRollbackableTransactions db !! j = Some b ->
     (createdAt b <= createdAt a)%N) /\
  (forall t, In t (getRollbackHistory db) <-> In t db /\ t_type t = rollback_t) /\
  Permutation (getRollbackHistory db)
              (List.filter (fun t => bool_decide (t_type t = rollback_t)) db) /\
  (forall i j a b, i < j ->
     getRollbackHistory db !! i = Some a ->
     getRollbackHistory db !! j = Some b ->
     (createdAt b <= createdAt a)%N).
Proof.
  assert (forall l : list ITransaction,
            sorted_by (fun t => (- Z.of_N (createdAt t))%Z)
              (Array_sort (fun a b => Z.of_N (createdAt b) - Z.of_N (createdAt a))%Z
                          l)) as Hsorted.
  { intros l. apply Array_sort_sorted. intros x y. lia. }
  split_and!.
  - intros t. unfold getRollbackableTransactions.
    rewrite Array_sort_In, filter_In. unfold rollbackable.
    rewrite andb_true_iff, orb_true_iff, negb_true_iff,
      !bool_decide_eq_true. tauto.
  - apply Array_sort_perm.
  - intros i j a b Hij Ha Hb.
    pose proof (sorted_by_lookup _ _ i j a b (Hsorted _) Hij Ha Hb) as Hle.
    simpl in Hle. lia.
  - intros t. unfold getRollbackHistory.
    rewrite Array_sort_In, filter_In, bool_decide_eq_true. tauto.
  - apply Array_sort_perm.
  - intros i j a b Hij Ha Hb.
    pose proof (sorted_by_lookup _ _ i j a b (Hsorted _) Hij Ha Hb) as Hle.
    simpl in Hle. lia.
Qed.

(** ** The ledger after a rollback *)

Lemma findOne_unique db id idx t j t' :
  NoDup (map transactionId db) ->
  findOne db id = Some (idx, t) ->
  db !! j = Some t' -> transactionId t' = id -> j = idx.
Proof.
  intros Hnd Hf Hj Hid. apply findOne_lookup in Hf as [Hidx Hid'].
  eapply NoDup_lookup; [exact Hnd| |].
  - change (map transactionId db) with (transactionId <$> db).
    rewrite list_lookup_fmap, Hj. simpl. by rewrite Hid.
  - change (map transactionId db) with (transactionId <$> db).
    rewrite list_lookup_fmap, Hidx. simpl. by rewrite Hid'.
Qed.

Lemma has_id_false_iff id t : has_id id t = false <-> transactionId t <> id.
Proof. unfold has_id. apply String.eqb_neq. Qed.

Lemma NoDup_ids_snoc db doc :
  NoDup (map transactionId db) ->
  Forall (fun d => has_id (transactionId doc) d = false) db ->
  NoDup (map transactionId (db ++ [doc])).
Proof.
  intros Hnd Hfresh. rewrite map_app. simpl. apply NoDup_app. split_and!.
  - done.
  - intros x Hx Hx'. apply list_elem_of_singleton in Hx'. subst x.
    apply list_elem_of_In, in_map_iff in Hx as (d & Hd & Hin).
    rewrite Forall_forall in Hfresh.
    specialize (Hfresh d ltac:(by apply list_elem_of_In)).
    apply has_id_false_iff in Hfresh. done.
  - apply NoDup_singleton.
Qed.

(** X17: a successful rollback marks the original and links the two
    documents.  In a ledger whose identifiers are unique, afterwards the
    document found under the original identifier is the original with its
    status set to [rolled_back], its rollback identifier set to that of
    the new rollback transaction and everything else unchanged; no
    document with the original identifier is offered for rollback any
    more; the rollback history holds the new rollback transaction; and the
    identifiers are still unique. *)
Theorem rollback_marks_the_original cfg w id rr w' :
  rollback cfg w id = (inr rr, w') ->
  NoDup (map transactionId (w_db w)) ->
  (exists idx t t',
     findOne (w_db w) id = Some (idx, t) /\
     findOne (w_db w') id = Some (idx, t') /\
     t_status t' = rolled_back /\
     rollbackTransactionId t' = Some (rr_rollbackTransactionId rr) /\
     is_Some (rolledBackAt t') /\
     transactionId t' = id /\ t_type t' = t_type t /\ actions t' = actions t /\
     summary t' = summary t /\ dryRun t' = dryRun t /\
     createdAt t' = createdAt t) /\
  (forall d, In d (getRollbackableTransactions (w_db w')) ->
     transactionId d <> id) /\
  (exists doc, In doc (getRollbackHistory (w_db w')) /\
     transactionId doc = rr_rollbackTransactionId rr) /\
  length (w_db w') = S (length (w_db w)) /\
  NoDup (map transactionId (w_db w')).
Proof.
  intros H Hnd.
  apply rollback_ok_inv in H as (idx & t & Hf & Hst & Hdry & H).
  simpl in H. destruct H as (Hrid & _ & _ & _ & Hfresh & Hdb).
  pose proof (findOne_lookup _ _ _ _ Hf) as [Hidx Hid].
  set (rid := randomUUID cfg (w_tick w)) in *.
  set (st := rollbackLoop cfg (w_fs w) (S (w_tick w)) (reversedActions t)) in *.
  set (doc := rollbackDocument rid t (reversedActions t) st
                (now cfg (rl_tick st)) (now cfg (S (rl_tick st)))) in *.
  set (m := mark_rolled_back (now cfg (S (S (rl_tick st)))) rid t) in *.
  destruct (ledger_after_rollback (w_db w) idx t m doc id Hf) as [Happ Hlt].
  rewrite Happ in Hdb.
  assert (transactionId doc = rid) as Hdocid by done.
  assert (rid <> id) as Hrid_ne.
  { rewrite Forall_forall in Hfresh.
    specialize (Hfresh t ltac:(by eapply list_elem_of_lookup_2)).
    apply has_id_false_iff in Hfresh. congruence. }
  split_and!.
  - exists idx, t, m. split; [done|]. split.
    + rewrite Hdb, <- Happ. by apply findOne_after_mark.
    + rewrite Hrid. split_and!; done.
  - intros d Hd Heq.
    apply Array_sort_In, filter_In in Hd as [Hd Hrb].
    rewrite Hdb in Hd. apply in_app_or in Hd as [Hd|[<-|[]]].
    + apply list_elem_of_In, list_elem_of_lookup in Hd as [j Hj].
      destruct (decide (j = idx)) as [->|Hne].
      * rewrite list_lookup_insert_eq in Hj by done.
        injection Hj as <-. done.
      * rewrite list_lookup_insert_ne in Hj by done.
        by apply Hne, (findOne_unique (w_db w) id idx t j d).
    + congruence.
  - exists doc. split; [|by rewrite Hrid].
    apply Array_sort_In, filter_In. split.
    + rewrite Hdb. apply in_or_app. right. by left.
    + by apply bool_decide_eq_true.
  - rewrite Hdb, length_app, length_insert. simpl. lia.
  - rewrite Hdb.
    assert (map transactionId (<[idx := m]> (w_db w)) = map transactionId (w_db w))
      as Hsame.
    { change (transactionId <$> <[idx := m]> (w_db w) = transactionId <$> w_db w).
      rewrite list_fmap_insert. apply list_insert_id.
      by rewrite list_lookup_fmap, Hidx. }
    rewrite map_app, Hsame, <- map_app. by apply NoDup_ids_snoc.
Qed.

Lemma rollback_marks_the_original_witness :
  (exists idx t t',
     findOne (w_db w1) "tx0" = Some (idx, t) /\
     findOne (w_db w2) "tx0" = Some (idx, t') /\
     t_status t' = rolled_back /\
     rollbackTransactionId t' = Some (rr_rollbackTransactionId rr1) /\
     is_Some (rolledBackAt t') /\
     transactionId t' = "tx0" /\ t_type t' = t_type t /\ actions t' = actions t /\
     summary t' = summary t /\ dryRun t' = dryRun t /\
     createdAt t' = createdAt t) /\
  (forall d, In d (getRollbackableTransactions (w_db w2)) ->
     transactionId d <> "tx0") /\
  (exists doc, In doc (getRollbackHistory (w_db w2)) /\
     transactionId doc = rr_rollbackTransactionId rr1) /\
  length (w_db w2) = S (length (w_db w1)) /\
  NoDup (map transactionId (w_db w2)).
Proof.
  apply (rollback_marks_the_original cfg0 w1 "tx0" rr1 w2).
  - vm_compute. reflexivity.
  - assert (w_db w1 = [tx0_doc]) as -> by (vm_compute; reflexivity).
    simpl. apply NoDup_singleton.
Defined.

(** ** The ledger only grows *)

Lemma organize_error_ledger cfg w dirPath dry recursive e w' :
  organize cfg w dirPath dry recursive = (inl e, w') -> w_db w' = w_db w.
Proof.
  unfold organize. destruct (negb (directoryExists _ _)); [by intros [= _ <-]|].
  simpl.
  destruct (buildPlan _ _ _ _ _) as [[[plan acts] byCat] tick2]. simpl.
  destruct (if negb dry && (0 <? length plan) then _ else _)
    as [[[fs' acts'] moved] failedN]. simpl.
  destruct dry; simpl; destruct (save_new _ _ _); try done;
    by intros [= _ <-].
Qed.

Lemma dedupe_error_ledger cfg w dirPath dry s mt e w' :
  dedupe cfg w dirPath dry s mt = (inl e, w') -> w_db w' = w_db w.
Proof.
  unfold dedupe. destruct (negb (directoryExists _ _)); [by intros [= _ <-]|].
  simpl.
  destruct (dedupePlan cfg w dirPath s mt)
    as [[[[dups acts] total] saved] tick2]. simpl.
  destruct (dedupeExecute cfg (w_fs w) dry mt acts tick2)
    as [[[[fs' tick3] acts'] deleted] failedN]. simpl.
  destruct dry; simpl; destruct (save_new _ _ _); try done;
    by intros [= _ <-].
Qed.

Lemma rollback_error_ledger cfg w id e w' :
  rollback cfg w id = (inl e, w') -> w_db w' = w_db w.
Proof.
  unfold rollback.
  destruct (findOne (w_db w) id) as [[idx t]|]; [|by intros [= _ <-]].
  case_bool_decide; [by intros [= _ <-]|].
  destruct (dryRun t); [by intros [= _ <-]|].
  simpl. destruct (save_new _ _ _); [done|]. by intros [= _ <-].
Qed.

(** X18: the ledger only grows, and its identifiers stay unique.  A call
    of [organize] or [dedupe] leaves the ledger as it was or appends one
    document whose identifier is new; a call of [rollback] leaves it as
    it was or appends one document with a new identifier and rewrites one
    existing document without changing its identifier.  So no document is
    ever removed or moved, and a ledger whose identifiers are unique keeps
    them unique through every call, whatever its outcome. *)
Theorem ledger_only_grows cfg w :
  let grows := fun (db db' : list ITransaction) =>
    (db' = db \/
     exists doc, length db' = S (length db) /\
       map transactionId db' = map transactionId db ++ [transactionId doc] /\
       ~ In (transactionId doc) (map transactionId db)) /\
    (NoDup (map transactionId db) -> NoDup (map transactionId db')) in
  (forall dirPath dry recursive,
     grows (w_db w) (w_db (organize cfg w dirPath dry recursive).2) /\
     (w_db (organize cfg w dirPath dry recursive).2 = w_db w \/
      exists doc, w_db (organize cfg w dirPath dry recursive).2 = w_db w ++ [doc])) /\
  (forall dirPath dry s mt,
     grows (w_db w) (w_db (dedupe cfg w dirPath dry s mt).2) /\
     (w_db (dedupe cfg w dirPath dry s mt).2 = w_db w \/
      exists doc, w_db (dedupe cfg w dirPath dry s mt).2 = w_db w ++ [doc])) /\
  (forall id, grows (w_db w) (w_db (rollback cfg w id).2)).
Proof.
  intros grows.
  assert (forall db doc,
            Forall (fun d => has_id (transactionId doc) d = false) db ->
            ~ In (transactionId doc) (map transactionId db)) as Hfresh_in.
  { intros db doc Hf Hin. apply in_map_iff in Hin as (d & Hd & Hin).
    rewrite Forall_forall in Hf.
    specialize (Hf d ltac:(by apply list_elem_of_In)).
    by apply has_id_false_iff in Hf. }
  assert (forall db doc,
            Forall (fun d => has_id (transactionId doc) d = false) db ->
            grows db (db ++ [doc])) as Hsnoc.
  { intros db doc Hf. split.
    - right. exists doc. rewrite length_app, map_app. simpl.
      split_and!; [lia|done|by apply Hfresh_in].
    - intros Hnd. by apply NoDup_ids_snoc. }
  assert (forall db, grows db db) as Hrefl.
  { intros db. split; [by left|done]. }
  split_and!.
  - intros dirPath dry recursive.
    destruct (organize cfg w dirPath dry recursive) as [[e|res] w'] eqn:E; simpl.
    + rewrite (organize_error_ledger _ _ _ _ _ _ _ E). split; [done|by left].
    + apply organize_ok_inv in E. simpl in E.
      destruct E as (_ & _ & _ & _ & _ & _ & _ & Hf & doc & -> & Hid & _).
      split; [|right; by eexists]. apply Hsnoc. by rewrite Hid.
  - intros dirPath dry s mt.
    destruct (dedupe cfg w dirPath dry s mt) as [[e|res] w'] eqn:E; simpl.
    + rewrite (dedupe_error_ledger _ _ _ _ _ _ _ _ E). split; [done|by left].
    + apply dedupe_ok_inv in E. simpl in E.
      destruct E as (_ & _ & _ & Hf & cs & cr & -> & _).
      split; [|right; by eexists]. by apply Hsnoc.
  - intros id.
    destruct (rollback cfg w id) as [[e|rr] w'] eqn:E; simpl.
    + by rewrite (rollback_error_ledger _ _ _ _ _ E).
    + apply rollback_ok_inv in E as (idx & t & Hf & _ & _ & E).
      simpl in E. destruct E as (_ & _ & _ & _ & Hfresh & ->).
      pose proof (findOne_lookup _ _ _ _ Hf) as [Hidx Hid].
      match goal with |- grows _ (<[idx := ?m]> (_ ++ [?d])) =>
        set (m0 := m); set (doc := d) end.
      destruct (ledger_after_rollback (w_db w) idx t m0 doc id Hf) as [-> Hlt].
      assert (map transactionId (<[idx := m0]> (w_db w)) = map transactionId (w_db w))
        as Hsame.
      { change (transactionId <$> <[idx := m0]> (w_db w) = transactionId <$> w_db w).
        rewrite list_fmap_insert. apply list_insert_id.
        by rewrite list_lookup_fmap, Hidx. }
      split.
      * right. exists doc. rewrite length_app, length_insert, map_app, Hsame.
        simpl. split_and!; [lia|done|].
        apply (Hfresh_in (w_db w) doc). exact Hfresh.
      * intros Hnd. rewrite map_app, Hsame, <- map_app.
        apply NoDup_ids_snoc; [done|exact Hfresh].
Qed.

(** ** The disk space the report says was saved *)

Lemma foldl_add_saved (l : list ITransaction) (z : Z) :
  foldl (fun sum t => (sum + savedBytes (summary t))%Z) z l
  = (z + sumSavedBytes l)%Z.
Proof.
  revert z. induction l as [|t l IH]; intros z; simpl; [lia|].
  rewrite IH. lia.
Qed.

Lemma foldl_sub_saved (l : list ITransaction) (z : Z) :
  foldl (fun acc t => (acc - savedBytes (summary t))%Z) z l
  = (z - sumSavedBytes l)%Z.
Proof.
  revert z. induction l as [|t l IH]; intros z; simpl; [lia|].
  rewrite IH. lia.
Qed.

Lemma totalDiskSpaceSaved_eq db :
  totalDiskSpaceSaved db
  = Z.max 0 (sumSavedBytes (completedDedupes db)
             - sumSavedBytes (rolledBackDedupes db)).
Proof.
  unfold totalDiskSpaceSaved. rewrite foldl_sub_saved, foldl_add_saved.
  f_equal.
Qed.

Lemma sumSavedBytes_app l1 l2 :
  sumSavedBytes (l1 ++ l2) = (sumSavedBytes l1 + sumSavedBytes l2)%Z.
Proof. induction l1 as [|t l1 IH]; simpl; [done|]. rewrite IH. lia. Qed.

Lemma dedupe_saved_bytes_nonneg cfg w dirPath s mt res w1 :
  dedupe cfg w dirPath false s mt = (inr res, w1) ->
  (0 <= ds_savedBytes (dd_summary res))%Z.
Proof.
  intros H. apply dedupe_ok_inv in H. simpl in H.
  destruct H as (Hd & Hid & _ & _ & cs & cr & Hdb & Hsb & _).
  rewrite Hsb. simpl.
  pose proof (dedupePlan_saved cfg w dirPath s mt) as Hsaved.
  set (plan := dedupePlan cfg w dirPath s mt) in *.
  pose proof (dedupeExecute_counts cfg (w_fs w) mt plan.1.1.1.2 plan.2)
    as (Hlen & Hcount & Hle).
  simpl in *.
  set (exec := dedupeExecute cfg (w_fs w) false mt plan.1.1.1.2 plan.2) in *.
  unfold actualSavedBytes. rewrite Hsaved, Hcount.
  set (n := if length exec.1.1.2 =? 0 then 1 else length exec.1.1.2).
  assert (Hn : 0 < n /\ completedCount exec.1.1.2 <= n).
  { unfold n. destruct (length exec.1.1.2) eqn:E; simpl; lia. }
  destruct (Z.of_nat n) as [|p|p] eqn:Ep; [lia| |lia].
  rewrite Math_round_ratio.
  pose proof (nearest_bounds (Z.of_N (plannedWaste plan.1.1.1.1))
                (Z.of_nat (completedCount exec.1.1.2)) (Z.pos p)) as Hb.
  simpl in Hb. lia.
Qed.

(** X19: the disk space that the report says was saved is never negative,
    and a rolled-back dedupe counts against it.  The figure is the saved
    bytes of the completed dedupes minus the saved bytes of the
    rolled-back dedupes, clamped at zero.  So a dedupe that is not a dry
    run raises the unclamped figure by the bytes it saved, and the
    rollback of that dedupe lowers it by twice that amount: once because
    the dedupe is no longer completed, once more because it is now
    rolled back. *)
Theorem report_subtracts_a_rolled_back_dedupe cfg w dirPath s mt res w1 rr w2 :
  dedupe cfg w dirPath false s mt = (inr res, w1) ->
  rollback cfg w1 (dd_transactionId res) = (inr rr, w2) ->
  let before := (sumSavedBytes (completedDedupes (w_db w))
                 - sumSavedBytes (rolledBackDedupes (w_db w)))%Z in
  let saved := ds_savedBytes (dd_summary res) in
  (0 <= saved)%Z /\
  totalDiskSpaceSaved (w_db w) = Z.max 0 before /\
  totalDiskSpaceSaved (w_db w1) = Z.max 0 (before + saved) /\
  totalDiskSpaceSaved (w_db w2) = Z.max 0 (before - saved) /\
  (0 <= totalDiskSpaceSaved (w_db w2) <= totalDiskSpaceSaved (w_db w))%Z.
Proof.
  intros Hd Hr before saved.
  pose proof (dedupe_saved_bytes_nonneg cfg w dirPath s mt res w1 Hd) as Hpos.
  apply dedupe_ok_inv in Hd. simpl in Hd.
  destruct Hd as (_ & Hid & _ & Hfresh & cs & cr & Hdb & Hsb & _).
  set (doc := dedupeDocument _ _ _ _ _ _ _ _ _ _) in *.
  assert (transactionId doc = randomUUID cfg (w_tick w)) as Hdocid by done.
  apply rollback_ok_inv in Hr as (idx & t & Hf & _ & _ & Hr).
  simpl in Hr. destruct Hr as (_ & _ & _ & _ & _ & Hdb2).
  rewrite Hid, Hdb in Hf.
  rewrite <- Hdocid in Hf, Hfresh.
  rewrite (findOne_appended (w_db w) doc Hfresh) in Hf.
  injection Hf as <- <-.
  set (m := mark_rolled_back _ _ doc) in *.
  set (rdoc := rollbackDocument _ _ _ _ _ _) in *.
  assert (w_db w2 = w_db w ++ [m; rdoc]) as Hdb2'.
  { rewrite Hdb2, Hdb.
    rewrite <- app_assoc. simpl.
    rewrite (insert_app_r_alt (w_db w) [doc; rdoc] (length (w_db w))) by lia.
    by rewrite Nat.sub_diag. }
  assert (savedBytes (summary doc) = saved) as Hsaved
    by (unfold saved; by rewrite Hsb).
  assert (t_status doc = completed \/ t_status doc = partially_completed) as Hst.
  { unfold doc, dedupeDocument. simpl.
    match goal with |- context [?x =? 0] => destruct (x =? 0) end; auto. }
  rewrite !totalDiskSpaceSaved_eq, Hdb, Hdb2'.
  unfold completedDedupes, rolledBackDedupes.
  rewrite !List.filter_app, !sumSavedBytes_app.
  fold (completedDedupes (w_db w)) (rolledBackDedupes (w_db w)).
  fold before.
  assert (t_type doc = dedupe_t /\ dryRun doc = false) as [Hty Hdry] by done.
  cbn [List.filter].
  change (t_type m) with (t_type doc). change (dryRun m) with (dryRun doc).
  change (t_status m) with rolled_back.
  change (t_type rdoc) with rollback_t.
  rewrite Hty, Hdry.
  assert (savedBytes (summary m) = saved) as Hm by done.
  destruct Hst as [Hs|Hs]; rewrite Hs; simpl; rewrite ?Hsaved, ?Hm;
    (split_and!; first [lia|f_equal; lia]).
Qed.

Lemma report_subtracts_a_rolled_back_dedupe_witness :
  let before := (sumSavedBytes (completedDedupes (w_db w0))
                 - sumSavedBytes (rolledBackDedupes (w_db w0)))%Z in
  let saved := ds_savedBytes (dd_summary dd1) in
  (0 <= saved)%Z /\
  totalDiskSpaceSaved (w_db w0) = Z.max 0 before /\
  totalDiskSpaceSaved (w_db w1) = Z.max 0 (before + saved) /\
  totalDiskSpaceSaved (w_db w2) = Z.max 0 (before - saved) /\
  (0 <= totalDiskSpaceSaved (w_db w2) <= totalDiskSpaceSaved (w_db w0))%Z.
Proof.
  apply (report_subtracts_a_rolled_back_dedupe cfg0 w0 ["/"; "d"] keep_latest
           true dd1 w1 rr1 w2); vm_compute; reflexivity.
Defined.

(** ** Organize followed by rollback *)

Lemma length_removelast_cons {A} (y : A) (p : list A) :
  length (removelast (y :: p)) = length p.
Proof.
  revert y. induction p as [|z p IH]; intros y; [done|].
  change (removelast (y :: z :: p)) with (y :: removelast (z :: p)).
  cbn [length]. f_equal. apply IH.
Qed.

Lemma length_dirname (p : path) :
  2 <= length (dirname p) -> length p = S (length (dirname p)).
Proof.
  destruct p as [|x [|y p]]; [simpl; lia|simpl; lia|].
  intros _. unfold dirname. by rewrite length_removelast_cons.
Qed.

Lemma createCategoryFolders_preserves fs d k n :
  fs !! k = Some n -> createCategoryFolders fs d !! k = Some n.
Proof.
  unfold createCategoryFolders. revert fs.
  induction getAllCategories as [|c l IH]; intros fs Hk; simpl; [done|].
  apply IH. by apply ensureDirectory_preserves.
Qed.

Lemma createCategoryFolders_long fs d k :
  S (length d) < length k -> createCategoryFolders fs d !! k = fs !! k.
Proof.
  intros Hl. unfold createCategoryFolders. revert fs.
  induction getAllCategories as [|c l IH]; intros fs; simpl; [done|].
  rewrite IH. apply ensureDirectory_long.
  unfold join. rewrite length_app. simpl. lia.
Qed.

(** One move with collision handling into a directory that exists: it
    fails and changes nothing, or renames the file to the destination it
    reports. *)
Lemma safeMove_step fs f t :
  fs !! f <> Some IDir -> fs !! dirname t = Some IDir -> dirname t <> [] ->
  let out := safeMove fs f t true in
  (mr_success out.1 = false /\ out.2 = fs) \/
  (mr_success out.1 = true /\
   exists n, fs !! f = Some n /\ is_file n = true /\ f <> [] /\
     mr_to out.1 <> [] /\ dirname (mr_to out.1) = dirname t /\
     fs !! mr_to out.1 <> Some IDir /\
     out.2 = <[mr_to out.1 := n]> (delete f fs)).
Proof.
  intros Hnd Hdir Hdne out. subst out.
  destruct (existsSync fs f) eqn:Ef.
  - apply existsSync_true in Ef as [Hfne [n Hn]].
    assert (is_file n = true) as Hfile.
    { destruct n; [done|]. by rewrite Hn in Hnd. }
    assert ((ensureDirectory fs (dirname t)).2 = fs) as Hstable.
    { rewrite ensureDirectory_exists; [done|].
      apply existsSync_true. split; [done|]. by eexists. }
    destruct (safeMove_file fs f t true n Hn Hfile Hfne Hstable)
      as [[Hs Hfs]|(Hs & Hto & Hne & Hd & Hfree & Hfs)]; [by left|].
    right. split; [done|]. exists n. rewrite Hto in *.
    split_and!; try done.
    cbn [andb]. destruct (existsSync fs t); [|done].
    by apply getUniqueFilename_dirname.
  - left. unfold safeMove. rewrite Ef. done.
Qed.

(** Undoing one completed move whose destination was free: the file goes
    back to its original path and the filesystem is as before the move. *)
Lemma rollbackMove_undo (fs : fsmap) f tp n a :
  type a = move_a -> from a = f -> to a = tp ->
  fs !! f = Some n -> is_file n = true -> f <> [] -> tp <> [] ->
  fs !! tp = None ->
  fs !! dirname f = Some IDir -> dirname f <> [] ->
  rollbackAction (<[tp := n]> (delete f fs)) a = ((restored, None), fs).
Proof.
  intros Hty Hfrom Hto Hf Hn Hfne Htne Hfree Hdir Hdne.
  assert (tp <> f) as Hneq by (intros ->; congruence).
  assert (dirname f <> tp) as Hd1 by (intros E; rewrite E in Hdir; congruence).
  assert (dirname f <> f) as Hd2.
  { intros E. rewrite E in Hdir. rewrite Hdir in Hf. injection Hf as <-. done. }
  set (fs' := <[tp := n]> (delete f fs)).
  assert (fs' !! tp = Some n) as Htp by apply lookup_insert_eq.
  assert (fs' !! f = None) as Hgone.
  { unfold fs'. rewrite lookup_insert_ne by done. apply lookup_delete_eq. }
  assert (fs' !! dirname f = Some IDir) as Hdir'.
  { unfold fs'. rewrite lookup_insert_ne by done.
    by rewrite lookup_delete_ne. }
  unfold rollbackAction. rewrite Hty. unfold rollbackMove.
  rewrite Hto, Hfrom.
  assert (fileExists fs' tp = true) as ->.
  { apply existsSync_true. split; [done|]. by exists n. }
  assert (fileExists fs' f = false) as ->.
  { apply existsSync_false. by right. }
  assert (ensureDirectory fs' (dirname f) = (true, fs')) as Hens.
  { apply ensureDirectory_exists, existsSync_true. split; [done|]. by eexists. }
  cbn [negb]. rewrite Hens.
  unfold safeMove.
  assert (existsSync fs' tp = true) as ->.
  { apply existsSync_true. split; [done|]. by exists n. }
  cbn [negb]. rewrite Hens. cbn [negb andb].
  rewrite (renameSync_file_intro fs' tp f n Htp Hn Htne Hfne Hdir')
    by (rewrite Hgone; done).
  cbn [mr_success]. do 2 f_equal.
  apply map_eq. intros k. unfold fs'.
  destruct (decide (k = f)) as [->|Hkf].
  - rewrite lookup_insert_eq. done.
  - rewrite lookup_insert_ne by done.
    destruct (decide (k = tp)) as [->|Hkt].
    + rewrite lookup_delete_eq. done.
    + rewrite lookup_delete_ne by done. rewrite lookup_insert_ne by done.
      by rewrite lookup_delete_ne.
Qed.

(** The move loop followed by the rollback loop: when every completed move
    recorded a destination of its own that was free, undoing the completed
    moves last first gives back the filesystem the move loop started from,
    and every undo is reported as restored. *)
Lemma executeMoves_then_undo cfg L plan dn todo fs moved failedN :
  2 <= L ->
  Forall2 (fun item a => type a = move_a /\ from a = op_from item) plan todo ->
  Forall (fun item =>
            fs !! op_from item <> Some IDir /\
            fs !! dirname (op_from item) = Some IDir /\
            dirname (op_from item) <> [] /\
            fs !! dirname (op_to item) = Some IDir /\
            L <= length (dirname (op_to item))) plan ->
  let out := executeMoves fs plan (length dn) (dn ++ todo) moved failedN in
  exists todo',
    out.1.1.2 = dn ++ todo' /\
    let undone := completedActions todo' in
    (NoDup (map to undone) ->
     Forall (fun a => L < length (to a) -> fs !! to a = None) undone ->
     forall st, rl_fs st = out.1.1.1 ->
       let st' := foldl (rollbackStep cfg) st (rev undone) in
       rl_fs st' = fs /\
       rl_restored st' = rl_restored st + length undone /\
       rl_failed st' = rl_failed st /\ rl_skipped st' = rl_skipped st /\
       (Forall (fun d => rd_status d = restored) (rl_details st) ->
        Forall (fun d => rd_status d = restored) (rl_details st'))).
Proof.
  intros HL. revert dn todo fs moved failedN.
  induction plan as [|item plan IH]; intros dn todo fs moved failedN Hrel Hpre.
  { inversion Hrel; subst. simpl. exists []. rewrite app_nil_r.
    split; [done|]. intros _ _ st Hfs. split_and!; first [done|lia]. }
  inversion Hrel as [|? a ? todo_r (Hty & Hfrom) Hrel']; subst.
  inversion Hpre as [|? ? (Hnd & Hdir & Hdne & Htd & HLd) Hpre']; subst.
  cbn [executeMoves].
  assert (dirname (op_to item) <> []) as Htdne.
  { intros E. rewrite E in HLd. simpl in HLd. lia. }
  pose proof (safeMove_step fs (op_from item) (op_to item) Hnd Htd Htdne) as Hstep.
  destruct (safeMove fs (op_from item) (op_to item) true) as [result fs'].
  simpl in Hstep.
  assert (forall f, alter f (length dn) (dn ++ a :: todo_r) = (dn ++ [f a]) ++ todo_r)
    as Halter.
  { intros f. rewrite <- app_assoc. simpl.
    rewrite (alter_app_r_alt f dn (a :: todo_r) (length dn)) by lia.
    by rewrite Nat.sub_diag. }
  rewrite !Halter.
  destruct Hstep as [[Hs ->]|(Hs & n & Hf & Hn & Hfne & Htne & Hdto & Hfree0 & ->)];
    rewrite Hs.
  - (* the move failed *)
    specialize (IH (dn ++ [set_error (mr_error result) (set_status a_failed a)])
                  todo_r fs moved (S failedN) Hrel' Hpre').
    rewrite length_app in IH. simpl in IH. rewrite Nat.add_1_r in IH.
    destruct IH as (todo' & Ho & IH).
    exists (set_error (mr_error result) (set_status a_failed a) :: todo').
    rewrite Ho, <- app_assoc. split; [done|].
    unfold completedActions in *. simpl. exact IH.
  - (* the move succeeded *)
    set (tp := mr_to result) in *.
    set (fs' := <[tp := n]> (delete (op_from item) fs)).
    assert (length tp = S (length (dirname tp))) as Hlen.
    { apply length_dirname. rewrite Hdto. lia. }
    assert (Forall (fun item0 =>
              fs' !! op_from item0 <> Some IDir /\
              fs' !! dirname (op_from item0) = Some IDir /\
              dirname (op_from item0) <> [] /\
              fs' !! dirname (op_to item0) = Some IDir /\
              L <= length (dirname (op_to item0))) plan) as Hpre''.
    { eapply Forall_impl; [exact Hpre'|]. simpl.
      intros b (Hb1 & Hb2 & Hb3 & Hb4 & Hb5).
      assert (forall k, fs !! k = Some IDir -> fs' !! k = Some IDir) as Hkeep.
      { intros k Hk. unfold fs'.
        rewrite lookup_insert_ne by (intros ->; congruence).
        rewrite lookup_delete_ne; [done|]. intros E. rewrite E in Hf.
        rewrite Hk in Hf. injection Hf as <-. done. }
      split_and!; try done; try (by apply Hkeep).
      unfold fs'. destruct (decide (op_from b = tp)) as [->|Hbt].
      - rewrite lookup_insert_eq. intros [= ->]. done.
      - rewrite lookup_insert_ne by done.
        destruct (decide (op_from b = op_from item)) as [->|Hba].
        + by rewrite lookup_delete_eq.
        + by rewrite lookup_delete_ne. }
    specialize (IH (dn ++ [set_to tp (set_status a_completed a)])
                  todo_r fs' (S moved) failedN Hrel' Hpre'').
    rewrite length_app in IH. simpl in IH. rewrite Nat.add_1_r in IH.
    destruct IH as (todo' & Ho & IH).
    exists (set_to tp (set_status a_completed a) :: todo').
    rewrite Ho, <- app_assoc. split; [done|].
    unfold completedActions. simpl. fold (completedActions todo').
    intros Hnodup Hfree st Hfs.
    apply NoDup_cons in Hnodup as [Hnotin Hnodup].
    apply Forall_cons in Hfree as [Hfree1 Hfree']. simpl in Hfree1.
    assert (fs !! tp = None) as Hnone.
    { apply Hfree1. rewrite Hlen, Hdto. lia. }
    assert (Forall (fun a0 => L < length (to a0) -> fs' !! to a0 = None)
                   (completedActions todo')) as Hfree''.
    { apply Forall_forall. intros b Hb Hlb.
      assert (to b <> tp) as Hbt.
      { intros E. apply Hnotin. simpl. rewrite <- E.
        apply list_elem_of_In, in_map, list_elem_of_In. exact Hb. }
      rewrite Forall_forall in Hfree'. specialize (Hfree' b Hb Hlb).
      unfold fs'. rewrite lookup_insert_ne by done.
      destruct (decide (to b = op_from item)) as [->|Hba].
      - by rewrite lookup_delete_eq.
      - by rewrite lookup_delete_ne. }
    specialize (IH Hnodup Hfree'' st Hfs).
    destruct IH as (IHfs & IHr & IHf & IHs & IHd).
    rewrite foldl_app. simpl.
    set (st1 := foldl (rollbackStep cfg) st (rev (completedActions todo'))) in *.
    pose proof (rollbackMove_undo fs (op_from item) tp n
                  (set_to tp (set_status a_completed a))
                  Hty Hfrom eq_refl Hf Hn Hfne Htne Hnone Hdir Hdne) as Hundo.
    fold fs' in Hundo. rewrite <- IHfs in Hundo.
    destruct (rollbackStep_restored cfg st1 _ fs Hundo)
      as (H1 & H2 & H3 & H4 & d & H5 & H6).
    split_and!; try done.
    + rewrite H2, IHr. lia.
    + by rewrite H3.
    + by rewrite H4.
    + intros Hall. rewrite H5. apply Forall_app. split; [by apply IHd|].
      by constructor.
Qed.

(** Every planned move takes a regular file of the listing, from a
    directory that exists, into a category folder of the target. *)
Lemma buildPlan_items cfg fs dirPath recursive tick :
  dirPath <> [] ->
  Forall (fun item =>
            (exists n, fs !! op_from item = Some n /\ is_file n = true) /\
            fs !! dirname (op_from item) = Some IDir /\
            dirname (op_from item) <> [] /\
            exists c, dirname (op_to item) = join dirPath (category_name c))
         (buildPlan cfg fs dirPath
            (getOrganizableFiles fs dirPath recursive) tick).1.1.1.
Proof.
  intros Hd. unfold buildPlan. rewrite foldl_planStep_plan. simpl.
  apply Forall_forall. intros item Hitem.
  apply list_elem_of_omap in Hitem as (f & Hf & Hitem).
  apply list_elem_of_In, getOrganizableFiles_spec in Hf as [Hl _].
  apply planItem_from in Hitem as (-> & -> & _).
  destruct Hl as (rest & name & -> & Hfile & _ & _ & Hdirs & _).
  assert (dirname (dirPath ++ rest ++ [name]) = dirPath ++ rest) as ->.
  { rewrite app_assoc. apply dirname_join. by destruct dirPath. }
  split_and!; try done.
  - specialize (Hdirs (length rest) ltac:(lia)). by rewrite firstn_all in Hdirs.
  - by destruct dirPath.
  - eexists. apply dirname_join. unfold join. by destruct dirPath.
Qed.

(** X20: organize followed by the rollback of that transaction is a round
    trip, provided that the eight category folders exist as directories
    once the run has created them, and that every completed move
    recorded a destination of its own that did not exist before the run:
    every undo is reported as restored, none as failed or skipped, the
    restored count is the moved count, every entry the filesystem had
    before the organize is there again with the same inode, and the
    filesystem differs from the original at most by the category folders
    that were created. *)
Theorem organize_then_rollback_is_a_round_trip
    cfg w dirPath recursive res w1 rr w2 :
  organize cfg w dirPath false recursive = (inr res, w1) ->
  rollback cfg w1 (or_transactionId res) = (inr rr, w2) ->
  (forall c, createCategoryFolders (w_fs w) dirPath
               !! join dirPath (category_name c) = Some IDir) ->
  (forall doc, In doc (w_db w1) ->
     transactionId doc = or_transactionId res ->
     NoDup (map to (completedActions (actions doc))) /\
     Forall (fun a => w_fs w !! to a = None) (completedActions (actions doc))) ->
  Forall (fun d => rd_status d = restored) (rr_details rr) /\
  rs_restoredCount (rr_summary rr) = os_movedCount (or_summary res) /\
  rs_failedCount (rr_summary rr) = 0 /\
  rs_skippedCount (rr_summary rr) = 0 /\
  (w_fs w2 = w_fs w \/ w_fs w2 = createCategoryFolders (w_fs w) dirPath) /\
  (forall k n, w_fs w !! k = Some n -> w_fs w2 !! k = Some n).
Proof.
  intros Ho Hr Hcat Hfresh.
  assert (dirPath <> []) as Hdne.
  { by apply (organize_plan cfg w dirPath false recursive res); rewrite Ho. }
  apply organize_ok_inv in Ho. simpl in Ho.
  destruct Ho as (Hplan & Hid & Hfs1 & _ & Hmv & _ & _ & Hnew & doc & Hdb & Hdid
                  & _ & _ & _ & Hacts & _).
  pose proof (buildPlan_items cfg (w_fs w) dirPath recursive (S (w_tick w)) Hdne)
    as Hitems.
  pose proof (foldl_planStep_acts cfg (w_fs w) dirPath
                (getOrganizableFiles (w_fs w) dirPath recursive)
                ([], [], ∅, S (w_tick w)) ltac:(constructor)) as Hrel.
  simpl in Hrel.
  fold (buildPlan cfg (w_fs w) dirPath
          (getOrganizableFiles (w_fs w) dirPath recursive) (S (w_tick w))) in Hrel.
  set (ps := buildPlan cfg (w_fs w) dirPath
               (getOrganizableFiles (w_fs w) dirPath recursive) (S (w_tick w))) in *.
  set (fsC := createCategoryFolders (w_fs w) dirPath) in *.
  destruct (Hfresh doc) as [Hnodup Hfree].
  { rewrite Hdb. apply in_or_app. right. by left. }
  { by rewrite Hid. }
  clear Hfresh.
  apply rollback_ok_inv in Hr as (idx & t & Hf & _ & _ & Hr).
  rewrite Hdb, Hid, <- Hdid in Hf.
  rewrite <- Hdid in Hnew.
  rewrite (findOne_appended (w_db w) doc Hnew) in Hf. injection Hf as <- <-.
  simpl in Hr. destruct Hr as (_ & Hdet & Hsum & Hfs2 & _).
  change (reversedActions doc) with (rev (completedActions (actions doc))) in *.
  rewrite Hacts in *. rewrite Hfs1 in *. clear Hacts Hfs1.
  unfold rollbackLoop in *.
  assert (length ps.1.1.2 = length ps.1.1.1) as Hlen.
  { clear -Hrel. induction Hrel; simpl; [done|]. lia. }
  assert (Hgoal : forall st,
    rl_fs st = (if 0 <? length ps.1.1.1
                then executeMoves fsC ps.1.1.1 0 ps.1.1.2 0 0
                else (w_fs w, ps.1.1.2, 0, 0)).1.1.1 ->
    rl_restored st = 0 -> rl_failed st = 0 -> rl_skipped st = 0 ->
    rl_details st = [] ->
    let acts' := (if 0 <? length ps.1.1.1
                  then executeMoves fsC ps.1.1.1 0 ps.1.1.2 0 0
                  else (w_fs w, ps.1.1.2, 0, 0)).1.1.2 in
    let st' := foldl (rollbackStep cfg) st (rev (completedActions acts')) in
    (rl_fs st' = w_fs w \/ rl_fs st' = fsC) /\
    rl_restored st' = (if 0 <? length ps.1.1.1
                       then executeMoves fsC ps.1.1.1 0 ps.1.1.2 0 0
                       else (w_fs w, ps.1.1.2, 0, 0)).1.2 /\
    rl_failed st' = 0 /\ rl_skipped st' = 0 /\
    Forall (fun d => rd_status d = restored) (rl_details st')).
  { clear Hdet Hsum Hfs2 Hmv Hdb.
    intros st Hst0 Hst1 Hst2 Hst3 Hst4.
    destruct (0 <? length ps.1.1.1) eqn:El.
    - assert (Hpre : Forall (fun item =>
                  fsC !! op_from item <> Some IDir /\
                  fsC !! dirname (op_from item) = Some IDir /\
                  dirname (op_from item) <> [] /\
                  fsC !! dirname (op_to item) = Some IDir /\
                  S (length dirPath) <= length (dirname (op_to item))) ps.1.1.1).
      { eapply Forall_impl; [exact Hitems|]. simpl.
        intros item ((n & Hn & Hfile) & Hdir & Hdn & c & Hc).
        split_and!; try done.
        - unfold fsC. rewrite (createCategoryFolders_preserves _ _ _ _ Hn).
          intros [= ->]. done.
        - by apply createCategoryFolders_preserves.
        - rewrite Hc. apply Hcat.
        - rewrite Hc. unfold join. rewrite length_app. simpl. lia. }
      assert (Hrel' : Forall2 (fun item a => type a = move_a /\ from a = op_from item)
                              ps.1.1.1 ps.1.1.2).
      { eapply Forall2_impl; [exact Hrel|]. simpl. tauto. }
      assert (2 <= S (length dirPath)) as HL by (destruct dirPath; simpl; [done|lia]).
      pose proof (executeMoves_then_undo cfg (S (length dirPath)) ps.1.1.1 []
                    ps.1.1.2 fsC 0 0 HL Hrel' Hpre) as Hundo.
      pose proof (executeMoves_spec fsC ps.1.1.1 [] ps.1.1.2 0 0 Hlen) as Hspec.
      simpl in Hundo, Hspec.
      destruct Hundo as (todo' & Hout & Hundo).
      destruct Hspec as (todo'' & Hout' & _ & _ & _ & _ & Hcount & _).
      assert (todo'' = todo') as -> by congruence.
      simpl. rewrite Hout in *.
      assert (Hfree0 : Forall (fun a => S (length dirPath) < length (to a) ->
                                        fsC !! to a = None)
                              (completedActions todo')).
      { eapply Forall_impl; [exact Hfree|]. simpl. intros a Ha Hl.
        unfold fsC. by rewrite createCategoryFolders_long. }
      specialize (Hundo Hnodup Hfree0 st Hst0).
      destruct Hundo as (H1 & H2 & H3 & H4 & H5).
      split_and!; [by right| |lia|lia|].
      + rewrite H2, Hst1, Hcount. done.
      + apply H5. rewrite Hst4. constructor.
    - simpl in *. apply Nat.ltb_ge in El.
      assert (ps.1.1.1 = []) as Hnil by (apply length_zero_iff_nil; lia).
      rewrite Hnil in Hlen. apply length_zero_iff_nil in Hlen. rewrite Hlen.
      simpl. split_and!; try done; [by left|]. rewrite Hst4. constructor. }
  cbn [negb andb] in *.
  match type of Hfs2 with
  | _ = rl_fs (foldl _ ?s _) => specialize (Hgoal s eq_refl eq_refl eq_refl eq_refl eq_refl)
  end.
  simpl in Hgoal. destruct Hgoal as (Hfs & Hres & Hfail & Hskip & Hall).
  rewrite Hdet, Hsum, Hfs2, Hmv. simpl.
  split_and!; try done.
  intros k n Hk. destruct Hfs as [-> | ->]; [done|].
  by apply createCategoryFolders_preserves.
Qed.

Lemma organize_then_rollback_is_a_round_trip_witness :
  Forall (fun d => rd_status d = restored) (rr_details rr_org1) /\
  rs_restoredCount (rr_summary rr_org1) = os_movedCount (or_summary or1) /\
  rs_failedCount (rr_summary rr_org1) = 0 /\
  rs_skippedCount (rr_summary rr_org1) = 0 /\
  (w_fs w_org2 = w_fs w0 \/
   w_fs w_org2 = createCategoryFolders (w_fs w0) ["/"; "d"]) /\
  (forall k n, w_fs w0 !! k = Some n -> w_fs w_org2 !! k = Some n).
Proof.
  apply (organize_then_rollback_is_a_round_trip
           cfg0 w0 ["/"; "d"] false or1 w_org1 rr_org1 w_org2).
  - vm_compute; reflexivity.
  - vm_compute; reflexivity.
  - intros c; destruct c; vm_compute; reflexivity.
  - intros doc Hin _.
    remember (w_db w_org1) as db eqn:Hdb. vm_compute in Hdb. subst db.
    destruct Hin as [<-|[]].
    unfold completedActions. simpl. split.
    + apply (bool_decide_unpack _). vm_compute; reflexivity.
    + repeat constructor; vm_compute; reflexivity.
Defined.

(** ** The scanner: what the scanning loop collects *)

Lemma sizeOf_app l1 l2 : sizeOf (l1 ++ l2) = (sizeOf l1 + sizeOf l2)%N.
Proof. induction l1 as [|x l1 IH]; simpl; [done|]. rewrite IH. lia. Qed.

Lemma indicesFrom_app hash i l1 l2 :
  indicesFrom hash i (l1 ++ l2) =
  indicesFrom hash i l1 ++ indicesFrom hash (i + length l1) l2.
Proof.
  revert i. induction l1 as [|x l1 IH]; intros i; simpl.
  - by rewrite Nat.add_0_r.
  - rewrite IH. replace (S i + length l1) with (i + S (length l1)) by lia.
    by destruct (String.eqb _ _).
Qed.

Lemma indicesFrom_spec hash i l r :
  In r (indicesFrom hash i l) <->
  exists f, i <= r /\ l !! (r - i) = Some f /\ sf_hash f = hash.
Proof.
  revert i. induction l as [|x l IH]; intros i; simpl.
  - split; [done|]. by intros (f & _ & ? & _).
  - assert (In r (indicesFrom hash (S i) l) <->
            exists f, S i <= r /\ (x :: l) !! (r - i) = Some f /\ sf_hash f = hash)
      as Htl.
    { rewrite IH. split; intros (f & Hle & Hf & Hh); exists f.
      - split_and!; [done| |done].
        replace (r - i) with (S (r - S i)) by lia. done.
      - split_and!; [done| |done].
        replace (r - i) with (S (r - S i)) in Hf by lia. done. }
    destruct (String.eqb (sf_hash x) hash) eqn:E.
    + apply String.eqb_eq in E. simpl. rewrite Htl. split.
      * intros [<-|(f & ? & ? & ?)].
        -- exists x. rewrite Nat.sub_diag. done.
        -- exists f. split_and!; try done. lia.
      * intros (f & Hle & Hf & Hh).
        destruct (decide (i = r)) as [->|Hne]; [by left|].
        right. exists f. split_and!; try done. lia.
    + apply String.eqb_neq in E. rewrite Htl. split.
      * intros (f & ? & ? & ?). exists f. split_and!; try done. lia.
      * intros (f & Hle & Hf & Hh).
        destruct (decide (i = r)) as [->|Hne].
        -- rewrite Nat.sub_diag in Hf. simpl in Hf. congruence.
        -- exists f. split_and!; try done. lia.
Qed.

Lemma indicesFrom_NoDup hash i l : NoDup (indicesFrom hash i l).
Proof.
  revert i. induction l as [|x l IH]; intros i; simpl; [constructor|].
  destruct (String.eqb _ _); [|done].
  constructor; [|done].
  rewrite list_elem_of_In, indicesFrom_spec. intros (f & ? & _). lia.
Qed.

Lemma refs_get_push m hash r h :
  refs_get (refs_push m hash r) h =
  if String.eqb hash h then Some (default [] (refs_get m hash) ++ [r])
  else refs_get m h.
Proof.
  induction m as [|[k rs] m IH]; simpl.
  - done.
  - destruct (String.eqb k hash) eqn:E; simpl.
    + apply String.eqb_eq in E. subst k.
      destruct (String.eqb hash h); done.
    + destruct (String.eqb k h) eqn:E2.
      * apply String.eqb_eq in E2. subst k.
        rewrite String.eqb_sym in E. by rewrite E.
      * exact IH.
Qed.

Lemma refs_get_None m h : refs_get m h = None <-> ~ In h (map fst m).
Proof.
  induction m as [|[k rs] m IH]; simpl; [tauto|].
  destruct (String.eqb k h) eqn:E.
  - apply String.eqb_eq in E. split; [done|]. intros H. destruct H. by left.
  - apply String.eqb_neq in E. rewrite IH. tauto.
Qed.

Lemma refs_push_keys m hash r :
  map fst (refs_push m hash r) =
  if refs_get m hash is Some _ then map fst m else map fst m ++ [hash].
Proof.
  induction m as [|[k rs] m IH]; simpl; [done|].
  destruct (String.eqb k hash) eqn:E; simpl; [done|].
  rewrite IH. by destruct (refs_get m hash).
Qed.

Lemma refs_get_In m h rs :
  NoDup (map fst m) -> (In (h, rs) m <-> refs_get m h = Some rs).
Proof.
  induction m as [|[k l] m IH]; simpl; [done|].
  intros [Hk Hm]%NoDup_cons. rewrite IH by done.
  destruct (String.eqb k h) eqn:E.
  - apply String.eqb_eq in E. subst k. split.
    + intros [[= ->]|Hin]; [done|].
      destruct (decide (h ∈ map fst m)) as [Hd|Hd]; [done|].
      rewrite list_elem_of_In in Hd. apply refs_get_None in Hd. congruence.
    + intros [= ->]. by left.
  - apply String.eqb_neq in E. split; [|tauto].
    intros [[= ? ?]|?]; done.
Qed.

Lemma refs_push_total m hash r : refsTotal (refs_push m hash r) = S (refsTotal m).
Proof.
  induction m as [|[k rs] m IH]; simpl; [done|].
  destruct (String.eqb k hash); simpl.
  - rewrite length_app. simpl. lia.
  - rewrite IH. lia.
Qed.

Lemma statsOf_snoc k F f :
  statsOf k (F ++ [f]) =
  if String.eqb (category_name (sf_category f)) k
  then Some {| cs_count :=
                 S (cs_count (default {| cs_count := 0; cs_size := 0 |}
                                      (statsOf k F)));
               cs_size :=
                 (cs_size (default {| cs_count := 0; cs_size := 0 |}
                                   (statsOf k F)) + sf_size f)%N |}
  else statsOf k F.
Proof.
  unfold statsOf, ofCategory. rewrite List.filter_app. simpl.
  destruct (String.eqb _ k); [|by rewrite app_nil_r].
  destruct (List.filter _ F) as [|x r]; simpl; [f_equal; f_equal; lia|].
  f_equal. rewrite length_app, sizeOf_app. simpl. f_equal; lia.
Qed.

Lemma scanStep_inv fs st F p :
  scan_inv st F ->
  scan_inv (scanStep fs st p)
           (F ++ match scannedFile fs p with Some f => [f] | None => [] end).
Proof.
  intros (Hf & Hs & Hc & Hk & Hm & Ht). unfold scanStep.
  destruct (scannedFile fs p) as [f|]; [|by rewrite app_nil_r].
  unfold scan_inv. simpl. split_and!.
  - by rewrite Hf.
  - rewrite Hs, sizeOf_app. simpl. lia.
  - intros k. rewrite statsOf_snoc. unfold bumpCategory.
    destruct (String.eqb _ k) eqn:E.
    + apply String.eqb_eq in E. subst k.
      rewrite lookup_insert_eq, Hc. done.
    + apply String.eqb_neq in E. by rewrite lookup_insert_ne, Hc.
  - rewrite refs_push_keys.
    destruct (refs_get _ _) eqn:E; [done|].
    apply refs_get_None in E.
    apply NoDup_app. split_and!; [done| |apply NoDup_singleton].
    intros x Hx ->%list_elem_of_singleton. by apply E, list_elem_of_In.
  - intros h. rewrite refs_get_push, indicesFrom_app. simpl.
    rewrite Hf. rewrite Hm.
    destruct (String.eqb (sf_hash f) h) eqn:E.
    + apply String.eqb_eq in E. subst h.
      destruct (indicesFrom _ 0 F); done.
    + rewrite app_nil_r. done.
  - rewrite refs_push_total, Ht, length_app. simpl. lia.
Qed.

Lemma scanLoop_inv fs paths :
  scan_inv (scanLoop fs paths) (omap (scannedFile fs) paths).
Proof.
  unfold scanLoop.
  assert (Hgen : forall st F, scan_inv st F ->
            scan_inv (foldl (scanStep fs) st paths)
                     (F ++ omap (scannedFile fs) paths)).
  { induction paths as [|p paths IH]; intros st F Hinv; simpl.
    - by rewrite app_nil_r.
    - apply (scanStep_inv fs st F p) in Hinv.
      apply IH in Hinv. rewrite <- app_assoc in Hinv.
      by destruct (scannedFile fs p). }
  apply (Hgen _ []). unfold scan_inv. simpl. split_and!; try done.
  constructor.
Qed.

(** ** The scanner: what the detection loop does to the objects *)

Lemma markDuplicate_readers p d H r :
  createdAt_at (alter (markDuplicate p) d H) r = createdAt_at H r /\
  size_at (alter (markDuplicate p) d H) r = size_at H r /\
  path_at (alter (markDuplicate p) d H) r = path_at H r.
Proof.
  unfold createdAt_at, size_at, path_at.
  destruct (decide (d = r)) as [->|Hne].
  - rewrite list_lookup_alter_eq. by destruct (H !! r).
  - by rewrite list_lookup_alter_ne.
Qed.

Lemma foldl_add_sizes H l acc :
  foldl (fun sum r => (sum + size_at H r)%N) acc l =
  (acc + foldl (fun sum r => (sum + size_at H r)%N) 0%N l)%N.
Proof.
  revert acc. induction l as [|x l IH]; intros acc; cbn [foldl]; [lia|].
  rewrite (IH (acc + size_at H x)%N), (IH (0 + size_at H x)%N). lia.
Qed.

Lemma sum_sizes_at_cons H r l :
  sum_sizes_at H (r :: l) = (size_at H r + sum_sizes_at H l)%N.
Proof. unfold sum_sizes_at. cbn [foldl]. rewrite foldl_add_sizes. lia. Qed.

Lemma sum_sizes_at_ext H H' l :
  (forall r, size_at H r = size_at H' r) ->
  sum_sizes_at H l = sum_sizes_at H' l.
Proof.
  intros He. induction l as [|x l IH]; [done|].
  by rewrite !sum_sizes_at_cons, IH, He.
Qed.

Lemma flagged_alter p d H f :
  H !! d = Some f -> sf_isDuplicate f = false ->
  length (flagged (alter (markDuplicate p) d H)) = S (length (flagged H)) /\
  sizeOf (flagged (alter (markDuplicate p) d H)) =
  (sizeOf (flagged H) + sf_size f)%N.
Proof.
  revert d. induction H as [|x H IH]; intros d; [done|].
  destruct d as [|d].
  - simpl. intros [= ->] Hf. rewrite Hf. simpl. split; [done|lia].
  - intros Hd Hf. destruct (IH d Hd Hf) as [IH1 IH2].
    change (alter (markDuplicate p) (S d) (x :: H))
      with (x :: alter (markDuplicate p) d H).
    unfold flagged in *. cbn [List.filter].
    destruct (sf_isDuplicate x); cbn [length sizeOf foldr]; [|done].
    fold (sizeOf (List.filter sf_isDuplicate (alter (markDuplicate p) d H))).
    fold (sizeOf (List.filter sf_isDuplicate H)).
    rewrite IH1, IH2. split; [done|lia].
Qed.

Lemma markLoop_spec o dups st :
  NoDup dups ->
  (forall d, d ∈ dups ->
     exists f, dl_heap st !! d = Some f /\ sf_isDuplicate f = false) ->
  let st' := foldl (markStep o) st dups in
  (forall i, dl_heap st' !! i =
             if bool_decide (i ∈ dups)
             then markDuplicate (path_at (dl_heap st) o) <$> dl_heap st !! i
             else dl_heap st !! i) /\
  length (dl_heap st') = length (dl_heap st) /\
  dl_groups st' = dl_groups st /\
  dl_count st' = dl_count st + length dups /\
  dl_size st' = (dl_size st + sum_sizes_at (dl_heap st) dups)%N /\
  length (flagged (dl_heap st')) = length (flagged (dl_heap st)) + length dups /\
  sizeOf (flagged (dl_heap st')) =
  (sizeOf (flagged (dl_heap st)) + sum_sizes_at (dl_heap st) dups)%N.
Proof.
  revert st. induction dups as [|d dups IH]; intros st Hnd Hun; simpl.
  { unfold sum_sizes_at. simpl. split_and!; try done; lia. }
  apply NoDup_cons in Hnd as [Hd Hnd].
  destruct (Hun d) as (f & Hf & Hff); [by left|].
  pose proof (markDuplicate_readers (path_at (dl_heap st) o) d (dl_heap st))
    as Hread.
  destruct (flagged_alter (path_at (dl_heap st) o) d (dl_heap st) f Hf Hff)
    as [Hfl1 Hfl2].
  specialize (IH (markStep o st d) Hnd).
  destruct IH as (I1 & I2 & I3 & I4 & I5 & I6 & I7).
  { intros d' Hd'. simpl.
    rewrite list_lookup_alter_ne by (intros ->; done).
    apply Hun. by right. }
  simpl in I1, I2, I3, I4, I5, I6, I7.
  assert (sum_sizes_at (alter (markDuplicate (path_at (dl_heap st) o)) d
                              (dl_heap st)) dups =
          sum_sizes_at (dl_heap st) dups) as Hsum.
  { apply sum_sizes_at_ext. intros r. apply Hread. }
  assert (size_at (dl_heap st) d = sf_size f) as Hsz.
  { unfold size_at. by rewrite Hf. }
  rewrite sum_sizes_at_cons. split_and!.
  - intros i. rewrite I1. destruct (Hread o) as (_ & _ & ->).
    destruct (decide (i = d)) as [->|Hne].
    + rewrite (bool_decide_eq_false_2 _ Hd).
      rewrite (bool_decide_eq_true_2 (d ∈ d :: dups)) by by left.
      by rewrite list_lookup_alter_eq.
    + rewrite list_lookup_alter_ne by done.
      destruct (bool_decide (i ∈ dups)) eqn:E.
      * apply bool_decide_eq_true in E.
        rewrite (bool_decide_eq_true_2 (i ∈ d :: dups)) by by right. done.
      * apply bool_decide_eq_false in E.
        rewrite (bool_decide_eq_false_2 (i ∈ d :: dups)); [done|].
        by apply not_elem_of_cons.
  - rewrite I2. apply length_alter.
  - done.
  - rewrite I4. lia.
  - rewrite I5, Hsum. lia.
  - rewrite I6, Hfl1. lia.
  - rewrite I7, Hfl2, Hsum, Hsz. lia.
Qed.

Lemma insert_by_ext {A} (c1 c2 : A -> A -> Z) x l :
  (forall a b, c1 a b = c2 a b) -> insert_by c1 x l = insert_by c2 x l.
Proof.
  intros He. induction l as [|y l IH]; simpl; [done|].
  by rewrite He, IH.
Qed.

Lemma Array_sort_ext {A} (c1 c2 : A -> A -> Z) l :
  (forall a b, c1 a b = c2 a b) -> Array_sort c1 l = Array_sort c2 l.
Proof.
  intros He. unfold Array_sort. induction l as [|y l IH]; simpl; [done|].
  rewrite IH. by apply insert_by_ext.
Qed.

(** The scanning loop flags nothing. *)
Lemma scannedFile_unflagged fs p f :
  scannedFile fs p = Some f ->
  sf_isDuplicate f = false /\ sf_duplicateOf f = None.
Proof.
  unfold scannedFile. destruct (negb _); [done|].
  destruct (getFileInfo fs p) as [fi|]; [|done].
  destruct (negb _); [done|].
  destruct (calculateFileHash fs p); [|done]. by intros [= <-].
Qed.

Lemma refsDuplicates_snoc gs g :
  refsDuplicates (gs ++ [g]) = refsDuplicates gs + (length (gr_files g) - 1).
Proof. induction gs as [|x gs IH]; simpl; [lia|]. rewrite IH. lia. Qed.

Lemma refsWasted_snoc gs g :
  refsWasted (gs ++ [g]) = (refsWasted gs + gr_wastedSize g)%N.
Proof. induction gs as [|x gs IH]; simpl; [lia|]. rewrite IH. lia. Qed.

Lemma finalFile_readers F i f :
  sf_createdAt (finalFile F i f) = sf_createdAt f /\
  sf_size (finalFile F i f) = sf_size f /\
  sf_path (finalFile F i f) = sf_path f /\
  sf_hash (finalFile F i f) = sf_hash f /\
  sf_category (finalFile F i f) = sf_category f /\
  sf_name (finalFile F i f) = sf_name f /\
  sf_extension (finalFile F i f) = sf_extension f /\
  sf_modifiedAt (finalFile F i f) = sf_modifiedAt f.
Proof.
  unfold finalFile. destruct (sortedRefs F (sf_hash f)) as [|o l]; [done|].
  by destruct (i =? o).
Qed.

Lemma detect_inv_readers F done st r :
  detect_inv F done st ->
  createdAt_at (dl_heap st) r = createdAt_at F r /\
  size_at (dl_heap st) r = size_at F r /\
  path_at (dl_heap st) r = path_at F r.
Proof.
  intros (Hlen & Hb & _). unfold createdAt_at, size_at, path_at.
  destruct (F !! r) as [f|] eqn:E.
  - rewrite (Hb r f E). simpl.
    destruct (bool_decide _); [|done].
    destruct (finalFile_readers F r f) as (-> & -> & -> & _). done.
  - apply lookup_ge_None in E. rewrite <- Hlen in E.
    apply lookup_ge_None in E. by rewrite E.
Qed.

Lemma detectStep_inv F done st h rs :
  Forall (fun f => sf_isDuplicate f = false) F ->
  ~ In h (map fst done) ->
  rs = indicesFrom h 0 F -> rs <> [] ->
  detect_inv F done st ->
  detect_inv F (done ++ [(h, rs)]) (detectStep st (h, rs)).
Proof.
  intros HF Hfresh Hrs Hne Hinv.
  pose proof (fun r => detect_inv_readers F done st r Hinv) as Hread.
  destruct Hinv as (Hlen & Hb & Hc & Hs & Hg & Hc2 & Hs2).
  assert (Hsorted : Array_sort
            (fun a b => (Z.of_N (createdAt_at (dl_heap st) a) -
                         Z.of_N (createdAt_at (dl_heap st) b))%Z) rs =
          sortedRefs F h).
  { unfold sortedRefs. rewrite <- Hrs. apply Array_sort_ext. intros a b.
    destruct (Hread a) as (-> & _). by destruct (Hread b) as (-> & _). }
  assert (Hperm : sortedRefs F h ≡ₚ rs).
  { unfold sortedRefs. rewrite <- Hrs. apply Array_sort_perm. }
  assert (Hmem : forall i f, F !! i = Some f ->
            (sf_hash f = h <-> i ∈ sortedRefs F h)).
  { intros i f Hf. rewrite Hperm, Hrs, list_elem_of_In, indicesFrom_spec.
    rewrite Nat.sub_0_r. split.
    - intros <-. exists f. split_and!; [lia|done|done].
    - intros (g & _ & Hg' & <-). congruence. }
  assert (Hkeys : forall k, k ∈ map fst (done ++ [(h, rs)]) <->
                            k ∈ map fst done \/ k = h).
  { intros k. rewrite map_app, elem_of_app. simpl.
    by rewrite list_elem_of_singleton. }
  unfold detectStep. rewrite Hsorted.
  destruct (1 <? length rs) eqn:Hbig.
  - apply Nat.ltb_lt in Hbig.
    destruct (sortedRefs F h) as [|o dups] eqn:Hso.
    { apply Permutation_length in Hperm. simpl in Hperm. lia. }
    assert (NoDup (o :: dups)) as Hnd.
    { rewrite Hperm, Hrs. apply indicesFrom_NoDup. }
    apply NoDup_cons in Hnd as [Ho Hnd].
    assert (Hun : forall d, d ∈ dups ->
              exists f, dl_heap st !! d = Some f /\ sf_isDuplicate f = false).
    { intros d Hd.
      assert (d ∈ rs) as Hdr by (rewrite <- Hperm; by right).
      rewrite Hrs, list_elem_of_In, indicesFrom_spec in Hdr.
      destruct Hdr as (f & _ & Hf & Hh). rewrite Nat.sub_0_r in Hf.
      exists f. rewrite (Hb d f Hf).
      rewrite bool_decide_eq_false_2.
      - split; [done|]. rewrite Forall_forall in HF. apply HF.
        by eapply list_elem_of_lookup_2.
      - rewrite Hh, list_elem_of_In. done. }
    destruct (markLoop_spec o dups st Hnd Hun)
      as (M1 & M2 & M3 & M4 & M5 & M6 & M7).
    set (st' := foldl (markStep o) st dups) in *.
    assert (Hb' : forall i f, F !! i = Some f ->
              dl_heap st' !! i =
              Some (if bool_decide (sf_hash f ∈ map fst (done ++ [(h, rs)]))
                    then finalFile F i f else f)).
    { intros i f Hf. rewrite M1, (Hb i f Hf).
      destruct (Hread o) as (_ & _ & ->).
      destruct (decide (sf_hash f = h)) as [Hh|Hh].
      - rewrite (bool_decide_eq_true_2 (sf_hash f ∈ map fst (done ++ _)))
          by (apply Hkeys; by right).
        rewrite (bool_decide_eq_false_2 (sf_hash f ∈ map fst done))
          by (rewrite Hh, list_elem_of_In; done).
        unfold finalFile. rewrite Hh, Hso.
        apply (Hmem i f Hf) in Hh. apply elem_of_cons in Hh as [->|Hi].
        + rewrite (bool_decide_eq_false_2 _ Ho), Nat.eqb_refl. done.
        + rewrite (bool_decide_eq_true_2 _ Hi).
          assert (i <> o) as Hio by (intros ->; done).
          apply Nat.eqb_neq in Hio. rewrite Hio. done.
      - assert (i ∉ dups) as Hid.
        { intros Hi. apply Hh, (Hmem i f Hf). by right. }
        rewrite (bool_decide_eq_false_2 _ Hid).
        assert (bool_decide (sf_hash f ∈ map fst (done ++ [(h, rs)])) =
                bool_decide (sf_hash f ∈ map fst done)) as ->; [|done].
        apply bool_decide_ext. rewrite Hkeys. tauto. }
    assert (Hsz' : forall r, size_at (dl_heap st') r = size_at F r).
    { intros r. destruct (Hread r) as (_ & <- & _).
      unfold size_at. rewrite M1.
      destruct (bool_decide _); [|done]. by destruct (dl_heap st !! r). }
    unfold detect_inv. simpl. split_and!.
    + by rewrite M2.
    + exact Hb'.
    + rewrite M4, M6, Hc. done.
    + rewrite M5, M7, Hs. done.
    + rewrite M3, Hg, List.filter_app, map_app. cbn [List.filter].
      assert (isGroup (h, rs) = true) as ->
        by (unfold isGroup; simpl; by apply Nat.ltb_lt).
      simpl. f_equal.
      unfold groupRefsOf. simpl. rewrite Hso. simpl.
      rewrite (sum_sizes_at_ext (dl_heap st') F (o :: dups) Hsz').
      by rewrite (sum_sizes_at_ext (dl_heap st') F dups Hsz').
    + rewrite refsDuplicates_snoc, M3, M4, Hc2. simpl. lia.
    + rewrite refsWasted_snoc, M3, M5, Hs2. simpl.
      rewrite (sum_sizes_at_ext (dl_heap st') F dups Hsz').
      f_equal. apply sum_sizes_at_ext. intros r. apply Hread.
  - apply Nat.ltb_ge in Hbig.
    assert (exists r, rs = [r]) as [r Hr].
    { destruct rs as [|r [|? ?]]; [done|by exists r|simpl in Hbig; lia]. }
    assert (sortedRefs F h = [r]) as Hso.
    { rewrite Hr in Hperm. by apply Permutation_singleton_r in Hperm. }
    unfold detect_inv. split_and!; try done.
    + intros i f Hf. rewrite (Hb i f Hf). f_equal.
      destruct (decide (sf_hash f = h)) as [Hh|Hh].
      * rewrite (bool_decide_eq_true_2 (sf_hash f ∈ map fst (done ++ _)))
          by (apply Hkeys; by right).
        rewrite (bool_decide_eq_false_2 (sf_hash f ∈ map fst done))
          by (rewrite Hh, list_elem_of_In; done).
        unfold finalFile. rewrite Hh, Hso.
        apply (Hmem i f Hf) in Hh. rewrite Hso in Hh.
        apply list_elem_of_singleton in Hh as ->. by rewrite Nat.eqb_refl.
      * assert (bool_decide (sf_hash f ∈ map fst (done ++ [(h, rs)])) =
                bool_decide (sf_hash f ∈ map fst done)) as ->; [|done].
        apply bool_decide_ext. rewrite Hkeys. tauto.
    + rewrite Hg, List.filter_app. cbn [List.filter].
      assert (isGroup (h, rs) = false) as ->
        by (unfold isGroup; simpl; by apply Nat.ltb_ge).
      by rewrite app_nil_r.
Qed.

Lemma detectLoop_inv F todo :
  Forall (fun f => sf_isDuplicate f = false) F ->
  forall done st,
    NoDup (map fst (done ++ todo)) ->
    (forall h rs, In (h, rs) todo -> rs = indicesFrom h 0 F /\ rs <> []) ->
    detect_inv F done st ->
    detect_inv F (done ++ todo) (foldl detectStep st todo).
Proof.
  intros HF. induction todo as [|[h rs] todo IH]; intros done st Hnd He Hinv.
  - by rewrite app_nil_r.
  - simpl. replace (done ++ (h, rs) :: todo) with ((done ++ [(h, rs)]) ++ todo)
      in * by by rewrite <- app_assoc.
    apply IH; [done| |].
    + intros h' rs' Hin. apply He. by right.
    + destruct (He h rs) as [Hrs Hne]; [by left|].
      apply detectStep_inv; try done.
      rewrite !map_app in Hnd. apply NoDup_app in Hnd as [Hnd _].
      apply NoDup_app in Hnd as (_ & Hdis & _).
      intros Hin%list_elem_of_In. apply (Hdis h Hin). simpl. by left.
Qed.

(** The objects after the two loops of a scan of [paths]. *)
Lemma scan_loops_spec fs paths :
  let F := omap (scannedFile fs) paths in
  let sl := scanLoop fs paths in
  let dl := detectLoop (sl_files sl) (sl_hashMap sl) in
  sl_files sl = F /\
  detect_inv F (sl_hashMap sl) dl /\
  (forall i f, F !! i = Some f -> dl_heap dl !! i = Some (finalFile F i f)).
Proof.
  intros F sl dl.
  destruct (scanLoop_inv fs paths) as (Hf & Hs & Hc & Hk & Hm & Ht).
  fold sl F in Hf, Hs, Hc, Hk, Hm, Ht.
  assert (HF : Forall (fun f => sf_isDuplicate f = false) F).
  { apply Forall_forall. intros f Hin.
    apply list_elem_of_omap in Hin as (p & _ & Hp).
    by apply scannedFile_unflagged in Hp as [? _]. }
  assert (Hinv : detect_inv F (sl_hashMap sl) dl).
  { unfold dl, detectLoop. rewrite Hf.
    apply (detectLoop_inv F (sl_hashMap sl) HF []); [done| |].
    - intros h rs Hin. apply refs_get_In in Hin; [|done].
      rewrite Hm in Hin. destruct (indicesFrom h 0 F) eqn:E; [done|].
      by injection Hin as <-.
    - unfold detect_inv. simpl. split_and!; try done.
      + unfold flagged. clear -HF. induction HF as [|x l Hx _ IH]; [done|].
        simpl. by rewrite Hx.
      + unfold flagged. clear -HF. induction HF as [|x l Hx _ IH]; [done|].
        simpl. by rewrite Hx. }
  split_and!; [done|done|].
  intros i f Hif. destruct Hinv as (_ & Hb & _). rewrite (Hb i f Hif).
  rewrite bool_decide_eq_true_2; [done|].
  destruct (decide (sf_hash f ∈ map fst (sl_hashMap sl))) as [|Hn]; [done|].
  rewrite list_elem_of_In in Hn.
  apply refs_get_None in Hn. rewrite Hm in Hn.
  assert (In i (indicesFrom (sf_hash f) 0 F)) as Hi.
  { apply indicesFrom_spec. exists f. rewrite Nat.sub_0_r.
    split_and!; [lia|done|done]. }
  destruct (indicesFrom (sf_hash f) 0 F); done.
Qed.

(** ** The scanner: what a scan reports *)








Lemma detect_inv_same_file F m dl :
  detect_inv F m dl -> Forall2 same_file (dl_heap dl) F.
Proof.
  intros (Hlen & Hb & _).
  apply Forall2_same_length_lookup_2; [done|].
  intros i g f Hg Hf. rewrite (Hb i f Hf) in Hg. injection Hg as <-.
  destruct (bool_decide _).
  - destruct (finalFile_readers F i f) as (? & ? & ? & ? & ? & ? & ? & ?).
    unfold same_file. split_and!; done.
  - done.
Qed.

Lemma scan_ok_inv cfg fs db tick dirPath recursive res db' tick' :
  scan cfg fs db tick dirPath recursive = (inr res, db', tick') ->
  directoryExists fs dirPath = true /\
  res = scanResult fs (randomUUID cfg tick) dirPath recursive /\
  saveScanResults cfg db (S tick) res = (Some db', tick').
Proof.
  unfold scan. destruct (directoryExists fs dirPath); [|done]. simpl.
  destruct (saveScanResults _ _ _ _) as [[db2|] tick2] eqn:Hs; [|done].
  intros [= <- <- <-]. done.
Qed.


(** ** The scanner: which files are flagged *)

Lemma indicesFrom_split hash i l pre o post :
  indicesFrom hash i l = pre ++ o :: post ->
  (forall x, In x pre -> x < o) /\ (forall x, In x post -> o < x).
Proof.
  revert i pre. induction l as [|y l IH]; intros i pre; simpl.
  { by destruct pre. }
  assert (Hge : forall x, In x (indicesFrom hash (S i) l) -> i < x).
  { intros x (f & ? & _)%indicesFrom_spec. lia. }
  destruct (String.eqb _ _); [|apply IH].
  destruct pre as [|z pre]; simpl.
  - intros [= <- <-]. split; [done|]. exact Hge.
  - intros [= <- Hl]. destruct (IH _ _ Hl) as [IH1 IH2]. split; [|done].
    intros x [<-|Hx]; [|by apply IH1].
    apply Hge. rewrite Hl. apply in_or_app. right. by left.
Qed.

(** The original of a content hash: the oldest of its files, and among
    equally old ones the first of the listing. *)
Lemma orig_spec F h :
  indicesFrom h 0 F <> [] ->
  exists o fo rest,
    sortedRefs F h = o :: rest /\
    F !! o = Some fo /\ sf_hash fo = h /\
    NoDup (o :: rest) /\
    (forall x, x ∈ o :: rest <-> exists f, F !! x = Some f /\ sf_hash f = h) /\
    (forall j g, F !! j = Some g -> sf_hash g = h ->
       (sf_createdAt fo <= sf_createdAt g)%N /\
       (j < o -> (sf_createdAt fo < sf_createdAt g)%N)).
Proof.
  intros Hne.
  destruct (Array_sort_head
              (fun a b => (Z.of_N (createdAt_at F a) -
                           Z.of_N (createdAt_at F b))%Z)
              (fun r => Z.of_N (createdAt_at F r))
              ltac:(intros; lia) (indicesFrom h 0 F) Hne)
    as (o & rest & pre & post & Hs & Hl & Hp & Hpre & Hpost).
  fold (sortedRefs F h) in Hs.
  assert (Hmem : forall x, In x (indicesFrom h 0 F) <->
                           exists f, F !! x = Some f /\ sf_hash f = h).
  { intros x. rewrite indicesFrom_spec, Nat.sub_0_r. split.
    - intros (f & _ & ? & ?). by exists f.
    - intros (f & ? & ?). exists f. split_and!; [lia|done|done]. }
  assert (In o (indicesFrom h 0 F)) as Ho.
  { rewrite Hl. apply in_or_app. right. by left. }
  apply Hmem in Ho as (fo & Hfo & Hh).
  assert (Hperm : o :: rest ≡ₚ indicesFrom h 0 F).
  { rewrite <- Hs. apply Array_sort_perm. }
  destruct (indicesFrom_split _ _ _ _ _ _ Hl) as [Hlow Hhigh].
  exists o, fo, rest. split_and!; try done.
  - rewrite Hperm. apply indicesFrom_NoDup.
  - intros x. rewrite Hperm, list_elem_of_In. apply Hmem.
  - intros j g Hg Hgh.
    assert (In j (indicesFrom h 0 F)) as Hj by (apply Hmem; by exists g).
    assert (createdAt_at F o = sf_createdAt fo) as Eo
      by (unfold createdAt_at; by rewrite Hfo).
    assert (createdAt_at F j = sf_createdAt g) as Ej
      by (unfold createdAt_at; by rewrite Hg).
    rewrite Hl in Hj. apply in_app_or in Hj as [Hj|[<-|Hj]].
    + specialize (Hpre j Hj). simpl in Hpre. rewrite Eo, Ej in Hpre. lia.
    + assert (g = fo) as -> by congruence. lia.
    + specialize (Hpost j Hj). simpl in Hpost. rewrite Eo, Ej in Hpost.
      specialize (Hhigh j Hj). lia.
Qed.

(** What the objects of a scan are once both loops have run: the
    original of each content as it was collected, every other file
    flagged and pointing to the original of its content. *)
Lemma scan_objects fs paths :
  let F := omap (scannedFile fs) paths in
  let H := dl_heap (detectLoop (sl_files (scanLoop fs paths))
                               (sl_hashMap (scanLoop fs paths))) in
  length H = length F /\
  forall i g, H !! i = Some g ->
    exists f o fo rest,
      F !! i = Some f /\
      sf_isDuplicate f = false /\ sf_duplicateOf f = None /\
      sortedRefs F (sf_hash f) = o :: rest /\
      F !! o = Some fo /\ H !! o = Some fo /\ sf_hash fo = sf_hash f /\
      sf_isDuplicate fo = false /\
      (forall j g', F !! j = Some g' -> sf_hash g' = sf_hash f ->
         (sf_createdAt fo <= sf_createdAt g')%N /\
         (j < o -> (sf_createdAt fo < sf_createdAt g')%N)) /\
      g = (if i =? o then f else markDuplicate (sf_path fo) f).
Proof.
  intros F H.
  destruct (scan_loops_spec fs paths) as (_ & Hinv & Hcf).
  fold F in Hinv, Hcf. fold H in Hcf.
  assert (Hlen : length H = length F) by apply Hinv.
  split; [done|].
  assert (Hun : forall i f, F !! i = Some f ->
            sf_isDuplicate f = false /\ sf_duplicateOf f = None).
  { intros i f Hf.
    apply list_elem_of_lookup_2, list_elem_of_omap in Hf as (p & _ & Hp).
    by apply scannedFile_unflagged in Hp. }
  intros i g Hg.
  destruct (F !! i) as [f|] eqn:Hf.
  2:{ apply lookup_ge_None in Hf. rewrite <- Hlen in Hf.
      apply lookup_ge_None in Hf. congruence. }
  rewrite (Hcf i f Hf) in Hg. injection Hg as <-.
  assert (indicesFrom (sf_hash f) 0 F <> []) as Hne.
  { assert (In i (indicesFrom (sf_hash f) 0 F)) as Hi.
    { apply indicesFrom_spec. exists f. rewrite Nat.sub_0_r.
      split_and!; [lia|done|done]. }
    by destruct (indicesFrom (sf_hash f) 0 F). }
  destruct (orig_spec F (sf_hash f) Hne)
    as (o & fo & rest & Hs & Hfo & Hh & _ & _ & Hold).
  destruct (Hun i f Hf) as [Hu1 Hu2]. destruct (Hun o fo Hfo) as [Hu3 _].
  exists f, o, fo, rest. split_and!; try done.
  - rewrite (Hcf o fo Hfo). unfold finalFile. rewrite Hh, Hs.
    by rewrite Nat.eqb_refl.
  - unfold finalFile. rewrite Hs. unfold path_at. by rewrite Hfo.
Qed.

(** X22: in the files a scan reports, a file flagged as a duplicate
    points to a reported file that is not flagged, has the same content
    hash and was created no later; a file that is not flagged points to
    nothing, was created no later than any reported file of the same
    content and strictly before those listed ahead of it, and is the only
    unflagged file of its content. *)
Theorem scan_flags_all_but_the_oldest_of_each_content
    cfg fs db tick dirPath recursive res db' tick' :
  scan cfg fs db tick dirPath recursive = (inr res, db', tick') ->
  (forall f, In f (sr_files res) -> sf_isDuplicate f = true ->
     exists o, In o (sr_files res) /\
       sf_duplicateOf f = Some (sf_path o) /\
       sf_isDuplicate o = false /\
       sf_hash o = sf_hash f /\
       (sf_createdAt o <= sf_createdAt f)%N) /\
  (forall f, In f (sr_files res) -> sf_isDuplicate f = false ->
     sf_duplicateOf f = None) /\
  (forall i j f g,
     sr_files res !! i = Some f -> sr_files res !! j = Some g ->
     sf_hash f = sf_hash g -> sf_isDuplicate f = false ->
     (sf_createdAt f <= sf_createdAt g)%N /\
     (j < i -> (sf_createdAt f < sf_createdAt g)%N) /\
     (sf_isDuplicate g = false -> i = j)).
Proof.
  intros (_ & -> & _)%scan_ok_inv. unfold scanResult. simpl.
  set (paths := getAllFiles fs dirPath recursive (fun _ => true)).
  destruct (scan_objects fs paths) as [Hlen Hobj].
  set (F := omap (scannedFile fs) paths) in *.
  set (H := dl_heap _) in *.
  split_and!.
  - intros g [i Hg]%list_elem_of_In%list_elem_of_lookup Hflag.
    destruct (Hobj i g Hg)
      as (f & o & fo & rest & Hf & Hu1 & Hu2 & _ & Hfo & Hho & Hh & Hu3 & Hold & ->).
    destruct (i =? o) eqn:E; [congruence|]. simpl.
    exists fo. split_and!; try done.
    + by eapply list_elem_of_In, list_elem_of_lookup_2.
    + by apply (Hold i f).
  - intros g [i Hg]%list_elem_of_In%list_elem_of_lookup Hflag.
    destruct (Hobj i g Hg)
      as (f & o & fo & rest & Hf & Hu1 & Hu2 & _ & _ & _ & _ & _ & _ & ->).
    by destruct (i =? o).
  - intros i j f' g' Hi Hj Hhash Hflag.
    destruct (Hobj i f' Hi)
      as (f & o & fo & rest & Hf & Hu1 & Hu2 & Hs & Hfo & _ & Hh & _ & Hold & ->).
    destruct (Hobj j g' Hj)
      as (g & o' & fo' & rest' & Hg & Hv1 & Hv2 & Hs' & _ & _ & _ & _ & _ & ->).
    destruct (i =? o) eqn:E; [|done]. apply Nat.eqb_eq in E. subst o.
    assert (fo = f) as -> by congruence.
    assert (sf_hash g = sf_hash f) as Hgh.
    { destruct (j =? o'); simpl in Hhash; congruence. }
    rewrite Hgh, Hs in Hs'. injection Hs' as <- <-.
    destruct (Hold j g Hg Hgh) as [Hle Hlt].
    assert (sf_createdAt (if j =? i then g else markDuplicate (sf_path fo') g)
            = sf_createdAt g) as -> by by destruct (j =? i).
    split_and!; [done|done|].
    destruct (j =? i) eqn:E; [by apply Nat.eqb_eq in E|done].
Qed.

Lemma scan_flags_all_but_the_oldest_of_each_content_witness :
  (forall f, In f (sr_files sr1) -> sf_isDuplicate f = true ->
     exists o, In o (sr_files sr1) /\
       sf_duplicateOf f = Some (sf_path o) /\
       sf_isDuplicate o = false /\
       sf_hash o = sf_hash f /\
       (sf_createdAt o <= sf_createdAt f)%N) /\
  (forall f, In f (sr_files sr1) -> sf_isDuplicate f = false ->
     sf_duplicateOf f = None) /\
  (forall i j f g,
     sr_files sr1 !! i = Some f -> sr_files sr1 !! j = Some g ->
     sf_hash f = sf_hash g -> sf_isDuplicate f = false ->
     (sf_createdAt f <= sf_createdAt g)%N /\
     (j < i -> (sf_createdAt f < sf_createdAt g)%N) /\
     (sf_isDuplicate g = false -> i = j)).
Proof.
  apply (scan_flags_all_but_the_oldest_of_each_content
           cfg0 fs0 sdb0 0 ["/"; "d"] true sr1 sdb1 6).
  vm_compute. reflexivity.
Defined.

(** ** The scanner: the counters and the groups *)

Lemma omap_lookup_length {A} (H : list A) (l : list nat) :
  Forall (fun r => is_Some (H !! r)) l -> length (omap (H !!.) l) = length l.
Proof.
  induction 1 as [|r l [g Hg] _ IH]; [done|].
  change (omap (H !!.) (r :: l))
    with (match H !! r with
          | Some y => y :: omap (H !!.) l
          | None => omap (H !!.) l
          end).
  rewrite Hg. simpl. by rewrite IH.
Qed.

Lemma omap_lookup_Forall2 {A} (H : list A) (l : list nat) :
  Forall (fun r => is_Some (H !! r)) l ->
  Forall2 (fun r g => H !! r = Some g) l (omap (H !!.) l).
Proof.
  induction 1 as [|r l [g Hg] _ IH]; [constructor|].
  change (omap (H !!.) (r :: l))
    with (match H !! r with
          | Some y => y :: omap (H !!.) l
          | None => omap (H !!.) l
          end).
  rewrite Hg. by constructor.
Qed.

Lemma sum_sizes_at_omap H (l : list sfref) :
  Forall (fun r => is_Some (H !! r)) l ->
  sum_sizes_at H l = sizeOf (omap (H !!.) l).
Proof.
  induction 1 as [|r l [g Hg] _ IH]; [done|].
  change (omap (H !!.) (r :: l))
    with (match H !! r with
          | Some y => y :: omap (H !!.) l
          | None => omap (H !!.) l
          end).
  rewrite sum_sizes_at_cons, IH. unfold size_at. rewrite Hg. done.
Qed.

Lemma omap_indices h H F pre :
  Forall2 same_file H F ->
  omap ((pre ++ H) !!.) (indicesFrom h (length pre) F) = ofHash h H.
Proof.
  intros HF. revert pre. induction HF as [|g f H F Hgf _ IH]; intros pre.
  { done. }
  pose proof Hgf as (_ & _ & Hh & _).
  specialize (IH (pre ++ [g])).
  rewrite <- app_assoc, length_app, Nat.add_1_r in IH. simpl in IH.
  unfold ofHash in *. cbn [indicesFrom List.filter]. rewrite Hh.
  destruct (String.eqb (sf_hash f) h); [|exact IH].
  change (omap ((pre ++ g :: H) !!.)
               (length pre :: indicesFrom h (S (length pre)) F))
    with (match (pre ++ g :: H) !! length pre with
          | Some y => y :: omap ((pre ++ g :: H) !!.)
                                (indicesFrom h (S (length pre)) F)
          | None => omap ((pre ++ g :: H) !!.)
                         (indicesFrom h (S (length pre)) F)
          end).
  rewrite list_lookup_middle by done. by rewrite IH.
Qed.

Lemma sorted_by_Forall2 {A B} (rank : A -> Z) (rank' : B -> Z)
    (R : A -> B -> Prop) l k :
  (forall a b, R a b -> rank' b = rank a) ->
  Forall2 R l k -> sorted_by rank l -> sorted_by rank' k.
Proof.
  intros HR. induction 1 as [|a b l k Hab Hlk IH]; simpl; [done|].
  intros [Hall Hs]. split; [|by apply IH].
  rewrite (HR a b Hab). clear IH Hs.
  induction Hlk as [|a' b' l k Hab' _ IH]; [constructor|].
  apply Forall_cons in Hall as [Ha Hall].
  constructor; [by rewrite (HR a' b' Hab')|by apply IH].
Qed.

Lemma NoDup_keys_filter {A B} (P : A * B -> bool) (m : list (A * B)) :
  NoDup (map fst m) -> NoDup (map fst (List.filter P m)).
Proof.
  induction m as [|e m IH]; simpl; [done|].
  intros [He Hm]%NoDup_cons. destruct (P e); simpl; [|by apply IH].
  constructor; [|by apply IH].
  intros Hin. apply He.
  apply list_elem_of_In, in_map_iff in Hin as (x & <- & Hx).
  apply List.filter_In in Hx as [Hx _].
  by apply list_elem_of_In, in_map.
Qed.

(** The groups of a scan, hash by hash. *)
Lemma scan_group fs paths h rs :
  let F := omap (scannedFile fs) paths in
  let sl := scanLoop fs paths in
  let H := dl_heap (detectLoop (sl_files sl) (sl_hashMap sl)) in
  In (h, rs) (sl_hashMap sl) ->
  rs = indicesFrom h 0 F /\ rs <> [] /\
  exists o fo rest,
    sortedRefs F h = o :: rest /\ length (o :: rest) = length rs /\
    Forall (fun r => is_Some (H !! r)) (o :: rest) /\
    H !! o = Some fo /\ sf_isDuplicate fo = false /\
    Forall (fun r => exists f, H !! r = Some (markDuplicate (sf_path fo) f))
           rest /\
    omap (H !!.) (o :: rest) ≡ₚ ofHash h H /\
    sorted_by (fun f => Z.of_N (sf_createdAt f)) (omap (H !!.) (o :: rest)).
Proof.
  intros F sl H Hin.
  destruct (scanLoop_inv fs paths) as (_ & _ & _ & Hk & Hm & _).
  destruct (scan_loops_spec fs paths) as (_ & Hinv & Hcf).
  fold F sl in Hk, Hm, Hinv, Hcf. fold H in Hcf.
  pose proof (detect_inv_same_file _ _ _ Hinv) as Hsame. fold H in Hsame.
  assert (Hlen : length H = length F) by apply Hinv.
  apply refs_get_In in Hin; [|done]. rewrite Hm in Hin.
  destruct (indicesFrom h 0 F) as [|r0 l0] eqn:Eidx; [done|].
  injection Hin as <-. rewrite <- Eidx. split; [done|].
  split; [by rewrite Eidx|].
  assert (indicesFrom h 0 F <> []) as Hne by by rewrite Eidx.
  destruct (orig_spec F h Hne)
    as (o & fo & rest & Hs & Hfo & Hh & Hnd & Hmem & _).
  assert (Hperm : o :: rest ≡ₚ indicesFrom h 0 F).
  { rewrite <- Hs. apply Array_sort_perm. }
  assert (Hun : forall i f, F !! i = Some f -> sf_isDuplicate f = false).
  { intros i f Hf.
    apply list_elem_of_lookup_2, list_elem_of_omap in Hf as (p & _ & Hp).
    by apply scannedFile_unflagged in Hp as [? _]. }
  assert (Hfinal : forall x, x ∈ o :: rest ->
            exists f, F !! x = Some f /\ sf_hash f = h /\
              H !! x = Some (if x =? o then f
                             else markDuplicate (sf_path fo) f)).
  { intros x (f & Hf & Hfh)%Hmem. exists f. split_and!; try done.
    rewrite (Hcf x f Hf). unfold finalFile. rewrite Hfh, Hs.
    unfold path_at. by rewrite Hfo. }
  assert (Hrange : Forall (fun r => is_Some (H !! r)) (o :: rest)).
  { apply Forall_forall. intros x (f & _ & _ & Hx)%Hfinal. by eexists. }
  exists o, fo, rest. split_and!; try done.
  - by rewrite Hperm.
  - destruct (Hfinal o) as (f & Hf & _ & Hx); [by left|].
    rewrite Nat.eqb_refl in Hx. congruence.
  - by apply (Hun o).
  - apply Forall_forall. intros x Hx.
    destruct (Hfinal x) as (f & _ & _ & Hxf); [by right|].
    apply NoDup_cons in Hnd as [Ho _].
    assert (x <> o) as Hxo by (intros ->; done).
    apply Nat.eqb_neq in Hxo. rewrite Hxo in Hxf. by exists f.
  - rewrite Hperm. pose proof (omap_indices h H F [] Hsame) as Hidx.
    simpl in Hidx. by rewrite Hidx.
  - apply (sorted_by_Forall2 (fun r => Z.of_N (createdAt_at F r)) _
             (fun r g => H !! r = Some g) (o :: rest)).
    + intros r g Hg. f_equal.
      destruct (detect_inv_readers F _ _ r Hinv) as (<- & _).
      fold H. unfold createdAt_at. by rewrite Hg.
    + by apply omap_lookup_Forall2.
    + rewrite <- Hs. unfold sortedRefs. apply Array_sort_sorted.
      intros; lia.
Qed.

Lemma groups_count F H (m : list (string * list sfref)) :
  (forall h rs, In (h, rs) m ->
     rs <> [] /\ length (sortedRefs F h) = length rs) ->
  refsDuplicates (map (groupRefsOf F) (List.filter isGroup m)) + length m =
  refsTotal m /\
  (Forall (fun e => Forall (fun r => is_Some (H !! r)) (sortedRefs F e.1)) m ->
   groupedDuplicates (map (groupOf H)
                          (map (groupRefsOf F) (List.filter isGroup m))) =
   refsDuplicates (map (groupRefsOf F) (List.filter isGroup m))).
Proof.
  induction m as [|[h rs] m IH]; intros He; [done|].
  destruct IH as [IH1 IH2]; [intros h' rs' ?; apply He; by right|].
  destruct (He h rs) as [Hne Hl]; [by left|].
  cbn [List.filter].
  destruct (isGroup (h, rs)) eqn:E; unfold isGroup in E; simpl in E.
  - apply Nat.ltb_lt in E. split.
    + simpl. rewrite Hl. simpl in IH1. lia.
    + intros [Hr Hm]%Forall_cons. simpl. rewrite (IH2 Hm).
      by rewrite omap_lookup_length.
  - apply Nat.ltb_ge in E. split.
    + simpl. simpl in IH1. destruct rs; [done|]. simpl in *. lia.
    + intros [_ Hm]%Forall_cons. by apply IH2.
Qed.

Lemma wastedBytes_groupOf H gs :
  wastedBytes (map (groupOf H) gs) = refsWasted gs.
Proof. induction gs as [|g gs IH]; simpl; [done|]. by rewrite IH. Qed.

(** The duplicate counter and the flagged files. *)
Lemma scan_counts_flagged cfg fs db tick dirPath recursive res db' tick' :
  scan cfg fs db tick dirPath recursive = (inr res, db', tick') ->
  length (flagged (sr_files res)) = sr_duplicatesCount res.
Proof.
  intros (_ & -> & _)%scan_ok_inv. unfold scanResult. simpl.
  destruct (scan_loops_spec fs (getAllFiles fs dirPath recursive (fun _ => true)))
    as (_ & Hinv & _).
  symmetry. apply Hinv.
Qed.

Lemma scanResult_grouped fs id dirPath recursive :
  let res := scanResult fs id dirPath recursive in
  sr_duplicatesCount res = groupedDuplicates (sr_duplicateGroups res).
Proof.
  unfold scanResult. simpl.
  set (paths := getAllFiles fs dirPath recursive (fun _ => true)).
  destruct (scan_loops_spec fs paths) as (_ & Hinv & _).
  pose proof (fun h rs => scan_group fs paths h rs) as Hgrp. simpl in Hgrp.
  set (F := omap (scannedFile fs) paths) in *.
  set (sl := scanLoop fs paths) in *.
  set (dl := detectLoop _ _) in *.
  destruct Hinv as (_ & _ & _ & _ & Hg & Hc2 & _).
  destruct (groups_count F (dl_heap dl) (sl_hashMap sl)) as [_ Hgd].
  { intros h rs Hin.
    destruct (Hgrp h rs Hin) as (_ & Hne & o & fo & rest & Hso & Hl & _).
    by rewrite Hso. }
  rewrite Hc2, Hg. symmetry. apply Hgd.
  apply Forall_forall. intros [h rs] Hin%list_elem_of_In.
  destruct (Hgrp h rs Hin) as (_ & _ & o & fo & rest & Hso & _ & Hr & _).
  simpl. by rewrite Hso.
Qed.

(** X23: the duplicate counters of a scan.  The number of duplicates is
    the number of reported files flagged as duplicates, and with the
    number of distinct content hashes it adds up to the number of files;
    the duplicate size is the total size of the flagged files; both are
    what the groups account for, all files but one of each group and the
    wasted sizes of the groups. *)
Theorem scan_counts_the_flagged_files
    cfg fs db tick dirPath recursive res db' tick' :
  scan cfg fs db tick dirPath recursive = (inr res, db', tick') ->
  sr_duplicatesCount res = length (flagged (sr_files res)) /\
  sr_duplicatesSize res = sizeOf (flagged (sr_files res)) /\
  sr_duplicatesCount res + length (remove_dups (map sf_hash (sr_files res))) =
  sr_totalFiles res /\
  sr_duplicatesCount res = groupedDuplicates (sr_duplicateGroups res) /\
  sr_duplicatesSize res = wastedBytes (sr_duplicateGroups res).
Proof.
  intros (_ & -> & _)%scan_ok_inv. unfold scanResult. simpl.
  set (paths := getAllFiles fs dirPath recursive (fun _ => true)).
  destruct (scanLoop_inv fs paths) as (Hf & _ & _ & Hk & Hm & Ht).
  destruct (scan_loops_spec fs paths) as (_ & Hinv & _).
  pose proof (fun h rs => scan_group fs paths h rs) as Hgrp. simpl in Hgrp.
  pose proof (detect_inv_same_file _ _ _ Hinv) as Hsame.
  set (F := omap (scannedFile fs) paths) in *.
  set (sl := scanLoop fs paths) in *.
  set (dl := detectLoop _ _) in *.
  destruct Hinv as (Hlen & _ & Hc & Hs & Hg & Hc2 & Hs2).
  destruct (groups_count F (dl_heap dl) (sl_hashMap sl)) as [Hcount Hgd].
  { intros h rs Hin.
    destruct (Hgrp h rs Hin) as (_ & Hne & o & fo & rest & Hso & Hl & _).
    by rewrite Hso. }
  split_and!; try done.
  - rewrite Hc2, Hg, Hlen, <- Ht.
    assert (length (remove_dups (map sf_hash (dl_heap dl))) =
            length (sl_hashMap sl)) as ->; [|done].
    rewrite <- (length_map fst (sl_hashMap sl)).
    apply Permutation_length, NoDup_Permutation;
      [apply NoDup_remove_dups|done|].
    intros x. rewrite elem_of_remove_dups.
    assert (map sf_hash (dl_heap dl) = map sf_hash F) as ->.
    { clear -Hsame. induction Hsame as [|g f H F Hgf _ IH]; simpl; [done|].
      destruct Hgf as (_ & _ & -> & _). by rewrite IH. }
    rewrite !list_elem_of_In, in_map_iff. split.
    + intros (f & <- & [i Hi]%list_elem_of_In%list_elem_of_lookup).
      destruct (decide (sf_hash f ∈ map fst (sl_hashMap sl))) as [Hd|Hd].
      { by apply list_elem_of_In. }
      rewrite list_elem_of_In in Hd. apply refs_get_None in Hd.
      rewrite Hm in Hd.
      assert (In i (indicesFrom (sf_hash f) 0 F)) as Hin.
      { apply indicesFrom_spec. exists f. rewrite Nat.sub_0_r.
        split_and!; [lia|done|done]. }
      destruct (indicesFrom (sf_hash f) 0 F); done.
    + intros Hx.
      destruct (refs_get (sl_hashMap sl) x) as [rs|] eqn:E.
      2:{ apply refs_get_None in E. done. }
      rewrite Hm in E.
      destruct (indicesFrom x 0 F) as [|r l] eqn:Ei; [done|].
      assert (In r (indicesFrom x 0 F)) as Hr by (rewrite Ei; by left).
      apply indicesFrom_spec in Hr as (f & _ & Hf' & Hh).
      exists f. split; [done|].
      by eapply list_elem_of_In, list_elem_of_lookup_2.
  - apply (scanResult_grouped fs (randomUUID cfg tick) dirPath recursive).
  - by rewrite wastedBytes_groupOf.
Qed.

Lemma scan_counts_the_flagged_files_witness :
  sr_duplicatesCount sr1 = length (flagged (sr_files sr1)) /\
  sr_duplicatesSize sr1 = sizeOf (flagged (sr_files sr1)) /\
  sr_duplicatesCount sr1 + length (remove_dups (map sf_hash (sr_files sr1))) =
  sr_totalFiles sr1 /\
  sr_duplicatesCount sr1 = groupedDuplicates (sr_duplicateGroups sr1) /\
  sr_duplicatesSize sr1 = wastedBytes (sr_duplicateGroups sr1).
Proof.
  apply (scan_counts_the_flagged_files
           cfg0 fs0 sdb0 0 ["/"; "d"] true sr1 sdb1 6).
  vm_compute. reflexivity.
Defined.

(** X24: the duplicate groups of a scan.  The groups have distinct
    hashes, and every file flagged as a duplicate has the hash of a
    group.  A group holds at least two files: exactly the reported files
    of its hash, in order of creation date; the first is not flagged, and
    each of the others is flagged and points to the first.  Its total
    size is the size of its files and its wasted size the size of all
    but the first. *)
Theorem scan_groups_the_files_of_equal_content
    cfg fs db tick dirPath recursive res db' tick' :
  scan cfg fs db tick dirPath recursive = (inr res, db', tick') ->
  NoDup (map dg_hash (sr_duplicateGroups res)) /\
  (forall f, In f (sr_files res) -> sf_isDuplicate f = true ->
     In (sf_hash f) (map dg_hash (sr_duplicateGroups res))) /\
  Forall (fun g =>
            2 <= length (dg_files g) /\
            dg_files g ≡ₚ ofHash (dg_hash g) (sr_files res) /\
            sorted_by (fun f => Z.of_N (sf_createdAt f)) (dg_files g) /\
            (exists o dups,
               dg_files g = o :: dups /\ sf_isDuplicate o = false /\
               Forall (fun d => sf_isDuplicate d = true /\
                                sf_duplicateOf d = Some (sf_path o)) dups) /\
            dg_totalSize g = sizeOf (dg_files g) /\
            dg_wastedSize g = sizeOf (tail (dg_files g)))
         (sr_duplicateGroups res).
Proof.
  intros (_ & -> & _)%scan_ok_inv. unfold scanResult. simpl.
  set (paths := getAllFiles fs dirPath recursive (fun _ => true)).
  destruct (scanLoop_inv fs paths) as (Hf & _ & _ & Hk & Hm & Ht).
  destruct (scan_loops_spec fs paths) as (_ & Hinv & Hcf).
  pose proof (fun h rs => scan_group fs paths h rs) as Hgrp. simpl in Hgrp.
  destruct (scan_objects fs paths) as [_ Hobj].
  pose proof (fun r => detect_inv_readers _ _ _ r Hinv) as Hread.
  set (F := omap (scannedFile fs) paths) in *.
  set (sl := scanLoop fs paths) in *.
  set (dl := detectLoop _ _) in *.
  destruct Hinv as (Hlen & _ & _ & _ & Hg & _).
  assert (Hhashes : map dg_hash (map (groupOf (dl_heap dl)) (dl_groups dl)) =
                    map fst (List.filter isGroup (sl_hashMap sl))).
  { rewrite Hg. rewrite !map_map. by apply map_ext. }
  split_and!.
  - rewrite Hhashes. by apply NoDup_keys_filter.
  - intros g [i Hi]%list_elem_of_In%list_elem_of_lookup Hflag.
    rewrite Hhashes.
    destruct (Hobj i g Hi)
      as (f & o & fo & rest & Hfi & Hu & _ & Hs & _ & _ & _ & _ & _ & ->).
    destruct (i =? o) eqn:Eio; [congruence|]. simpl.
    apply Nat.eqb_neq in Eio.
    assert (In i (indicesFrom (sf_hash f) 0 F)) as Hin.
    { apply indicesFrom_spec. exists f. rewrite Nat.sub_0_r.
      split_and!; [lia|done|done]. }
    assert (In (sf_hash f, indicesFrom (sf_hash f) 0 F) (sl_hashMap sl)) as He.
    { apply refs_get_In; [done|]. rewrite Hm.
      by destruct (indicesFrom (sf_hash f) 0 F). }
    destruct (Hgrp _ _ He)
      as (_ & _ & o' & fo' & rest' & Hs' & Hl & _).
    rewrite Hs in Hs'. injection Hs' as <- <-.
    assert (i ∈ o :: rest) as Hmem.
    { rewrite <- Hs. unfold sortedRefs.
      apply list_elem_of_In, Array_sort_In. done. }
    apply elem_of_cons in Hmem as [?|Hmem]; [done|].
    apply in_map_iff. exists (sf_hash f, indicesFrom (sf_hash f) 0 F).
    split; [done|]. apply List.filter_In. split; [done|].
    unfold isGroup. simpl. apply Nat.ltb_lt. rewrite <- Hl.
    destruct rest; [by apply elem_of_nil in Hmem|simpl; lia].
  - apply Forall_forall. intros g Hgin.
    rewrite Hg in Hgin.
    apply list_elem_of_In, in_map_iff in Hgin as (gr & <- & Hgin).
    apply in_map_iff in Hgin as ([h rs] & <- & Hin).
    apply List.filter_In in Hin as [Hin Hbig].
    unfold isGroup in Hbig. simpl in Hbig. apply Nat.ltb_lt in Hbig.
    destruct (Hgrp h rs Hin)
      as (_ & _ & o & fo & rest & Hs & Hl & Hr & Ho & Hu & Hrest & Hperm & Hsrt).
    unfold groupOf, groupRefsOf. simpl. rewrite Hs.
    assert (Hfiles : omap (dl_heap dl !!.) (o :: rest) =
                     fo :: omap (dl_heap dl !!.) rest).
    { change (omap (dl_heap dl !!.) (o :: rest))
        with (match dl_heap dl !! o with
              | Some y => y :: omap (dl_heap dl !!.) rest
              | None => omap (dl_heap dl !!.) rest
              end).
      by rewrite Ho. }
    pose proof Hr as [_ Hr']%Forall_cons.
    split_and!; try done.
    + rewrite omap_lookup_length by done. simpl. lia.
    + exists fo, (omap (dl_heap dl !!.) rest). split_and!; try done.
      apply Forall_forall. intros d (r & Hrin & Hd)%list_elem_of_omap.
      rewrite Forall_forall in Hrest. destruct (Hrest r Hrin) as (f & Hrf).
      rewrite Hrf in Hd. by injection Hd as <-.
    + rewrite <- sum_sizes_at_omap by done.
      apply sum_sizes_at_ext. intros r. symmetry. apply Hread.
    + rewrite Hfiles. simpl.
      rewrite <- sum_sizes_at_omap by done.
      apply sum_sizes_at_ext. intros r. symmetry. apply Hread.
Qed.

Lemma scan_groups_the_files_of_equal_content_witness :
  NoDup (map dg_hash (sr_duplicateGroups sr1)) /\
  (forall f, In f (sr_files sr1) -> sf_isDuplicate f = true ->
     In (sf_hash f) (map dg_hash (sr_duplicateGroups sr1))) /\
  Forall (fun g =>
            2 <= length (dg_files g) /\
            dg_files g ≡ₚ ofHash (dg_hash g) (sr_files sr1) /\
            sorted_by (fun f => Z.of_N (sf_createdAt f)) (dg_files g) /\
            (exists o dups,
               dg_files g = o :: dups /\ sf_isDuplicate o = false /\
               Forall (fun d => sf_isDuplicate d = true /\
                                sf_duplicateOf d = Some (sf_path o)) dups) /\
            dg_totalSize g = sizeOf (dg_files g) /\
            dg_wastedSize g = sizeOf (tail (dg_files g)))
         (sr_duplicateGroups sr1).
Proof.
  apply (scan_groups_the_files_of_equal_content
           cfg0 fs0 sdb0 0 ["/"; "d"] true sr1 sdb1 6).
  vm_compute. reflexivity.
Defined.


(** ** The scanner: what a scan saves *)

Lemma stampedRecords_app cfg id t l1 l2 :
  stampedRecords cfg id t (l1 ++ l2) =
  stampedRecords cfg id t l1 ++ stampedRecords cfg id (t + length l1) l2.
Proof.
  revert t. induction l1 as [|f l1 IH]; intros t; simpl.
  - by rewrite Nat.add_0_r.
  - rewrite IH. do 3 f_equal. lia.
Qed.

Lemma insertMany_spec cfg id recs t batch :
  insertMany cfg id (recs, t) batch =
  (recs ++ stampedRecords cfg id t batch, t + length batch).
Proof.
  unfold insertMany. revert recs t.
  induction batch as [|f batch IH]; intros recs t; simpl.
  - by rewrite app_nil_r, Nat.add_0_r.
  - rewrite IH, <- app_assoc. simpl. do 2 f_equal. lia.
Qed.

Lemma saveBatches_spec cfg id files b fuel i recs t :
  0 < b -> length files - i < fuel ->
  saveBatches fuel cfg id files b i (recs, t) =
  (recs ++ stampedRecords cfg id t (drop i files),
   t + length (drop i files)).
Proof.
  intros Hb. revert i recs t.
  induction fuel as [|fuel IH]; intros i recs t Hfuel; [lia|].
  simpl. destruct (i <? length files) eqn:E.
  - apply Nat.ltb_lt in E. rewrite insertMany_spec.
    rewrite IH by lia.
    assert (drop (i + b) files = drop b (drop i files)) as ->
      by by rewrite drop_drop.
    generalize (drop i files). intros D.
    rewrite <- app_assoc, <- stampedRecords_app, take_drop.
    f_equal. rewrite <- Nat.add_assoc, <- length_app. by rewrite take_drop.
  - apply Nat.ltb_ge in E. rewrite drop_ge by done. simpl.
    by rewrite app_nil_r, Nat.add_0_r.
Qed.

Lemma stampedRecords_spec cfg id t files :
  Forall2 (fun r f => r = fileRecordOf id f (fr_createdAt r))
          (stampedRecords cfg id t files) files /\
  map fr_scanId (stampedRecords cfg id t files) = map (fun _ => id) files.
Proof.
  revert t. induction files as [|f files IH]; intros t; simpl.
  - split; [constructor|done].
  - destruct (IH (S t)) as [IH1 IH2]. split; [by constructor|by rewrite IH2].
Qed.

Lemma filter_scanId_stamped cfg id id' t files P :
  List.filter (fun r => String.eqb (fr_scanId r) id' && P r)
              (stampedRecords cfg id t files) =
  if String.eqb id id'
  then List.filter P (stampedRecords cfg id t files)
  else [].
Proof.
  revert t. induction files as [|f files IH]; intros t; simpl.
  - by destruct (String.eqb id id').
  - rewrite IH. destruct (String.eqb id id'); simpl; [|done]. done.
Qed.

Lemma filter_scanId_all cfg id id' t files :
  List.filter (fun r => String.eqb (fr_scanId r) id')
              (stampedRecords cfg id t files) =
  if String.eqb id id' then stampedRecords cfg id t files else [].
Proof.
  revert t. induction files as [|f files IH]; intros t; simpl.
  - by destruct (String.eqb id id').
  - rewrite IH. by destruct (String.eqb id id').
Qed.

Lemma filter_flagged_stamped cfg id t files :
  Forall2 (fun r f => r = fileRecordOf id f (fr_createdAt r))
          (List.filter fr_isDuplicate (stampedRecords cfg id t files))
          (flagged files).
Proof.
  revert t. induction files as [|f files IH]; intros t; simpl.
  - constructor.
  - unfold flagged in *. simpl. destruct (sf_isDuplicate f); [|apply IH].
    constructor; [done|apply IH].
Qed.

(** X25: what a successful scan saves.  The scan is found under its id
    with the totals and the statistics of the result; the records found
    under that id are those that were there, followed by one record per
    reported file, in order and with the fields of the file; the
    duplicates found under that id grow by the records of the flagged
    files, as many as the scan counts; and what is found under any other
    id is what was found before. *)
Theorem scan_saves_what_it_reports
    cfg fs db tick dirPath recursive res db' tick' :
  scan cfg fs db tick dirPath recursive = (inr res, db', tick') ->
  (exists s, getScanById db' (sr_scanId res) = Some s /\
     getScanById db (sr_scanId res) = None /\
     sc_scannedPath s = dirPath /\
     sc_totalFiles s = sr_totalFiles res /\
     sc_totalSize s = sr_totalSize res /\
     sc_duplicatesCount s = sr_duplicatesCount res /\
     sc_duplicatesSize s = sr_duplicatesSize res /\
     sc_categories s = sr_categories res) /\
  (exists new,
     getFileRecords db' (sr_scanId res) =
     getFileRecords db (sr_scanId res) ++ new /\
     Forall2 (fun r f => r = fileRecordOf (sr_scanId res) f (fr_createdAt r))
             new (sr_files res)) /\
  (exists new,
     getDuplicates db' (sr_scanId res) =
     getDuplicates db (sr_scanId res) ++ new /\
     Forall2 (fun r f => r = fileRecordOf (sr_scanId res) f (fr_createdAt r))
             new (flagged (sr_files res)) /\
     length new = sr_duplicatesCount res) /\
  (forall id, id <> sr_scanId res ->
     getScanById db' id = getScanById db id /\
     getFileRecords db' id = getFileRecords db id /\
     getDuplicates db' id = getDuplicates db id).
Proof.
  intros Hscan.
  pose proof (scan_counts_flagged cfg fs db tick dirPath recursive res db' tick'
                Hscan) as Hcount.
  apply scan_ok_inv in Hscan as (_ & Hres & Hsave).
  assert (sr_scannedPath res = dirPath) as Hpath by by rewrite Hres.
  cbv beta iota zeta delta [saveScanResults Date_now save_scan] in Hsave.
  destruct (existsb _ (db_scans db)) eqn:Hex; [done|].
  rewrite saveBatches_spec in Hsave by lia.
  injection Hsave as <- <-. rewrite drop_0.
  assert (Hfresh : forall s, In s (db_scans db) ->
            String.eqb (sc_scanId s) (sr_scanId res) = false).
  { intros s Hs. destruct (String.eqb _ _) eqn:E; [|done].
    assert (existsb (fun s => String.eqb (sc_scanId s) (sr_scanId res))
                    (db_scans db) = true) as Ht
      by (apply existsb_exists; by exists s).
    congruence. }
  assert (Hnone : List.find (fun s => String.eqb (sc_scanId s) (sr_scanId res))
                            (db_scans db) = None).
  { destruct (List.find _ _) as [s|] eqn:E; [|done].
    apply find_some in E as [Hs E]. rewrite (Hfresh s Hs) in E. done. }
  destruct (stampedRecords_spec cfg (sr_scanId res) (S (S tick)) (sr_files res))
    as [Hrec _].
  unfold getScanById, getFileRecords, getDuplicates. simpl.
  split_and!.
  - eexists. split; [|split; [exact Hnone|]].
    + clear Hfresh Hex. induction (db_scans db) as [|s l IH]; simpl.
      * by rewrite String.eqb_refl.
      * simpl in Hnone. destruct (String.eqb (sc_scanId s) (sr_scanId res));
          [done|by apply IH].
    + simpl. repeat split; done.
  - eexists. split; [|exact Hrec].
    rewrite List.filter_app. f_equal.
    by rewrite filter_scanId_all, String.eqb_refl.
  - pose proof (filter_flagged_stamped cfg (sr_scanId res) (S (S tick))
                  (sr_files res)) as Hf2.
    exists (List.filter fr_isDuplicate
              (stampedRecords cfg (sr_scanId res) (S (S tick)) (sr_files res))).
    split_and!.
    + rewrite List.filter_app. f_equal.
      by rewrite filter_scanId_stamped, String.eqb_refl.
    + exact Hf2.
    + by rewrite (Forall2_length _ _ _ Hf2), Hcount.
  - intros id Hid. apply String.eqb_neq in Hid.
    rewrite String.eqb_sym in Hid. split_and!.
    + clear Hfresh Hnone. induction (db_scans db) as [|s l IH]; simpl.
      * by rewrite Hid.
      * destruct (String.eqb (sc_scanId s) id); [done|].
        apply IH. simpl in Hex. by apply orb_false_elim in Hex as [_ ?].
    + by rewrite List.filter_app, filter_scanId_all, Hid, app_nil_r.
    + rewrite List.filter_app, filter_scanId_stamped, Hid.
      by rewrite app_nil_r.
Qed.

Lemma scan_saves_what_it_reports_witness :
  (exists s, getScanById sdb1 (sr_scanId sr1) = Some s /\
     getScanById sdb0 (sr_scanId sr1) = None /\
     sc_scannedPath s = ["/"; "d"] /\
     sc_totalFiles s = sr_totalFiles sr1 /\
     sc_totalSize s = sr_totalSize sr1 /\
     sc_duplicatesCount s = sr_duplicatesCount sr1 /\
     sc_duplicatesSize s = sr_duplicatesSize sr1 /\
     sc_categories s = sr_categories sr1) /\
  (exists new,
     getFileRecords sdb1 (sr_scanId sr1) =
     getFileRecords sdb0 (sr_scanId sr1) ++ new /\
     Forall2 (fun r f => r = fileRecordOf (sr_scanId sr1) f (fr_createdAt r))
             new (sr_files sr1)) /\
  (exists new,
     getDuplicates sdb1 (sr_scanId sr1) =
     getDuplicates sdb0 (sr_scanId sr1) ++ new /\
     Forall2 (fun r f => r = fileRecordOf (sr_scanId sr1) f (fr_createdAt r))
             new (flagged (sr_files sr1)) /\
     length new = sr_duplicatesCount sr1) /\
  (forall id, id <> sr_scanId sr1 ->
     getScanById sdb1 id = getScanById sdb0 id /\
     getFileRecords sdb1 id = getFileRecords sdb0 id /\
     getDuplicates sdb1 id = getDuplicates sdb0 id).
Proof.
  apply (scan_saves_what_it_reports
           cfg0 fs0 sdb0 0 ["/"; "d"] true sr1 sdb1 6).
  vm_compute. reflexivity.
Defined.

(** ** The scanner and the deduper *)

Lemma hashedFile_scannedFile fs p :
  hashedFile fs p = (fun f => (sf_hash f, toDupFile f)) <$> scannedFile fs p.
Proof.
  unfold hashedFile, scannedFile, isAccessible, existsSync, getFileInfo,
    calculateFileHash, statSync.
  destruct p as [|x p]; [done|].
  by destruct (fs !! (x :: p)) as [[sz bt mt dg|]|].
Qed.

Lemma dupsOf_app_l F f rs :
  Forall (fun r => r < length F) rs -> dupsOf (F ++ [f]) rs = dupsOf F rs.
Proof.
  unfold dupsOf. induction 1 as [|r rs Hr _ IH]; [done|].
  change (omap ?g (r :: rs))
    with (match g r with Some y => y :: omap g rs | None => omap g rs end).
  cbv beta. rewrite IH. by rewrite lookup_app_l.
Qed.

Lemma refsDups_app_l F f (m : list (string * list sfref)) :
  Forall (fun e => Forall (fun r => r < length F) e.2) m ->
  refsDups (F ++ [f]) m = refsDups F m.
Proof.
  unfold refsDups. induction 1 as [|e m He _ IH]; simpl; [done|].
  by rewrite IH, dupsOf_app_l.
Qed.

Lemma dupsOf_snoc F f rs :
  Forall (fun r => r < length F) rs ->
  dupsOf (F ++ [f]) (rs ++ [length F]) = dupsOf F rs ++ [toDupFile f].
Proof.
  intros Hr. unfold dupsOf. rewrite omap_app. f_equal.
  - by apply dupsOf_app_l.
  - simpl. by rewrite list_lookup_middle.
Qed.

Lemma hashMap_push_refs F f (m : list (string * list sfref)) h :
  Forall (fun e => Forall (fun r => r < length F) e.2) m ->
  hashMap_push (refsDups F m) h (toDupFile f) =
  refsDups (F ++ [f]) (refs_push m h (length F)).
Proof.
  induction 1 as [|[k rs] m He Hm IH]; simpl.
  - unfold dupsOf. simpl. by rewrite list_lookup_middle.
  - destruct (String.eqb k h); simpl.
    + rewrite dupsOf_snoc by done. f_equal.
      symmetry. by apply refsDups_app_l.
    + rewrite IH. f_equal. f_equal. symmetry. by apply dupsOf_app_l.
Qed.

Lemma scan_inv_range st F :
  scan_inv st F ->
  Forall (fun e => Forall (fun r => r < length F) e.2) (sl_hashMap st).
Proof.
  intros (_ & _ & _ & Hk & Hm & _).
  apply Forall_forall. intros [h rs] Hin%list_elem_of_In.
  apply refs_get_In in Hin; [|done]. rewrite Hm in Hin.
  destruct (indicesFrom h 0 F) eqn:E; [done|]. injection Hin as <-.
  rewrite <- E. apply Forall_forall. intros r Hr%list_elem_of_In.
  apply indicesFrom_spec in Hr as (f & _ & Hf & _).
  rewrite Nat.sub_0_r in Hf. by apply lookup_lt_Some in Hf.
Qed.

(** The hash map of the deduper holds the entries of the files that the
    reference map of the scanner points to. *)
Lemma buildHashMap_refs fs paths :
  buildHashMap fs paths =
  refsDups (omap (scannedFile fs) paths) (sl_hashMap (scanLoop fs paths)).
Proof.
  unfold buildHashMap, scanLoop.
  assert (Hgen : forall st F, scan_inv st F ->
            foldl (hashStep fs) (refsDups F (sl_hashMap st)) paths =
            refsDups (F ++ omap (scannedFile fs) paths)
                     (sl_hashMap (foldl (scanStep fs) st paths))).
  { induction paths as [|p paths IH]; intros st F Hinv; cbn [foldl].
    - by rewrite app_nil_r.
    - pose proof (scanStep_inv fs st F p Hinv) as Hinv'.
      pose proof (scan_inv_range st F Hinv) as Hrange.
      assert (Hstep : hashStep fs (refsDups F (sl_hashMap st)) p =
                refsDups (F ++ match scannedFile fs p with
                               | Some f => [f] | None => [] end)
                         (sl_hashMap (scanStep fs st p))).
      { unfold hashStep, scanStep. rewrite hashedFile_scannedFile.
        destruct (scannedFile fs p) as [f|]; simpl.
        - destruct Hinv as (-> & _). by apply hashMap_push_refs.
        - by rewrite app_nil_r. }
      rewrite Hstep, (IH _ _ Hinv'), <- app_assoc.
      change (omap (scannedFile fs) (p :: paths))
        with (match scannedFile fs p with
              | Some y => y :: omap (scannedFile fs) paths
              | None => omap (scannedFile fs) paths
              end).
      by destruct (scannedFile fs p). }
  apply (Hgen {| sl_files := []; sl_hashMap := []; sl_categories := ∅;
                 sl_totalSize := 0 |} []).
  unfold scan_inv. simpl. split_and!; try done. constructor.
Qed.

Lemma dupsOf_cons F r f l :
  F !! r = Some f -> dupsOf F (r :: l) = toDupFile f :: dupsOf F l.
Proof.
  intros Hf. unfold dupsOf.
  change (omap ?g (r :: l))
    with (match g r with Some y => y :: omap g l | None => omap g l end).
  cbv beta. by rewrite Hf.
Qed.

Lemma insert_by_dupsOf F r f l :
  F !! r = Some f -> Forall (fun x => is_Some (F !! x)) l ->
  insert_by (fun a b => (Z.of_N (df_createdAt a) - Z.of_N (df_createdAt b))%Z)
            (toDupFile f) (dupsOf F l) =
  dupsOf F (insert_by (fun a b => (Z.of_N (createdAt_at F a) -
                                   Z.of_N (createdAt_at F b))%Z) r l).
Proof.
  intros Hf. induction 1 as [|y l [g Hg] _ IH].
  - cbn [insert_by]. by rewrite (dupsOf_cons F r f [] Hf).
  - rewrite (dupsOf_cons F y g l Hg). cbn [insert_by].
    unfold createdAt_at at 1 2. rewrite Hf, Hg. simpl.
    destruct (_ <=? 0)%Z.
    + by rewrite (dupsOf_cons F r f _ Hf), (dupsOf_cons F y g _ Hg).
    + by rewrite (dupsOf_cons F y g _ Hg), IH.
Qed.

Lemma sort_dupsOf F rs :
  Forall (fun x => is_Some (F !! x)) rs ->
  sortByStrategy (dupsOf F rs) keep_oldest =
  dupsOf F (Array_sort (fun a b => (Z.of_N (createdAt_at F a) -
                                    Z.of_N (createdAt_at F b))%Z) rs).
Proof.
  unfold sortByStrategy. induction 1 as [|r rs [f Hf] Hrs IH]; [done|].
  rewrite (dupsOf_cons F r f rs Hf). unfold Array_sort in *. cbn [foldr].
  rewrite IH. apply insert_by_dupsOf; [done|].
  apply Forall_forall. intros x Hx.
  rewrite Forall_forall in Hrs. apply Hrs.
  apply list_elem_of_In. apply list_elem_of_In in Hx.
  eapply Array_sort_In. exact Hx.
Qed.

Lemma dupsOf_heap H F l :
  Forall2 same_file H F -> dupsOf F l = map toDupFile (omap (H !!.) l).
Proof.
  intros Hsame. unfold dupsOf. induction l as [|r l IH]; [done|].
  change (omap ?g (r :: l))
    with (match g r with Some y => y :: omap g l | None => omap g l end).
  cbv beta. rewrite IH.
  destruct (F !! r) as [f|] eqn:Hf; simpl.
  - destruct (Forall2_lookup_r _ _ _ _ _ Hsame Hf) as (g & -> & Hgf).
    simpl. f_equal.
    destruct Hgf as (? & _ & _ & _ & _ & ? & ? & ?).
    unfold toDupFile. by f_equal.
  - apply lookup_ge_None in Hf.
    rewrite <- (Forall2_length _ _ _ Hsame) in Hf.
    apply lookup_ge_None in Hf. by rewrite Hf.
Qed.

Lemma sum_sizes_dupsOf F l : sum_sizes (dupsOf F l) = sum_sizes_at F l.
Proof.
  unfold sum_sizes, sum_sizes_at, dupsOf. generalize 0%N.
  induction l as [|r l IH]; intros acc; [done|].
  change (omap ?g (r :: l))
    with (match g r with Some y => y :: omap g l | None => omap g l end).
  cbv beta. cbn [foldl].
  assert (size_at F r = from_option sf_size 0%N (F !! r)) as -> by done.
  destruct (F !! r) as [f|]; simpl.
  - apply IH.
  - rewrite N.add_0_r. apply IH.
Qed.

Lemma duplicateGroups_refs F (m : list (string * list sfref)) :
  Forall (fun e => Forall (fun r => is_Some (F !! r)) e.2) m ->
  duplicateGroups (refsDups F m) = refsDups F (List.filter isGroup m).
Proof.
  unfold duplicateGroups, refsDups.
  induction 1 as [|[h rs] m Hr _ IH]; simpl; [done|].
  rewrite IH. unfold dupsOf at 1. unfold isGroup at 2. simpl.
  assert (length (omap (fun r => toDupFile <$> F !! r) rs) = length rs) as ->.
  { clear -Hr. simpl in Hr. induction Hr as [|r l [f Hf] _ IH]; [done|].
    change (omap ?g (r :: l))
      with (match g r with Some y => y :: omap g l | None => omap g l end).
    cbv beta. rewrite Hf. simpl. by rewrite IH. }
  unfold isGroup. simpl. destruct (length rs) as [|[|n]]; done.
Qed.

Lemma Forall2_map_same {A B C} (R : B -> C -> Prop) (f : A -> B) (g : A -> C) l :
  (forall x, In x l -> R (f x) (g x)) -> Forall2 R (map f l) (map g l).
Proof.
  induction l as [|x l IH]; intros H; simpl; [constructor|].
  constructor; [apply H; by left|]. apply IH. intros y Hy. apply H. by right.
Qed.

Lemma same_group_counts dups groups :
  Forall2 same_group dups groups ->
  removedCount dups = groupedDuplicates groups.
Proof.
  induction 1 as [|di g dups groups (_ & Hf & _) _ IH]; simpl; [done|].
  by rewrite IH, (Forall2_length _ _ _ Hf).
Qed.

(** X26: the deduper with the strategy [keep_oldest] and a recursive
    scan of the same directory of the same filesystem find the same
    duplicates.  Their groups correspond one to one in order: the same
    hash, the same files in the same order, the file that the deduper
    keeps being the one that the scan does not flag, and the same wasted
    size; and the number of duplicate files that the deduper reports is
    the number of duplicates that the scan counts. *)
Theorem dedupe_keep_oldest_agrees_with_scan
    cfg w dirPath dry mt dres w' cfg' db tick sres db' tick' :
  dedupe cfg w dirPath dry keep_oldest mt = (inr dres, w') ->
  scan cfg' (w_fs w) db tick dirPath true = (inr sres, db', tick') ->
  Forall2 same_group (dd_duplicates dres) (sr_duplicateGroups sres) /\
  ds_totalDuplicateFiles (dd_summary dres) = sr_duplicatesCount sres /\
  ds_totalDuplicateGroups (dd_summary dres) = length (sr_duplicateGroups sres).
Proof.
  intros Hd Hs.
  destruct (dedupe_ok_totals _ _ _ _ _ _ _ _ Hd) as [Htot Hgr].
  apply dedupe_ok_inv in Hd as (Hdups & _). simpl in Hdups.
  destruct (dedupePlan_total cfg w dirPath keep_oldest mt) as [_ Hrem].
  rewrite <- Htot, <- Hdups in Hrem.
  apply scan_ok_inv in Hs as (_ & -> & _).
  pose proof (scanResult_grouped (w_fs w) (randomUUID cfg' tick) dirPath true)
    as Hgrouped. cbv zeta in Hgrouped.
  assert (Hall : Forall2 same_group (dd_duplicates dres)
                   (sr_duplicateGroups
                      (scanResult (w_fs w) (randomUUID cfg' tick) dirPath true))).
  { rewrite Hdups. unfold dedupePlan. simpl. rewrite planDedupe_duplicates.
    unfold scanResult. simpl.
    set (paths := getAllFiles (w_fs w) dirPath true (fun _ => true)).
    rewrite buildHashMap_refs.
    pose proof (scanLoop_inv (w_fs w) paths) as Hsinv.
    pose proof (scan_inv_range _ _ Hsinv) as Hrange.
    destruct (scan_loops_spec (w_fs w) paths) as (_ & Hinv & _).
    pose proof (fun h rs => scan_group (w_fs w) paths h rs) as Hgrp.
    simpl in Hgrp.
    pose proof (detect_inv_same_file _ _ _ Hinv) as Hsame.
    set (F := omap (scannedFile (w_fs w)) paths) in *.
    set (sl := scanLoop (w_fs w) paths) in *.
    set (dl := detectLoop _ _) in *.
    destruct Hinv as (_ & _ & _ & _ & Hg & _).
    assert (Hrange' : Forall (fun e : string * list sfref =>
                                Forall (fun r => is_Some (F !! r)) e.2)
                             (sl_hashMap sl)).
    { eapply Forall_impl; [exact Hrange|]. simpl. intros e He.
      eapply Forall_impl; [exact He|]. simpl. intros r Hr.
      by apply lookup_lt_is_Some. }
    rewrite duplicateGroups_refs by done.
    rewrite Hg. unfold refsDups. rewrite !map_map.
    apply Forall2_map_same. intros [h rs] Hin.
    apply List.filter_In in Hin as [Hin Hbig]. simpl.
    destruct (Hgrp h rs Hin)
      as (Hrs & _ & o & fo & rest & Hso & _ & Hr & Ho & Hu & Hrest & _).
    assert (Hin_range : Forall (fun r => is_Some (F !! r)) rs).
    { rewrite Forall_forall in Hrange'.
      by apply (Hrange' (h, rs)), list_elem_of_In. }
    assert (Hsorted : sortByStrategy (dupsOf F rs) keep_oldest =
                      toDupFile fo :: map toDupFile (omap (dl_heap dl !!.) rest)).
    { rewrite sort_dupsOf by done. rewrite Hrs. fold (sortedRefs F h).
      rewrite Hso, (dupsOf_heap (dl_heap dl) F) by done.
      change (omap ?g (o :: rest))
        with (match g o with Some y => y :: omap g rest | None => omap g rest end).
      cbv beta. by rewrite Ho. }
    assert (Hfiles : omap (dl_heap dl !!.) (o :: rest) =
                     fo :: omap (dl_heap dl !!.) rest).
    { change (omap ?g (o :: rest))
        with (match g o with Some y => y :: omap g rest | None => omap g rest end).
      cbv beta. by rewrite Ho. }
    unfold same_group, duplicateInfoOf, groupOf, groupRefsOf.
    cbn [di_hash di_files di_wastedSize dg_hash dg_files dg_wastedSize
         gr_hash gr_files gr_wastedSize fst snd].
    rewrite Hsorted, Hso, Hfiles, kept_flags. cbn [tail].
    split_and!; [done| |].
    - constructor; [by rewrite Hu|].
      assert (Forall (fun f => sf_isDuplicate f = true)
                     (omap (dl_heap dl !!.) rest)) as Hflag.
      { apply Forall_forall. intros d (r & Hrin & Hd)%list_elem_of_omap.
        rewrite Forall_forall in Hrest. destruct (Hrest r Hrin) as (f & Hrf).
        rewrite Hrf in Hd. by injection Hd as <-. }
      revert Hflag. generalize (omap (dl_heap dl !!.) rest). clear.
      intros G Hflag.
      induction Hflag as [|g G Hgf _ IH]; simpl; [constructor|].
      constructor; [by rewrite Hgf|exact IH].
    - rewrite <- (dupsOf_heap (dl_heap dl) F rest) by done.
      apply sum_sizes_dupsOf. }
  split_and!; [done| |].
  - rewrite Hrem, Hgrouped. by apply same_group_counts.
  - rewrite Hgr. by apply Forall2_length in Hall.
Qed.

Lemma dedupe_keep_oldest_agrees_with_scan_witness :
  Forall2 same_group (dd_duplicates dd_oldest) (sr_duplicateGroups sr1) /\
  ds_totalDuplicateFiles (dd_summary dd_oldest) = sr_duplicatesCount sr1 /\
  ds_totalDuplicateGroups (dd_summary dd_oldest) =
  length (sr_duplicateGroups sr1).
Proof.
  apply (dedupe_keep_oldest_agrees_with_scan
           cfg0 w0 ["/"; "d"] true true dd_oldest w_oldest
           cfg0 sdb0 0 sr1 sdb1 6).
  - vm_compute. reflexivity.
  - vm_compute. reflexivity.
Defined.

(** ** The size of a directory *)



